(* ===== verification/_CoqProject ===== *)
-Q . S2P
Prelude.v
Strings.v
CircuitBreaker.v
KVStore.v
Storage.v
Persist.v
Coordinator.v
RTPEngine.v
RTPManager.v
AMIClient.v
AMIManager.v
AMIStart.v
AMIConnect.v
WebSocket.v
WSBackend.v
Health.v
SIPProxy.v
WSSip.v
AMIProxy.v
Registry.v
Config.v
Status.v
DomainProxy.v
WSStart.v
Gateway.v
Metrics.v
Logging.v
Program.v
