(* ===== verification/Prelude.v ===== *)
(** * The WebRTC-SIP gateway: a verification development

    The gateway (src/gateway, Go) takes SIP over WebSockets from browsers and
    brings it to a SIP backend, anchors the media on RTPEngines, talks to Asterisk
    over the manager interface (AMI), and runs as several instances of which one
    leads. The state the parts share lies in an in-memory storage. This
    development models each part as Rocq definitions that follow the source
    operation by operation, and proves what makes the part correct - or, where
    the code does not do what it means to, what it does instead.

    ** Files

    - Prelude.v (this file): Go's integers with their wrap-around, times and
      durations, results, panics and self-deadlocks (the monad [GoM]), total
      correctness triples, steps and their closure, strings, JSON values, float64,
      automation. Strings.v: what TrimSpace leaves.
    - CircuitBreaker.v: common/circuit_breaker.go, each method as a function and
      as atomic steps of threads.
    - KVStore.v, Storage.v, Persist.v: storage/storage.go and storage/memory.go.
      KVStore.v holds the specification of the key-value operations and the
      interface [KV] with its laws; Storage.v the sharded implementation, its six
      typed stores, listing and cleanup, and the instance of [KV]; Persist.v the
      file a storage is saved to and opened from.
    - Coordinator.v: coordinator/coordination.go, over [KV], and a cluster.
    - RTPEngine.v, RTPManager.v: rtpengine/rtpengine.go and rtpengine/manager.go;
      the manager uses the engines, their breakers and the storage.
    - AMIClient.v, AMIConnect.v, AMIManager.v, AMIStart.v, AMIProxy.v: ami/ami.go
      (connecting in the background and the event handlers in AMIConnect.v),
      ami/manager.go (its start and background retries in AMIStart.v) and
      ami/proxy.go (with the BackendManager of ami.go). The client is a set of
      threads over shared state; the manager and the proxy use clients through the
      class [AMIClientOps].
    - WebSocket.v, WSBackend.v, WSStart.v, DomainProxy.v: websocket/server.go as
      threads, the URLs, headers and messages it sends, its start with the
      listener and the goroutines in the background, and websocket/domainproxy.go
      with a small engine for its regular expressions.
      The server uses the domain proxy and the SIP parser through the class [SIP],
      which DomainProxy.v instantiates.
    - Health.v: health/health.go, over the RTPEngine manager, the AMI clients (a
      class) and the WebSocket server (the class [WSServer], instantiated there).
    - SIPProxy.v: sip/proxy.go, over the class [Sipgo] for the SIP stack. WSSip.v:
      what the WebSocket server hands to it.
    - Registry.v: common/goroutine.go and common/context.go.
    - Config.v: config/config.go. Status.v: api/status.go and the health pages of
      the WebSocket server. Gateway.v: cmd/gateway/main.go, which makes every part
      from the configuration, with the constructors of the other files.
    - Metrics.v: metrics/metrics.go and common/metrics.go, over the class
      [Prometheus] for the client library. Logging.v: log/logging.go, over the
      class [Zap], and the outputs of main's logger. Program.v: the rest of main -
      loggers, metrics, the exported leadership - and several programs.

    Definitions carry the names of the source. A method that changes a struct is a
    function of its record or an action of [GoM]; a record field is named like the
    field it stands for, with a prefix where two structs share a name.

    ** What is proved

    - Storage: every history of key-value calls is answered as by one flat map
      ([history_refines_map]); no sequence of operations panics and the counters
      are the sizes of the stores ([operations_safe]), except for the one hash
      whose negation overflows ([getShard_panics_iff]); a cleanup removes exactly
      the expired ([cleanup_exact]); what is saved is read back, and a save is
      atomic ([save_load_roundtrip], [save_is_atomic]).
    - Leadership: without interleaving two instances lead together for no more
      than a second and the length of an operation ([leases_overlap_bounded]); a
      free lease is taken ([election_succeeds]); interleaved attempts elect two
      leaders ([acquisition_race]).
    - Circuit breaker: thresholds and quotas ([opens_at_threshold],
      [half_open_quota]), every interleaving ([interleavings_stay_legal],
      [half_open_quota_concurrent]), and the agreement of the two views
      ([solo_runs_refine]).
    - RTPEngine: one outcome recorded per request; no history of the manager
      panics or deadlocks; the order of its failovers, and the failover that
      never happens ([offer_never_reaches_the_other_engine]).
    - AMI: the wire format round-trips; no caller ever gets a response, as
      [SendAction] holds the mutex the reader needs ([no_response_is_delivered]);
      what a wait for the banner can be relied on for ([banner_was_heard]); the
      manager's failover, its start and the end of its retries; the proxy forwards
      only after a login and what it forwards is one action
      ([forwarded_only_after_login], [no_smuggling]).
    - WebSocket: the bound on connections under interleaving ([capacity_bound]),
      slots that are not given back, failovers that undo themselves, deadlines
      that are left behind; the domain proxy changes only domains.
    - Health: the concurrent probes give the result of the sequential reference
      ([opensips_check_order_free]); one backend is active; what makes a check
      panic.
      The background goroutines: a short answer ends the checking of backends
      ([short_answer_ends_checking]), which failures are reported
      ([start_reports]).
    - SIP: the last registration is used, retries end, which messages go out -
      those of WebSocket clients twice ([requests_go_twice]).
    - Metrics and logs: what is exported is the history of the calls
      ([metrics_report_history]), and lags behind the election
      ([leader_gauge_lags]); where a program logs to ([log_destinations]).
    - Program: [Shutdown] of the goroutine registry returns when all goroutines
      have ended; a loaded configuration is well formed and its settings reach
      the components; when [main] ends early and what it starts; the first node
      leads, and so does every other, as each has its own storage
      ([every_node_leads]); what the status pages say.

    Theorems that show a defect are stated like the others, as what the code does.

    ** Concurrency

    Goroutines that share memory are threads: a state, a program point per
    thread, and a [step] in which the environment chooses the clock, the network
    and what a read returns. Atomic operations and critical sections are one step.
    Theorems quantify over all lists of (thread, choice). Panics are outcomes, and
    a goroutine that locks a mutex it holds is [Deadlock].

    ** Fuel

    Loops over lists are structural. Fuel appears where text is consumed:
    [read_message], [readAction], [handle_input], [duration_items] and
    [replace_rounds] take at least one character a round, so the length of the
    text is enough ([duration_items_fuel] and [replace_rounds_fuel] say that more
    changes nothing; the round trips of the AMI files are stated with the fuel
    their input needs); [allow_loop] and [run_solo] take one round per step of a
    method, whose number is fixed.

    ** Parameters

    Code outside the repository is a parameter with its laws: encoding/json of
    the records (the class [JSON]; Persist.v has an instance), the SIP parser and
    the sipgo stack, the Prometheus client, zap, the bencode codec, the YAML
    decoder, the network, clocks and random numbers. Each property that assumes a law has a witness on an instance.

    ** Not modelled

    The log messages of the components, which the program does not read. Sockets
    and HTTP: listening, TLS, upgrading, the UDP exchange of a probe, dialling a
    backend, the scrape of the metrics are choices of the environment. Of the
    WebSocket server the keepalive goroutine is modelled as its ticks. Of main
    the parsing of the flags and the wait for a signal are arguments. *)

From Stdlib Require Export ZArith Lia.
From stdpp Require Export base tactics gmap strings numbers functions option.
From stdpp Require Export list.
From Stdlib Require SpecFloat.

Open Scope Z_scope.

(** ** Go integers

    [int] and [int64] are 64-bit, [int32] is 32-bit two's complement: every
    arithmetic operation of the source wraps, and so does the model. *)

Definition wrap (w z : Z) : Z := (z + 2 ^ (w - 1)) mod 2 ^ w - 2 ^ (w - 1).
Definition int32_wrap (z : Z) : Z := wrap 32 z.
Definition int64_wrap (z : Z) : Z := wrap 64 z.

Definition min_int64 : Z := - 2 ^ 63.
Definition max_int64 : Z := 2 ^ 63 - 1.
Definition min_int32 : Z := - 2 ^ 31.
Definition max_int32 : Z := 2 ^ 31 - 1.

Definition is_int64 (z : Z) : Prop := min_int64 <= z <= max_int64.
Definition is_int32 (z : Z) : Prop := min_int32 <= z <= max_int32.

Lemma wrap_range w z : 0 < w → - 2 ^ (w - 1) <= wrap w z < 2 ^ (w - 1).
Proof.
  intros Hw. unfold wrap.
  assert (2 ^ w = 2 * 2 ^ (w - 1)) as Hpow.
  { rewrite <-Z.pow_succ_r by lia. f_equal. lia. }
  pose proof (Z.mod_pos_bound (z + 2 ^ (w - 1)) (2 ^ w)) as Hb.
  assert (0 < 2 ^ (w - 1)) by (apply Z.pow_pos_nonneg; lia). lia.
Qed.

Lemma wrap_small w z : 0 < w → - 2 ^ (w - 1) <= z < 2 ^ (w - 1) → wrap w z = z.
Proof.
  intros Hw Hz. unfold wrap.
  assert (2 ^ w = 2 * 2 ^ (w - 1)) as Hpow.
  { rewrite <-Z.pow_succ_r by lia. f_equal. lia. }
  rewrite Z.mod_small; lia.
Qed.

(** Wrapping is a ring congruence: an inner wrap under an addition is absorbed. *)
Lemma wrap_add_l w a b : wrap w (wrap w a + b) = wrap w (a + b).
Proof.
  unfold wrap. f_equal.
  replace ((a + 2 ^ (w - 1)) mod 2 ^ w - 2 ^ (w - 1) + b + 2 ^ (w - 1))
    with ((a + 2 ^ (w - 1)) mod 2 ^ w + b) by lia.
  rewrite Zplus_mod_idemp_l. f_equal. lia.
Qed.

Lemma int64_wrap_range z : is_int64 (int64_wrap z).
Proof.
  pose proof (wrap_range 64 z). unfold int64_wrap, is_int64, min_int64, max_int64.
  change (64 - 1) with 63 in *. lia.
Qed.

Lemma int64_wrap_small z : is_int64 z → int64_wrap z = z.
Proof.
  unfold is_int64, min_int64, max_int64. intros H. apply wrap_small; [lia|].
  change (64 - 1) with 63. lia.
Qed.

Lemma int32_wrap_range z : is_int32 (int32_wrap z).
Proof.
  pose proof (wrap_range 32 z). unfold int32_wrap, is_int32, min_int32, max_int32.
  change (32 - 1) with 31 in *. lia.
Qed.

Lemma int32_wrap_small z : is_int32 z → int32_wrap z = z.
Proof.
  unfold is_int32, min_int32, max_int32. intros H. apply wrap_small; [lia|].
  change (32 - 1) with 31. lia.
Qed.

Lemma int64_wrap_add_l a b : int64_wrap (int64_wrap a + b) = int64_wrap (a + b).
Proof. apply wrap_add_l. Qed.

Lemma int64_wrap_sub_l a b : int64_wrap (int64_wrap a - b) = int64_wrap (a - b).
Proof. unfold Z.sub. apply int64_wrap_add_l. Qed.

(** ** Go time

    A [time.Time] is the number of nanoseconds since Go's zero time
    (January 1, year 1, UTC), so that the zero [time.Time] is [0]; a
    [time.Duration] is an [int64] number of nanoseconds. *)

Abbreviation Time := Z (only parsing).
Abbreviation Duration := Z (only parsing).

Definition Millisecond : Duration := 1000000.
Definition Second : Duration := 1000000000.
Definition Minute : Duration := 60 * Second.
Definition Hour : Duration := 60 * Minute.

Definition zero_time : Time := 0.
(** [t.IsZero()], [t.Before(u)], [t.Add(d)]. *)
Definition IsZero (t : Time) : bool := t =? zero_time.
Definition Before (t u : Time) : bool := t <? u.
Definition Add (t : Time) (d : Duration) : Time := t + d.
(** [t.Sub(u)] saturates at the extreme durations. *)
Definition Sub (t u : Time) : Duration := Z.max min_int64 (Z.min max_int64 (t - u)).
(** [time.Since(t)] at the instant [now]. *)
Definition Since (now t : Time) : Duration := Sub now t.
(** Seconds between the zero time and the Unix epoch. *)
Definition unix_epoch_sec : Z := 62135596800.
(** [t.Unix()] drops the sub-second part; [time.Unix(s, 0)] is its section. *)
Definition Unix (t : Time) : Z := t / Second - unix_epoch_sec.
Definition UnixNano (t : Time) : Z := int64_wrap (t - unix_epoch_sec * Second).
Definition FromUnix (s : Z) : Time := (s + unix_epoch_sec) * Second.

Lemma FromUnix_Unix_le t : FromUnix (Unix t) <= t < FromUnix (Unix t) + Second.
Proof.
  unfold FromUnix, Unix, Second.
  pose proof (Z.div_mod t 1000000000 ltac:(lia)).
  pose proof (Z.mod_pos_bound t 1000000000 ltac:(lia)). lia.
Qed.

Lemma Before_true t u : Before t u = true ↔ t < u.
Proof. apply Z.ltb_lt. Qed.
Lemma Before_false t u : Before t u = false ↔ u <= t.
Proof. apply Z.ltb_ge. Qed.

(** ** Go results, panics and self-deadlocks *)

(** A call that returns [(value, error)]. *)
Inductive result (E A : Type) : Type :=
| Ok (a : A)
| Err (e : E).
Arguments Ok {E A} a.
Arguments Err {E A} e.

#[export] Instance result_eq_dec `{EqDecision E} `{EqDecision A} : EqDecision (result E A).
Proof. solve_decision. Defined.

Definition is_ok {E A} (r : result E A) : bool :=
  match r with Ok _ => true | Err _ => false end.

(** What makes the runtime stop a goroutine. *)
Inductive panic : Type :=
| IndexOutOfRange
| SliceOutOfRange
| NilDereference
| TypeAssertion
| NilMapWrite
| CloseOfClosedChannel
| DuplicatePattern
| LibraryPanic.                            (* raised by a third-party package *)

#[export] Instance panic_eq_dec : EqDecision panic.
Proof. solve_decision. Defined.

(** The outcome of running Go code: it completes, panics, or blocks for ever
    on a mutex the same goroutine already holds. *)
Inductive outcome (A : Type) : Type :=
| Done (a : A)
| Panic (p : panic)
| Deadlock.
Arguments Done {A} a.
Arguments Panic {A} p.
Arguments Deadlock {A}.

#[export] Instance outcome_ret : MRet outcome := @Done.
#[export] Instance outcome_bind : MBind outcome := λ A B f m,
  match m with
  | Done a => f a
  | Panic p => Panic p
  | Deadlock => Deadlock
  end.

(** Slice or array indexing with a signed index. *)
Definition index {A} (l : list A) (i : Z) : outcome A :=
  if i <? 0 then Panic IndexOutOfRange
  else match l !! Z.to_nat i with
       | Some x => Done x
       | None => Panic IndexOutOfRange
       end.

Lemma index_Done {A} (l : list A) i :
  0 <= i < Z.of_nat (length l) → ∃ x, l !! Z.to_nat i = Some x ∧ index l i = Done x.
Proof.
  intros Hi. destruct (lookup_lt_is_Some_2 l (Z.to_nat i)) as [x Hx]; [lia|].
  exists x. split; [done|]. unfold index. rewrite (proj2 (Z.ltb_ge i 0)) by lia. by rewrite Hx.
Qed.

Lemma index_Panic {A} (l : list A) i :
  i < 0 ∨ Z.of_nat (length l) <= i → index l i = Panic IndexOutOfRange.
Proof.
  intros Hi. unfold index. destruct (Z.ltb_spec i 0); [done|].
  rewrite lookup_ge_None_2; [done|lia].
Qed.

(** ** Stateful code that may panic or deadlock *)

Definition GoM (S A : Type) : Type := S → outcome A * S.

#[export] Instance GoM_ret {S} : MRet (GoM S) := λ A a s, (Done a, s).
#[export] Instance GoM_bind {S} : MBind (GoM S) := λ A B f m s,
  match m s with
  | (Done a, s') => f a s'
  | (Panic p, s') => (Panic p, s')
  | (Deadlock, s') => (Deadlock, s')
  end.

Definition get_state {S} : GoM S S := λ s, (Done s, s).
Definition put_state {S} (s : S) : GoM S unit := λ _, (Done tt, s).
Definition modify {S} (f : S → S) : GoM S unit := λ s, (Done tt, f s).
Definition lift {S A} (o : outcome A) : GoM S A := λ s, (o, s).

(** Running a sequence: what the first call did decides the rest. *)
Lemma bind_Done {S A B} (m : GoM S A) (f : A → GoM S B) s a s' :
  m s = (Done a, s') → (m ≫= f) s = f a s'.
Proof. intros E. unfold mbind, GoM_bind. by rewrite E. Qed.

Lemma bind_Panic {S A B} (m : GoM S A) (f : A → GoM S B) s p s' :
  m s = (Panic p, s') → (m ≫= f) s = (Panic p, s').
Proof. intros E. unfold mbind, GoM_bind. by rewrite E. Qed.

Lemma bind_Deadlock {S A B} (m : GoM S A) (f : A → GoM S B) s s' :
  m s = (Deadlock, s') → (m ≫= f) s = (Deadlock, s').
Proof. intros E. unfold mbind, GoM_bind. by rewrite E. Qed.

Lemma bind_modify {S B} (g : S → S) (f : unit → GoM S B) s :
  (modify g ≫= f) s = f tt (g s).
Proof. done. Qed.

Lemma bind_get {S B} (f : S → GoM S B) s : (get_state ≫= f) s = f s s.
Proof. done. Qed.

Lemma bind_ret {S A B} (a : A) (f : A → GoM S B) s : (mret a ≫= f) s = f a s.
Proof. done. Qed.

Lemma bind_assoc {S A B C} (m : GoM S A) (f : A → GoM S B) (g : B → GoM S C) s :
  ((m ≫= f) ≫= g) s = (m ≫= λ a, f a ≫= g) s.
Proof. unfold mbind, GoM_bind. by destruct (m s) as [[] ?]. Qed.

(** ** Total correctness of stateful code

    [triple P m Q]: from a state with [P], [m] completes - it does not panic
    and does not deadlock - and what it returns and leaves has [Q]. *)
Definition triple {S A} (P : S → Prop) (m : GoM S A) (Q : A → S → Prop) : Prop :=
  ∀ s, P s → ∃ a s', m s = (Done a, s') ∧ Q a s'.

Section Triples.
Context {S : Type}.
Implicit Types P : S → Prop.

Lemma triple_ret {A} P (a : A) (Q : A → S → Prop) :
  (∀ s, P s → Q a s) → triple P (mret a) Q.
Proof. intros H s Hs. eexists a, s. split; [done|auto]. Qed.

Lemma triple_bind {A B} P R Q (m : GoM S A) (f : A → GoM S B) :
  triple P m R → (∀ a, triple (R a) (f a) Q) → triple P (m ≫= f) Q.
Proof.
  intros Hm Hf s Hs. destruct (Hm s Hs) as (a&s1&E&H1). rewrite (bind_Done _ _ _ _ _ E).
  by apply Hf.
Qed.

Lemma triple_conseq {A} P P' (m : GoM S A) (Q Q' : A → S → Prop) :
  triple P m Q → (∀ s, P' s → P s) → (∀ a s, Q a s → Q' a s) → triple P' m Q'.
Proof. intros Hm HP HQ s Hs. destruct (Hm s (HP s Hs)) as (a&s'&?&?). eauto 6. Qed.

Lemma triple_post {A} P (m : GoM S A) (Q Q' : A → S → Prop) :
  triple P m Q → (∀ a s, Q a s → Q' a s) → triple P m Q'.
Proof. intros. eapply triple_conseq; eauto. Qed.

(** A call followed by code that does not use its result. *)
Lemma triple_seq {A B} P R Q (m : GoM S A) (m' : GoM S B) :
  triple P m (λ _, R) → triple R m' Q → triple P (m;; m') Q.
Proof. intros. eapply triple_bind; eauto. Qed.

(** Facts about the initial state that do not mention it any more. *)
Lemma triple_intro {A} P (m : GoM S A) (Q : A → S → Prop) :
  (∀ s0, P s0 → triple (λ s, s = s0) m Q) → triple P m Q.
Proof. intros H s Hs. by apply (H s Hs). Qed.
End Triples.

(** ** Multi-step execution of a step relation *)

Section Star.
Context {A : Type} (R : A → A → Prop).

Inductive star : A → A → Prop :=
| star_refl a : star a a
| star_step a b c : R a b → star b c → star a c.

Lemma star_trans a b c : star a b → star b c → star a c.
Proof. induction 1; eauto using star. Qed.

Lemma star_one a b : R a b → star a b.
Proof. eauto using star. Qed.

Lemma star_invariant (I : A → Prop) :
  (∀ a b, I a → R a b → I b) → ∀ a b, star a b → I a → I b.
Proof. intros HI a b. induction 1; eauto. Qed.
End Star.

(** ** Strings

    A Go string or byte slice is its sequence of bytes. *)

(** [bytes.TrimSpace] and [strings.TrimSpace]: the white space is the ASCII one
    and the UTF-8 encodings of the other code points of [unicode.IsSpace]. *)
Definition byte (n : nat) : Ascii.ascii := Ascii.ascii_of_nat n.
Definition white_space : list (list Ascii.ascii) :=
  map (map byte)
    ([[9]; [10]; [11]; [12]; [13]; [32]; [194; 133]; [194; 160]; [225; 154; 128]]
     ++ map (λ n, [226; 128; n]) (seq 128 11)
     ++ [[226; 128; 168]; [226; 128; 169]; [226; 128; 175]; [226; 129; 159];
         [227; 128; 128]])%nat.

Fixpoint strip_prefix (p l : list Ascii.ascii) : option (list Ascii.ascii) :=
  match p, l with
  | [], _ => Some l
  | a :: p, b :: l => if decide (a = b) then strip_prefix p l else None
  | _ :: _, [] => None
  end.

Fixpoint strip_any (ps : list (list Ascii.ascii)) (l : list Ascii.ascii)
    : option (list Ascii.ascii) :=
  match ps with
  | [] => None
  | p :: ps => match strip_prefix p l with Some l => Some l | None => strip_any ps l end
  end.

(** One pattern is removed in each round, so the length is enough fuel. *)
Fixpoint strip_all (fuel : nat) (ps : list (list Ascii.ascii)) (l : list Ascii.ascii)
    : list Ascii.ascii :=
  match fuel with
  | O => l
  | S fuel => match strip_any ps l with Some l => strip_all fuel ps l | None => l end
  end.

Definition trim_left (l : list Ascii.ascii) : list Ascii.ascii :=
  strip_all (length l) white_space l.
Definition trim_right (l : list Ascii.ascii) : list Ascii.ascii :=
  rev (strip_all (length l) (map (@rev _) white_space) (rev l)).
Definition TrimSpace (s : string) : string :=
  String.string_of_list_ascii (trim_right (trim_left (String.list_ascii_of_string s))).

Lemma append_nil (s : string) : "" +:+ s = s.
Proof. done. Qed.
Lemma append_cons c (a b : string) : String c a +:+ b = String c (a +:+ b).
Proof. done. Qed.
Lemma append_assoc (a b c : string) : a +:+ (b +:+ c) = (a +:+ b) +:+ c.
Proof. induction a as [|x a IH]; rewrite ?append_cons; [done|by rewrite IH]. Qed.
Lemma list_of_string_app a b :
  String.list_ascii_of_string (a +:+ b)
  = String.list_ascii_of_string a ++ String.list_ascii_of_string b.
Proof. induction a as [|c a IH]; rewrite ?append_cons; simpl; [done|by rewrite IH]. Qed.

(** [strings.HasPrefix(s, p)]. *)
Definition HasPrefix (s p : string) : bool := String.prefix p s.
(** [s[n:]], within bounds. *)
Definition drop_string (n : nat) (s : string) : string :=
  String.string_of_list_ascii (drop n (String.list_ascii_of_string s)).
Definition take_string (n : nat) (s : string) : string :=
  String.string_of_list_ascii (take n (String.list_ascii_of_string s)).
(** [s[:n]] and [s[n:]] panic out of bounds. *)
Definition slice_to (s : string) (n : Z) : outcome string :=
  if (n <? 0) || (Z.of_nat (String.length s) <? n) then Panic SliceOutOfRange
  else Done (take_string (Z.to_nat n) s).
Definition slice_from (s : string) (n : Z) : outcome string :=
  if (n <? 0) || (Z.of_nat (String.length s) <? n) then Panic SliceOutOfRange
  else Done (drop_string (Z.to_nat n) s).

Lemma length_omap_le {A B} (f : A → option B) l : (length (omap f l) <= length l)%nat.
Proof. induction l as [|x l IH]; csimpl; [lia|]. destruct (f x); simpl; lia. Qed.

(** ** JSON documents

    A byte slice that the code obtains from [json.Marshal] of a flat map is
    kept as the object it encodes; any other byte slice is kept as its
    bytes. *)
Inductive jval : Type :=
| JStr (s : string)
| JNum (z : Z)
| JBool (b : bool).

#[export] Instance jval_eq_dec : EqDecision jval.
Proof. solve_decision. Defined.

Inductive bytes : Type :=
| Raw (s : string)
| Json (j : gmap string jval).

#[export] Instance bytes_eq_dec : EqDecision bytes.
Proof. solve_decision. Defined.

(** ** float64

    The few computations that go through it, with the executable binary64 of the
    Standard Library. *)

Definition float64 (z : Z) : SpecFloat.spec_float := SpecFloat.binary_normalize 53 1024 z 0 false.
Definition f_add (a b : SpecFloat.spec_float) : SpecFloat.spec_float := SpecFloat.SFadd 53 1024 a b.
Definition f_mul (a b : SpecFloat.spec_float) : SpecFloat.spec_float := SpecFloat.SFmul 53 1024 a b.
Definition f_div (a b : SpecFloat.spec_float) : SpecFloat.spec_float := SpecFloat.SFdiv 53 1024 a b.
(** The conversion to an integer type that holds the value. *)
Definition f_truncate (f : SpecFloat.spec_float) : Z :=
  match f with
  | SpecFloat.S754_finite s m e =>
      let z := if 0 <=? e then Z.pos m * 2 ^ e else Z.pos m / 2 ^ (- e) in
      if s then - z else z
  | _ => 0
  end.

(** [int64(d.Seconds())]. *)
Definition Seconds (d : Duration) : Z :=
  f_truncate (f_add (float64 (Z.quot d Second)) (f_div (float64 (Z.rem d Second)) (float64 Second))).

(** ** Automation *)

Create HintDb gateway.
Create Rewrite HintDb gateway.
#[export] Hint Resolve int64_wrap_range int32_wrap_range : gateway.
#[export] Hint Resolve star_refl star_one : gateway.

(** A closed decidable proposition, by evaluation. *)
Ltac by_decide :=
  match goal with |- ?P => apply (bool_decide_unpack P); vm_compute; exact I end.

(** Turn boolean comparisons into arithmetic facts. *)
Ltac bool_facts :=
  repeat match goal with
  | H : _ && _ = true |- _ => apply andb_true_iff in H as [? ?]
  | H : _ || _ = false |- _ => apply orb_false_iff in H as [? ?]
  | H : _ || _ = true |- _ => apply orb_true_iff in H as [H|H]
  | H : negb _ = true |- _ => apply negb_true_iff in H
  | H : negb _ = false |- _ => apply negb_false_iff in H
  | H : (_ =? _) = true |- _ => apply Z.eqb_eq in H
  | H : (_ =? _) = false |- _ => apply Z.eqb_neq in H
  | H : (_ <? _) = true |- _ => apply Z.ltb_lt in H
  | H : (_ <? _) = false |- _ => apply Z.ltb_ge in H
  | H : (_ <=? _) = true |- _ => apply Z.leb_le in H
  | H : (_ <=? _) = false |- _ => apply Z.leb_gt in H
  | H : Before _ _ = true |- _ => apply Before_true in H
  | H : Before _ _ = false |- _ => apply Before_false in H
  | H : bool_decide _ = true |- _ => apply bool_decide_eq_true_1 in H
  | H : bool_decide _ = false |- _ => apply bool_decide_eq_false_1 in H
  end.

(** Split on every scrutinee of the goal, remembering the boolean facts. *)
Ltac go_cases :=
  repeat (case_match; simplify_eq/=); bool_facts; simplify_eq/=.

(** Execute the leading calls of a sequence that need no case analysis. *)
Ltac go_steps := cbv beta; repeat (first
  [ rewrite bind_assoc | rewrite bind_modify | rewrite bind_get | rewrite bind_ret ];
  cbv beta).

(** Run a monadic computation whose calls have been rewritten. *)
Ltac run_go :=
  unfold mbind, mret, GoM_bind, GoM_ret, outcome_bind, outcome_ret,
    get_state, put_state, modify, lift in *; simpl in *.
