(* ===== verification/Strings.v ===== *)
(** * Trimming

    What [TrimSpace] leaves is a part of its argument, is trimmed, and does not
    end in white space. *)

From S2P Require Import Prelude.

Section Strip.
Context (ps : list (list Ascii.ascii)) (Hps : Forall (λ p, p ≠ []) ps).

Lemma strip_prefix_Some p l r : strip_prefix p l = Some r ↔ l = p ++ r.
Proof.
  revert l. induction p as [|a p IH]; intros [|b l]; simpl; try (split; congruence).
  case_decide as Hab; [subst; rewrite IH; split; congruence|split; congruence].
Qed.

Lemma strip_any_in qs l r : strip_any qs l = Some r → ∃ p, p ∈ qs ∧ l = p ++ r.
Proof.
  induction qs as [|q qs IH]; simpl; [done|]. destruct (strip_prefix q l) as [x|] eqn:E.
  - intros [= ->]. exists q. apply strip_prefix_Some in E. split; [left|done].
  - intros (p&?&?)%IH. exists p. split; [by right|done].
Qed.

Lemma strip_any_not qs l p r : strip_any qs l = None → p ∈ qs → l ≠ p ++ r.
Proof.
  induction qs as [|q qs IH]; simpl; intros E Hp; [by apply elem_of_nil in Hp|].
  destruct (strip_prefix q l) as [x|] eqn:Eq; [done|].
  apply elem_of_cons in Hp as [->|Hp]; [|by apply IH].
  intros Hl%strip_prefix_Some. congruence.
Qed.

Lemma strip_any_Some l r : strip_any ps l = Some r → ∃ p, p ≠ [] ∧ l = p ++ r.
Proof.
  intros (p&Hp&->)%strip_any_in. exists p. split; [|done].
  rewrite Forall_forall in Hps. by apply Hps.
Qed.

Lemma strip_any_app l r : strip_any ps (l ++ r) = None → strip_any ps l = None.
Proof.
  intros E. destruct (strip_any ps l) as [x|] eqn:El; [|done].
  apply strip_any_in in El as (p&Hp&->).
  destruct (strip_any_not _ _ p (x ++ r) E Hp). by rewrite (assoc_L (++)).
Qed.

Lemma strip_all_done fuel l : (length l <= fuel)%nat → strip_any ps (strip_all fuel ps l) = None.
Proof.
  revert l. induction fuel as [|fuel IH]; intros l Hl; simpl.
  - destruct l; [|simpl in Hl; lia]. destruct (strip_any ps []) as [x|] eqn:E; [|done].
    apply strip_any_Some in E as (p&Hp&E). by destruct p.
  - destruct (strip_any ps l) as [x|] eqn:E; [|done]. apply IH.
    apply strip_any_Some in E as (p&Hp&->). rewrite length_app in Hl.
    destruct p; [done|simpl in Hl; lia].
Qed.

Lemma strip_all_suffix fuel l : ∃ q, l = q ++ strip_all fuel ps l.
Proof.
  revert l. induction fuel as [|fuel IH]; intros l; simpl; [by exists []|].
  destruct (strip_any ps l) as [x|] eqn:E; [|by exists []].
  apply strip_any_Some in E as (p&_&->). destruct (IH x) as [q Hq]. exists (p ++ q).
  rewrite <-(assoc_L (++)). by f_equal.
Qed.

Lemma strip_all_None fuel l : strip_any ps l = None → strip_all fuel ps l = l.
Proof. destruct fuel; simpl; [done|]. by intros ->. Qed.
End Strip.

Lemma white_space_nonempty : Forall (λ p, p ≠ []) white_space.
Proof. repeat constructor; discriminate. Qed.
Lemma white_space_rev_nonempty : Forall (λ p, p ≠ []) (map (@rev _) white_space).
Proof. repeat constructor; discriminate. Qed.

Lemma trim_left_suffix l : ∃ q, l = q ++ trim_left l.
Proof. apply strip_all_suffix, white_space_nonempty. Qed.
Lemma trim_right_prefix l : ∃ q, l = trim_right l ++ q.
Proof.
  destruct (strip_all_suffix (map (@rev _) white_space) white_space_rev_nonempty (length l) (rev l))
    as [q Hq]. exists (rev q). apply (f_equal (@rev _)) in Hq.
  rewrite rev_involutive, rev_app_distr in Hq. exact Hq.
Qed.

(** What [TrimSpace] leaves is part of its argument, and trimmed. *)
Lemma TrimSpace_infix s : ∃ p q,
  String.list_ascii_of_string s = p ++ String.list_ascii_of_string (TrimSpace s) ++ q.
Proof.
  unfold TrimSpace. rewrite String.list_ascii_of_string_of_list_ascii.
  destruct (trim_left_suffix (String.list_ascii_of_string s)) as [p Hp].
  destruct (trim_right_prefix (trim_left (String.list_ascii_of_string s))) as [q Hq].
  exists p, q. by rewrite <-Hq.
Qed.

Lemma TrimSpace_idem s : TrimSpace (TrimSpace s) = TrimSpace s.
Proof.
  unfold TrimSpace. rewrite String.list_ascii_of_string_of_list_ascii. f_equal.
  set (l1 := trim_left (String.list_ascii_of_string s)).
  destruct (trim_right_prefix l1) as [q Hq].
  assert (strip_any white_space (trim_right l1) = None) as Hl.
  { eapply strip_any_app. rewrite <-Hq.
    apply strip_all_done; [apply white_space_nonempty|done]. }
  assert (trim_left (trim_right l1) = trim_right l1) as -> by (by apply strip_all_None).
  unfold trim_right at 1. rewrite strip_all_None; [apply rev_involutive|].
  unfold trim_right. rewrite rev_involutive.
  apply strip_all_done; [apply white_space_rev_nonempty|by rewrite length_rev].
Qed.

(** The last byte of a trimmed string is no white space. *)
Lemma TrimSpace_last s c :
  last (String.list_ascii_of_string (TrimSpace s)) = Some c → [c] ∉ white_space.
Proof.
  unfold TrimSpace. rewrite String.list_ascii_of_string_of_list_ascii. unfold trim_right.
  set (l1 := trim_left _). set (l2 := strip_all _ _ _). intros Hl Hc.
  assert (strip_any (map (@rev _) white_space) l2 = None) as Hn.
  { apply strip_all_done; [apply white_space_rev_nonempty|by rewrite length_rev]. }
  clearbody l2. destruct l2 as [|x l2]; [done|]. simpl in Hl. rewrite last_snoc in Hl. injection Hl as ->.
  eapply (strip_any_not _ _ [c] l2 Hn); [|done].
  apply list_elem_of_In, in_map_iff. exists [c]. split; [done|]. by apply list_elem_of_In.
Qed.
