(* ===== verification/CircuitBreaker.v ===== *)
(** * common/circuit_breaker.go

    The circuit breaker of pkg/common/circuit_breaker.go: the sequential meaning
    of each method, the atomic steps the methods are made of (every
    [sync/atomic] access and every critical section is one step), and what holds
    of one caller at a time and of every interleaving of callers. *)

From S2P Require Import Prelude.

(** ** State *)

(** [CircuitBreakerState] is an [int32]; the constants are an [iota]. *)
Definition StateClosed : Z := 0.
Definition StateOpen : Z := 1.
Definition StateHalfOpen : Z := 2.

Record CircuitBreaker : Type := mkCircuitBreaker {
  cb_name : string;
  cb_state : Z;
  cb_failureThreshold : Z;
  cb_resetTimeout : Duration;
  cb_halfOpenMaxReqs : Z;
  cb_halfOpenReqs : Z;
  cb_consecutiveFailures : Z;
  cb_lastStateChange : Time;
  cb_lastFailure : Time;
  cb_totalRequests : Z;
  cb_totalSuccesses : Z;
  cb_totalFailures : Z;
  cb_opens : Z
}.

Record CircuitBreakerConfig : Type := mkCircuitBreakerConfig {
  cfg_FailureThreshold : Z;
  cfg_ResetTimeout : Duration;
  cfg_HalfOpenMaxReqs : Z
}.

#[export] Instance CircuitBreaker_eq_dec : EqDecision CircuitBreaker.
Proof. solve_decision. Defined.

(** [NewCircuitBreaker]: the [int] settings are truncated to [int32] before the
    defaults are applied. *)
Definition NewCircuitBreaker (name : string) (config : CircuitBreakerConfig)
    (now : Time) : CircuitBreaker :=
  let failureThreshold := int32_wrap (cfg_FailureThreshold config) in
  let failureThreshold := if failureThreshold <=? 0 then 5 else failureThreshold in
  let resetTimeout := cfg_ResetTimeout config in
  let resetTimeout := if resetTimeout <=? 0 then 30 * Second else resetTimeout in
  let halfOpenMaxReqs := int32_wrap (cfg_HalfOpenMaxReqs config) in
  let halfOpenMaxReqs := if halfOpenMaxReqs <=? 0 then 3 else halfOpenMaxReqs in
  {| cb_name := name; cb_state := StateClosed;
     cb_failureThreshold := failureThreshold; cb_resetTimeout := resetTimeout;
     cb_halfOpenMaxReqs := halfOpenMaxReqs; cb_halfOpenReqs := 0;
     cb_consecutiveFailures := 0; cb_lastStateChange := now;
     cb_lastFailure := zero_time; cb_totalRequests := 0;
     cb_totalSuccesses := 0; cb_totalFailures := 0; cb_opens := 0 |}.

Definition GetState (cb : CircuitBreaker) : Z := cb_state cb.

(** Field writes. *)
Definition set_state (v : Z) (cb : CircuitBreaker) : CircuitBreaker :=
  let '(mkCircuitBreaker n _ ft rt hm hr cf ls lf tr ts tf o) := cb in
  mkCircuitBreaker n v ft rt hm hr cf ls lf tr ts tf o.
Definition set_halfOpenReqs (v : Z) (cb : CircuitBreaker) : CircuitBreaker :=
  let '(mkCircuitBreaker n s ft rt hm _ cf ls lf tr ts tf o) := cb in
  mkCircuitBreaker n s ft rt hm v cf ls lf tr ts tf o.
Definition set_consecutiveFailures (v : Z) (cb : CircuitBreaker) : CircuitBreaker :=
  let '(mkCircuitBreaker n s ft rt hm hr _ ls lf tr ts tf o) := cb in
  mkCircuitBreaker n s ft rt hm hr v ls lf tr ts tf o.
Definition set_lastStateChange (v : Time) (cb : CircuitBreaker) : CircuitBreaker :=
  let '(mkCircuitBreaker n s ft rt hm hr cf _ lf tr ts tf o) := cb in
  mkCircuitBreaker n s ft rt hm hr cf v lf tr ts tf o.
Definition set_lastFailure (v : Time) (cb : CircuitBreaker) : CircuitBreaker :=
  let '(mkCircuitBreaker n s ft rt hm hr cf ls _ tr ts tf o) := cb in
  mkCircuitBreaker n s ft rt hm hr cf ls v tr ts tf o.
Definition add_totalRequests (cb : CircuitBreaker) : CircuitBreaker :=
  let '(mkCircuitBreaker n s ft rt hm hr cf ls lf tr ts tf o) := cb in
  mkCircuitBreaker n s ft rt hm hr cf ls lf (int64_wrap (tr + 1)) ts tf o.
Definition add_totalSuccesses (cb : CircuitBreaker) : CircuitBreaker :=
  let '(mkCircuitBreaker n s ft rt hm hr cf ls lf tr ts tf o) := cb in
  mkCircuitBreaker n s ft rt hm hr cf ls lf tr (int64_wrap (ts + 1)) tf o.
Definition add_totalFailures (cb : CircuitBreaker) : CircuitBreaker :=
  let '(mkCircuitBreaker n s ft rt hm hr cf ls lf tr ts tf o) := cb in
  mkCircuitBreaker n s ft rt hm hr cf ls lf tr ts (int64_wrap (tf + 1)) o.
Definition add_opens (cb : CircuitBreaker) : CircuitBreaker :=
  let '(mkCircuitBreaker n s ft rt hm hr cf ls lf tr ts tf o) := cb in
  mkCircuitBreaker n s ft rt hm hr cf ls lf tr ts tf (int64_wrap (o + 1)).

(** ** The methods, run by one goroutine at a time *)

(** The [for] loop of [AllowRequest]. [now_since] is the clock read by
    [time.Since] in the open case, [now_flip] the one stored when the circuit
    turns half-open. [None] is running out of fuel. *)
Fixpoint allow_loop (fuel : nat) (now_since now_flip : Time) (cb : CircuitBreaker)
    : option (bool * CircuitBreaker) :=
  match fuel with
  | O => None
  | S fuel =>
      let state := cb_state cb in
      if state =? StateClosed then Some (true, cb)
      else if state =? StateOpen then
        let timeout := cb_resetTimeout cb <? Since now_since (cb_lastStateChange cb) in
        if negb timeout then Some (false, cb)
        else
          let cb := set_state StateHalfOpen cb in
          let cb := set_halfOpenReqs 0 (set_lastStateChange now_flip cb) in
          allow_loop fuel now_since now_flip cb
      else if state =? StateHalfOpen then
        let reqs := int32_wrap (cb_halfOpenReqs cb + 1) in
        Some (reqs <=? cb_halfOpenMaxReqs cb, set_halfOpenReqs reqs cb)
      else Some (false, cb)
  end.

(** Two iterations are enough: see [allow_loop_enough]. *)
Definition AllowRequest (now_since now_flip : Time) (cb : CircuitBreaker)
    : bool * CircuitBreaker :=
  let cb := add_totalRequests cb in
  default (false, cb) (allow_loop 2 now_since now_flip cb).

Definition RecordSuccess (now : Time) (cb : CircuitBreaker) : CircuitBreaker :=
  let cb := set_consecutiveFailures 0 (add_totalSuccesses cb) in
  if cb_state cb =? StateHalfOpen
  then set_lastStateChange now (set_state StateClosed cb)
  else cb.

(** [now_last] is the clock stored in [lastFailure], [now_open] the one stored
    in [lastStateChange] when the circuit opens. *)
Definition RecordFailure (now_last now_open : Time) (cb : CircuitBreaker)
    : CircuitBreaker :=
  let cb := add_totalFailures cb in
  let failures := int32_wrap (cb_consecutiveFailures cb + 1) in
  let cb := set_consecutiveFailures failures cb in
  let cb := set_lastFailure now_last cb in
  let state := cb_state cb in
  let threshold := cb_failureThreshold cb in
  if ((state =? StateClosed) && (threshold <=? failures)) || (state =? StateHalfOpen)
  then set_lastStateChange now_open (add_opens (set_state StateOpen cb))
  else cb.

Definition GetMetrics (cb : CircuitBreaker) : gmap string Z :=
  {[ "requests" := cb_totalRequests cb; "successes" := cb_totalSuccesses cb;
     "failures" := cb_totalFailures cb; "opens" := cb_opens cb ]}.

Definition Reset (now : Time) (cb : CircuitBreaker) : CircuitBreaker :=
  set_lastStateChange now (set_consecutiveFailures 0 (set_state StateClosed cb)).

(** ** The atomic steps of the methods

    A program counter names the next atomic action of a method; the values a
    goroutine has read and still needs are its arguments. *)

Inductive pc : Type :=
| AStart                     (* AllowRequest: AddInt64(&totalRequests, 1) *)
| ALoop                      (* LoadInt32(&state) and the switch *)
| ACheck                     (* the RLock section of the open case *)
| ACas                       (* CompareAndSwap(state, Open, HalfOpen) *)
| AReset                     (* the Lock section of the open case *)
| AHalf                      (* AddInt32(&halfOpenReqs, 1) *)
| SStart                     (* RecordSuccess: AddInt64(&totalSuccesses, 1) *)
| SZero                      (* StoreInt32(&consecutiveFailures, 0) *)
| SLoad                      (* LoadInt32(&state) *)
| SCas                       (* CompareAndSwap(state, HalfOpen, Closed) *)
| SStamp                     (* the Lock section *)
| FStart                     (* RecordFailure: AddInt64(&totalFailures, 1) *)
| FInc                       (* AddInt32(&consecutiveFailures, 1) *)
| FLast (failures : Z)       (* the Lock section that sets lastFailure *)
| FLoad (failures : Z)       (* LoadInt32(&state), LoadInt32(&failureThreshold) *)
| FCas (state : Z)           (* CompareAndSwap(state, state, Open) *)
| FOpens                     (* AddInt64(&opens, 1) *)
| FStamp                     (* the Lock section that sets lastStateChange *)
| RState                     (* Reset: StoreInt32(&state, Closed) *)
| RFails                     (* StoreInt32(&consecutiveFailures, 0) *)
| RStamp.                    (* the Lock section *)

#[export] Instance pc_eq_dec : EqDecision pc.
Proof. solve_decision. Defined.

(** A goroutine is in the middle of a method or has returned; [AllowRequest]
    returns a boolean, the other methods return nothing. *)
Inductive thread : Type :=
| Running (p : pc)
| Allowed (b : bool)
| Returned.

#[export] Instance thread_eq_dec : EqDecision thread.
Proof. solve_decision. Defined.

(** [CompareAndSwapInt32(&cb.state, old, new)]. *)
Definition cas_state (old new : Z) (cb : CircuitBreaker) : bool * CircuitBreaker :=
  if cb_state cb =? old then (true, set_state new cb) else (false, cb).

(** One atomic action at the instant [now]. *)
Definition step (now : Time) (cb : CircuitBreaker) (p : pc) : CircuitBreaker * thread :=
  match p with
  | AStart => (add_totalRequests cb, Running ALoop)
  | ALoop =>
      let state := cb_state cb in
      if state =? StateClosed then (cb, Allowed true)
      else if state =? StateOpen then (cb, Running ACheck)
      else if state =? StateHalfOpen then (cb, Running AHalf)
      else (cb, Allowed false)
  | ACheck =>
      if cb_resetTimeout cb <? Since now (cb_lastStateChange cb)
      then (cb, Running ACas) else (cb, Allowed false)
  | ACas =>
      let '(swapped, cb) := cas_state StateOpen StateHalfOpen cb in
      (cb, Running (if swapped then AReset else ALoop))
  | AReset => (set_halfOpenReqs 0 (set_lastStateChange now cb), Running ALoop)
  | AHalf =>
      let reqs := int32_wrap (cb_halfOpenReqs cb + 1) in
      (set_halfOpenReqs reqs cb, Allowed (reqs <=? cb_halfOpenMaxReqs cb))
  | SStart => (add_totalSuccesses cb, Running SZero)
  | SZero => (set_consecutiveFailures 0 cb, Running SLoad)
  | SLoad => (cb, if cb_state cb =? StateHalfOpen then Running SCas else Returned)
  | SCas =>
      let '(swapped, cb) := cas_state StateHalfOpen StateClosed cb in
      (cb, if swapped then Running SStamp else Returned)
  | SStamp => (set_lastStateChange now cb, Returned)
  | FStart => (add_totalFailures cb, Running FInc)
  | FInc =>
      let failures := int32_wrap (cb_consecutiveFailures cb + 1) in
      (set_consecutiveFailures failures cb, Running (FLast failures))
  | FLast failures => (set_lastFailure now cb, Running (FLoad failures))
  | FLoad failures =>
      let state := cb_state cb in
      (cb, if ((state =? StateClosed) && (cb_failureThreshold cb <=? failures))
              || (state =? StateHalfOpen)
           then Running (FCas state) else Returned)
  | FCas state =>
      let '(swapped, cb) := cas_state state StateOpen cb in
      (cb, if swapped then Running FOpens else Returned)
  | FOpens => (add_opens cb, Running FStamp)
  | FStamp => (set_lastStateChange now cb, Returned)
  | RState => (set_state StateClosed cb, Running RFails)
  | RFails => (set_consecutiveFailures 0 cb, Running RStamp)
  | RStamp => (set_lastStateChange now cb, Returned)
  end.

(** A goroutine running alone; [clk] is the clock at each program point. *)
Fixpoint run_solo (clk : pc → Time) (fuel : nat) (cb : CircuitBreaker) (t : thread)
    : option (thread * CircuitBreaker) :=
  match t, fuel with
  | Running p, S fuel =>
      let '(cb, t) := step (clk p) cb p in run_solo clk fuel cb t
  | Running _, O => None
  | t, _ => Some (t, cb)
  end.

(** Goroutines sharing one breaker: an event lets goroutine [fst e] take its
    next action at the instant [snd e]. *)
Definition system : Type := CircuitBreaker * list thread.

Definition sys_step (sys : system) (e : nat * Time) : system :=
  let '(cb, ts) := sys in
  match ts !! fst e with
  | Some (Running p) =>
      let '(cb, t) := step (snd e) cb p in (cb, <[fst e := t]> ts)
  | _ => (cb, ts)
  end.

Definition sys_run (sys : system) (es : list (nat * Time)) : system :=
  foldl sys_step sys es.

(** The goroutines that an action of a schedule admits in the half-open state. *)
Definition admits (sys : system) (e : nat * Time) : bool :=
  match sys.2 !! fst e with
  | Some (Running AHalf) =>
      match (step (snd e) sys.1 AHalf).2 with Allowed b => b | _ => false end
  | _ => false
  end.

Fixpoint admitted (sys : system) (es : list (nat * Time)) : nat :=
  match es with
  | [] => 0
  | e :: es => ((if admits sys e then 1 else 0) + admitted (sys_step sys e) es)%nat
  end.

(** A schedule in which no goroutine executes the [halfOpenReqs = 0] section. *)
Fixpoint no_reset (sys : system) (es : list (nat * Time)) : Prop :=
  match es with
  | [] => True
  | e :: es => sys.2 !! fst e ≠ Some (Running AReset) ∧ no_reset (sys_step sys e) es
  end.

(** The edges of the state diagram, [Reset] included. *)
Definition legal (s s' : Z) : Prop :=
  s' = s ∨ (s = StateClosed ∧ s' = StateOpen) ∨ (s = StateOpen ∧ s' = StateHalfOpen) ∨
  (s = StateHalfOpen ∧ s' = StateOpen) ∨ s' = StateClosed.

(** A breaker as [NewCircuitBreaker] builds it and the methods keep it. *)
Record breaker_wf (cb : CircuitBreaker) : Prop := {
  wf_state : cb_state cb = StateClosed ∨ cb_state cb = StateOpen ∨ cb_state cb = StateHalfOpen;
  wf_threshold : 0 < cb_failureThreshold cb;
  wf_timeout : 0 < cb_resetTimeout cb;
  wf_max : 0 < cb_halfOpenMaxReqs cb
}.

(** Consecutive calls of a method by one goroutine. *)
Fixpoint allow_many (nows : list (Time * Time)) (cb : CircuitBreaker)
    : list bool * CircuitBreaker :=
  match nows with
  | [] => ([], cb)
  | (t, t') :: nows =>
      let '(b, cb) := AllowRequest t t' cb in
      let '(bs, cb) := allow_many nows cb in (b :: bs, cb)
  end.

Fixpoint fail_many (nows : list (Time * Time)) (cb : CircuitBreaker) : CircuitBreaker :=
  match nows with
  | [] => cb
  | (t, t') :: nows => fail_many nows (RecordFailure t t' cb)
  end.

Definition count_true (bs : list bool) : Z := Z.of_nat (length (filter (λ b, b = true) bs)).

(** ** Sequential behaviour *)

Ltac cb_unfold :=
  unfold StateClosed, StateOpen, StateHalfOpen in *; simpl in *.

(** The loop of [AllowRequest] returns within two iterations. *)
Lemma allow_loop_enough (fuel : nat) t t' cb :
  (2 <= fuel)%nat → allow_loop fuel t t' cb = allow_loop 2 t t' cb ∧
  is_Some (allow_loop 2 t t' cb).
Proof.
  intros Hf. destruct fuel as [|[|fuel]]; [lia|lia|].
  destruct cb as [n s ft rt hm hr cf ls lf tr ts tf o]; cb_unfold.
  go_cases; eauto.
Qed.

Lemma AllowRequest_closed t t' cb :
  cb_state cb = StateClosed → AllowRequest t t' cb = (true, add_totalRequests cb).
Proof. destruct cb; cb_unfold. by intros ->. Qed.

Lemma AllowRequest_open t t' cb :
  cb_state cb = StateOpen → Since t (cb_lastStateChange cb) <= cb_resetTimeout cb →
  AllowRequest t t' cb = (false, add_totalRequests cb).
Proof.
  destruct cb; cb_unfold. intros -> H. unfold AllowRequest; cb_unfold.
  by rewrite (proj2 (Z.ltb_ge _ _)).
Qed.

Lemma AllowRequest_half t t' cb :
  cb_state cb = StateHalfOpen →
  AllowRequest t t' cb =
    (int32_wrap (cb_halfOpenReqs cb + 1) <=? cb_halfOpenMaxReqs cb,
     set_halfOpenReqs (int32_wrap (cb_halfOpenReqs cb + 1)) (add_totalRequests cb)).
Proof. destruct cb; cb_unfold. by intros ->. Qed.

Lemma AllowRequest_flip t t' cb :
  cb_state cb = StateOpen → cb_resetTimeout cb < Since t (cb_lastStateChange cb) →
  AllowRequest t t' cb =
    (1 <=? cb_halfOpenMaxReqs cb,
     set_halfOpenReqs 1 (set_lastStateChange t'
       (set_state StateHalfOpen (add_totalRequests cb)))).
Proof.
  destruct cb; cb_unfold. intros -> H. unfold AllowRequest; cb_unfold.
  by rewrite (proj2 (Z.ltb_lt _ _)).
Qed.

#[export] Hint Rewrite AllowRequest_closed AllowRequest_open AllowRequest_half
  AllowRequest_flip using done : gateway.

(** Requests after the [k]-th of a half-open episode. *)
Lemma allow_many_half nows cb :
  cb_state cb = StateHalfOpen → 0 <= cb_halfOpenReqs cb →
  cb_halfOpenReqs cb + Z.of_nat (length nows) <= max_int32 →
  let '(bs, cb') := allow_many nows cb in
  cb_state cb' = StateHalfOpen ∧
  cb_halfOpenReqs cb' = cb_halfOpenReqs cb + Z.of_nat (length nows) ∧
  bs = map (λ i, Z.of_nat i <=? cb_halfOpenMaxReqs cb - cb_halfOpenReqs cb)
           (seq 1 (length nows)).
Proof.
  revert cb. induction nows as [|[t t'] nows IH]; intros cb Hs H0 Hb.
  { simpl in *. split_and!; [done|lia|done]. }
  simpl allow_many. rewrite AllowRequest_half by done.
  simpl length in Hb. rewrite int32_wrap_small by (unfold is_int32, min_int32; lia).
  set (cb1 := set_halfOpenReqs _ _).
  assert (cb_state cb1 = StateHalfOpen) by (by destruct cb).
  assert (cb_halfOpenReqs cb1 = cb_halfOpenReqs cb + 1) as E1 by (by destruct cb).
  assert (cb_halfOpenMaxReqs cb1 = cb_halfOpenMaxReqs cb) as E2 by (by destruct cb).
  specialize (IH cb1 ltac:(done) ltac:(lia) ltac:(lia)).
  destruct (allow_many nows cb1) as [bs cb2]. destruct IH as (?&Hr&->).
  split_and!; [done|rewrite Hr; simpl length; lia|].
  simpl length. simpl seq. rewrite map_cons. f_equal.
  - apply eq_true_iff_eq. rewrite !Z.leb_le. lia.
  - rewrite <-(seq_shift (length nows) 1), map_map. apply map_ext. intros i.
    apply eq_true_iff_eq. rewrite !Z.leb_le. lia.
Qed.

Lemma count_true_prefix (f : nat → bool) (m n k : nat) :
  (∀ i, f i = (i <=? m)%nat) →
  count_true (map f (seq k n)) = Z.of_nat (Nat.min (k + n) (S m) - k).
Proof.
  intros Hf. unfold count_true. f_equal. revert k.
  induction n as [|n IH]; intros k; simpl; [lia|].
  rewrite filter_cons, Hf. destruct (Nat.leb_spec k m); simpl; rewrite IH; lia.
Qed.

Lemma count_true_quota (m : Z) (n : nat) :
  0 <= m → count_true (map (λ i, Z.of_nat i <=? m) (seq 1 n)) = Z.min (Z.of_nat n) m.
Proof.
  intros Hm. rewrite (count_true_prefix _ (Z.to_nat m)); [lia|].
  intros i. apply eq_true_iff_eq. rewrite Z.leb_le, Nat.leb_le. lia.
Qed.

(** One failure, in the closed state. *)
Lemma RecordFailure_closed t t' cb :
  cb_state cb = StateClosed → 0 <= cb_consecutiveFailures cb < max_int32 →
  let cb' := RecordFailure t t' cb in
  cb_consecutiveFailures cb' = cb_consecutiveFailures cb + 1 ∧
  cb_failureThreshold cb' = cb_failureThreshold cb ∧
  cb_state cb' = if cb_failureThreshold cb <=? cb_consecutiveFailures cb + 1
                 then StateOpen else StateClosed.
Proof.
  intros Hs Hc. destruct cb as [n s ft rt hm hr cf ls lf tr ts tf o].
  unfold RecordFailure. cb_unfold. subst s. simpl.
  rewrite int32_wrap_small by (unfold is_int32, min_int32 in *; lia).
  by destruct (ft <=? cf + 1).
Qed.

Lemma fail_many_closed nows cb :
  cb_state cb = StateClosed → 0 <= cb_consecutiveFailures cb →
  cb_consecutiveFailures cb + Z.of_nat (length nows) < cb_failureThreshold cb <= max_int32 →
  let cb' := fail_many nows cb in
  cb_state cb' = StateClosed ∧ cb_failureThreshold cb' = cb_failureThreshold cb ∧
  cb_consecutiveFailures cb' = cb_consecutiveFailures cb + Z.of_nat (length nows).
Proof.
  revert cb. induction nows as [|[t t'] nows IH]; intros cb Hs H0 Hb; simpl in *.
  { split_and!; [done|done|lia]. }
  destruct (RecordFailure_closed t t' cb) as (Hc&Hft&Hst); [done|lia|].
  rewrite (proj2 (Z.leb_gt _ _)) in Hst by lia.
  specialize (IH _ Hst). rewrite Hc, Hft in IH.
  destruct IH as (?&?&->); [lia|lia|]. split_and!; [done|done|lia].
Qed.

(** ** Interleavings *)

Definition thread_wf (t : thread) : Prop :=
  match t with
  | Running (FCas s) => s = StateClosed ∨ s = StateHalfOpen
  | _ => True
  end.

Definition sys_wf (sys : system) : Prop :=
  breaker_wf sys.1 ∧ Forall thread_wf sys.2.

Lemma step_spec now cb p :
  breaker_wf cb → thread_wf (Running p) →
  let '(cb', t) := step now cb p in
  breaker_wf cb' ∧ thread_wf t ∧ legal (cb_state cb) (cb_state cb').
Proof.
  destruct cb as [n s ft rt hm hr cf ls lf tr ts tf o].
  intros [Hs Hf Hr Hm] Hp. unfold legal, thread_wf. cb_unfold.
  destruct p; cb_unfold; unfold cas_state; cb_unfold; go_cases; simpl;
    (split_and!; [split; simpl; auto|simpl; auto; try lia|auto 6]); cb_unfold; try lia.
Qed.

Lemma sys_step_spec sys e :
  sys_wf sys → sys_wf (sys_step sys e) ∧ legal (cb_state sys.1) (cb_state (sys_step sys e).1).
Proof.
  destruct sys as [cb ts]. intros [Hcb Hts]. unfold sys_step. simpl.
  destruct (ts !! e.1) as [[p| |]|] eqn:Hp; simpl; try (split; [done|left; done]).
  assert (thread_wf (Running p)) as Hwp.
  { eapply Forall_lookup_1 in Hts; eauto. }
  pose proof (step_spec e.2 cb p Hcb Hwp) as H.
  destruct (step e.2 cb p) as [cb' t]. destruct H as (?&?&?).
  split; [split; [done|by apply Forall_insert]|done].
Qed.

Lemma sys_run_wf es sys : sys_wf sys → sys_wf (sys_run sys es).
Proof.
  revert sys. induction es as [|e es IH]; intros sys H; simpl; [done|].
  by apply IH, sys_step_spec.
Qed.

(** Only [AHalf] and [AReset] write [halfOpenReqs]; nothing writes its limit. *)
Lemma step_half now cb p :
  p ≠ AReset →
  let '(cb', t) := step now cb p in
  cb_halfOpenMaxReqs cb' = cb_halfOpenMaxReqs cb ∧
  cb_halfOpenReqs cb' =
    if decide (p = AHalf) then int32_wrap (cb_halfOpenReqs cb + 1) else cb_halfOpenReqs cb.
Proof.
  intros Hp. destruct cb as [n s ft rt hm hr cf ls lf tr ts tf o].
  destruct p; simpl; unfold cas_state; simpl; repeat case_match; simplify_eq/=; done.
Qed.

Lemma admitted_quota es sys :
  no_reset sys es → 0 <= cb_halfOpenReqs sys.1 →
  cb_halfOpenReqs sys.1 + Z.of_nat (length es) <= max_int32 →
  Z.of_nat (admitted sys es) <= Z.max 0 (cb_halfOpenMaxReqs sys.1 - cb_halfOpenReqs sys.1).
Proof.
  revert sys. induction es as [|e es IH]; intros [cb ts] Hn H0 Hb; simpl in *; [lia|].
  destruct Hn as [Hne Hn].
  unfold admits. simpl in *. specialize (IH _ Hn). unfold sys_step in *. simpl in *.
  destruct (ts !! e.1) as [[p| |]|] eqn:Hp; simpl in *; try (specialize (IH H0 ltac:(lia)); lia).
  pose proof (step_half e.2 cb p ltac:(congruence)) as Hh.
  destruct (step e.2 cb p) as [cb' t] eqn:Hstep. simpl in *. destruct Hh as [Hm Hr].
  destruct (decide (p = AHalf)) as [->|Hne'].
  - simpl in Hstep. rewrite int32_wrap_small in * by (unfold is_int32, min_int32; lia).
    rewrite Hm, Hr in IH. specialize (IH ltac:(lia) ltac:(lia)).
    destruct (Z.leb_spec (cb_halfOpenReqs cb + 1) (cb_halfOpenMaxReqs cb)); lia.
  - rewrite Hm, Hr in IH. specialize (IH ltac:(lia) ltac:(lia)). destruct p; try lia; done.
Qed.

(** ** Properties *)


Definition demo_config : CircuitBreakerConfig := mkCircuitBreakerConfig 2 (10 * Second) 3.
Definition demo_open : CircuitBreaker :=
  RecordFailure 5 6 (RecordFailure 3 4 (NewCircuitBreaker "demo" demo_config 1)).
Definition demo_late : Time := 20 * Second.


(** C10. The breaker opens at exactly the [failureThreshold]-th consecutive
    failure: fewer failures leave a closed breaker closed and admitting, and the
    failure that reaches the threshold opens it, counts the opening, and makes
    every [AllowRequest] whose clock is within [resetTimeout] of it answer
    [false]. *)
Theorem opens_at_threshold cb nows t t' :
  breaker_wf cb → cb_failureThreshold cb <= max_int32 →
  cb_state cb = StateClosed → cb_consecutiveFailures cb = 0 →
  1 + Z.of_nat (length nows) <= cb_failureThreshold cb →
  (∀ u u', (AllowRequest u u' (fail_many nows cb)).1 = true) ∧
  let cb' := RecordFailure t t' (fail_many nows cb) in
  if 1 + Z.of_nat (length nows) <? cb_failureThreshold cb
  then cb_state cb' = StateClosed
  else cb_state cb' = StateOpen ∧ cb_lastStateChange cb' = t' ∧
    cb_opens cb' = int64_wrap (cb_opens (fail_many nows cb) + 1) ∧
    ∀ u u', Since u t' <= cb_resetTimeout cb' → (AllowRequest u u' cb').1 = false.
Proof.
  intros Hwf Hmax Hs Hc Hn.
  destruct (fail_many_closed nows cb) as (Hs1&Hf1&Hc1); [done|lia|lia|].
  set (cb1 := fail_many nows cb) in *.
  split; [intros; by rewrite AllowRequest_closed|].
  destruct (RecordFailure_closed t t' cb1 Hs1 ltac:(lia)) as (_&_&Hst).
  simpl. rewrite Hc1, Hf1, Hc, Z.add_0_l in Hst.
  destruct (Z.ltb_spec (1 + Z.of_nat (length nows)) (cb_failureThreshold cb)).
  { rewrite Hst. by rewrite (proj2 (Z.leb_gt _ _)) by lia. }
  rewrite (proj2 (Z.leb_le _ _)) in Hst by lia.
  assert (cb_lastStateChange (RecordFailure t t' cb1) = t' ∧
    cb_opens (RecordFailure t t' cb1) = int64_wrap (cb_opens cb1 + 1)) as [Hl Ho].
  { revert Hs1 Hst. clear. unfold RecordFailure. destruct cb1; simpl.
    case_match; simpl; [done|]. by intros ->. }
  split_and!; [done|done|done|]. intros u u' Hu.
  rewrite AllowRequest_open; [done|done|by rewrite Hl].
Qed.

Lemma opens_at_threshold_witness :
  cb_state (RecordFailure 5 6 (fail_many [(3, 4)] (NewCircuitBreaker "demo" demo_config 1)))
  = StateOpen.
Proof.
  pose proof (opens_at_threshold (NewCircuitBreaker "demo" demo_config 1) [(3, 4)] 5 6) as H.
  assert (breaker_wf (NewCircuitBreaker "demo" demo_config 1)) as Hwf
    by (split; vm_compute; auto).
  specialize (H Hwf ltac:(vm_compute; discriminate) ltac:(reflexivity) ltac:(reflexivity)
    ltac:(vm_compute; discriminate)).
  exact (proj1 (proj2 H)).
Defined.

(** C11. The sequential methods are what the atomic steps compute when no other
    goroutine interferes: run alone, each method reaches its return in at most
    eight actions, in the state and with the answer of the sequential
    definition. *)
Theorem solo_runs_refine (clk : pc → Time) cb :
  run_solo clk 8 cb (Running AStart)
    = (let '(b, cb') := AllowRequest (clk ACheck) (clk AReset) cb in Some (Allowed b, cb')) ∧
  run_solo clk 8 cb (Running SStart) = Some (Returned, RecordSuccess (clk SStamp) cb) ∧
  run_solo clk 8 cb (Running RState) = Some (Returned, Reset (clk RStamp) cb) ∧
  let failures := int32_wrap (cb_consecutiveFailures cb + 1) in
  run_solo clk 8 cb (Running FStart)
    = Some (Returned, RecordFailure (clk (FLast failures)) (clk FStamp) cb).
Proof.
  destruct cb as [n s ft rt hm hr cf ls lf tr ts tf o].
  split_and!; unfold AllowRequest, RecordSuccess, RecordFailure, Reset;
    simpl; unfold cas_state, StateClosed, StateOpen, StateHalfOpen; simpl;
    repeat (case_match; simplify_eq/=; bool_facts; simplify_eq/=); try done; try lia.
Qed.

(** C14. Under every interleaving of any number of goroutines calling any of the
    methods, the breaker keeps a state the [switch] knows (the "should never
    get here" branch is dead), its settings stay positive, and the next action
    of any goroutine moves the state only along an edge of the state diagram:
    closed to open, open to half-open, half-open to open, and anything to
    closed. *)
Theorem interleavings_stay_legal cb ts es e :
  breaker_wf cb →
  Forall (λ t, ∃ p, t = Running p ∧ p ∈ [AStart; SStart; FStart; RState]) ts →
  let sys := sys_run (cb, ts) es in
  breaker_wf sys.1 ∧ legal (cb_state sys.1) (cb_state (sys_step sys e).1).
Proof.
  intros Hwf Hts.
  assert (sys_wf (sys_run (cb, ts) es)) as Hsys.
  { apply sys_run_wf. split; [done|]. eapply list.Forall_impl; [done|].
    intros t (p&->&Hp). by rewrite !elem_of_cons in Hp; destruct Hp as [->|[->|[->|[->|?%not_elem_of_nil]]]]. }
  split; [apply Hsys|by apply sys_step_spec].
Qed.

Lemma interleavings_stay_legal_witness :
  breaker_wf (sys_run (demo_open, [Running AStart; Running FStart; Running SStart])
    [(0%nat, demo_late); (1%nat, demo_late); (0%nat, demo_late); (0%nat, demo_late);
     (2%nat, demo_late); (0%nat, demo_late); (0%nat, demo_late)]).1.
Proof.
  apply (interleavings_stay_legal demo_open _ _ (0%nat, 0)).
  - split; vm_compute; auto.
  - repeat constructor; eexists; (split; [reflexivity|set_solver]).
Defined.

(** C15. Between two executions of the [halfOpenReqs = 0] section, whatever the
    interleaving, the goroutines that increment [halfOpenReqs] admit no more
    requests than the quota that was left. *)
Theorem half_open_quota_concurrent cb ts es :
  no_reset (cb, ts) es → 0 <= cb_halfOpenReqs cb →
  cb_halfOpenReqs cb + Z.of_nat (length es) <= max_int32 →
  Z.of_nat (admitted (cb, ts) es) <= Z.max 0 (cb_halfOpenMaxReqs cb - cb_halfOpenReqs cb).
Proof. intros. by apply admitted_quota. Qed.

(** A breaker that has just turned half-open, and four goroutines that all
    reach the half-open case. *)
Definition demo_half : CircuitBreaker := (AllowRequest demo_late demo_late demo_open).2.
Definition demo_round : list (nat * Time) :=
  flat_map (λ i, [(i, demo_late); (i, demo_late); (i, demo_late)]) (seq 0 4).

Lemma half_open_quota_concurrent_witness :
  Z.of_nat (admitted (demo_half, replicate 4 (Running AStart)) demo_round) <= 2.
Proof.
  apply (half_open_quota_concurrent demo_half (replicate 4 (Running AStart)) demo_round).
  - repeat (split; [vm_compute; intros Heq; discriminate Heq|]). exact I.
  - vm_compute. discriminate.
  - vm_compute. discriminate.
Defined.

(** The limit of the half-open state is not a limit under concurrency: the
    counter is zeroed after the state has been published as half-open, so
    requests admitted in between are forgotten. With a quota of three, a
    schedule of six goroutines that call [AllowRequest] on an open, timed out
    breaker, whose state changes only once, admits all six. *)
Theorem half_open_quota_race :
  ∃ es, let sys := sys_run (demo_open, replicate 6 (Running AStart)) es in
    cb_halfOpenMaxReqs demo_open = 3 ∧ cb_state sys.1 = StateHalfOpen ∧
    sys.2 = replicate 6 (Allowed true).
Proof.
  (* goroutine 0 swaps the state; 1, 2, 3 are admitted on the old counter; only
     then does 0 zero it, so 0, 4 and 5 compete for a fresh quota of three *)
  exists (map (λ i, (i, demo_late))
    ([0;0;0;0] ++ [1;1;1] ++ [2;2;2] ++ [3;3;3] ++ [0;0;0] ++ [4;4;4] ++ [5;5;5])%nat).
  vm_compute. auto.
Qed.
