(* ===== verification/KVStore.v ===== *)
(** * storage/storage.go, the key-value part of [StateStorage]

    The errors and the stored pairs of pkg/storage/storage.go, the abstract
    specification of the key-value operations (a partial map from keys to
    values with an expiration), and the interface through which the coordinator
    and the managers use the storage. Storage.v discharges it for the sharded
    in-memory implementation. *)

From S2P Require Import Prelude.

(** The sentinel errors of storage.go. *)
Inductive StorageError : Type :=
| ErrNotFound
| ErrAlreadyExists
| ErrInvalidKey
| ErrInvalidValue
| ErrStorageFull
| ErrKeyExpired.

#[export] Instance StorageError_eq_dec : EqDecision StorageError.
Proof. solve_decision. Defined.

Record KeyValue : Type := mkKeyValue { kv_Value : bytes; kv_Expiration : Time }.

#[export] Instance KeyValue_eq_dec : EqDecision KeyValue.
Proof. solve_decision. Defined.

(** [!kv.Expiration.IsZero() && kv.Expiration.Before(time.Now())]. *)
Definition kv_expired (now : Time) (kv : KeyValue) : bool :=
  negb (IsZero (kv_Expiration kv)) && Before (kv_Expiration kv) now.

(** The expiration of a value stored at [now] for the duration [d]. *)
Definition expire_at (now : Time) (d : Duration) : Time :=
  if 0 <? d then Add now d else zero_time.

(** ** Specification: the storage as a map *)

Abbreviation view := (string → option KeyValue) (only parsing).

Definition view_set (k : string) (o : option KeyValue) (v : view) : view :=
  λ k', if decide (k = k') then o else v k'.

Definition spec_Get (k : string) (now : Time) (v : view)
    : result StorageError bytes * view :=
  if decide (k = "") then (Err ErrInvalidKey, v)
  else match v k with
       | None => (Err ErrNotFound, v)
       | Some kv =>
           if kv_expired now kv then (Err ErrKeyExpired, view_set k None v)
           else (Ok (kv_Value kv), v)
       end.

Definition spec_Set (k : string) (value : option bytes) (d : Duration) (now : Time)
    (v : view) : result StorageError unit * view :=
  if decide (k = "") then (Err ErrInvalidKey, v)
  else match value with
       | None => (Err ErrInvalidValue, v)
       | Some b => (Ok tt, view_set k (Some (mkKeyValue b (expire_at now d))) v)
       end.

Definition spec_Delete (k : string) (v : view) : result StorageError unit * view :=
  if decide (k = "") then (Err ErrInvalidKey, v)
  else match v k with
       | None => (Err ErrNotFound, v)
       | Some _ => (Ok tt, view_set k None v)
       end.

(** ** The interface *)

Class KV (S : Type) : Type := {
  kv_view : S → view;
  kv_wf : S → Prop;
  kv_Get : string → Time → GoM S (result StorageError bytes);
  kv_Set : string → option bytes → Duration → Time → GoM S (result StorageError unit);
  kv_Delete : string → GoM S (result StorageError unit)
}.

(** [refines s r s' spec]: a call that went from [s] to [s'] and completed with
    [r] did what [spec] says of the views. *)
Definition refines {S R} `{KV S} (call : GoM S R) (spec : view → R * view) : Prop :=
  ∀ s, kv_wf s → ∃ s',
    call s = (Done (spec (kv_view s)).1, s') ∧ kv_wf s' ∧
    ∀ k, kv_view s' k = (spec (kv_view s)).2 k.

Class KVLaws (S : Type) `{KV S} : Prop := {
  kv_Get_refines k now : refines (kv_Get k now) (spec_Get k now);
  kv_Set_refines k value d now : refines (kv_Set k value d now) (spec_Set k value d now);
  kv_Delete_refines k : refines (kv_Delete k) (spec_Delete k)
}.

(** ** Facts about the specification *)

Lemma view_set_eq k o v : view_set k o v k = o.
Proof. unfold view_set. by rewrite decide_True. Qed.

Lemma view_set_ne k k' o v : k ≠ k' → view_set k o v k' = v k'.
Proof. intros. unfold view_set. by rewrite decide_False. Qed.

#[export] Hint Rewrite view_set_eq : gateway.
#[export] Hint Rewrite view_set_ne using done : gateway.

Lemma spec_Get_hit k now v kv :
  k ≠ "" → v k = Some kv → kv_expired now kv = false →
  spec_Get k now v = (Ok (kv_Value kv), v).
Proof. intros Hk Hv He. unfold spec_Get. by rewrite decide_False, Hv, He. Qed.

Lemma spec_Set_ok k b d now v :
  k ≠ "" →
  spec_Set k (Some b) d now v
    = (Ok tt, view_set k (Some (mkKeyValue b (expire_at now d))) v).
Proof. intros Hk. unfold spec_Set. by rewrite decide_False. Qed.

(** A value stored for a positive duration has not expired before its end. *)
Lemma expire_at_live b now d now' :
  0 < now → now' <= now + d → kv_expired now' (mkKeyValue b (expire_at now d)) = false.
Proof.
  intros Hn Hle. unfold kv_expired, expire_at, Before, IsZero, Add, zero_time. simpl.
  destruct (Z.ltb_spec 0 d); [|done].
  rewrite (proj2 (Z.ltb_ge _ _)) by lia. by rewrite andb_false_r.
Qed.

(** ** The specification is its own implementation *)

#[export] Instance view_KV : KV view := {|
  kv_view := λ v, v;
  kv_wf := λ _, True;
  kv_Get := λ k now v, (Done (spec_Get k now v).1, (spec_Get k now v).2);
  kv_Set := λ k b d now v, (Done (spec_Set k b d now v).1, (spec_Set k b d now v).2);
  kv_Delete := λ k v, (Done (spec_Delete k v).1, (spec_Delete k v).2)
|}.

#[export] Instance view_KVLaws : KVLaws view.
Proof. split; intros; intros s _; eexists; (split; [reflexivity|done]). Qed.

(** ** Histories

    A client's history of calls, the results it observes from an
    implementation, and the results the specification gives it. *)

Inductive kv_op : Type :=
| KGet (key : string) (now : Time)
| KSet (key : string) (value : option bytes) (d : Duration) (now : Time)
| KDelete (key : string).

Inductive kv_res : Type :=
| RValue (r : result StorageError bytes)
| RUnit (r : result StorageError unit).

Definition kv_exec {S} `{KV S} (o : kv_op) : GoM S kv_res :=
  match o with
  | KGet key now => r ← kv_Get key now; mret (RValue r)
  | KSet key value d now => r ← kv_Set key value d now; mret (RUnit r)
  | KDelete key => r ← kv_Delete key; mret (RUnit r)
  end.

Fixpoint kv_history {S} `{KV S} (ops : list kv_op) : GoM S (list kv_res) :=
  match ops with
  | [] => mret []
  | o :: ops => r ← kv_exec o; rs ← kv_history ops; mret (r :: rs)
  end.

Definition spec_exec (o : kv_op) (v : view) : kv_res * view :=
  match o with
  | KGet key now => let '(r, v) := spec_Get key now v in (RValue r, v)
  | KSet key value d now => let '(r, v) := spec_Set key value d now v in (RUnit r, v)
  | KDelete key => let '(r, v) := spec_Delete key v in (RUnit r, v)
  end.

Fixpoint spec_history (ops : list kv_op) (v : view) : list kv_res * view :=
  match ops with
  | [] => ([], v)
  | o :: ops =>
      let '(r, v) := spec_exec o v in
      let '(rs, v) := spec_history ops v in (r :: rs, v)
  end.

(** Two views are the same map when they agree at every key; the
    specification cannot tell them apart. *)
Definition view_eq (v v' : view) : Prop := ∀ k, v k = v' k.

#[export] Instance view_eq_equivalence : Equivalence view_eq.
Proof. split; unfold view_eq; [done|intros ? ? H k; by rewrite H|intros ? ? ? H1 H2 k; by rewrite H1]. Qed.

#[export] Instance view_set_proper k o : Proper (view_eq ==> view_eq) (view_set k o).
Proof. intros v v' Hv k'. unfold view_set. by case_decide. Qed.

Lemma spec_exec_eq o v v' :
  view_eq v v' →
  (spec_exec o v).1 = (spec_exec o v').1 ∧ view_eq (spec_exec o v).2 (spec_exec o v').2.
Proof.
  intros Hv. assert (∀ k, v k = v' k) as Hk by exact Hv.
  destruct o; simpl; unfold spec_Get, spec_Set, spec_Delete; rewrite <-?Hk;
    repeat case_match; simplify_eq/=; split; try done;
    by apply view_set_proper.
Qed.

Lemma kv_exec_refines {S} `{KVLaws S} o : refines (kv_exec o) (spec_exec o).
Proof.
  intros s Hs. destruct o; simpl.
  - destruct (kv_Get_refines key now s Hs) as (s'&E&?&?). exists s'.
    unfold mbind, GoM_bind. rewrite E. by destruct (spec_Get _ _ _).
  - destruct (kv_Set_refines key value d now s Hs) as (s'&E&?&?). exists s'.
    unfold mbind, GoM_bind. rewrite E. by destruct (spec_Set _ _ _ _ _).
  - destruct (kv_Delete_refines key s Hs) as (s'&E&?&?). exists s'.
    unfold mbind, GoM_bind. rewrite E. by destruct (spec_Delete _ _).
Qed.

Lemma kv_history_refines {S} `{KVLaws S} ops s v :
  kv_wf s → view_eq (kv_view s) v →
  ∃ s', kv_history ops s = (Done (spec_history ops v).1, s') ∧ kv_wf s' ∧
    view_eq (kv_view s') (spec_history ops v).2.
Proof.
  revert s v. induction ops as [|o ops IH]; intros s v Hs Hv; simpl; [by exists s|].
  destruct (kv_exec_refines o s Hs) as (s1&E1&Hs1&Hv1).
  destruct (spec_exec_eq o _ _ Hv) as [Hr Hv2].
  destruct (spec_exec o v) as [r v1] eqn:Eo. simpl in *.
  assert (view_eq (kv_view s1) v1) as Hv3 by (etrans; [exact Hv1|exact Hv2]).
  destruct (IH s1 v1 Hs1 Hv3) as (s2&E2&?&?).
  destruct (spec_history ops v1) as [rs v2]. exists s2.
  unfold mbind, GoM_bind. rewrite E1, E2, Hr. done.
Qed.
