(* ===== verification/Storage.v ===== *)
(** * storage/memory.go: the in-memory storage

    The records of pkg/storage/storage.go and the sharded, pointer-holding
    storage of pkg/storage/memory.go. Objects live in a heap; the [sync.Map]s
    hold [interface{}] values, that is locations of objects of any type, and
    the type assertions of the source are checked where the source has them. *)

From S2P Require Import Prelude KVStore.

(** ** Data *)

Record Dialog : Type := mkDialog {
  dlg_CallID : string; dlg_FromTag : string; dlg_ToTag : string; dlg_State : string;
  dlg_Route : list string; dlg_RemoteSeq : Z; dlg_LocalSeq : Z; dlg_RemoteURI : string;
  dlg_LocalURI : string; dlg_RemoteTarget : string; dlg_CreateTime : Time;
  dlg_UpdateTime : Time; dlg_ExpireTime : Time; dlg_Data : gmap string string }.

Record RTPSession : Type := mkRTPSession {
  rtp_CallID : string; rtp_EngineIdx : Z; rtp_EngineAddr : string; rtp_FromTag : string;
  rtp_ToTag : string; rtp_MediaInfo : string; rtp_Created : Time; rtp_Updated : Time;
  rtp_ExpireTime : Time }.

Record AMIAction : Type := mkAMIAction {
  ami_ActionID : string; ami_Command : string; ami_Params : gmap string string;
  ami_ClientID : string; ami_Timestamp : Time; ami_Retries : Z; ami_ExpireTime : Time }.

Record ClientSession : Type := mkClientSession {
  cs_ClientID : string; cs_UserAgent : string; cs_SIPAddress : string;
  cs_CallIDs : list string; cs_CreateTime : Time; cs_LastSeen : Time;
  cs_ExpireTime : Time; cs_Data : gmap string string }.

Record WSConnectionInfo : Type := mkWSConnectionInfo {
  ws_ClientID : string; ws_ServerAddr : string; ws_RemoteAddr : string;
  ws_Protocol : string; ws_Created : Time; ws_LastSeen : Time; ws_ExpireTime : Time }.

Record Registration : Type := mkRegistration {
  reg_AOR : string; reg_Contact : string; reg_Expires : Z; reg_UserAgent : string;
  reg_CallID : string; reg_CSeq : Z; reg_RegisterTime : Time; reg_ExpireTime : Time }.

Record StorageStats : Type := mkStorageStats {
  st_TotalItems : Z; st_DialogCount : Z; st_RTPSessionCount : Z; st_AMIActionCount : Z;
  st_ClientCount : Z; st_WSConnCount : Z; st_RegCount : Z; st_ExpiredItems : Z;
  st_EvictedItems : Z }.

(** The six specialised stores. *)
Inductive kind : Type := KDialog | KRTP | KAMI | KClient | KWS | KReg.

#[export] Instance kind_eq_dec : EqDecision kind.
Proof. solve_decision. Defined.

(** A heap object. *)
Inductive object : Type :=
| ODialog (d : Dialog)
| ORTP (s : RTPSession)
| OAMI (a : AMIAction)
| OClient (s : ClientSession)
| OWS (i : WSConnectionInfo)
| OReg (r : Registration).

Definition kind_of (o : object) : kind :=
  match o with
  | ODialog _ => KDialog | ORTP _ => KRTP | OAMI _ => KAMI
  | OClient _ => KClient | OWS _ => KWS | OReg _ => KReg
  end.

Abbreviation loc := nat (only parsing).

Record MemoryStorage : Type := mkMemoryStorage {
  data : list (gmap string KeyValue);
  shardCount : Z;
  dialogs : gmap string loc;
  rtpSessions : gmap string loc;
  amiActions : gmap string loc;
  clientSessions : gmap string loc;
  wsConnections : gmap string loc;
  registrations : gmap string loc;
  maxKeys : Z;
  cleanupInterval : Duration;
  persistPath : string;
  persistOnShutdown : bool;
  stats : StorageStats;
  stopCleanup_closed : bool;
  cleanupDone_closed : bool
}.

Record MemoryConfig : Type := mkMemoryConfig {
  cfg_MaxKeys : Z; cfg_CleanupInterval : Duration; cfg_PersistPath : string;
  cfg_PersistOnShutdown : bool; cfg_ShardCount : Z }.

(** The storage and the objects the program has allocated. *)
Record World : Type := mkWorld { w_mem : MemoryStorage; w_heap : loc → object }.

(** ** Field access *)

Definition set_data (v : list (gmap string KeyValue)) (m : MemoryStorage) : MemoryStorage :=
  let '(mkMemoryStorage _ sc d r a c w g mk ci pp ps st s1 s2) := m in
  mkMemoryStorage v sc d r a c w g mk ci pp ps st s1 s2.
Definition set_stats (v : StorageStats) (m : MemoryStorage) : MemoryStorage :=
  let '(mkMemoryStorage da sc d r a c w g mk ci pp ps _ s1 s2) := m in
  mkMemoryStorage da sc d r a c w g mk ci pp ps v s1 s2.

Definition index_of (k : kind) (m : MemoryStorage) : gmap string loc :=
  match k with
  | KDialog => dialogs m | KRTP => rtpSessions m | KAMI => amiActions m
  | KClient => clientSessions m | KWS => wsConnections m | KReg => registrations m
  end.
Definition set_index_of (k : kind) (v : gmap string loc) (m : MemoryStorage) : MemoryStorage :=
  let '(mkMemoryStorage da sc d r a c w g mk ci pp ps st s1 s2) := m in
  match k with
  | KDialog => mkMemoryStorage da sc v r a c w g mk ci pp ps st s1 s2
  | KRTP => mkMemoryStorage da sc d v a c w g mk ci pp ps st s1 s2
  | KAMI => mkMemoryStorage da sc d r v c w g mk ci pp ps st s1 s2
  | KClient => mkMemoryStorage da sc d r a v w g mk ci pp ps st s1 s2
  | KWS => mkMemoryStorage da sc d r a c v g mk ci pp ps st s1 s2
  | KReg => mkMemoryStorage da sc d r a c w v mk ci pp ps st s1 s2
  end.

Definition count_of (k : kind) (s : StorageStats) : Z :=
  match k with
  | KDialog => st_DialogCount s | KRTP => st_RTPSessionCount s | KAMI => st_AMIActionCount s
  | KClient => st_ClientCount s | KWS => st_WSConnCount s | KReg => st_RegCount s
  end.
(** [m.stats.XCount += n], on a Go [int]. *)
Definition add_count (k : kind) (n : Z) (s : StorageStats) : StorageStats :=
  let '(mkStorageStats t d r a c w g e v) := s in
  match k with
  | KDialog => mkStorageStats t (int64_wrap (d + n)) r a c w g e v
  | KRTP => mkStorageStats t d (int64_wrap (r + n)) a c w g e v
  | KAMI => mkStorageStats t d r (int64_wrap (a + n)) c w g e v
  | KClient => mkStorageStats t d r a (int64_wrap (c + n)) w g e v
  | KWS => mkStorageStats t d r a c (int64_wrap (w + n)) g e v
  | KReg => mkStorageStats t d r a c w (int64_wrap (g + n)) e v
  end.
Definition add_expired (s : StorageStats) : StorageStats :=
  let '(mkStorageStats t d r a c w g e v) := s in
  mkStorageStats t d r a c w g (int64_wrap (e + 1)) v.
Definition add_total (n : Z) (s : StorageStats) : StorageStats :=
  let '(mkStorageStats t d r a c w g e v) := s in
  mkStorageStats (int64_wrap (t + n)) d r a c w g e v.

Definition on_mem (f : MemoryStorage → MemoryStorage) (w : World) : World :=
  mkWorld (f (w_mem w)) (w_heap w).
Definition on_stats (f : StorageStats → StorageStats) : World → World :=
  on_mem (λ m, set_stats (f (stats m)) m).
Definition on_index (k : kind) (f : gmap string loc → gmap string loc) : World → World :=
  on_mem (λ m, set_index_of k (f (index_of k m)) m).
Definition on_object (l : loc) (f : object → object) (w : World) : World :=
  mkWorld (w_mem w) (<[l := f (w_heap w l)]> (w_heap w)).

(** ** Construction *)

Definition zero_stats : StorageStats := mkStorageStats 0 0 0 0 0 0 0 0 0.

(** The storage [NewMemoryStorage] builds before it loads a persisted file. *)
Definition NewMemoryStorage (config : MemoryConfig) : MemoryStorage :=
  let maxKeys := cfg_MaxKeys config in
  let maxKeys := if maxKeys <=? 0 then 10000 else maxKeys in
  let cleanupInterval := cfg_CleanupInterval config in
  let cleanupInterval := if cleanupInterval <=? 0 then 5 * Minute else cleanupInterval in
  let shardCount := cfg_ShardCount config in
  let shardCount := if shardCount <=? 0 then 32 else shardCount in
  let shards := replicate (Z.to_nat shardCount) ∅ in
  {| data := shards; shardCount := shardCount; dialogs := ∅; rtpSessions := ∅;
     amiActions := ∅; clientSessions := ∅; wsConnections := ∅; registrations := ∅;
     maxKeys := maxKeys; cleanupInterval := cleanupInterval;
     persistPath := cfg_PersistPath config;
     persistOnShutdown := cfg_PersistOnShutdown config; stats := zero_stats;
     stopCleanup_closed := false; cleanupDone_closed := false |}.

(** ** The sharded key-value store *)

(** [int(key[i])]. *)
Definition byte_value (c : Ascii.ascii) : Z := Z.of_N (Ascii.N_of_ascii c).

Definition hash_step (hash : Z) (c : Ascii.ascii) : Z :=
  int64_wrap (int64_wrap (31 * hash) + byte_value c).

Definition hash_key (key : string) : Z :=
  let hash := foldl hash_step 0 (String.list_ascii_of_string key) in
  if hash <? 0 then int64_wrap (- hash) else hash.

(** [m.data[hash%m.shardCount]]: the shard of a key is its position; Go's [%]
    truncates towards zero. *)
Definition shard_index (shardCount : Z) (key : string) : Z :=
  Z.rem (hash_key key) shardCount.

Definition getShard (key : string) (m : MemoryStorage) : outcome nat :=
  let i := shard_index (shardCount m) key in
  _ ← index (data m) i; Done (Z.to_nat i).

Definition shard_at (i : nat) (m : MemoryStorage) : gmap string KeyValue :=
  default ∅ (data m !! i).
Definition set_shard (i : nat) (f : gmap string KeyValue → gmap string KeyValue)
  (m : MemoryStorage) : MemoryStorage := set_data (alter f i (data m)) m.

Definition Get (key : string) (now : Time) : GoM World (result StorageError bytes) :=
  λ w, if decide (key = "") then (Done (Err ErrInvalidKey), w) else
  match getShard key (w_mem w) with
  | Done i =>
      match shard_at i (w_mem w) !! key with
      | Some kv =>
          if negb (IsZero (kv_Expiration kv)) && Before (kv_Expiration kv) now
          then (Done (Err ErrKeyExpired), on_mem (set_shard i (delete key)) w)
          else (Done (Ok (kv_Value kv)), w)
      | None => (Done (Err ErrNotFound), w)
      end
  | Panic p => (Panic p, w)
  | Deadlock => (Deadlock, w)
  end.

Definition Set_ (key : string) (value : option bytes) (expiration : Duration) (now : Time)
    : GoM World (result StorageError unit) :=
  λ w, if decide (key = "") then (Done (Err ErrInvalidKey), w) else
  match value with
  | None => (Done (Err ErrInvalidValue), w)
  | Some value =>
      let expireTime := if 0 <? expiration then Add now expiration else zero_time in
      match getShard key (w_mem w) with
      | Done i =>
          let w := on_mem (set_shard i <[key := mkKeyValue value expireTime]>) w in
          (Done (Ok tt), on_stats (add_total 1) w)
      | Panic p => (Panic p, w)
      | Deadlock => (Deadlock, w)
      end
  end.

Definition Delete (key : string) : GoM World (result StorageError unit) :=
  λ w, if decide (key = "") then (Done (Err ErrInvalidKey), w) else
  match getShard key (w_mem w) with
  | Done i =>
      match shard_at i (w_mem w) !! key with
      | Some _ =>
          let w := on_mem (set_shard i (delete key)) w in
          (Done (Ok tt), on_stats (add_total (-1)) w)
      | None => (Done (Err ErrNotFound), w)
      end
  | Panic p => (Panic p, w)
  | Deadlock => (Deadlock, w)
  end.

(** ** The typed stores *)

Definition expire_time (o : object) : Time :=
  match o with
  | ODialog d => dlg_ExpireTime d | ORTP s => rtp_ExpireTime s | OAMI a => ami_ExpireTime a
  | OClient s => cs_ExpireTime s | OWS i => ws_ExpireTime i | OReg r => reg_ExpireTime r
  end.

(** Registrations are tested for expiration without the [IsZero] guard. *)
Definition expired (k : kind) (now : Time) (o : object) : bool :=
  match k with
  | KReg => Before (expire_time o) now
  | _ => negb (IsZero (expire_time o)) && Before (expire_time o) now
  end.

(** [if t.IsZero() { t = d }]. *)
Definition or_default (t d : Time) : Time := if IsZero t then d else t.

(** The timestamps a [Store] method writes through the pointer it is given:
    [now] is its first clock reading, [now'] the one of the expiration. *)
Definition touch (now now' : Time) (o : object) : object :=
  match o with
  | ODialog (mkDialog id ft tg s r rs ls ru lu rt ct _ et da) =>
      ODialog (mkDialog id ft tg s r rs ls ru lu rt (or_default ct now) now
        (or_default et (Add now' (24 * Hour))) da)
  | ORTP (mkRTPSession id ei ea ft tg mi cr _ et) =>
      ORTP (mkRTPSession id ei ea ft tg mi (or_default cr now) now
        (or_default et (Add now' (24 * Hour))))
  | OAMI (mkAMIAction id co pa cl ts re et) =>
      OAMI (mkAMIAction id co pa cl (or_default ts now) re (or_default et (Add now' (1 * Hour))))
  | OClient (mkClientSession id ua sa ci ct _ et da) =>
      OClient (mkClientSession id ua sa ci (or_default ct now) now
        (or_default et (Add now' (24 * Hour))) da)
  | OWS (mkWSConnectionInfo id sa ra pr cr _ et) =>
      OWS (mkWSConnectionInfo id sa ra pr (or_default cr now) now
        (or_default et (Add now' (1 * Hour))))
  | OReg (mkRegistration ao co ex ua ci cs rt et) =>
      OReg (mkRegistration ao co ex ua ci cs (or_default rt now)
        (or_default et (Add now' (int64_wrap (ex * Second)))))
  end.

(** The key under which an object stores itself ([StoreWSConnection] is given
    the key separately). *)
Definition key_of (o : object) : string :=
  match o with
  | ODialog d => dlg_CallID d | ORTP s => rtp_CallID s | OAMI a => ami_ActionID a
  | OClient s => cs_ClientID s | OWS i => ws_ClientID i | OReg r => reg_AOR r
  end.

(** Load, the type assertion, the expiration test. An expired entry is
    deleted, uncounted, and counted as expired. *)
Definition typed_Get (k : kind) (key : string) (now : Time)
    : GoM World (result StorageError loc) :=
  λ w, if decide (key = "") then (Done (Err ErrInvalidKey), w) else
  match index_of k (w_mem w) !! key with
  | Some l =>
      let o := w_heap w l in
      if decide (kind_of o = k) then
        if expired k now o then
          (Done (Err ErrKeyExpired),
           on_stats (λ s, add_expired (add_count k (-1) s)) (on_index k (delete key) w))
        else (Done (Ok l), w)
      else (Panic TypeAssertion, w)
  | None => (Done (Err ErrNotFound), w)
  end.

(** Timestamps, Load, Store, and the count when the key was absent. *)
Definition typed_Store (k : kind) (key : string) (l : loc) (now now' : Time)
    : GoM World (result StorageError unit) :=
  λ w, let w := on_object l (touch now now') w in
  let exists_ := bool_decide (is_Some (index_of k (w_mem w) !! key)) in
  let w := on_index k <[key := l]> w in
  (Done (Ok tt), if exists_ then w else on_stats (add_count k 1) w).

Definition typed_Delete (k : kind) (key : string) : GoM World (result StorageError unit) :=
  λ w, if decide (key = "") then (Done (Err ErrInvalidKey), w) else
  match index_of k (w_mem w) !! key with
  | Some _ =>
      (Done (Ok tt), on_stats (add_count k (-1)) (on_index k (delete key) w))
  | None => (Done (Err ErrNotFound), w)
  end.

(** The pointer argument of a [Store] method: [nil] is [None]. *)
Definition store_self (k : kind) (p : option loc) (now now' : Time)
    : GoM World (result StorageError unit) :=
  λ w, match p with
  | None => (Done (Err ErrInvalidValue), w)
  | Some l =>
      if decide (key_of (w_heap w l) = "") then (Done (Err ErrInvalidValue), w)
      else typed_Store k (key_of (w_heap w l)) l now now' w
  end.

Definition GetDialog := typed_Get KDialog.
Definition StoreDialog := store_self KDialog.
Definition DeleteDialog := typed_Delete KDialog.
Definition GetRTPSession := typed_Get KRTP.
Definition StoreRTPSession := store_self KRTP.
Definition DeleteRTPSession := typed_Delete KRTP.
Definition GetAMIAction := typed_Get KAMI.
Definition StoreAMIAction := store_self KAMI.
Definition DeleteAMIAction := typed_Delete KAMI.
Definition GetClientSession := typed_Get KClient.
Definition StoreClientSession := store_self KClient.
Definition DeleteClientSession := typed_Delete KClient.
Definition GetWSConnection := typed_Get KWS.
Definition StoreWSConnection (clientID : string) (info : option loc) (now now' : Time)
    : GoM World (result StorageError unit) :=
  λ w, match info with
  | None => (Done (Err ErrInvalidValue), w)
  | Some l => if decide (clientID = "") then (Done (Err ErrInvalidValue), w)
              else typed_Store KWS clientID l now now' w
  end.
Definition DeleteWSConnection := typed_Delete KWS.
Definition GetRegistration := typed_Get KReg.
Definition StoreRegistration := store_self KReg.
Definition DeleteRegistration := typed_Delete KReg.

(** ** Iteration

    [sync.Map.Range] visits every entry once, in an order it does not promise:
    [es] is the order of one execution, [clk] the clock read when a key is
    visited. The callback deletes and uncounts the expired entries and
    collects the others. *)
Fixpoint range_live (k : kind) (clk : string → Time) (es : list (string * loc))
    (acc : list (string * loc)) : GoM World (list (string * loc)) :=
  λ w, match es with
  | [] => (Done acc, w)
  | (key, l) :: es =>
      let o := w_heap w l in
      if decide (kind_of o = k) then
        if expired k (clk key) o then
          range_live k clk es acc
            (on_stats (λ s, add_expired (add_count k (-1) s)) (on_index k (delete key) w))
        else range_live k clk es (acc ++ [(key, l)]) w
      else (Panic TypeAssertion, w)
  end.

(** An execution's iteration orders and clock. *)
Record Iteration : Type := mkIteration {
  it_kv : gmap string KeyValue → list (string * KeyValue);
  it_loc : gmap string loc → list (string * loc);
  it_clk_kv : nat → string → Time;
  it_clk : kind → string → Time
}.

Definition fair (it : Iteration) : Prop :=
  (∀ m, it_kv it m ≡ₚ map_to_list m) ∧ (∀ m, it_loc it m ≡ₚ map_to_list m).

Definition typed_List (k : kind) (it : Iteration) : GoM World (list (string * loc)) :=
  λ w, range_live k (it_clk it k) (it_loc it (index_of k (w_mem w))) [] w.

Definition list_values (k : kind) (it : Iteration) : GoM World (list loc) :=
  es ← typed_List k it; mret (snd <$> es).

Definition ListDialogs := list_values KDialog.
Definition ListRTPSessions := list_values KRTP.
Definition ListClientSessions := list_values KClient.
Definition ListRegistrations := list_values KReg.
Definition ListAMIActionIDs (it : Iteration) : GoM World (list string) :=
  es ← typed_List KAMI it; mret (fst <$> es).

Definition Ping : result StorageError unit := Ok tt.
Definition Stats : GoM World StorageStats := λ w, (Done (stats (w_mem w)), w).

(** ** Cleanup *)

(** One shard: collect the expired keys, then delete each and count it. *)
Definition keysToDelete (it : Iteration) (i : nat) (m : MemoryStorage) : list string :=
  fst <$> filter (λ e, kv_expired (it_clk_kv it i e.1) e.2 = true) (it_kv it (shard_at i m)).

Definition delete_key (i : nat) (w : World) (key : string) : World :=
  on_stats (λ s, add_expired (add_total (-1) s)) (on_mem (set_shard i (delete key)) w).

Definition cleanup_shard (it : Iteration) (w : World) (i : nat) : World :=
  foldl (delete_key i) w (keysToDelete it i (w_mem w)).

Definition Cleanup (it : Iteration) : GoM World unit :=
  modify (λ w, foldl (cleanup_shard it) w (seq 0 (Z.to_nat (shardCount (w_mem w)))));;
  ListDialogs it;; ListRTPSessions it;; ListClientSessions it;; ListRegistrations it;;
  mret tt.

(** [cleanupLoop]: the channel its [select] receives from, for each iteration.
    A stop closes [cleanupDone]; a tick runs [Cleanup]. *)
Inductive cleanup_event : Type := Stop | Tick (it : Iteration).

Definition set_cleanupDone (m : MemoryStorage) : MemoryStorage :=
  let '(mkMemoryStorage da sc d r a c w g mk ci pp ps st s1 _) := m in
  mkMemoryStorage da sc d r a c w g mk ci pp ps st s1 true.

Fixpoint cleanupLoop (es : list cleanup_event) : GoM World unit :=
  match es with
  | [] => mret tt
  | Stop :: _ => modify (on_mem set_cleanupDone)
  | Tick it :: es => Cleanup it;; cleanupLoop es
  end.

(** ** Frame lemmas *)

Definition idx (k : kind) (w : World) : gmap string loc := index_of k (w_mem w).
Definition cnt (k : kind) (w : World) : Z := count_of k (stats (w_mem w)).

Lemma idx_on_index k k' f w :
  idx k (on_index k' f w) = if decide (k = k') then f (idx k w) else idx k w.
Proof. destruct w as [[] ?]. unfold idx, on_index, on_mem. by destruct k, k'. Qed.
Lemma idx_on_stats k f w : idx k (on_stats f w) = idx k w.
Proof. destruct w as [[] ?]. by destruct k. Qed.
Lemma idx_on_object k l f w : idx k (on_object l f w) = idx k w.
Proof. done. Qed.
Lemma cnt_on_index k k' f w : cnt k (on_index k' f w) = cnt k w.
Proof. destruct w as [[] ?]. by destruct k, k'. Qed.
Lemma cnt_on_object k l f w : cnt k (on_object l f w) = cnt k w.
Proof. done. Qed.
Lemma cnt_add_count k k' n w :
  cnt k (on_stats (add_count k' n) w)
  = if decide (k = k') then int64_wrap (cnt k w + n) else cnt k w.
Proof. destruct w as [[????????????[]] ?]. unfold cnt. by destruct k, k'. Qed.
Lemma cnt_expire k k' n w :
  cnt k (on_stats (λ s, add_expired (add_count k' n s)) w)
  = if decide (k = k') then int64_wrap (cnt k w + n) else cnt k w.
Proof. destruct w as [[????????????[]] ?]. unfold cnt. by destruct k, k'. Qed.
Lemma cnt_add_total k n w : cnt k (on_stats (add_total n) w) = cnt k w.
Proof. destruct w as [[????????????[]] ?]. by destruct k. Qed.
Lemma cnt_expire_total k n w : cnt k (on_stats (λ s, add_expired (add_total n s)) w) = cnt k w.
Proof. destruct w as [[????????????[]] ?]. by destruct k. Qed.
Lemma idx_set_shard k i f w : idx k (on_mem (set_shard i f) w) = idx k w.
Proof. destruct w as [[] ?]. by destruct k. Qed.
Lemma cnt_set_shard k i f w : cnt k (on_mem (set_shard i f) w) = cnt k w.
Proof. by destruct w as [[] ?]. Qed.
Lemma heap_on_index k f w : w_heap (on_index k f w) = w_heap w.
Proof. done. Qed.
Lemma heap_on_stats f w : w_heap (on_stats f w) = w_heap w.
Proof. done. Qed.

#[export] Hint Rewrite idx_on_index idx_on_stats idx_on_object cnt_on_index cnt_on_object
  cnt_add_count cnt_expire cnt_add_total cnt_expire_total idx_set_shard cnt_set_shard
  heap_on_index heap_on_stats : gateway.

(** The key-value shards are untouched by the typed stores, and conversely. *)
Definition shl (w : World) : list (gmap string KeyValue) := data (w_mem w).
Definition shn (w : World) : Z := shardCount (w_mem w).

Lemma shl_on_index k f w : shl (on_index k f w) = shl w.
Proof. destruct w as [[] ?]. by destruct k. Qed.
Lemma shn_on_index k f w : shn (on_index k f w) = shn w.
Proof. destruct w as [[] ?]. by destruct k. Qed.
Lemma shl_on_stats f w : shl (on_stats f w) = shl w.
Proof. by destruct w as [[] ?]. Qed.
Lemma shn_on_stats f w : shn (on_stats f w) = shn w.
Proof. by destruct w as [[] ?]. Qed.
Lemma shl_on_object l f w : shl (on_object l f w) = shl w.
Proof. done. Qed.
Lemma shn_on_object l f w : shn (on_object l f w) = shn w.
Proof. done. Qed.
Lemma shl_set_shard i f w : shl (on_mem (set_shard i f) w) = alter f i (shl w).
Proof. by destruct w as [[] ?]. Qed.
Lemma shn_set_shard i f w : shn (on_mem (set_shard i f) w) = shn w.
Proof. by destruct w as [[] ?]. Qed.

#[export] Hint Rewrite shl_on_index shn_on_index shl_on_stats shn_on_stats shl_on_object
  shn_on_object shl_set_shard shn_set_shard : gateway.

(** ** The hash picks a shard *)

Lemma byte_value_range c : 0 <= byte_value c < 256.
Proof. unfold byte_value. pose proof (Ascii.N_ascii_bounded c). lia. Qed.

Lemma hash_fold_range h l : is_int64 h → is_int64 (foldl hash_step h l).
Proof.
  revert h. induction l as [|c l IH]; intros h Hh; simpl; [done|].
  apply IH, int64_wrap_range.
Qed.

Lemma hash_key_range key : 0 <= hash_key key <= max_int64 ∨ hash_key key = min_int64.
Proof.
  unfold hash_key.
  assert (is_int64 0) as H0 by (unfold is_int64, min_int64, max_int64; lia).
  pose proof (hash_fold_range 0 (String.list_ascii_of_string key) H0) as H.
  set (h := foldl _ _ _) in *. unfold is_int64 in H.
  destruct (Z.ltb_spec h 0); [|lia].
  destruct (decide (h = min_int64)) as [->|Hne]; [by right|left].
  unfold min_int64, max_int64 in *.
  rewrite int64_wrap_small; unfold is_int64, min_int64, max_int64; lia.
Qed.

(** Truncated division of a key's hash by the shard count. *)
Lemma shard_index_range sc key :
  0 < sc → (hash_key key = min_int64 → (sc | 2 ^ 63)) →
  0 <= shard_index sc key < sc.
Proof.
  intros Hsc Hmin. unfold shard_index.
  destruct (hash_key_range key) as [Hr|Hr].
  - apply Z.rem_bound_pos; lia.
  - specialize (Hmin Hr). rewrite Hr. unfold min_int64.
    rewrite Z.rem_opp_l by lia. apply Z.rem_divide in Hmin; [|lia]. rewrite Hmin. lia.
Qed.

Definition shards_wf (w : World) : Prop :=
  0 < shn w ∧ Z.of_nat (length (shl w)) = shn w ∧ (shn w | 2 ^ 63).

Definition shard_no (sc : Z) (key : string) : nat := Z.to_nat (shard_index sc key).

Lemma getShard_ok key w :
  shards_wf w →
  getShard key (w_mem w) = Done (shard_no (shn w) key) ∧
  (shard_no (shn w) key < length (shl w))%nat.
Proof.
  intros (Hp&Hl&Hd). unfold getShard, shard_no, shn, shl in *.
  pose proof (shard_index_range (shardCount (w_mem w)) key Hp (λ _, Hd)) as Hr.
  destruct (index_Done (data (w_mem w)) (shard_index (shardCount (w_mem w)) key)) as (x&_&Hx);
    [lia|].
  rewrite Hx. split; [done|lia].
Qed.

(** The view of the sharded store as one map. *)
Definition mem_view (w : World) (key : string) : option KeyValue :=
  default ∅ (shl w !! shard_no (shn w) key) !! key.

Lemma shard_at_view key w : shard_at (shard_no (shn w) key) (w_mem w) !! key = mem_view w key.
Proof. done. Qed.

Lemma mem_view_insert key kv w :
  (shard_no (shn w) key < length (shl w))%nat → ∀ k',
  mem_view (on_mem (set_shard (shard_no (shn w) key) <[key := kv]>) w) k'
  = view_set key (Some kv) (mem_view w) k'.
Proof.
  intros Hl k'. unfold mem_view, view_set. autorewrite with gateway. cbn [fst snd].
  destruct (decide (key = k')) as [<-|Hne].
  - rewrite list_lookup_alter_eq.
    destruct (lookup_lt_is_Some_2 _ _ Hl) as [x ->]. cbn. by simplify_map_eq.
  - destruct (decide (shard_no (shn w) key = shard_no (shn w) k')) as [->|Hs].
    + rewrite list_lookup_alter_eq. destruct (shl w !! _); cbn; by simplify_map_eq.
    + by rewrite list_lookup_alter_ne.
Qed.

Lemma mem_view_delete key w k' :
  mem_view (on_mem (set_shard (shard_no (shn w) key) (delete key)) w) k'
  = view_set key None (mem_view w) k'.
Proof.
  unfold mem_view, view_set. autorewrite with gateway. cbn [fst snd].
  destruct (decide (key = k')) as [<-|Hne].
  - rewrite list_lookup_alter_eq. destruct (shl w !! _); cbn; by simplify_map_eq.
  - destruct (decide (shard_no (shn w) key = shard_no (shn w) k')) as [->|Hs].
    + rewrite list_lookup_alter_eq. destruct (shl w !! _); cbn; by simplify_map_eq.
    + by rewrite list_lookup_alter_ne.
Qed.

Lemma mem_view_on_stats f w k : mem_view (on_stats f w) k = mem_view w k.
Proof. unfold mem_view. by autorewrite with gateway. Qed.

#[export] Hint Rewrite mem_view_on_stats : gateway.

Lemma shards_wf_set_shard i f w : shards_wf w → shards_wf (on_mem (set_shard i f) w).
Proof. unfold shards_wf. autorewrite with gateway. by rewrite length_alter. Qed.

Lemma shards_wf_on_stats f w : shards_wf w → shards_wf (on_stats f w).
Proof. unfold shards_wf. by autorewrite with gateway. Qed.

#[export] Hint Resolve shards_wf_set_shard shards_wf_on_stats : gateway.

(** ** The in-memory storage implements the interface *)

#[export] Instance mem_KV : KV World := {|
  kv_view := mem_view; kv_wf := shards_wf;
  kv_Get := Get; kv_Set := Set_; kv_Delete := Delete |}.

#[export] Instance mem_KVLaws : KVLaws World.
Proof.
  split.
  - intros k now w Hwf. simpl in *. unfold Get, spec_Get.
    destruct (getShard_ok k w Hwf) as [-> Hl]. rewrite shard_at_view.
    unfold kv_expired.
    repeat case_match; simplify_eq/=; eexists; (split_and!; [done|auto with gateway|intros k']);
      by rewrite ?mem_view_delete.
  - intros k value d now w Hwf. simpl in *. unfold Set_, spec_Set, expire_at.
    destruct (getShard_ok k w Hwf) as [-> Hl].
    repeat case_match; simplify_eq/=; eexists; (split_and!; [done|auto with gateway|intros k']);
      autorewrite with gateway; by rewrite ?mem_view_insert.
  - intros k w Hwf. simpl in *. unfold Delete, spec_Delete.
    destruct (getShard_ok k w Hwf) as [-> Hl]. rewrite shard_at_view.
    repeat case_match; simplify_eq/=; eexists; (split_and!; [done|auto with gateway|intros k']);
      autorewrite with gateway; by rewrite ?mem_view_delete.
Qed.

(** ** The typed stores: invariant *)

(** [τ] gives the static type of every pointer. The counters are the sizes of
    the indexes, as Go [int]s. *)
Record store_inv (τ : loc → kind) (w : World) : Prop := {
  inv_counts : ∀ k, cnt k w = int64_wrap (Z.of_nat (size (idx k w)));
  inv_typed : ∀ k key l, idx k w !! key = Some l → τ l = k;
  inv_heap : ∀ l, kind_of (w_heap w l) = τ l;
  inv_shards : shards_wf w
}.

Lemma kind_of_touch now now' o : kind_of (touch now now' o) = kind_of o.
Proof. by destruct o as [[]|[]|[]|[]|[]|[]]. Qed.

Lemma shards_wf_on_index k f w : shards_wf w → shards_wf (on_index k f w).
Proof. unfold shards_wf. by autorewrite with gateway. Qed.

#[export] Hint Resolve shards_wf_on_index : gateway.

Lemma size_insert_old (m : gmap string loc) key l :
  is_Some (m !! key) → size (<[key:=l]> m) = size m.
Proof. intros [x Hx]. by apply map_size_insert_Some. Qed.

(** Removing an indexed entry and uncounting it keeps the invariant; counting
    an expiration does not matter. *)
Lemma inv_remove τ k key l w :
  store_inv τ w → idx k w !! key = Some l →
  store_inv τ (on_stats (add_count k (-1)) (on_index k (delete key) w)) ∧
  store_inv τ (on_stats (λ s, add_expired (add_count k (-1) s)) (on_index k (delete key) w)).
Proof.
  intros [Hc Ht Hh Hs] Hl.
  assert (∀ k', idx k' (on_index k (delete key) w)
    = if decide (k' = k) then delete key (idx k' w) else idx k' w) as Hidx
    by (intros; by autorewrite with gateway).
  assert (Z.of_nat (size (idx k w)) = Z.of_nat (size (delete key (idx k w))) + 1) as Hsz.
  { rewrite map_size_delete_Some by eauto.
    assert (size (idx k w) ≠ 0)%nat; [|lia].
    intros Hz%map_size_empty_inv. by rewrite Hz, lookup_empty in Hl. }
  split; split; auto with gateway; intros k' *; autorewrite with gateway;
    case_decide; subst; auto.
  all: first [ rewrite Hc, int64_wrap_add_l; f_equal; lia
             | intros [_ ?]%lookup_delete_Some; eauto
             | eauto ].
Qed.

Lemma inv_index τ k key l w :
  store_inv τ w → τ l = k →
  store_inv τ (let w' := on_index k <[key := l]> w in
    if bool_decide (is_Some (idx k w !! key)) then w' else on_stats (add_count k 1) w').
Proof.
  intros [Hc Ht Hh Hs] Hl. simpl.
  case_bool_decide as Hex; split; auto with gateway; intros k' *;
    autorewrite with gateway; case_decide; subst; auto.
  all: first [ by rewrite Hc, size_insert_old
             | rewrite Hc, int64_wrap_add_l, map_size_insert_None by (by apply eq_None_not_Some);
               f_equal; lia
             | intros [[_ <-]|[_ ?]]%lookup_insert_Some; eauto
             | eauto ].
Qed.

Lemma inv_object τ l f w :
  store_inv τ w → (∀ o, kind_of (f o) = kind_of o) → store_inv τ (on_object l f w).
Proof.
  intros [Hc Ht Hh Hs] Hf. split; auto; intros l'. simpl.
  destruct (decide (l = l')) as [<-|Hne].
  - by rewrite fn_lookup_insert, Hf.
  - by rewrite fn_lookup_insert_ne.
Qed.

Lemma typed_Get_inv τ k key now w :
  store_inv τ w → ∃ r w', typed_Get k key now w = (Done r, w') ∧ store_inv τ w'.
Proof.
  intros Hw. unfold typed_Get. case_decide; [by eauto|].
  fold (idx k w). destruct (idx k w !! key) as [l|] eqn:Hl; [|by eauto].
  rewrite decide_True by (rewrite (inv_heap _ _ Hw); by eapply inv_typed).
  case_match; [|by eauto]. do 2 eexists. split; [done|].
  by eapply inv_remove.
Qed.

Lemma typed_Store_inv τ k key l now now' w :
  store_inv τ w → τ l = k →
  ∃ w', typed_Store k key l now now' w = (Done (Ok tt), w') ∧ store_inv τ w'.
Proof.
  intros Hw Hl. unfold typed_Store. eexists. split; [done|].
  apply (inv_index τ k key l (on_object l (touch now now') w)); [|done].
  apply inv_object; [done|apply kind_of_touch].
Qed.

Lemma typed_Delete_inv τ k key w :
  store_inv τ w → ∃ r w', typed_Delete k key w = (Done r, w') ∧ store_inv τ w'.
Proof.
  intros Hw. unfold typed_Delete. case_decide; [by eauto|].
  fold (idx k w). destruct (idx k w !! key) as [l|] eqn:Hl; [|by eauto].
  do 2 eexists. split; [done|]. by eapply inv_remove.
Qed.

(** What a [Range] callback computes when it visits entries that are there:
    the live ones in order; the expired ones leave the index. *)
Lemma range_live_spec τ k clk es acc w :
  store_inv τ w → NoDup es.*1 → (∀ key l, (key, l) ∈ es → idx k w !! key = Some l) →
  ∃ w', range_live k clk es acc w
      = (Done (acc ++ filter (λ e, expired k (clk e.1) (w_heap w e.2) = false) es), w') ∧
    store_inv τ w' ∧ w_heap w' = w_heap w ∧ (∀ k', k' ≠ k → idx k' w' = idx k' w) ∧
    idx k w' = foldr delete (idx k w)
      (filter (λ e, expired k (clk e.1) (w_heap w e.2) = true) es).*1.
Proof.
  revert acc w. induction es as [|[key l] es IH]; intros acc w Hw Hnd Hin; simpl.
  { exists w. by rewrite app_nil_r. }
  apply NoDup_cons in Hnd as [Hni Hnd].
  assert (idx k w !! key = Some l) as Hl by (apply Hin; left).
  rewrite decide_True by (rewrite (inv_heap _ _ Hw); by eapply inv_typed).
  rewrite !filter_cons. simpl. destruct (expired k (clk key) (w_heap w l)) eqn:He; simpl.
  - destruct (IH acc _ (proj2 (inv_remove τ k key l w Hw Hl)) Hnd) as (w'&->&?&Hh&Hk&Hi).
    { intros key' l' Hin'. autorewrite with gateway. rewrite decide_True by done.
      rewrite lookup_delete_ne; [by apply Hin; right|].
      intros ->. apply Hni. by apply (list_elem_of_fmap_2 fst) in Hin'. }
    exists w'. autorewrite with gateway in *. rewrite Hi. split_and!; auto.
    + intros k' Hne. rewrite Hk by done. autorewrite with gateway. by rewrite decide_False.
    + by rewrite decide_True, delete_foldr_delete.
  - destruct (IH (acc ++ [(key, l)]) w Hw Hnd) as (w'&->&?&?&?&?).
    { intros. apply Hin. by right. }
    exists w'. rewrite <-app_assoc. by split_and!.
Qed.

Lemma list_inv τ k it w :
  fair it → store_inv τ w →
  ∃ w', typed_List k it w
      = (Done (filter (λ e, expired k (it_clk it k e.1) (w_heap w e.2) = false)
                 (it_loc it (idx k w))), w') ∧
    store_inv τ w' ∧ w_heap w' = w_heap w ∧ (∀ k', k' ≠ k → idx k' w' = idx k' w) ∧
    ∀ key, idx k w' !! key
      = l ← idx k w !! key; if expired k (it_clk it k key) (w_heap w l) then None else Some l.
Proof.
  intros [_ Hfair] Hw.
  assert (NoDup (it_loc it (idx k w)).*1) as Hnd.
  { rewrite Hfair. apply NoDup_fst_map_to_list. }
  assert (∀ key l, (key, l) ∈ it_loc it (idx k w) ↔ idx k w !! key = Some l) as Hin.
  { intros key l. rewrite Hfair. apply elem_of_map_to_list. }
  destruct (range_live_spec τ k (it_clk it k) (it_loc it (idx k w)) [] w Hw Hnd)
    as (w'&Hr&?&?&?&Hi); [naive_solver|].
  exists w'. split_and!; [done..|]. intros key. rewrite Hi.
  destruct (decide (key ∈ (filter (λ e : string * nat,
    expired k (it_clk it k e.1) (w_heap w e.2) = true) (it_loc it (idx k w))).*1)) as [Hd|Hd].
  - rewrite lookup_foldr_delete by done.
    apply list_elem_of_fmap in Hd as ([key' l]&->&[He Hl%Hin]%list_elem_of_filter).
    simpl in *. rewrite Hl. simpl. by rewrite He.
  - rewrite lookup_foldr_delete_not_elem_of by done.
    destruct (idx k w !! key) as [l|] eqn:Hl; simpl; [|done].
    destruct (expired k _ _) eqn:He; [|done]. exfalso. apply Hd.
    apply list_elem_of_fmap. exists (key, l). split; [done|].
    apply list_elem_of_filter. split; [done|]. by apply Hin.
Qed.

(** ** Cleanup of the key-value shards *)

Definition shard_lookup (w : World) (j : nat) (key : string) : option KeyValue :=
  default ∅ (shl w !! j) !! key.

Lemma delete_key_lookup i w key j key' :
  shard_lookup (delete_key i w key) j key'
  = if decide (j = i ∧ key' = key) then None else shard_lookup w j key'.
Proof.
  unfold shard_lookup, delete_key. autorewrite with gateway.
  rewrite list_lookup_alter. destruct (decide (i = j)) as [->|];
    [|by rewrite decide_False by naive_solver].
  destruct (shl w !! j); simpl; [|by rewrite lookup_empty; case_decide].
  rewrite lookup_delete. repeat case_decide; naive_solver.
Qed.

Lemma delete_keys_lookup i ks w j key' :
  shard_lookup (foldl (delete_key i) w ks) j key'
  = if decide (j = i ∧ key' ∈ ks) then None else shard_lookup w j key'.
Proof.
  revert w. induction ks as [|k ks IH]; intros w; simpl.
  { rewrite decide_False; [done|]. by intros [_ ?%not_elem_of_nil]. }
  rewrite IH, delete_key_lookup. repeat case_decide; set_solver.
Qed.

Lemma elem_of_keysToDelete it i w key :
  fair it →
  key ∈ keysToDelete it i (w_mem w) ↔
  ∃ kv, shard_lookup w i key = Some kv ∧ kv_expired (it_clk_kv it i key) kv = true.
Proof.
  intros [Hfair _]. unfold keysToDelete. rewrite list_elem_of_fmap.
  setoid_rewrite list_elem_of_filter. setoid_rewrite Hfair.
  unfold shard_lookup, shard_at, shl. split.
  - intros ([key' kv]&->&He&Hm%elem_of_map_to_list). eauto.
  - intros (kv&Hl&He). exists (key, kv). split_and!; [done|done|].
    by apply elem_of_map_to_list.
Qed.

(** What a key of shard [i] is worth after the cleanup of its shard. *)
Definition survives (it : Iteration) (i : nat) (key : string) (o : option KeyValue)
    : option KeyValue :=
  kv ← o; if kv_expired (it_clk_kv it i key) kv then None else Some kv.

Lemma cleanup_shard_lookup it w i j key :
  fair it →
  shard_lookup (cleanup_shard it w i) j key
  = if decide (j = i) then survives it i key (shard_lookup w j key) else shard_lookup w j key.
Proof.
  intros Hf. unfold cleanup_shard. rewrite delete_keys_lookup.
  pose proof (elem_of_keysToDelete it i w key Hf) as Hk.
  destruct (decide (j = i)) as [->|Hne]; [|by rewrite decide_False by naive_solver].
  unfold survives. case_decide as Hd.
  - destruct Hd as [_ (kv&->&He)%Hk]. simpl. by rewrite He.
  - destruct (shard_lookup w i key) as [kv|] eqn:Hl; simpl; [|done].
    destruct (kv_expired _ kv) eqn:He; [|done]. naive_solver.
Qed.

Lemma cleanup_shards_lookup it w n j key :
  fair it →
  shard_lookup (foldl (cleanup_shard it) w (seq 0 n)) j key
  = if decide (j < n)%nat then survives it j key (shard_lookup w j key)
    else shard_lookup w j key.
Proof.
  intros Hf. induction n as [|n IH]; [by rewrite decide_False by lia|].
  rewrite seq_S, foldl_snoc, cleanup_shard_lookup, IH by done. simpl.
  repeat case_decide; subst; try lia; done.
Qed.

Lemma delete_key_frame τ i w key :
  store_inv τ w →
  store_inv τ (delete_key i w key) ∧ shn (delete_key i w key) = shn w ∧
  w_heap (delete_key i w key) = w_heap w ∧ ∀ k, idx k (delete_key i w key) = idx k w.
Proof.
  intros [Hc Ht Hh Hs]. unfold delete_key. split_and!.
  - split; auto with gateway; intros k *; autorewrite with gateway; eauto.
  - by autorewrite with gateway.
  - done.
  - intros k. by autorewrite with gateway.
Qed.

Definition same_typed (w w' : World) : Prop :=
  shn w' = shn w ∧ w_heap w' = w_heap w ∧ ∀ k, idx k w' = idx k w.

Lemma delete_keys_frame τ i ks w :
  store_inv τ w → let w' := foldl (delete_key i) w ks in store_inv τ w' ∧ same_typed w w'.
Proof.
  unfold same_typed. revert w. induction ks as [|k ks IH]; intros w Hw; simpl; [done|].
  destruct (delete_key_frame τ i w k Hw) as (Hw1&E1&E2&E3).
  destruct (IH _ Hw1) as (?&->&->&Hk). split_and!; [done..|]. intros. by rewrite Hk.
Qed.

Lemma cleanup_shards_frame τ it js w :
  store_inv τ w →
  let w' := foldl (cleanup_shard it) w js in store_inv τ w' ∧ same_typed w w'.
Proof.
  unfold same_typed. revert w. induction js as [|i js IH]; intros w Hw; simpl; [done|].
  fold (cleanup_shard it w i).
  destruct (delete_keys_frame τ i (keysToDelete it i (w_mem w)) w Hw) as (Hw1&E1&E2&E3).
  destruct (IH (cleanup_shard it w i) Hw1) as (?&->&->&Hk). split_and!; [done..|]. intros. by rewrite Hk.
Qed.

Lemma shards_wf_shl w : shards_wf w → length (shl w) = Z.to_nat (shn w).
Proof. intros (?&?&?). lia. Qed.

Lemma list_values_inv {B} (f : string * loc → B) τ k it w :
  fair it → store_inv τ w →
  ∃ w', (es ← typed_List k it; mret (f <$> es)) w
      = (Done (f <$> filter (λ e, expired k (it_clk it k e.1) (w_heap w e.2) = false)
                (it_loc it (idx k w))), w') ∧
    store_inv τ w' ∧ w_heap w' = w_heap w ∧ (∀ k', k' ≠ k → idx k' w' = idx k' w) ∧
    ∀ key, idx k w' !! key
      = l ← idx k w !! key; if expired k (it_clk it k key) (w_heap w l) then None else Some l.
Proof.
  intros Hf Hw. destruct (list_inv τ k it w Hf Hw) as (w'&Hl&Hrest).
  exists w'. unfold mbind at 1, GoM_bind. by rewrite Hl.
Qed.

(** The state a completed cleanup leaves behind. *)
Lemma cleanup_inv τ it w :
  fair it → store_inv τ w →
  ∃ w', Cleanup it w = (Done tt, w') ∧ store_inv τ w' ∧ w_heap w' = w_heap w ∧
    (∀ k, k = KAMI ∨ k = KWS → idx k w' = idx k w) ∧
    (∀ k key, k ≠ KAMI → k ≠ KWS →
      idx k w' !! key
      = l ← idx k w !! key; if expired k (it_clk it k key) (w_heap w l) then None else Some l).
Proof.
  intros Hf Hw. unfold Cleanup.
  set (w1 := foldl (cleanup_shard it) w (seq 0 (Z.to_nat (shardCount (w_mem w))))).
  destruct (cleanup_shards_frame τ it (seq 0 (Z.to_nat (shardCount (w_mem w)))) w Hw)
    as (Hw1&E1&E2&E3).
  change (store_inv τ w1) in Hw1. change (w_heap w1 = w_heap w) in E2.
  change (∀ k, idx k w1 = idx k w) in E3.
  destruct (list_values_inv snd τ KDialog it w1 Hf Hw1) as (w2&L2&Hw2&H2&F2&I2).
  destruct (list_values_inv snd τ KRTP it w2 Hf Hw2) as (w3&L3&Hw3&H3&F3&I3).
  destruct (list_values_inv snd τ KClient it w3 Hf Hw3) as (w4&L4&Hw4&H4&F4&I4).
  destruct (list_values_inv snd τ KReg it w4 Hf Hw4) as (w5&L5&Hw5&H5&F5&I5).
  unfold ListDialogs, ListRTPSessions, ListClientSessions, ListRegistrations, list_values.
  exists w5. split_and!; [|done|congruence| |].
  - unfold mbind at 1, GoM_bind at 1, modify at 1. fold w1.
    unfold mbind at 1, GoM_bind at 1. rewrite L2.
    unfold mbind at 1, GoM_bind at 1. rewrite L3.
    unfold mbind at 1, GoM_bind at 1. rewrite L4.
    unfold mbind at 1, GoM_bind at 1. by rewrite L5.
  - intros k Hk. rewrite F5, F4, F3, F2 by naive_solver. apply E3.
  - assert (w_heap w4 = w_heap w) as G4 by congruence.
    assert (w_heap w3 = w_heap w) as G3 by congruence.
    assert (w_heap w2 = w_heap w) as G2 by congruence.
    intros k key Hk1 Hk2. destruct k; try done.
    + by rewrite F5, F4, F3, I2, E2, E3 by done.
    + by rewrite F5, F4, I3, F2, G2, E3 by done.
    + by rewrite F5, I4, F3, F2, G3, E3 by done.
    + by rewrite I5, F4, F3, F2, G4, E3 by done.
Qed.

(** Listing a typed store leaves the key-value shards alone. *)
Lemma range_live_shards k clk es acc w r w' :
  range_live k clk es acc w = (r, w') → shl w' = shl w ∧ shn w' = shn w.
Proof.
  revert acc w. induction es as [|[key l] es IH]; intros acc w; simpl; [by intros [= <- <-]|].
  repeat case_match; [| |by intros [= <- <-]]; intros H'; apply IH in H' as [-> ->]; [|done].
  by autorewrite with gateway.
Qed.

Lemma list_values_shards k it w r w' :
  list_values k it w = (r, w') → shl w' = shl w ∧ shn w' = shn w.
Proof.
  unfold list_values, typed_List, mbind, GoM_bind, mret, GoM_ret. simpl.
  destruct (range_live _ _ _ _ w) as [o w1] eqn:E. intros H.
  apply range_live_shards in E. by destruct o; simplify_eq/=.
Qed.

Lemma cleanup_shards_shn it js w : shn (foldl (cleanup_shard it) w js) = shn w.
Proof.
  revert w. induction js as [|i js IH]; intros w; simpl; [done|]. rewrite IH.
  unfold cleanup_shard. generalize (keysToDelete it i (w_mem w)). intros ks. revert w.
  induction ks as [|key ks IHk]; intros w; simpl; [done|]. rewrite IHk.
  unfold delete_key. by autorewrite with gateway.
Qed.

Lemma cleanup_view it w w' key :
  fair it → shards_wf w → Cleanup it w = (Done tt, w') →
  mem_view w' key = survives it (shard_no (shn w) key) key (mem_view w key).
Proof.
  intros Hf Hwf. unfold Cleanup.
  set (w1 := foldl (cleanup_shard it) w (seq 0 (Z.to_nat (shardCount (w_mem w))))).
  assert (shl w' = shl w1 ∧ shn w' = shn w1 → mem_view w' key
    = survives it (shard_no (shn w) key) key (mem_view w key)) as Hgoal.
  { intros [Hl Hn].
    assert (shn w1 = shn w) as Hn1 by apply cleanup_shards_shn.
    unfold mem_view. rewrite Hl, Hn, Hn1.
    pose proof (cleanup_shards_lookup it w (Z.to_nat (shn w)) (shard_no (shn w) key) key Hf)
      as Hc.
    rewrite decide_True in Hc; [exact Hc|].
    destruct (getShard_ok key w Hwf) as [_ ?]. by rewrite <-(shards_wf_shl w). }
  unfold mbind, GoM_bind, modify. fold w1. unfold ListDialogs, ListRTPSessions,
    ListClientSessions, ListRegistrations.
  intros H. apply Hgoal.
  destruct (list_values KDialog it w1) as [[?| |] w2] eqn:E2; try done.
  destruct (list_values KRTP it w2) as [[?| |] w3] eqn:E3; try done.
  destruct (list_values KClient it w3) as [[?| |] w4] eqn:E4; try done.
  destruct (list_values KReg it w4) as [[?| |] w5] eqn:E5; try done.
  apply list_values_shards in E2, E3, E4, E5. injection H as <-. intuition congruence.
Qed.

(** ** Histories of the whole storage *)

Inductive op : Type :=
| OKV (o : kv_op)
| OGet (k : kind) (key : string) (now : Time)
| OStore (k : kind) (clientID : string) (p : option loc) (now now' : Time)
| ODelete (k : kind) (key : string)
| OList (k : kind) (it : Iteration)
| OCleanup (it : Iteration).

(** The method a client calls; only connections are given their key. *)
Definition exec (o : op) : GoM World unit :=
  match o with
  | OKV o => kv_exec o;; mret tt
  | OGet k key now => typed_Get k key now;; mret tt
  | OStore KWS clientID p now now' => StoreWSConnection clientID p now now';; mret tt
  | OStore k _ p now now' => store_self k p now now';; mret tt
  | ODelete k key => typed_Delete k key;; mret tt
  | OList k it => list_values k it;; mret tt
  | OCleanup it => Cleanup it
  end.

Fixpoint run (ops : list op) : GoM World unit :=
  match ops with
  | [] => mret tt
  | o :: ops => exec o;; run ops
  end.

(** What Go's types guarantee of a call, and what [sync.Map] guarantees of an
    iteration. *)
Definition well_typed (τ : loc → kind) (o : op) : Prop :=
  match o with
  | OStore k _ (Some l) _ _ => τ l = k
  | OList _ it | OCleanup it => fair it
  | _ => True
  end.

Definition new_world (config : MemoryConfig) (heap : loc → object) : World :=
  mkWorld (NewMemoryStorage config) heap.

(** Shard counts for which every hash has a shard: the powers of two, of which
    the default of 32 is one. *)
Definition shards_ok (config : MemoryConfig) : Prop :=
  cfg_ShardCount config <= 0 ∨ (cfg_ShardCount config | 2 ^ 63).

Lemma divide_32 : (32 | 2 ^ 63).
Proof. by exists (2 ^ 58). Qed.

Lemma new_world_inv config heap : shards_ok config → shards_wf (new_world config heap).
Proof.
  intros Hs. unfold shards_wf, new_world, NewMemoryStorage, shn, shl. simpl.
  rewrite length_replicate. destruct (Z.leb_spec (cfg_ShardCount config) 0).
  - split_and!; [lia|lia|apply divide_32].
  - destruct Hs; [lia|]. split_and!; [lia|lia|done].
Qed.

Lemma store_inv_new τ config heap :
  shards_ok config → (∀ l, kind_of (heap l) = τ l) → store_inv τ (new_world config heap).
Proof.
  intros Hs Hh. split.
  - by intros [].
  - by intros [].
  - done.
  - by apply new_world_inv.
Qed.

(** The key-value operations do not touch the typed stores. *)
Lemma kv_exec_frame o w r w' :
  kv_exec o w = (r, w') →
  (∀ k, idx k w' = idx k w ∧ cnt k w' = cnt k w) ∧ w_heap w' = w_heap w.
Proof.
  destruct o; simpl; unfold mbind, GoM_bind, mret, GoM_ret, Get, Set_, Delete;
    intros H; repeat case_match; simplify_eq/=; split; try done; intros ?;
    by autorewrite with gateway.
Qed.

Lemma store_inv_kv τ o w :
  store_inv τ w → ∃ r w', kv_exec o w = (Done r, w') ∧ store_inv τ w'.
Proof.
  intros [Hc Ht Hh Hs]. pose proof (kv_exec_refines (S:=World) o : refines (S:=World) (kv_exec o) (spec_exec o)) as Hr.
  destruct (Hr w Hs) as (w'&E&Hw'&_).
  do 2 eexists. split; [exact E|]. destruct (kv_exec_frame _ _ _ _ E) as [Hk Hh'].
  split.
  - intros k. destruct (Hk k) as [-> ->]. apply Hc.
  - intros k. destruct (Hk k) as [-> _]. apply Ht.
  - by rewrite Hh'.
  - exact Hw'.
Qed.

Lemma store_self_inv τ k p now now' w :
  store_inv τ w → (∀ l, p = Some l → τ l = k) →
  ∃ r w', store_self k p now now' w = (Done r, w') ∧ store_inv τ w'.
Proof.
  intros Hw Hp. unfold store_self. destruct p as [l|]; [|by eauto].
  case_decide; [by eauto|].
  destruct (typed_Store_inv τ k (key_of (w_heap w l)) l now now' w Hw) as (w'&?&?); eauto.
Qed.

Lemma StoreWS_inv τ id p now now' w :
  store_inv τ w → (∀ l, p = Some l → τ l = KWS) →
  ∃ r w', StoreWSConnection id p now now' w = (Done r, w') ∧ store_inv τ w'.
Proof.
  intros Hw Hp. unfold StoreWSConnection. destruct p as [l|]; [|by eauto].
  case_decide; [by eauto|].
  destruct (typed_Store_inv τ KWS id l now now' w Hw) as (w'&?&?); eauto.
Qed.

Lemma exec_inv τ o w :
  well_typed τ o → store_inv τ w → ∃ w', exec o w = (Done tt, w') ∧ store_inv τ w'.
Proof.
  intros Ho Hw.
  assert (∀ A (m : GoM World A), (∃ r w', m w = (Done r, w') ∧ store_inv τ w') →
    ∃ w', (m;; mret tt) w = (Done tt, w') ∧ store_inv τ w') as Hseq.
  { intros A m (r&w'&E&?). exists w'. unfold mbind, GoM_bind. by rewrite E. }
  destruct o as [o|k key now|k id p now now'|k key|k it|it]; simpl in Ho.
  - by apply Hseq, store_inv_kv.
  - by apply Hseq, typed_Get_inv.
  - assert (∀ l, p = Some l → τ l = k) as Hp by (intros l ->; done).
    destruct k; simpl; apply Hseq;
      first [by apply StoreWS_inv | by apply store_self_inv].
  - by apply Hseq, typed_Delete_inv.
  - apply Hseq. destruct (list_values_inv snd τ k it w Ho Hw) as (w'&E&?&_). eauto.
  - destruct (cleanup_inv τ it w Ho Hw) as (w'&?&?&_). eauto.
Qed.

Lemma run_inv τ ops w :
  Forall (well_typed τ) ops → store_inv τ w →
  ∃ w', run ops w = (Done tt, w') ∧ store_inv τ w'.
Proof.
  revert w. induction ops as [|o ops IH]; intros w Hops Hw; simpl; [by exists w|].
  apply Forall_cons in Hops as [Ho Hops].
  destruct (exec_inv τ o w Ho Hw) as (w1&E1&Hw1).
  destruct (IH w1 Hops Hw1) as (w2&E2&Hw2). exists w2.
  unfold mbind, GoM_bind. by rewrite E1.
Qed.

Lemma key_of_touch now now' o : key_of (touch now now' o) = key_of o.
Proof. by destruct o as [[]|[]|[]|[]|[]|[]]. Qed.

(** The lifetime a [Store] method gives an object that has no expiration. *)
Definition lifetime (o : object) : Duration :=
  match o with
  | OAMI _ | OWS _ => 1 * Hour
  | OReg r => int64_wrap (reg_Expires r * Second)
  | _ => 24 * Hour
  end.

Lemma expire_time_touch now now' o :
  expire_time (touch now now' o) = or_default (expire_time o) (now' + lifetime o).
Proof. by destruct o as [[]|[]|[]|[]|[]|[]]. Qed.

(** What [StoreX] followed by [GetX] of the same key yields. *)
Lemma typed_Store_Get k key l now now' t w :
  key ≠ "" → kind_of (w_heap w l) = k →
  ∃ w1, typed_Store k key l now now' w = (Done (Ok tt), w1) ∧
    w_heap w1 = <[l := touch now now' (w_heap w l)]> (w_heap w) ∧
    fst (typed_Get k key t w1)
    = Done (if expired k t (touch now now' (w_heap w l)) then Err ErrKeyExpired else Ok l).
Proof.
  intros Hkey Hk. unfold typed_Store. eexists. split; [done|].
  assert (∀ w1, idx k w1 !! key = Some l →
    w_heap w1 = <[l := touch now now' (w_heap w l)]> (w_heap w) →
    fst (typed_Get k key t w1)
    = Done (if expired k t (touch now now' (w_heap w l)) then Err ErrKeyExpired else Ok l))
    as Hget.
  { intros w1 Hl Hh. unfold typed_Get. rewrite decide_False by done.
    fold (idx k w1). rewrite Hl, Hh, fn_lookup_insert, kind_of_touch.
    rewrite decide_True by done. by case_match. }
  destruct (bool_decide _); (split; [done|]); apply Hget; autorewrite with gateway; try done;
    rewrite decide_True by done; by simplify_map_eq.
Qed.

(** ** Properties *)

(** C1. Every history of Get, Set and Delete calls on a fresh in-memory storage
    whose shard count is a power of two (the default 32 is one) completes
    without a panic and returns exactly the results of the specification: one
    flat map with expirations, whatever the sharding. *)
Theorem history_refines_map (config : MemoryConfig) (heap : loc → object) (ops : list kv_op)
    (Hs : shards_ok config) :
  (kv_history (S:=World) ops (new_world config heap)).1
  = Done (spec_history ops (λ _, None)).1.
Proof.
  pose proof (new_world_inv config heap Hs) as Hwf.
  assert (view_eq (kv_view (new_world config heap)) (λ _, None)) as Hv.
  { intros k. simpl. unfold mem_view, shl, new_world, NewMemoryStorage. simpl.
    destruct (replicate _ _ !! _) as [m|] eqn:Hm; simpl; [|done].
    by apply lookup_replicate in Hm as [-> _]. }
  by destruct (kv_history_refines (S:=World) (H:=mem_KV) ops _ _ Hwf Hv) as (w'&->&_).
Qed.

(** C6. No sequence of operations of the storage - key-value, the six typed
    stores with their lists, and the periodic cleanup - reaches a type
    assertion or an index that panics, and after it every counter of [Stats]
    is the number of entries of its store. *)
Theorem operations_safe (τ : loc → kind) (config : MemoryConfig) (heap : loc → object)
    (ops : list op) (Hs : shards_ok config) (Hh : ∀ l, kind_of (heap l) = τ l)
    (Hops : Forall (well_typed τ) ops) :
  ∃ w, run ops (new_world config heap) = (Done tt, w) ∧
    ∀ k, count_of k (stats (w_mem w)) = int64_wrap (Z.of_nat (size (index_of k (w_mem w)))).
Proof.
  destruct (run_inv τ ops _ Hops (store_inv_new τ config heap Hs Hh)) as (w&E&Hw).
  exists w. split; [done|]. apply (inv_counts _ _ Hw).
Qed.

(** C20. A key's shard lookup panics exactly when the key's hash is the least
    [int64], whose negation overflows, and the shard count does not divide
    [2^63]: never with the default shard count, but with one of 10, say. *)
Theorem getShard_panics_iff (config : MemoryConfig) (key : string)
    (Hn : 0 < cfg_ShardCount config) :
  getShard key (NewMemoryStorage config) = Panic IndexOutOfRange
  ↔ hash_key key = min_int64 ∧ ¬ (cfg_ShardCount config | 2 ^ 63).
Proof.
  assert (shardCount (NewMemoryStorage config) = cfg_ShardCount config) as Hsc.
  { simpl. by rewrite (proj2 (Z.leb_gt _ _) Hn). }
  split.
  - intros Hp. destruct (Z.eq_dec (hash_key key) min_int64) as [Hm|Hm],
      (Znumtheory.Zdivide_dec (cfg_ShardCount config) (2 ^ 63)) as [Hd|Hd]; try done; exfalso.
    all: unfold getShard in Hp; rewrite Hsc in Hp;
      destruct (index_Done (data (NewMemoryStorage config))
        (shard_index (cfg_ShardCount config) key)) as (x&_&Hx); [|by rewrite Hx in Hp].
    all: simpl; rewrite length_replicate, (proj2 (Z.leb_gt _ _) Hn), Z2Nat.id by lia;
      by apply shard_index_range.
  - intros [Hm Hd]. unfold getShard. rewrite Hsc, index_Panic; [done|left].
    unfold shard_index. rewrite Hm. unfold min_int64. rewrite Z.rem_opp_l by lia.
    pose proof (Z.rem_bound_pos (2 ^ 63) (cfg_ShardCount config)).
    assert (Z.rem (2 ^ 63) (cfg_ShardCount config) ≠ 0); [|lia].
    by rewrite Z.rem_divide by lia.
Qed.

(** Storing an object and fetching its key later hands back the very
    pointer that was stored, with the update time written through it, until
    the object's expiration: the one it came with, or the lifetime of its
    store counted from the second clock reading. *)
Theorem store_then_get (k : kind) (w : World) (l : loc) (now now' t : Time)
    (Hk : kind_of (w_heap w l) = k) (Hkey : key_of (w_heap w l) ≠ "")
    (Hnow : 0 < now' + lifetime (w_heap w l)) :
  let o := w_heap w l in
  let deadline := if IsZero (expire_time o) then now' + lifetime o else expire_time o in
  ∃ w', store_self k (Some l) now now' w = (Done (Ok tt), w') ∧
    w_heap w' = <[l := touch now now' o]> (w_heap w) ∧
    fst (typed_Get k (key_of o) t w')
    = Done (if deadline <? t then Err ErrKeyExpired else Ok l).
Proof.
  intros o deadline. unfold store_self. rewrite decide_False by done.
  destruct (typed_Store_Get k (key_of (w_heap w l)) l now now' t w Hkey Hk)
    as (w'&->&?&Hget).
  exists w'. split_and!; [done|done|]. etrans; [exact Hget|].
  assert (IsZero deadline = false) as Hz.
  { unfold deadline, o. destruct (IsZero (expire_time (w_heap w l))) eqn:E; [|done].
    unfold IsZero, zero_time. apply Z.eqb_neq. lia. }
  replace (expired k t (touch now now' (w_heap w l))) with (deadline <? t); [done|].
  unfold expired. rewrite expire_time_touch. unfold or_default.
  fold o. fold deadline. rewrite Hz. by destruct k.
Qed.

(** Listing a store hands back exactly the entries that have not expired
    when they are visited, each once; the expired ones leave the store and
    nothing else does. *)
Theorem list_returns_live (τ : loc → kind) (k : kind) (it : Iteration) (w : World)
    (Hf : fair it) (Hw : store_inv τ w) :
  ∃ es w', list_values k it w = (Done (snd <$> es), w') ∧ NoDup es.*1 ∧
    (∀ key l, (key, l) ∈ es ↔
      index_of k (w_mem w) !! key = Some l ∧ expired k (it_clk it k key) (w_heap w l) = false) ∧
    index_of k (w_mem w') = list_to_map es.
Proof.
  destruct (list_values_inv snd τ k it w Hf Hw) as (w'&E&_&_&_&Hi).
  destruct Hf as [_ Hf]. eexists _, w'. split; [exact E|].
  assert (NoDup (filter (λ e, expired k (it_clk it k e.1) (w_heap w e.2) = false)
    (it_loc it (idx k w))).*1) as Hnd.
  { eapply sublist_NoDup; [|apply fmap_sublist, sublist_filter].
    rewrite Hf. apply NoDup_fst_map_to_list. }
  assert (∀ key l, (key, l) ∈ filter (λ e, expired k (it_clk it k e.1) (w_heap w e.2) = false)
    (it_loc it (idx k w)) ↔ idx k w !! key = Some l ∧
      expired k (it_clk it k key) (w_heap w l) = false) as Hin.
  { intros key l. rewrite list_elem_of_filter, Hf, elem_of_map_to_list. naive_solver. }
  split_and!; [done|exact Hin|]. apply map_eq. intros key. etrans; [exact (Hi key)|].
  symmetry. destruct (idx k w !! key) as [l|] eqn:Hl; simpl; [destruct (expired _ _ _) eqn:He|].
  2: { apply elem_of_list_to_map_1; [done|]. by apply Hin. }
  all: apply not_elem_of_list_to_map_1; rewrite list_elem_of_fmap;
    intros ([key' l']&->&Hin'); simpl in *; apply Hin in Hin'; naive_solver congruence.
Qed.

(** C21. A cleanup removes the expired pairs of every shard and the expired
    dialogs, RTP sessions, client sessions and registrations, keeps every
    other entry, and never touches the AMI actions and the connections,
    however long they have expired. *)
Theorem cleanup_exact (τ : loc → kind) (it : Iteration) (w : World)
    (Hf : fair it) (Hw : store_inv τ w) :
  ∃ w', Cleanup it w = (Done tt, w') ∧ store_inv τ w' ∧
    (∀ key, mem_view w' key
      = kv ← mem_view w key;
        if kv_expired (it_clk_kv it (shard_no (shardCount (w_mem w)) key) key) kv
        then None else Some kv) ∧
    (∀ k key, k ≠ KAMI → k ≠ KWS → index_of k (w_mem w') !! key
      = l ← index_of k (w_mem w) !! key;
        if expired k (it_clk it k key) (w_heap w l) then None else Some l) ∧
    amiActions (w_mem w') = amiActions (w_mem w) ∧
    wsConnections (w_mem w') = wsConnections (w_mem w).
Proof.
  destruct (cleanup_inv τ it w Hf Hw) as (w'&E&Hw'&_&Hkeep&Hclean).
  exists w'. split_and!; [done|done| | | |].
  - intros key. by apply cleanup_view, E; [|eapply inv_shards].
  - exact Hclean.
  - apply (Hkeep KAMI). by left.
  - apply (Hkeep KWS). by right.
Qed.

(** [TotalItems] is not the number of stored pairs: overwriting a key counts
    it again, and a [Get] that removes an expired pair does not uncount it. *)
Theorem total_items_drifts (w : World) (key : string) (b : bytes) (d : Duration) (now : Time)
    (kv : KeyValue) (Hwf : shards_wf w) (Hkey : key ≠ "") (Hkv : mem_view w key = Some kv) :
  (∃ w', Set_ key (Some b) d now w = (Done (Ok tt), w') ∧
    (∀ k', is_Some (mem_view w' k') ↔ is_Some (mem_view w k')) ∧
    st_TotalItems (stats (w_mem w')) = int64_wrap (st_TotalItems (stats (w_mem w)) + 1)) ∧
  (kv_expired now kv = true →
   ∃ w', Get key now w = (Done (Err ErrKeyExpired), w') ∧ mem_view w' key = None ∧
    st_TotalItems (stats (w_mem w')) = st_TotalItems (stats (w_mem w))).
Proof.
  destruct (getShard_ok key w Hwf) as [Hsh Hlt]. split.
  - unfold Set_. rewrite decide_False, Hsh by done. eexists. split_and!; [done| |].
    + intros k'. rewrite mem_view_on_stats, mem_view_insert by done. unfold view_set.
      case_decide; [subst|done]. rewrite Hkv. by split; eexists.
    + by destruct w as [[????????????[]] ?].
  - intros He. unfold Get. rewrite decide_False, Hsh, shard_at_view, Hkv by done.
    unfold kv_expired in He. rewrite He. eexists. split_and!; [done| |].
    + rewrite mem_view_delete. apply view_set_eq.
    + by destruct w as [[] ?].
Qed.

(** ** Instances of the properties *)

Definition default_config : MemoryConfig := mkMemoryConfig 0 0 "" false 0.
Definition ten_shards : MemoryConfig := mkMemoryConfig 0 0 "" false 10.
(** Even locations hold dialogs that expire at 50, odd ones AMI actions. *)
Definition sample_kind (l : loc) : kind := if Nat.even l then KDialog else KAMI.
Definition sample_heap (l : loc) : object :=
  if Nat.even l
  then ODialog (mkDialog "call" "a" "b" "early" [] 1 1 "" "" "" 0 0 50 ∅)
  else OAMI (mkAMIAction "act" "Originate" ∅ "c" 0 0 0).
Definition map_order : Iteration :=
  mkIteration map_to_list map_to_list (λ _ _, 60) (λ _ _, 60).
Definition sample_world : World := new_world default_config sample_heap.

Definition ami_action_timestamp (o : object) : Time :=
  match o with OAMI a => ami_Timestamp a | _ => 0 end.

Lemma map_order_fair : fair map_order.
Proof. done. Qed.

Lemma default_config_ok : shards_ok default_config.
Proof. by left. Qed.

Lemma sample_heap_kind l : kind_of (sample_heap l) = sample_kind l.
Proof. unfold sample_heap, sample_kind. by destruct (Nat.even l). Qed.

Definition sample_history : list kv_op :=
  [KSet "k" (Some (Raw "v")) 10 100; KGet "k" 105; KGet "k" 111; KGet "k" 112; KDelete "";
   KSet "k" None 0 113; KDelete "k"].

Definition sample_ops : list op :=
  [OStore KDialog "" (Some 0%nat) 5 6; OGet KDialog "call" 40; OStore KAMI "" (Some 1%nat) 7 8;
   OKV (KSet "k" (Some (Raw "v")) 10 20); OCleanup map_order; ODelete KAMI "act";
   OList KReg map_order].

Lemma history_refines_map_witness :
  shards_ok default_config ∧
  (kv_history (S:=World) sample_history sample_world).1
  = Done [RUnit (Ok tt); RValue (Ok (Raw "v")); RValue (Err ErrKeyExpired);
          RValue (Err ErrNotFound); RUnit (Err ErrInvalidKey); RUnit (Err ErrInvalidValue);
          RUnit (Err ErrNotFound)].
Proof.
  split; [apply default_config_ok|].
  exact (history_refines_map default_config sample_heap sample_history default_config_ok).
Defined.

Lemma operations_safe_witness :
  ∃ w, run sample_ops (new_world default_config sample_heap) = (Done tt, w) ∧
    ∀ k, count_of k (stats (w_mem w)) = int64_wrap (Z.of_nat (size (index_of k (w_mem w)))).
Proof.
  apply (operations_safe sample_kind default_config sample_heap sample_ops default_config_ok
    sample_heap_kind).
  repeat constructor; apply map_order_fair.
Defined.

Lemma getShard_panics_iff_witness :
  0 < cfg_ShardCount ten_shards ∧
  getShard "7jykwhuswmnjf" (NewMemoryStorage ten_shards) = Panic IndexOutOfRange.
Proof.
  split; [done|]. apply (getShard_panics_iff ten_shards "7jykwhuswmnjf"); [done|].
  split; [by vm_compute|]. intros Hd%Z.mod_divide; done.
Defined.

Lemma store_then_get_witness :
  kind_of (w_heap sample_world 1%nat) = KAMI ∧
  ∃ w', StoreAMIAction (Some 1%nat) 7 8 sample_world = (Done (Ok tt), w') ∧
    fst (GetAMIAction "act" (8 + Hour) w') = Done (Ok 1%nat) ∧
    ami_action_timestamp (w_heap w' 1%nat) = 7.
Proof.
  split; [done|].
  destruct (store_then_get KAMI sample_world 1%nat 7 8 (8 + Hour)) as (w'&E&Hh&Hg); try done.
  exists w'. split_and!; [exact E|exact Hg|by rewrite Hh].
Defined.

(** A world that holds an expired dialog, an expired action and a pair that
    expires at 30. *)
Definition used_world : World :=
  (run [OStore KDialog "" (Some 0%nat) 5 6; OStore KAMI "" (Some 1%nat) 7 8;
        OKV (KSet "k" (Some (Raw "v")) 10 20)] sample_world).2.

Lemma used_world_inv : store_inv sample_kind used_world.
Proof.
  destruct (run_inv sample_kind [OStore KDialog "" (Some 0%nat) 5 6;
    OStore KAMI "" (Some 1%nat) 7 8; OKV (KSet "k" (Some (Raw "v")) 10 20)] sample_world)
    as (w&E&Hw).
  - by repeat constructor.
  - apply store_inv_new; [apply default_config_ok|apply sample_heap_kind].
  - unfold used_world. by rewrite E.
Qed.

Lemma list_returns_live_witness :
  ∃ (es : list (string * loc)) w', ListDialogs map_order used_world = (Done (snd <$> es), w') ∧
    index_of KDialog (w_mem w') !! "call" = None.
Proof.
  destruct (list_returns_live sample_kind KDialog map_order used_world map_order_fair
    used_world_inv) as (es&w'&E&Hnd&Hes&Hi).
  exists es, w'. split; [exact E|]. rewrite Hi. apply not_elem_of_list_to_map_1.
  intros ([key l]&Hkey&Hin)%list_elem_of_fmap. simpl in Hkey. subst key.
  apply Hes in Hin as [Hl He].
  vm_compute in Hl. injection Hl as <-. by vm_compute in He.
Defined.

Lemma cleanup_exact_witness :
  ∃ w', Cleanup map_order used_world = (Done tt, w') ∧ mem_view w' "k" = None ∧
    dialogs (w_mem w') !! "call" = None ∧ amiActions (w_mem w') !! "act" = Some 1%nat.
Proof.
  destruct (cleanup_exact sample_kind map_order used_world map_order_fair used_world_inv)
    as (w'&E&_&Hv&Hi&Ha&_).
  exists w'. split_and!; [exact E| | |].
  - rewrite Hv. by vm_compute.
  - etrans; [apply (Hi KDialog "call"); done|]. by vm_compute.
  - rewrite Ha. by vm_compute.
Defined.

Lemma total_items_drifts_witness :
  ∃ w', Set_ "k" (Some (Raw "v2")) 10 21 used_world = (Done (Ok tt), w') ∧
    st_TotalItems (stats (w_mem w')) = 2.
Proof.
  destruct (total_items_drifts used_world "k" (Raw "v2") 10 21 (mkKeyValue (Raw "v") 30))
    as [(w'&E&_&Ht) _]; [apply used_world_inv|done|by vm_compute|].
  exists w'. split; [exact E|]. rewrite Ht. by vm_compute.
Defined.
