(* ===== verification/Persist.v ===== *)
(** * storage/memory.go: the persistence file

    [persistToFile], [loadFromFile], the opening of a storage and its [Close],
    over the storage of Storage.v and a file system that maps names to the JSON
    documents written into a file. encoding/json is an interface: what the
    program relies on is that the records it writes are read back. *)

From S2P Require Import Prelude KVStore Storage.

(** ** The JSON codec

    A list of records may fail to encode (a time after the year 9999), and
    strings that are not UTF-8 do not survive: [json_faithful] are the records
    for which neither happens. Decoding may yield [nil] pointers ([null]). *)
Class JSON : Type := {
  Doc : Type;
  encode_header : StorageStats → Time → Doc;
  encode_list : kind → list object → option Doc;
  decode_header : Doc → bool;
  decode_list : kind → Doc → option (list (option object));
  json_faithful : object → Prop
}.

Class JSONLaws `{JSON} : Prop := {
  header_roundtrip s t : decode_header (encode_header s t) = true;
  list_roundtrip k os :
    Forall json_faithful os → Forall (λ o, kind_of o = k) os →
    ∃ d, encode_list k os = Some d ∧ decode_list k d = Some (Some <$> os)
}.

Section Persist.
Context `{JSON}.

(** ** Files *)

Abbreviation FS := (gmap string (list Doc)) (only parsing).
Definition St : Type := World * FS.

(** What the operating system does during one save. *)
Record disk : Type := mkDisk {
  dk_mkdir : bool; dk_create : bool; dk_write : nat → bool; dk_rename : bool; dk_now : Time }.

Inductive persist_error : Type :=
| MkdirFailed
| CreateFailed
| EncodeFailed (document : nat)
| RenameFailed
| OpenFailed
| DecodeFailed.

Definition on_world {A} (m : GoM World A) : GoM St A :=
  λ s, let '(r, w) := m (fst s) in (r, (w, snd s)).
Definition on_fs (f : FS → FS) : GoM St unit := λ s, (Done tt, (fst s, f (snd s))).
Definition heap_objects (ls : list loc) : GoM St (list object) :=
  λ s, (Done (w_heap (fst s) <$> ls), s).

(** [encoder.Encode] of the [n]-th document into the open file. *)
Definition write_doc (dk : disk) (n : nat) (file : string) (d : option Doc) : GoM St bool :=
  match d with
  | Some d => if dk_write dk n then on_fs (alter (λ ds, ds ++ [d]) file);; mret true else mret false
  | None => mret false
  end.

(** The listed stores, each listed (which drops what has expired) and encoded. *)
Fixpoint write_lists (it : Iteration) (dk : disk) (n : nat) (file : string) (ks : list kind)
    : GoM St (option nat) :=
  match ks with
  | [] => mret None
  | k :: ks =>
      ls ← on_world (list_values k it);
      os ← heap_objects ls;
      ok ← write_doc dk n file (encode_list k os);
      if ok : bool then write_lists it dk (S n) file ks else mret (Some n)
  end.

(** The [Range] over the AMI actions: those that have an expiration, and it is
    not over. *)
Definition ami_saved (now : Time) (o : object) : bool :=
  negb (IsZero (expire_time o)) && negb (Before (expire_time o) now).
Fixpoint range_ami (clk : string → Time) (es : list (string * loc)) (acc : list object)
    : GoM World (list object) :=
  λ w, match es with
  | [] => (Done acc, w)
  | (key, l) :: es =>
      if decide (kind_of (w_heap w l) = KAMI)
      then range_ami clk es
             (acc ++ (if ami_saved (clk key) (w_heap w l) then [w_heap w l] else [])) w
      else (Panic TypeAssertion, w)
  end.

Definition listed : list kind := [KDialog; KRTP; KClient; KReg].

(** The documents go to a temporary file, which then replaces the old one. *)
Definition persistToFile (it : Iteration) (dk : disk) : GoM St (result persist_error unit) :=
  s ← get_state;
  let path := persistPath (w_mem (fst s)) in
  if negb (dk_mkdir dk) then mret (Err MkdirFailed)
  else
    let tempFile := path +:+ ".tmp" in
    if negb (dk_create dk) then mret (Err CreateFailed)
    else
      on_fs <[tempFile := []]>;;
      st ← on_world Stats;
      ok ← write_doc dk 0 tempFile (Some (encode_header st (dk_now dk)));
      if negb (ok : bool) then mret (Err (EncodeFailed 0))
      else
        failed ← write_lists it dk 1 tempFile listed;
        match failed with
        | Some n => mret (Err (EncodeFailed n))
        | None =>
            amis ← on_world (λ w, range_ami (it_clk it KAMI) (it_loc it (amiActions (w_mem w))) [] w);
            ok ← write_doc dk 5 tempFile (encode_list KAMI amis);
            if negb (ok : bool) then mret (Err (EncodeFailed 5))
            else if negb (dk_rename dk) then mret (Err RenameFailed)
            else
              on_fs (λ fs, match fs !! tempFile with
                           | Some ds => delete tempFile (<[path := ds]> fs)
                           | None => fs
                           end);;
              mret (Ok tt)
        end.

(** ** Loading *)

(** Every document is decoded before anything is stored. *)
Fixpoint decode_lists (ks : list kind) (ds : list Doc)
    : option (list (kind * list (option object))) :=
  match ks, ds with
  | [], _ => Some []
  | _ :: _, [] => None
  | k :: ks, d :: ds =>
      os ← decode_list k d; ls ← decode_lists ks ds; Some ((k, os) :: ls)
  end.

(** Each record is a new object, at [alloc k i] for the [i]-th of its list; what
    has expired by [clk] when it is tested is not stored. A [nil] record is
    dereferenced. The counter counts every store, also of a key twice. *)
Fixpoint load_list (clk : kind → string → Time) (alloc : kind → nat → loc) (k : kind) (i : nat)
    (os : list (option object)) : GoM World unit :=
  match os with
  | [] => mret tt
  | None :: _ => lift (Panic NilDereference)
  | Some o :: os =>
      modify (λ w,
        let w := on_object (alloc k i) (λ _, o) w in
        if expired k (clk k (key_of o)) o then w
        else on_stats (add_count k 1) (on_index k <[key_of o := alloc k i]> w));;
      load_list clk alloc k (S i) os
  end.

Fixpoint load_lists (clk : kind → string → Time) (alloc : kind → nat → loc)
    (ls : list (kind * list (option object))) : GoM World unit :=
  match ls with
  | [] => mret tt
  | (k, os) :: ls => load_list clk alloc k 0 os;; load_lists clk alloc ls
  end.

Definition loaded_kinds : list kind := listed ++ [KAMI].

Definition loadFromFile (opens : bool) (clk : kind → string → Time) (alloc : kind → nat → loc)
    : GoM St (result persist_error unit) :=
  s ← get_state;
  match snd s !! persistPath (w_mem (fst s)) with
  | None => mret (Ok tt)
  | Some ds =>
      if negb opens then mret (Err OpenFailed)
      else match ds with
      | [] => mret (Err DecodeFailed)
      | header :: ds =>
          if negb (decode_header header) then mret (Err DecodeFailed)
          else match decode_lists loaded_kinds ds with
          | None => mret (Err DecodeFailed)
          | Some ls => on_world (load_lists clk alloc ls);; mret (Ok tt)
          end
      end
  end.

(** The whole of [NewMemoryStorage]: a load that fails is only logged. *)
Definition Open (config : MemoryConfig) (heap : loc → object) (opens : bool)
    (clk : kind → string → Time) (alloc : kind → nat → loc) (fs : FS) : outcome unit * St :=
  (if decide (cfg_PersistPath config = "") then mret tt
   else loadFromFile opens clk alloc;; mret tt) (new_world config heap, fs).

(** [Close]; [ticks] are the cleanups that still run before the loop sees the
    stop. *)
Definition set_stopCleanup (m : MemoryStorage) : MemoryStorage :=
  let '(mkMemoryStorage da sc d r a c w g mk ci pp ps st _ s2) := m in
  mkMemoryStorage da sc d r a c w g mk ci pp ps st true s2.
Definition Close (ticks : list Iteration) (it : Iteration) (dk : disk)
    : GoM St (result persist_error unit) :=
  s ← get_state;
  if stopCleanup_closed (w_mem (fst s)) then lift (Panic CloseOfClosedChannel)
  else
    on_world (modify (on_mem set_stopCleanup));;
    on_world (cleanupLoop ((Tick <$> ticks) ++ [Stop]));;
    s ← get_state;
    let m := w_mem (fst s) in
    if persistOnShutdown m && bool_decide (persistPath m ≠ "")
    then persistToFile it dk else mret (Ok tt).
End Persist.

(** ** Facts *)

Section Facts.
Context `{JSONLaws}.

(** The record under a key of a typed store. *)
Definition object_at (k : kind) (key : string) (w : World) : option object :=
  w_heap w <$> idx k w !! key.
Definition by_key (os : list object) : gmap string object :=
  list_to_map ((λ o, (key_of o, o)) <$> os).

(** Records are stored under their own keys, as [StoreX] does; connections are
    stored under a key of the caller's. *)
Definition keyed (w : World) : Prop :=
  ∀ k key l, k ≠ KWS → idx k w !! key = Some l → key_of (w_heap w l) = key.

(** What a save keeps of an entry visited at a time. *)
Definition saved (k : kind) (now : Time) (o : object) : bool :=
  match k with
  | KWS => false
  | KAMI => ami_saved now o
  | _ => negb (expired k now o)
  end.

Lemma by_key_lookup os key o :
  NoDup (key_of <$> os) → by_key os !! key = Some o ↔ o ∈ os ∧ key_of o = key.
Proof.
  intros Hnd. unfold by_key. rewrite <-elem_of_list_to_map.
  - rewrite list_elem_of_fmap. split; [intros (?&[= -> ->]&?)|intros [? <-]]; eauto.
  - by rewrite <-list_fmap_compose.
Qed.

(** The records of a store that pass a test, in the order of an iteration. *)
Lemma saved_records τ it k w (P : string * loc → Prop) `{!∀ e, Decision (P e)} :
  fair it → store_inv τ w → keyed w → k ≠ KWS →
  let os := w_heap w <$> (filter P (it_loc it (idx k w))).*2 in
  NoDup (key_of <$> os) ∧ Forall (λ o, kind_of o = k) os ∧
  (∀ o, o ∈ os → ∃ key l, idx k w !! key = Some l ∧ o = w_heap w l) ∧
  ∀ key, by_key os !! key
    = (l ← idx k w !! key; if decide (P (key, l)) then Some (w_heap w l) else None).
Proof.
  intros [_ Hf] Hw Hk Hws os. set (es := filter _ _) in os.
  assert (∀ key l, (key, l) ∈ es ↔ idx k w !! key = Some l ∧ P (key, l)) as Hes.
  { intros key l. unfold es. rewrite list_elem_of_filter, Hf, elem_of_map_to_list. tauto. }
  assert (∀ o, o ∈ os ↔ ∃ key l, (key, l) ∈ es ∧ o = w_heap w l) as Hos.
  { intros o. unfold os. rewrite list_elem_of_fmap. setoid_rewrite list_elem_of_fmap.
    split; [intros (l&->&[key l']&->&?); eauto|intros (key&l&?&->); exists l]. 
    split; [done|]. by exists (key, l). }
  assert (NoDup (key_of <$> os)) as Hnd.
  { unfold os. rewrite <-!list_fmap_compose.
    rewrite (list_fmap_ext _ fst).
    - eapply sublist_NoDup; [|apply fmap_sublist, sublist_filter].
      rewrite Hf. apply NoDup_fst_map_to_list.
    - intros i [key l] Hi. apply list_elem_of_lookup_2, Hes in Hi as [Hi _]. by eapply Hk. }
  split_and!; [done| | |].
  - apply Forall_forall. intros o (key&l&[Hl _]%Hes&->)%Hos.
    rewrite (inv_heap _ _ Hw). by eapply inv_typed.
  - intros o (key&l&[Hl _]%Hes&->)%Hos. eauto.
  - intros key. apply option_eq. intros o. rewrite by_key_lookup by done. rewrite Hos.
    rewrite bind_Some. split.
    + intros ((key'&l&[Hl HP]%Hes&->)&Hkey). rewrite (Hk _ _ _ Hws Hl) in Hkey. subst key'.
      exists l. by rewrite decide_True.
    + intros (l&Hl&Ho). destruct (decide (P (key, l))) as [HP|]; [|done]. injection Ho as <-.
      split; [|by eapply Hk]. exists key, l. split; [|done]. by apply Hes.
Qed.

(** The saved records of one store, and a document that stands for them. *)
Definition records (k : kind) (os : list object) (w : World) (now : string → Time) : Prop :=
  NoDup (key_of <$> os) ∧ Forall (λ o, kind_of o = k) os ∧
  ∀ key, by_key os !! key
    = (o ← object_at k key w; if saved k (now key) o then Some o else None).
Definition stands_for (k : kind) (d : Doc) (w : World) (now : string → Time) : Prop :=
  ∃ os, decode_list k d = Some (Some <$> os) ∧ records k os w now.

Definition faithful (w : World) (k : kind) : Prop :=
  ∀ key l, idx k w !! key = Some l → json_faithful (w_heap w l).

Lemma encode_stands_for τ it k w (P : string * loc → Prop) `{!∀ e, Decision (P e)} :
  fair it → store_inv τ w → keyed w → faithful w k → k ≠ KWS →
  (∀ key l, P (key, l) ↔ saved k (it_clk it k key) (w_heap w l) = true) →
  ∃ d, encode_list k (w_heap w <$> (filter P (it_loc it (idx k w))).*2) = Some d ∧
    stands_for k d w (it_clk it k).
Proof.
  intros Hf Hw Hk Hj Hws HP.
  destruct (saved_records τ it k w P Hf Hw Hk Hws) as (Hnd&Hkind&Hin&Hby).
  edestruct (list_roundtrip k) as (d&Ed&Dd); [|exact Hkind|].
  { apply Forall_forall. intros o (key&l&Hl&->)%Hin. by eapply Hj. }
  exists d. split; [done|]. eexists. split; [exact Dd|]. split_and!; [done|done|].
  intros key. rewrite Hby. unfold object_at. destruct (idx k w !! key) as [l|]; simpl; [|done].
  case_decide as Hd; rewrite HP in Hd; [by rewrite Hd|by rewrite (not_true_is_false _ Hd)].
Qed.

Lemma bind_on_world {A B} (m : GoM World A) (f : A → GoM St B) w fs a w' :
  m w = (Done a, w') → (on_world m ≫= f) (w, fs) = f a (w', fs).
Proof. intros E. unfold on_world, mbind, GoM_bind. simpl. by rewrite E. Qed.

Lemma bind_heap {B} ls (f : list object → GoM St B) w fs :
  (heap_objects ls ≫= f) (w, fs) = f (w_heap w <$> ls) (w, fs).
Proof. done. Qed.

Lemma bind_on_fs {B} g (f : unit → GoM St B) w fs :
  (on_fs g ≫= f) (w, fs) = f tt (w, g fs).
Proof. done. Qed.

Lemma bind_write_doc {B} dk n file d (f : bool → GoM St B) w fs :
  dk_write dk n = true →
  (write_doc dk n file (Some d) ≫= f) (w, fs) = f true (w, alter (λ ds, ds ++ [d]) file fs).
Proof. intros E. unfold write_doc. by rewrite E. Qed.

Lemma alter_file file ds d (fs : gmap string (list Doc)) :
  fs !! file = Some ds → alter (λ ds, ds ++ [d]) file fs = <[file := ds ++ [d]]> fs.
Proof.
  intros Hf. apply map_eq. intros i. destruct (decide (i = file)) as [->|Hne].
  - by rewrite lookup_alter_eq, lookup_insert_eq, Hf.
  - by rewrite lookup_alter_ne, lookup_insert_ne.
Qed.

Lemma stands_for_ext k d w w' now :
  (∀ key, object_at k key w' = object_at k key w) →
  stands_for k d w now → stands_for k d w' now.
Proof.
  intros Hext (os&?&?&?&Hby). exists os. split; [done|]. split_and!; [done|done|]. intros key.
  by rewrite Hby, Hext.
Qed.

Lemma write_lists_spec τ it dk file fs ks : ∀ n w ds0,
  fair it → store_inv τ w → keyed w → (∀ n, dk_write dk n = true) →
  NoDup ks → KWS ∉ ks → KAMI ∉ ks → (∀ k, k ∈ ks → faithful w k) →
  ∃ w' ds, write_lists it dk n file ks (w, <[file := ds0]> fs)
      = (Done None, (w', <[file := ds0 ++ ds]> fs)) ∧
    store_inv τ w' ∧ keyed w' ∧ w_heap w' = w_heap w ∧
    (∀ k, k ∉ ks → idx k w' = idx k w) ∧
    Forall2 (λ k d, stands_for k d w (it_clk it k)) ks ds.
Proof.
  induction ks as [|k ks IH]; intros n w ds0 Hf Hw Hk Hdk Hnd Hws Hami Hj; simpl.
  { exists w, []. rewrite app_nil_r. by split_and!. }
  apply NoDup_cons in Hnd as [Hnk Hnd]. apply not_elem_of_cons in Hws as [Hws' Hws].
  apply not_elem_of_cons in Hami as [Hami' Hami].
  destruct (list_values_inv snd τ k it w Hf Hw) as (w1&E1&Hw1&Hh1&Hi1&Hik1).
  erewrite bind_on_world by exact E1. rewrite bind_heap, Hh1.
  destruct (encode_stands_for τ it k w
    (λ e, expired k (it_clk it k e.1) (w_heap w e.2) = false) Hf Hw Hk) as (d&Ed&Hd);
    [apply Hj; left|done| |].
  { intros key l. simpl. destruct k; try done; simpl; by rewrite negb_true_iff. }
  rewrite Ed, (bind_write_doc _ _ _ _ _ _ _ (Hdk n)), (alter_file _ ds0) by apply lookup_insert_eq.
  rewrite insert_insert_eq.
  assert (∀ k' key, k' ≠ k → object_at k' key w1 = object_at k' key w) as Hobj.
  { intros k' key Hne. unfold object_at. by rewrite Hi1, Hh1. }
  assert (keyed w1) as Hk1.
  { intros k' key l Hne Hl. rewrite Hh1. apply (Hk k'); [done|].
    destruct (decide (k' = k)) as [->|Hkk]; [|by rewrite <-Hi1].
    rewrite Hik1 in Hl. apply bind_Some in Hl as (l'&Hl'&?). by case_match; simplify_eq. }
  destruct (IH (S n) w1 (ds0 ++ [d])) as (w2&ds&E2&Hw2&Hk2&Hh2&Hi2&Hds); try done.
  { intros k' Hk' key l Hl. rewrite Hh1. apply (Hj k' ltac:(by right) key).
    rewrite <-Hi1; [done|]. by intros ->. }
  exists w2, (d :: ds). rewrite E2, <-(assoc_L (++)). split_and!; [done|done|done|congruence| |].
  - intros k' [Hne Hni]%not_elem_of_cons. rewrite Hi2 by done. by apply Hi1.
  - constructor; [done|]. apply Forall2_same_length_lookup in Hds as [Hlen Hds].
    apply Forall2_same_length_lookup. split; [done|]. intros i k' d' Hk' Hd'.
    eapply stands_for_ext; [|by eapply Hds]. intros key. symmetry. apply Hobj.
    intros ->. by apply list_elem_of_lookup_2 in Hk'.
Qed.

Lemma range_ami_spec τ clk es acc w :
  store_inv τ w → (∀ key l, (key, l) ∈ es → idx KAMI w !! key = Some l) →
  range_ami clk es acc w
  = (Done (acc ++ (w_heap w <$>
       (filter (λ e, ami_saved (clk e.1) (w_heap w e.2) = true) es).*2)), w).
Proof.
  intros Hw. revert acc. induction es as [|[key l] es IH]; intros acc Hes; simpl.
  { by rewrite app_nil_r. }
  rewrite decide_True.
  2: { rewrite (inv_heap _ _ Hw). eapply inv_typed; [done|]. apply Hes. left. }
  rewrite IH by (intros; apply Hes; by right). rewrite filter_cons. simpl.
  destruct (ami_saved (clk key) (w_heap w l)); simpl; by rewrite ?app_nil_r, <-?(assoc_L (++)).
Qed.

(** One write of a document, whatever the disk does. *)
Lemma write_doc_frame dk n file d w fs :
  ∃ ok fs', write_doc dk n file d (w, fs) = (Done ok, (w, fs')) ∧
    (∀ f, f ≠ file → fs' !! f = fs !! f) ∧
    (ok = true → ∃ d', d = Some d' ∧ ∀ ds, fs !! file = Some ds → fs' !! file = Some (ds ++ [d'])).
Proof.
  unfold write_doc. destruct d as [d|]; [destruct (dk_write dk n)|].
  - eexists true, _. split; [reflexivity|]. split.
    + intros f Hf. by rewrite lookup_alter_ne.
    + intros _. exists d. split; [done|]. intros ds Hds.
      etrans; [apply lookup_alter_eq|]. simpl. by rewrite Hds.
  - by exists false, fs.
  - by exists false, fs.
Qed.

Lemma write_lists_frame τ it dk file ks : ∀ n w fs,
  fair it → store_inv τ w →
  ∃ r w' fs', write_lists it dk n file ks (w, fs) = (Done r, (w', fs')) ∧ store_inv τ w' ∧
    (∀ f, f ≠ file → fs' !! f = fs !! f) ∧
    (r = None → ∀ ds, fs !! file = Some ds →
      ∃ ds', length ds' = length ks ∧ fs' !! file = Some (ds ++ ds')).
Proof.
  induction ks as [|k ks IH]; intros n w fs Hf Hw; simpl.
  { eexists None, w, fs. split_and!; try done. intros _ ds Hds. exists [].
    by rewrite app_nil_r. }
  destruct (list_values_inv snd τ k it w Hf Hw) as (w1&E1&Hw1&_).
  erewrite bind_on_world by exact E1. rewrite bind_heap.
  destruct (write_doc_frame dk n file (encode_list k (w_heap w1 <$> (filter (λ e,
    expired k (it_clk it k e.1) (w_heap w e.2) = false) (it_loc it (idx k w))).*2)) w1 fs)
    as (ok&fs1&E2&Hfs1&Hok).
  rewrite (bind_Done _ _ _ _ _ E2). destruct ok.
  - destruct (IH (S n) w1 fs1 Hf Hw1) as (r&w2&fs2&E3&Hw2&Hfs2&Hr).
    exists r, w2, fs2. split_and!; [done|done| |].
    + intros f Hne. rewrite Hfs2, Hfs1 by done. done.
    + intros -> ds Hds. destruct (Hok eq_refl) as (d&_&Hd).
      destruct (Hr eq_refl _ (Hd ds Hds)) as (ds'&Hlen&E4). exists (d :: ds').
      rewrite E4, <-(assoc_L (++)). by rewrite <-Hlen.
  - exists (Some n), w1, fs1. by split_and!.
Qed.

Lemma tmp_ne path : path +:+ ".tmp" ≠ path.
Proof.
  intros Heq. apply (f_equal String.list_ascii_of_string) in Heq.
  rewrite list_of_string_app in Heq. apply (f_equal length) in Heq.
  rewrite length_app in Heq. simpl in Heq. lia.
Qed.

Definition disk_ok (dk : disk) : Prop :=
  dk_mkdir dk = true ∧ dk_create dk = true ∧ (∀ n, dk_write dk n = true) ∧ dk_rename dk = true.

(** A save that meets no error. *)
Lemma persist_complete τ it dk w fs :
  fair it → store_inv τ w → keyed w → disk_ok dk → (∀ k, k ≠ KWS → faithful w k) →
  ∃ w' fs' h ds d, persistToFile it dk (w, fs) = (Done (Ok tt), (w', fs')) ∧
    fs' !! persistPath (w_mem w) = Some (h :: ds ++ [d]) ∧ decode_header h = true ∧
    Forall2 (λ k d, stands_for k d w (it_clk it k)) listed ds ∧
    stands_for KAMI d w (it_clk it KAMI).
Proof.
  intros Hf Hw Hk (Hd1&Hd2&Hd3&Hd4) Hj. unfold persistToFile. rewrite bind_get.
  cbv zeta.
  change (fst (w, fs)) with w. set (path := persistPath (w_mem w)). rewrite Hd1, Hd2. cbn [negb].
  set (tmp := path +:+ ".tmp"). assert (tmp ≠ path) as Htmp by apply tmp_ne.
  rewrite bind_on_fs. unfold Stats. erewrite bind_on_world by reflexivity.
  rewrite (bind_write_doc _ _ _ _ _ _ _ (Hd3 _)), (alter_file _ []) by (by apply lookup_insert_eq).
  rewrite insert_insert_eq. simpl app. cbn [negb].
  set (h := encode_header _ _).
  destruct (write_lists_spec τ it dk tmp fs listed 1 w [h]) as (w1&ds&E1&Hw1&Hk1&Hh1&Hi1&Hds);
    try done.
  1-3: by_decide.
  { intros k Hin. apply Hj. intros ->. revert Hin. by_decide. }
  rewrite (bind_Done _ _ _ _ _ E1).
  assert (idx KAMI w1 = idx KAMI w) as Hami 
    by (apply Hi1; by_decide).
  assert (∀ key, object_at KAMI key w1 = object_at KAMI key w) as Hobj.
  { intros key. unfold object_at. by rewrite Hami, Hh1. }
  erewrite bind_on_world.
  2: { apply (range_ami_spec τ); [done|]. intros key l.
       rewrite (proj2 Hf), elem_of_map_to_list. done. }
  destruct (encode_stands_for τ it KAMI w1
    (λ e, ami_saved (it_clk it KAMI e.1) (w_heap w1 e.2) = true) Hf Hw1 Hk1) as (d&Ed&Hd);
    [|done|done|].
  { intros key l. rewrite Hami, Hh1. by apply Hj. }
  simpl app. change (amiActions (w_mem w1)) with (idx KAMI w1).
  rewrite Ed, (bind_write_doc _ _ _ _ _ _ _ (Hd3 _)).
  rewrite (alter_file _ (h :: ds)) by (by apply lookup_insert_eq). rewrite insert_insert_eq, Hd4.
  cbn [negb]. eexists w1, _, h, ds, d. split; [reflexivity|]. split_and!; [| |done|].
  - cbn [fst snd]. rewrite lookup_insert_eq, lookup_delete_ne by done. apply lookup_insert_eq.
  - apply header_roundtrip.
  - eapply stands_for_ext; [|exact Hd]. intros key. symmetry. apply Hobj.
Qed.
End Facts.

(** ** Facts of loading *)

Section LoadFacts.
Context `{JSONLaws} (τ : loc → kind) (clk : kind → string → Time) (alloc : kind → nat → loc).
Context (alloc_inj : ∀ k i k' i', alloc k i = alloc k' i' → k = k' ∧ i = i').
Context (alloc_typed : ∀ k i, τ (alloc k i) = k).

Lemma by_key_cons o os : by_key (o :: os) = <[key_of o := o]> (by_key os).
Proof. done. Qed.

Lemma by_key_fresh o os : key_of o ∉ key_of <$> os → by_key os !! key_of o = None.
Proof.
  intros Hni. apply not_elem_of_list_to_map_1. by rewrite <-list_fmap_compose.
Qed.

Definition as_decoded (ls : list (kind * list object)) : list (kind * list (option object)) :=
  map (λ p, (p.1, Some <$> p.2)) ls.

Lemma decode_lists_saved w (now : kind → string → Time) ks ds :
  Forall2 (λ k d, stands_for k d w (now k)) ks ds →
  ∃ ls, decode_lists ks ds = Some (as_decoded ls) ∧ ls.*1 = ks ∧
    ∀ k os, (k, os) ∈ ls → records k os w (now k).
Proof.
  induction 1 as [|k d ks ds (os&Ed&HR) _ (ls&E&Hk&Hls)]; simpl.
  { exists []. split_and!; [done..|]. intros k os []%not_elem_of_nil. }
  rewrite Ed. simpl. rewrite E. exists ((k, os) :: ls). split; [done|].
  split; [by rewrite fmap_cons, Hk|]. intros k' os' [[= -> ->]|Hin]%elem_of_cons; eauto.
Qed.

(** An object that is allocated, and an object that is stored as well. *)
Lemma inv_alloc w l o : store_inv τ w → kind_of o = τ l → store_inv τ (on_object l (λ _, o) w).
Proof.
  intros [Hc Ht Hh Hs] Ho. split; auto; intros l'. simpl.
  destruct (decide (l = l')) as [<-|Hne]; [by rewrite fn_lookup_insert|by rewrite fn_lookup_insert_ne].
Qed.

Lemma inv_stored w l o k :
  store_inv τ w → τ l = k → kind_of o = k → idx k w !! key_of o = None →
  store_inv τ (on_stats (add_count k 1) (on_index k <[key_of o := l]> (on_object l (λ _, o) w))).
Proof.
  intros Hw Hl Ho Hn. pose proof (inv_index τ k (key_of o) l (on_object l (λ _, o) w)) as Hi.
  simpl in Hi. rewrite idx_on_object, bool_decide_eq_false_2 in Hi.
  - apply Hi; [|done]. apply inv_alloc; [done|congruence].
  - rewrite Hn. by intros [].
Qed.

Definition load_one (k : kind) (l : loc) (o : object) (w : World) : World :=
  let w := on_object l (λ _, o) w in
  if expired k (clk k (key_of o)) o then w
  else on_stats (add_count k 1) (on_index k <[key_of o := l]> w).

Lemma load_list_cons k i o os w :
  load_list clk alloc k i (Some <$> (o :: os)) w
  = load_list clk alloc k (S i) (Some <$> os) (load_one k (alloc k i) o w).
Proof. done. Qed.

Lemma load_one_object k l o w :
  (∀ k' key, idx k' w !! key ≠ Some l) →
  (∀ k' key, object_at k' key (load_one k l o w)
    = if decide (k' = k ∧ key = key_of o ∧ expired k (clk k key) o = false)
      then Some o else object_at k' key w) ∧
  (∀ k' key l', idx k' (load_one k l o w) !! key = Some l' →
    idx k' w !! key = Some l' ∨ k' = k ∧ l' = l) ∧
  shl (load_one k l o w) = shl w ∧ shn (load_one k l o w) = shn w.
Proof.
  intros Hl.
  assert (w_heap (load_one k l o w) = <[l := o]> (w_heap w)) as Hh.
  { unfold load_one. by case_match. }
  assert (∀ k' key, idx k' (load_one k l o w) !! key
    = if decide (k' = k ∧ key = key_of o ∧ expired k (clk k key) o = false)
      then Some l else idx k' w !! key) as Hi.
  { intros k' key. unfold load_one. destruct (expired k _ o) eqn:He; autorewrite with gateway.
    - rewrite decide_False; [done|]. intros (->&->&?). congruence.
    - destruct (decide (k' = k)) as [->|Hk]; [|by rewrite decide_False by tauto].
      destruct (decide (key = key_of o)) as [->|Hkey].
      + by rewrite lookup_insert_eq, decide_True.
      + by rewrite lookup_insert_ne, decide_False by naive_solver. }
  split_and!.
  - intros k' key. unfold object_at. rewrite Hi, Hh. case_decide; simpl.
    + by rewrite fn_lookup_insert.
    + destruct (idx k' w !! key) as [l'|] eqn:Hl'; simpl; [|done].
      rewrite fn_lookup_insert_ne; [done|]. intros ->. by eapply Hl.
  - intros k' key l'. rewrite Hi. case_decide; naive_solver.
  - unfold load_one. case_match; by autorewrite with gateway.
  - unfold load_one. case_match; by autorewrite with gateway.
Qed.

Lemma load_one_inv k l o w :
  store_inv τ w → τ l = k → kind_of o = k → idx k w !! key_of o = None →
  store_inv τ (load_one k l o w).
Proof.
  intros. unfold load_one. case_match; [|by apply inv_stored]. apply inv_alloc; congruence.
Qed.

(** What is stored of a list of records. *)
Definition kept (k : kind) (key : string) (o : option object) : option object :=
  o ← o; if expired k (clk k key) o then None else Some o.

Lemma load_list_spec k os : ∀ i w,
  store_inv τ w → NoDup (key_of <$> os) → Forall (λ o, kind_of o = k) os →
  (∀ k' key j, (i <= j)%nat → idx k' w !! key ≠ Some (alloc k j)) →
  (∀ o, o ∈ os → object_at k (key_of o) w = None) →
  ∃ w', load_list clk alloc k i (Some <$> os) w = (Done tt, w') ∧ store_inv τ w' ∧
    (∀ key, object_at k key w'
      = from_option (λ o, kept k key (Some o)) (object_at k key w) (by_key os !! key)) ∧
    (∀ k' key, k' ≠ k → object_at k' key w' = object_at k' key w) ∧
    (∀ k' key l, idx k' w' !! key = Some l → idx k' w !! key = Some l ∨ ∃ j, l = alloc k j) ∧
    shl w' = shl w ∧ shn w' = shn w.
Proof.
  induction os as [|o os IH]; intros i w Hw Hnd Hkind Hfresh Hnone.
  { exists w. split_and!; eauto. }
  rewrite load_list_cons. apply NoDup_cons in Hnd as [Hni Hnd].
  apply Forall_cons in Hkind as [Ho Hkind].
  destruct (load_one_object k (alloc k i) o w) as (Hobj&Hidx&Hshl&Hshn).
  { intros. by apply Hfresh. }
  destruct (IH (S i) (load_one k (alloc k i) o w)) as (w'&E&Hw'&Hk&Hk'&Hloc&?&?); try done.
  - apply load_one_inv; [done|done|done|]. specialize (Hnone o ltac:(left)).
    by apply fmap_None in Hnone.
  - intros k' key j Hj Hl. destruct (Hidx _ _ _ Hl) as [Hl'|[_ Heq]].
    + eapply Hfresh; [|exact Hl']. lia.
    + apply alloc_inj in Heq. lia.
  - intros o' Hin. rewrite Hobj, decide_False; [apply Hnone; by right|].
    intros (_&Heq&_). apply Hni. rewrite <-Heq. by apply list_elem_of_fmap_2.
  - exists w'. split_and!; [done|done| | | |congruence|congruence].
    + intros key. rewrite Hk, by_key_cons. destruct (decide (key = key_of o)) as [->|Hne].
      * rewrite by_key_fresh, lookup_insert_eq by done. simpl. rewrite Hobj.
        destruct (expired k (clk k (key_of o)) o) eqn:He.
        -- rewrite decide_False by naive_solver. apply Hnone. left.
        -- by rewrite decide_True.
      * rewrite lookup_insert_ne by done. by rewrite Hobj, decide_False by tauto.
    + intros k' key Hne. rewrite Hk' by done. by rewrite Hobj, decide_False by tauto.
    + intros k' key l [Hl|?]%Hloc; [|by right]. destruct (Hidx _ _ _ Hl) as [?|[_ ->]]; eauto.
Qed.

Lemma load_lists_spec ls : ∀ w,
  store_inv τ w → NoDup ls.*1 →
  (∀ k os, (k, os) ∈ ls → NoDup (key_of <$> os) ∧ Forall (λ o, kind_of o = k) os ∧
    ∀ key, object_at k key w = None) →
  (∀ k' key l, idx k' w !! key = Some l → ∃ k j, l = alloc k j ∧ k ∉ ls.*1) →
  ∃ w', load_lists clk alloc (as_decoded ls) w = (Done tt, w') ∧
    store_inv τ w' ∧
    (∀ k os, (k, os) ∈ ls → ∀ key, object_at k key w' = kept k key (by_key os !! key)) ∧
    (∀ k key, k ∉ ls.*1 → object_at k key w' = object_at k key w) ∧
    shl w' = shl w ∧ shn w' = shn w.
Proof.
  induction ls as [|[k os] ls IH]; intros w Hw Hnd Hls Hloc.
  { exists w. split_and!; try done. intros ?? []%not_elem_of_nil. }
  apply NoDup_cons in Hnd as [Hni Hnd].
  destruct (Hls k os ltac:(left)) as (Hndk&Hkind&Hnone).
  destruct (load_list_spec k os 0 w) as (w1&E1&Hw1&Hk1&Hk1'&Hloc1&?&?); try done.
  { intros k' key j _ Hl. destruct (Hloc _ _ _ Hl) as (k0&j0&Heq&Hne).
    apply alloc_inj in Heq as [-> _]. apply Hne. left. }
  destruct (IH w1) as (w2&E2&Hw2&Hin2&Hout2&?&?); try done.
  { intros k' os' Hin. destruct (Hls k' os' ltac:(by right)) as (?&?&Hn).
    split_and!; try done. intros key. rewrite Hk1'; [done|]. intros ->.
    apply Hni. by apply (list_elem_of_fmap_2 fst) in Hin. }
  { intros k' key l [Hl|[j ->]]%Hloc1; [|by eauto].
    destruct (Hloc _ _ _ Hl) as (k0&j0&->&Hne). exists k0, j0. split; [done|].
    intros Hc. apply Hne. by right. }
  exists w2. simpl load_lists. rewrite (bind_Done _ _ _ _ _ E1).
  split_and!; [done|done| | |congruence|congruence].
  - intros k' os' [[= -> ->]|Hin]%elem_of_cons key; [|by apply Hin2].
    rewrite Hout2, Hk1, Hnone by done. by destruct (by_key os !! key).
  - intros k' key [Hne Hn]%not_elem_of_cons. rewrite Hout2 by done. by apply Hk1'.
Qed.
End LoadFacts.

(** ** Properties *)

Section Properties.
Context `{JSONLaws} (τ : loc → kind).

(** C22. A save never damages the last one: whatever the operating system
    refuses, the file is either the complete new one - the header and five lists
    - or exactly what it was before, and no file but the temporary one is
    touched. *)
Theorem save_is_atomic (it : Iteration) (dk : disk) (w : World) (fs : gmap string (list Doc))
    (Hf : fair it) (Hw : store_inv τ w) :
  let path := persistPath (w_mem w) in
  ∃ r w' fs', persistToFile it dk (w, fs) = (Done r, (w', fs')) ∧
    (∀ f, f ≠ path → f ≠ path +:+ ".tmp" → fs' !! f = fs !! f) ∧
    match r with
    | Ok _ => ∃ ds, length ds = 6%nat ∧ fs' !! path = Some ds ∧ fs' !! (path +:+ ".tmp") = None
    | Err _ => fs' !! path = fs !! path
    end.
Proof.
  intros path. set (tmp := path +:+ ".tmp"). assert (tmp ≠ path) as Htmp by apply tmp_ne.
  unfold persistToFile. rewrite bind_get. cbv zeta. change (fst (w, fs)) with w.
  fold path. fold tmp.
  destruct (dk_mkdir dk); cbn [negb]; [|by eexists _, _, _].
  destruct (dk_create dk); cbn [negb]; [|by eexists _, _, _].
  rewrite bind_on_fs. unfold Stats. erewrite bind_on_world by reflexivity.
  match goal with |- context [write_doc dk 0 tmp ?d] => set (d0 := d) end.
  destruct (write_doc_frame dk 0 tmp d0 w (<[tmp := []]> fs)) as (ok&fs1&E1&Hfs1&Hok1).
  rewrite (bind_Done _ _ _ _ _ E1).
  assert (∀ f, f ≠ tmp → fs1 !! f = fs !! f) as Hfs1'.
  { intros f Hne. by rewrite Hfs1, lookup_insert_ne. }
  destruct ok; cbn [negb]; [|by eexists _, _, _; split; [reflexivity|]; split; auto].
  destruct (Hok1 eq_refl) as (h&_&Hh). specialize (Hh [] ltac:(by apply lookup_insert_eq)).
  destruct (write_lists_frame τ it dk tmp listed 1 w fs1 Hf Hw) as (r&w2&fs2&E2&Hw2&Hfs2&Hr).
  rewrite (bind_Done _ _ _ _ _ E2).
  assert (∀ f, f ≠ tmp → fs2 !! f = fs !! f) as Hfs2'.
  { intros f Hne. rewrite Hfs2 by done. by apply Hfs1'. }
  destruct r as [n|]; [by eexists _, _, _; split; [reflexivity|]; split; auto|].
  destruct (Hr eq_refl _ Hh) as (ds&Hlen&Hds).
  erewrite bind_on_world.
  2: { apply (range_ami_spec τ); [done|]. intros key l.
       rewrite (proj2 Hf), elem_of_map_to_list. done. }
  match goal with |- context [write_doc dk 5 tmp ?d] => set (d5 := d) end.
  destruct (write_doc_frame dk 5 tmp d5 w2 fs2) as (ok&fs3&E3&Hfs3&Hok3).
  rewrite (bind_Done _ _ _ _ _ E3).
  assert (∀ f, f ≠ tmp → fs3 !! f = fs !! f) as Hfs3'.
  { intros f Hne. rewrite Hfs3 by done. by apply Hfs2'. }
  destruct ok; cbn [negb]; [|by eexists _, _, _; split; [reflexivity|]; split; auto].
  destruct (dk_rename dk); cbn [negb]; [|by eexists _, _, _; split; [reflexivity|]; split; auto].
  destruct (Hok3 eq_refl) as (d&_&Hd). rewrite bind_on_fs, (Hd _ Hds).
  eexists _, w2, _. split; [reflexivity|]. split.
  - intros f Hp Hne. rewrite lookup_delete_ne, lookup_insert_ne by done. by apply Hfs3'.
  - eexists. split_and!; [|by rewrite lookup_delete_ne, lookup_insert_eq|by apply lookup_delete_eq].
    simpl. rewrite length_app, Hlen. done.
Qed.

(** C7. A storage that is opened on a saved file holds exactly the dialogs, RTP
    sessions, client sessions and registrations that had not expired when they
    were saved and have not when they are loaded, and the AMI actions among
    them that have an expiration at all, each record unchanged under its key,
    with the counters right. The connections and every key-value pair, and the
    actions without an expiration, are gone. *)
Theorem save_load_roundtrip (it : Iteration) (dk : disk) (w : World)
    (fs : gmap string (list Doc)) (config : MemoryConfig) (heap : loc → object)
    (clk : kind → string → Time) (alloc : kind → nat → loc)
    (Hf : fair it) (Hw : store_inv τ w) (Hk : keyed w) (Hdk : disk_ok dk)
    (Hj : ∀ k, k ≠ KWS → faithful w k)
    (Hpath : cfg_PersistPath config = persistPath (w_mem w)) (Hset : persistPath (w_mem w) ≠ "")
    (Hs : shards_ok config) (Hheap : ∀ l, kind_of (heap l) = τ l)
    (Hinj : ∀ k i k' i', alloc k i = alloc k' i' → k = k' ∧ i = i')
    (Htyped : ∀ k i, τ (alloc k i) = k) :
  ∃ w' fs' w2, persistToFile it dk (w, fs) = (Done (Ok tt), (w', fs')) ∧
    Open config heap true clk alloc fs' = (Done tt, (w2, fs')) ∧ store_inv τ w2 ∧
    (∀ k key, object_at k key w2
      = (o ← object_at k key w;
         if saved k (it_clk it k key) o && negb (expired k (clk k key) o)
         then Some o else None)) ∧
    (∀ key, mem_view w2 key = None).
Proof.
  destruct (persist_complete τ it dk w fs Hf Hw Hk Hdk Hj)
    as (w'&fs'&h&ds&d&E&Hfile&Hh&Hds&Hd).
  destruct (decode_lists_saved w (it_clk it) loaded_kinds (ds ++ [d])) as (ls&Els&Hks&Hls).
  { apply Forall2_app; [done|by constructor]. }
  pose proof (store_inv_new τ config heap Hs Hheap) as Hnew.
  destruct (load_lists_spec τ clk alloc Hinj Htyped ls (new_world config heap))
    as (w2&E2&Hw2&Hin&Hout&Hshl&Hshn); try done.
  { rewrite Hks. by_decide. }
  { intros k os Hkos. destruct (Hls k os Hkos) as (?&?&_). split_and!; [done|done|].
    intros key. by destruct k. }
  { by intros []. }
  exists w', fs', w2. split; [done|]. split_and!; [|done| |].
  - unfold Open. rewrite Hpath, decide_False by done. unfold loadFromFile.
    rewrite bind_assoc, bind_get. cbn [fst snd].
    change (persistPath (w_mem (new_world config heap))) with (cfg_PersistPath config).
    rewrite Hpath, Hfile, Hh, Els. cbn [negb]. rewrite bind_assoc.
    by erewrite bind_on_world by exact E2.
  - intros k key. destruct (decide (k = KWS)) as [->|Hne].
    { rewrite Hout by (rewrite Hks; by_decide). by destruct (object_at KWS key w). }
    assert (k ∈ ls.*1) as Hk' by (rewrite Hks; destruct k; try done; by_decide).
    apply list_elem_of_fmap in Hk' as ([k' os]&->&Hkos). simpl in *.
    rewrite (Hin _ _ Hkos). destruct (Hls _ _ Hkos) as (_&_&Hby). rewrite Hby.
    destruct (object_at k' key w) as [o|]; simpl; [|done].
    destruct (saved k' _ o); simpl; [|done]. by destruct (expired k' _ o).
  - intros key. unfold mem_view. rewrite Hshl, Hshn. unfold shl, new_world. simpl.
    destruct (replicate _ _ !! _) as [g|] eqn:Hg; [|done]. by apply lookup_replicate_1 in Hg as [-> _].
Qed.
End Properties.

(** ** Instances *)

(** Documents that are kept as values. *)
Inductive plain_doc : Type :=
| PlainHeader (s : StorageStats) (t : Time)
| PlainList (k : kind) (os : list object).

#[export] Instance plain_json : JSON := {|
  Doc := plain_doc;
  encode_header := PlainHeader;
  encode_list k os := Some (PlainList k os);
  decode_header d := match d with PlainHeader _ _ => true | _ => false end;
  decode_list k d :=
    match d with
    | PlainList k' os => if decide (k = k') then Some (Some <$> os) else None
    | _ => None
    end;
  json_faithful _ := True
|}.

#[export] Instance plain_json_laws : JSONLaws.
Proof.
  split; [done|]. intros k os _ _. eexists. split; [reflexivity|]. simpl. by rewrite decide_True.
Qed.

(** Location [l] holds an object of the kind [l] modulo 6. *)
Definition kind_code (k : kind) : nat :=
  match k with KDialog => 0 | KRTP => 1 | KAMI => 2 | KClient => 3 | KWS => 4 | KReg => 5 end.
Definition code_kind (n : nat) : kind :=
  match n with 0 => KDialog | 1 => KRTP | 2 => KAMI | 3 => KClient | 4 => KWS | _ => KReg end%nat.
Definition mod_kind (l : loc) : kind := code_kind (l mod 6).
Definition mod_heap (l : loc) : object :=
  match mod_kind l with
  | KDialog => ODialog (mkDialog "call" "a" "b" "early" [] 1 1 "" "" "" 0 0 0 ∅)
  | KRTP => ORTP (mkRTPSession "call" 0 "" "" "" "" 0 0 0)
  | KAMI => OAMI (mkAMIAction "act" "Originate" ∅ "c" 0 0 0)
  | KClient => OClient (mkClientSession "c" "" "" [] 0 0 0 ∅)
  | KWS => OWS (mkWSConnectionInfo "c" "" "" "" 0 0 0)
  | KReg => OReg (mkRegistration "aor" "" 60 "" "" 0 0 0)
  end.
Definition mod_alloc (k : kind) (i : nat) : loc := (6 * i + kind_code k)%nat.

Lemma mod_heap_kind l : kind_of (mod_heap l) = mod_kind l.
Proof. unfold mod_heap. by destruct (mod_kind l). Qed.
Lemma mod_alloc_kind k i : mod_kind (mod_alloc k i) = k.
Proof.
  unfold mod_kind, mod_alloc. replace (6 * i + kind_code k)%nat with (kind_code k + i * 6)%nat by lia.
  rewrite Nat.Div0.mod_add. by destruct k.
Qed.
Lemma mod_alloc_inj k i k' i' : mod_alloc k i = mod_alloc k' i' → k = k' ∧ i = i'.
Proof. unfold mod_alloc. destruct k, k'; simpl; intros; split; (done || lia). Qed.

Definition file_config : MemoryConfig := mkMemoryConfig 0 0 "state.json" true 0.
Definition good_disk : disk := mkDisk true true (λ _, true) true 9.
Definition full_disk : disk := mkDisk true true (λ n, (n <? 3)%nat) true 9.
(** A dialog and an action that are stored at 5, and a key-value pair. *)
Definition file_ops : list op :=
  [OStore KDialog "" (Some 0%nat) 5 6; OStore KAMI "" (Some 2%nat) 5 6;
   OKV (KSet "k" (Some (Raw "v")) 0 7)].
Definition file_world : World := (run file_ops (new_world file_config mod_heap)).2.

Lemma file_world_inv : store_inv mod_kind file_world.
Proof.
  destruct (run_inv mod_kind file_ops (new_world file_config mod_heap)) as (w&E&Hw).
  - by repeat constructor.
  - apply store_inv_new; [by left|apply mod_heap_kind].
  - unfold file_world. by rewrite E.
Qed.

Lemma file_world_keyed : keyed file_world.
Proof.
  assert (∀ k, map_Forall (λ key l, key_of (w_heap file_world l) = key) (idx k file_world)) as Hk
    by (intros []; by_decide).
  intros k key l _ Hl. exact (Hk k key l Hl).
Qed.

Lemma save_is_atomic_witness :
  ∃ w' fs', persistToFile map_order full_disk (file_world, {["state.json" := []]})
    = (Done (Err (EncodeFailed 3)), (w', fs')) ∧ fs' !! "state.json" = Some [].
Proof.
  destruct (save_is_atomic mod_kind map_order full_disk file_world {["state.json" := []]}
    map_order_fair file_world_inv) as (r&w'&fs'&E&_&Hr).
  destruct r as [[]|err]; [apply (f_equal fst) in E; by vm_compute in E|].
  assert (err = EncodeFailed 3) as -> by (apply (f_equal fst) in E; vm_compute in E; congruence).
  exists w', fs'. split; [exact E|]. etrans; [exact Hr|]. by vm_compute.
Defined.

Lemma save_load_roundtrip_witness :
  ∃ w' fs' w2,
    persistToFile map_order good_disk (file_world, ∅) = (Done (Ok tt), (w', fs')) ∧
    Open file_config mod_heap true (λ _ _, 100) mod_alloc fs' = (Done tt, (w2, fs')) ∧
    (dlg_CallID <$> (object_at KDialog "call" w2 ≫= λ o,
       match o with ODialog d => Some d | _ => None end)) = Some "call" ∧
    is_Some (object_at KAMI "act" w2) ∧ mem_view w2 "k" = None.
Proof.
  destruct (save_load_roundtrip mod_kind map_order good_disk file_world ∅ file_config mod_heap
    (λ _ _, 100) mod_alloc map_order_fair file_world_inv file_world_keyed)
    as (w'&fs'&w2&E1&E2&_&Hobj&Hkv).
  - done.
  - intros k _ key l _. exact I.
  - by vm_compute.
  - by vm_compute.
  - by left.
  - apply mod_heap_kind.
  - apply mod_alloc_inj.
  - apply mod_alloc_kind.
  - exists w', fs', w2. split; [exact E1|]. split; [exact E2|].
    rewrite !Hobj. split; [by vm_compute|]. split; [|apply Hkv]. vm_compute. by eexists.
Defined.
