(* ===== verification/Coordinator.v ===== *)
(** * coordinator/coordination.go: leader election

    The coordinator of one instance, its calls on the shared storage (through
    the [KV] interface of KVStore.v), and a cluster of instances that share a
    storage. The phases of [tryAcquireLeadership] that touch the storage are
    definitions of their own, so that the attempts of two instances can
    interleave between them. *)

From stdpp Require Import pretty.
From S2P Require Import Prelude KVStore Storage.

(** ** Data *)

Record Coordinator : Type := mkCoordinator {
  instanceID : string;
  isLeader : bool;
  leaseExpiration : Time;
  leadership : gmap string bool;
  leadershipCh : list string;
  heartbeatInterval : Duration;
  leaseTimeout : Duration
}.

Record CoordinatorConfig : Type := mkCoordinatorConfig {
  cc_HeartbeatInterval : Duration; cc_LeaseTimeout : Duration }.

Definition set_isLeader (b : bool) (c : Coordinator) : Coordinator :=
  let '(mkCoordinator id _ le ls ch hb lt) := c in mkCoordinator id b le ls ch hb lt.
Definition set_leaseExpiration (t : Time) (c : Coordinator) : Coordinator :=
  let '(mkCoordinator id b _ ls ch hb lt) := c in mkCoordinator id b t ls ch hb lt.
Definition set_leadership (m : gmap string bool) (c : Coordinator) : Coordinator :=
  let '(mkCoordinator id b le _ ch hb lt) := c in mkCoordinator id b le m ch hb lt.
Definition set_leadershipCh (l : list string) (c : Coordinator) : Coordinator :=
  let '(mkCoordinator id b le ls _ hb lt) := c in mkCoordinator id b le ls l hb lt.

(** The errors, with the storage error they wrap or pass on. *)
Inductive coord_error : Type :=
| StorageRequired
| NoLeaderElected
| StorageFailure (e : StorageError)
| ParseFailure
| InterfaceFailure
| RegisterFailure (e : StorageError)
| UnregisterFailure (e : StorageError).

(** ** Construction *)

(** [strconv]'s decimal digits of a clock reading are [pretty]'s. [storage]
    tells whether the storage argument is non-nil; the host name is the
    operating system's. *)
Definition NewCoordinator (storage : bool) (config : CoordinatorConfig)
    (hostname : option string) (nanos : N) : result coord_error Coordinator :=
  if negb storage then Err StorageRequired
  else
    let hb := cc_HeartbeatInterval config in
    let hb := if hb <=? 0 then 5 * Second else hb in
    let lt := cc_LeaseTimeout config in
    let lt := if lt <=? 0 then 15 * Second else lt in
    let hostname := default "unknown" hostname in
    Ok {| instanceID := hostname +:+ "-" +:+ pretty nanos; isLeader := false;
          leaseExpiration := zero_time; leadership := ∅; leadershipCh := [];
          heartbeatInterval := hb; leaseTimeout := lt |}.

(** ** Leadership tests *)

Definition IsLeader (now : Time) (component : option string) (c : Coordinator) : bool :=
  let isGlobalLeader := isLeader c && Before now (leaseExpiration c) in
  match component with
  | None => isGlobalLeader
  | Some component =>
      if negb isGlobalLeader then false
      else match leadership c !! component with Some leader => leader | None => false end
  end.

Definition RegisterComponentLeadership (component : string) (c : Coordinator) : Coordinator :=
  set_leadership (<[component := false]> (leadership c)) c.

Definition IsComponentLeader (now : Time) (component : string) (c : Coordinator) : bool :=
  match leadership c !! component with
  | Some leader => leader && IsLeader now None c
  | None => false
  end.

(** The send with a [default] case on the channel of capacity 10. *)
Definition notify (component : string) (c : Coordinator) : Coordinator :=
  if (length (leadershipCh c) <? 10)%nat
  then set_leadershipCh (leadershipCh c ++ [component]) c else c.

(** What the [select] of [WaitForLeadership] does in each round: the context
    is done, a notification is received, or the heartbeat elapses. *)
Inductive wait_event : Type :=
| CtxDone
| Notified (now : Time)
| Elapsed (now : Time).

(** [None] is a wait that has not returned after the given rounds. *)
Fixpoint wait_rounds (es : list wait_event) (c : Coordinator) : option bool * Coordinator :=
  match es with
  | [] => (None, c)
  | CtxDone :: _ => (Some false, c)
  | Notified now :: es =>
      match leadershipCh c with
      | [] => wait_rounds es c
      | component :: ch =>
          let c := set_leadershipCh ch c in
          if bool_decide (component = "global") && IsLeader now None c
          then (Some true, c) else wait_rounds es c
      end
  | Elapsed now :: es => if IsLeader now None c then (Some true, c) else wait_rounds es c
  end.

Definition WaitForLeadership (now : Time) (es : list wait_event) (c : Coordinator)
    : option bool * Coordinator :=
  if IsLeader now None c then (Some true, c) else wait_rounds es c.

(** ** Operations on the storage *)

Definition leaderKey : string := "coordinator:leader".

Section Operations.
Context {S : Type} `{KV S}.
(** What [json.Unmarshal] makes of bytes that were not produced by
    [json.Marshal] of a flat map. *)
Context (unmarshal_raw : string → option (gmap string jval)).

Definition Unmarshal (data : bytes) : option (gmap string jval) :=
  match data with Json j => Some j | Raw s => unmarshal_raw s end.

(** A storage call from an operation of one coordinator. *)
Definition on_store {A} (m : GoM S A) : GoM (S * Coordinator) A :=
  λ sc, let '(r, s) := m (fst sc) in (r, (s, snd sc)).
Definition self : GoM (S * Coordinator) Coordinator := λ sc, (Done (snd sc), sc).
Definition update (f : Coordinator → Coordinator) : GoM (S * Coordinator) unit :=
  λ sc, (Done tt, (fst sc, f (snd sc))).

Definition get_str (key : string) (j : gmap string jval) : option string :=
  match j !! key with Some (JStr s) => Some s | _ => None end.
Definition get_num (key : string) (j : gmap string jval) : option Z :=
  match j !! key with Some (JNum z) => Some z | _ => None end.

Definition GetLeaderInfo (now : Time)
    : GoM (S * Coordinator) (result coord_error (gmap string jval)) :=
  r ← on_store (kv_Get leaderKey now);
  mret match r with
       | Err ErrNotFound => Err NoLeaderElected
       | Err e => Err (StorageFailure e)
       | Ok data => match Unmarshal data with
                    | None => Err ParseFailure
                    | Some leaderInfo => Ok leaderInfo
                    end
       end.

Definition instanceKey (c : Coordinator) : string := "coordinator:instance:" +:+ instanceID c.

(** [ip] is the address the interface scan found, [None] when the scan itself
    failed. *)
Definition registerInstance (ip : option string) (t1 t2 t3 : Time)
    : GoM (S * Coordinator) (result coord_error unit) :=
  match ip with
  | None => mret (Err InterfaceFailure)
  | Some ipAddr =>
      c ← self;
      let instanceInfo : gmap string jval :=
        {[ "id" := JStr (instanceID c); "host" := JStr (instanceID c);
           "ip" := JStr ipAddr; "startTime" := JNum (Unix t1);
           "lastSeen" := JNum (Unix t2) ]} in
      r ← on_store (kv_Set (instanceKey c) (Some (Json instanceInfo))
                     (int64_wrap (leaseTimeout c * 2)) t3);
      mret match r with Err e => Err (RegisterFailure e) | Ok _ => Ok tt end
  end.

Definition unregisterInstance : GoM (S * Coordinator) (result coord_error unit) :=
  c ← self;
  r ← on_store (kv_Delete (instanceKey c));
  mret match r with
       | Ok _ | Err ErrNotFound => Ok tt
       | Err e => Err (UnregisterFailure e)
       end.

(** The first part of [tryAcquireLeadership]: whether to go on and claim. *)
Definition try_check (t1 t2 : Time) : GoM (S * Coordinator) bool :=
  r ← on_store (kv_Get leaderKey t1);
  mret match r with
       | Err _ => true
       | Ok data =>
           match Unmarshal data with
           | None => false
           | Some leaderInfo =>
               match get_num "expireTime" leaderInfo with
               | Some expireTime => if Before t2 (FromUnix expireTime) then false else true
               | None => true
               end
           end
       end.

(** The record an instance claims the leadership with. *)
Definition leader_record (c : Coordinator) (t1 t2 : Time) : gmap string jval :=
  {[ "instanceID" := JStr (instanceID c); "acquireTime" := JNum (Unix t1);
     "expireTime" := JNum (Unix (Add t2 (leaseTimeout c))) ]}.

(** The second part: whether the claim was stored. *)
Definition try_claim (t1 t2 t3 : Time) : GoM (S * Coordinator) bool :=
  c ← self;
  r ← on_store (kv_Set leaderKey (Some (Json (leader_record c t1 t2))) (leaseTimeout c) t3);
  mret (is_ok r).

(** The third part: the verification and the local update. *)
Definition try_verify (t1 t2 : Time) : GoM (S * Coordinator) unit :=
  r ← on_store (kv_Get leaderKey t1);
  match r with
  | Err _ => mret tt
  | Ok data =>
      match Unmarshal data with
      | None => mret tt
      | Some verifyInfo =>
          c ← self;
          if decide (get_str "instanceID" verifyInfo = Some (instanceID c)) then
            let wasLeader := isLeader c in
            update (set_isLeader true);;
            update (λ c, set_leaseExpiration (Add t2 (leaseTimeout c)) c);;
            if negb wasLeader then update (notify "global") else mret tt
          else mret tt
      end
  end.

(** Clock readings of one operation, in order. *)
Record clocks : Type := mkClocks {
  ck_1 : Time; ck_2 : Time; ck_3 : Time; ck_4 : Time; ck_5 : Time; ck_6 : Time; ck_7 : Time }.

Definition tryAcquireLeadership (t : clocks) : GoM (S * Coordinator) unit :=
  go ← try_check (ck_1 t) (ck_2 t);
  if (go : bool) then
    ok ← try_claim (ck_3 t) (ck_4 t) (ck_5 t);
    if (ok : bool) then try_verify (ck_6 t) (ck_7 t) else mret tt
  else mret tt.

Definition renewLeadership (t : clocks) : GoM (S * Coordinator) unit :=
  r ← on_store (kv_Get leaderKey (ck_1 t));
  match r with
  | Err _ => update (set_isLeader false)
  | Ok data =>
      match Unmarshal data with
      | None => mret tt
      | Some leaderInfo =>
          c ← self;
          if decide (get_str "instanceID" leaderInfo = Some (instanceID c)) then
            let leaderInfo :=
              <["expireTime" := JNum (Unix (Add (ck_2 t) (leaseTimeout c)))]> leaderInfo in
            r ← on_store (kv_Set leaderKey (Some (Json leaderInfo)) (leaseTimeout c) (ck_3 t));
            match r with
            | Err _ => mret tt
            | Ok _ => update (λ c, set_leaseExpiration (Add (ck_4 t) (leaseTimeout c)) c)
            end
          else update (set_isLeader false)
      end
  end.

Definition releaseLeadership (now : Time) : GoM (S * Coordinator) unit :=
  r ← on_store (kv_Get leaderKey now);
  match r with
  | Err _ => mret tt
  | Ok data =>
      match Unmarshal data with
      | None => mret tt
      | Some leaderInfo =>
          c ← self;
          if decide (get_str "instanceID" leaderInfo = Some (instanceID c)) then
            on_store (kv_Delete leaderKey);;
            update (set_isLeader false)
          else mret tt
      end
  end.
End Operations.

(** ** Component leadership *)

(** Losing: every component that is held is given up. Winning: every component
    that is not held is taken. *)
Definition drop_component (c : Coordinator) (component : string) : Coordinator :=
  match leadership c !! component with
  | Some true => notify component (set_leadership (<[component := false]> (leadership c)) c)
  | _ => c
  end.
Definition take_component (c : Coordinator) (component : string) : Coordinator :=
  match leadership c !! component with
  | Some false => notify component (set_leadership (<[component := true]> (leadership c)) c)
  | _ => c
  end.

(** [order] is the order in which the [range] over the map visits its keys. *)
Definition monitorComponentLeadership (now : Time) (order : list string) (c : Coordinator)
    : Coordinator :=
  if negb (IsLeader now None c) then foldl drop_component c order
  else foldl take_component c order.

(** ** The goroutines of an instance and the cluster *)

Section Cluster.
Context {S : Type} `{KV S}.
Context (unmarshal_raw : string → option (gmap string jval)).

(** What an instance does at a time: its start (the registration, then the
    first attempt), a heartbeat of the election loop, a heartbeat of the
    component loop, its stop. *)
Inductive event : Type :=
| EStart (ip : option string) (t1 t2 t3 : Time) (t : clocks)
| EHeartbeat (now : Time) (t : clocks)
| EComponents (now : Time) (order : list string)
| EStop (now t : Time).

Definition Start (ip : option string) (t1 t2 t3 : Time) (t : clocks)
    : GoM (S * Coordinator) (result coord_error unit) :=
  r ← registerInstance ip t1 t2 t3;
  match r with
  | Err e => mret (Err e)
  | Ok _ => tryAcquireLeadership unmarshal_raw t;; mret (Ok tt)
  end.

Definition heartbeat (now : Time) (t : clocks) : GoM (S * Coordinator) unit :=
  c ← self;
  if IsLeader now None c then renewLeadership unmarshal_raw t
  else tryAcquireLeadership unmarshal_raw t.

Definition Stop (now t : Time) : GoM (S * Coordinator) unit :=
  c ← self;
  (if IsLeader now None c then releaseLeadership unmarshal_raw t else mret tt);;
  unregisterInstance;; mret tt.

Definition handle (e : event) : GoM (S * Coordinator) unit :=
  match e with
  | EStart ip t1 t2 t3 t => Start ip t1 t2 t3 t;; mret tt
  | EHeartbeat now t => heartbeat now t
  | EComponents now order => update (monitorComponentLeadership now order)
  | EStop now t => Stop now t
  end.

Record Cluster : Type := mkCluster { cl_store : S; cl_node : nat → Coordinator }.

Definition run_node {A} (i : nat) (m : GoM (S * Coordinator) A) (cl : Cluster)
    : outcome A * Cluster :=
  let '(r, (s, c)) := m (cl_store cl, cl_node cl i) in
  (r, mkCluster s (<[i := c]> (cl_node cl))).

Fixpoint run_cluster (es : list (nat * event)) (cl : Cluster) : Cluster :=
  match es with
  | [] => cl
  | (i, e) :: es => run_cluster es (run_node i (handle e) cl).2
  end.
End Cluster.
Arguments Cluster S : clear implicits.
Arguments mkCluster {S} _ _.
Arguments cl_store {S} _.
Arguments cl_node {S} _ _.

(** ** The storage calls of an instance *)

Section Facts.
Context {S : Type} `{KVLaws S}.
Context (unmarshal_raw : string → option (gmap string jval)).

Lemma on_store_refines {A} (m : GoM S A) spec s c :
  refines m spec → kv_wf s →
  ∃ s', on_store m (s, c) = (Done (spec (kv_view s)).1, (s', c)) ∧ kv_wf s' ∧
    ∀ k, kv_view s' k = (spec (kv_view s)).2 k.
Proof.
  intros Hm Hs. destruct (Hm s Hs) as (s'&E&?&?). exists s'.
  unfold on_store. simpl. by rewrite E.
Qed.

(** The record in the storage backs the lease of [c], up to the truncation of
    its expiration to seconds and the duration [δ] of an operation. *)
Definition backs (δ : Duration) (o : option KeyValue) (c : Coordinator) : Prop :=
  ∃ j e kv, o = Some kv ∧ kv_Value kv = Json j ∧
    get_str "instanceID" j = Some (instanceID c) ∧ get_num "expireTime" j = Some e ∧
    leaseExpiration c - Second - δ < FromUnix e ∧
    ∀ t, t <= leaseExpiration c - δ → kv_expired t kv = false.

Definition strong (δ : Duration) (now : Time) (c : Coordinator) : Prop :=
  isLeader c = true ∧ now + Second + δ <= leaseExpiration c.

Lemma strong_mono δ a b c : a <= b → strong δ b c → strong δ a c.
Proof. unfold strong. intros ? [? ?]. split; [done|lia]. Qed.

(** An operation of an instance keeps the leases of the others backed and
    leaves its own backed, over the interval from [a] to [b]. *)
Definition keeps {A} (δ a b : Z) (m : GoM (S * Coordinator) A) : Prop :=
  ∀ s c, kv_wf s → (strong δ a c → backs δ (kv_view s leaderKey) c) →
  ∃ r s' c', m (s, c) = (Done r, (s', c')) ∧ kv_wf s' ∧ instanceID c' = instanceID c ∧
    (strong δ b c' → backs δ (kv_view s' leaderKey) c') ∧
    ∀ c2, instanceID c2 ≠ instanceID c → strong δ b c2 →
      backs δ (kv_view s leaderKey) c2 → backs δ (kv_view s' leaderKey) c2.

Definition within (a b : Time) (t : clocks) : Prop :=
  a <= ck_1 t ∧ ck_1 t <= ck_2 t ∧ ck_2 t <= ck_3 t ∧ ck_3 t <= ck_4 t ∧ ck_4 t <= ck_5 t ∧
  ck_5 t <= ck_6 t ∧ ck_6 t <= ck_7 t ∧ ck_7 t <= b.

(** A backed lease that is still strong is found by a [Get] and respected. *)
Lemma backs_get δ b t v c2 :
  0 <= δ → strong δ b c2 → backs δ (v leaderKey) c2 → t <= b →
  ∃ j e, spec_Get leaderKey t v = (Ok (Json j), v) ∧
    get_str "instanceID" j = Some (instanceID c2) ∧
    get_num "expireTime" j = Some e ∧ b < FromUnix e.
Proof.
  intros Hδ [_ Hs] (j&e&kv&Hv&Hj&Hid&He&Hlt&Hexp) Ht. exists j, e. unfold Second in *.
  rewrite (spec_Get_hit leaderKey t v kv) by (done || apply Hexp; lia).
  rewrite Hj. split_and!; [done..|lia].
Qed.

Lemma try_check_spec t1 t2 s c :
  kv_wf s →
  ∃ go s', try_check unmarshal_raw t1 t2 (s, c) = (Done go, (s', c)) ∧ kv_wf s' ∧
    (∀ δ b c2, 0 <= δ → t1 <= b → t2 <= b → strong δ b c2 →
      backs δ (kv_view s leaderKey) c2 →
      go = false ∧ kv_view s' leaderKey = kv_view s leaderKey).
Proof.
  intros Hs. unfold try_check.
  destruct (on_store_refines _ _ s c (kv_Get_refines leaderKey t1) Hs) as (s'&E&Hs'&Hv).
  unfold mbind, GoM_bind. rewrite E. do 2 eexists. split_and!; [done|done|].
  intros δ b c2 Hδ H1 H2 Hst Hb.
  destruct (backs_get δ b t1 (kv_view s) c2 Hδ Hst Hb H1) as (j&e&Hg&_&He&Hlt).
  rewrite Hv, Hg. simpl. rewrite He.
  rewrite (proj2 (Before_true t2 (FromUnix e))) by lia. done.
Qed.

(** A record just written by [c] backs the lease [c] takes from it. *)
Lemma backs_fresh δ j t4 t5 t lt c :
  0 <= δ → t5 - t4 <= δ → t - t4 <= δ → t4 <= t5 → t5 <= t → 0 < t5 →
  get_str "instanceID" j = Some (instanceID c) →
  get_num "expireTime" j = Some (Unix (t4 + lt)) →
  leaseExpiration c = t + lt →
  backs δ (Some (mkKeyValue (Json j) (expire_at t5 (lt)))) c.
Proof.
  intros Hδ H1 H2 H3 H4 H5 Hid He Hl. do 3 eexists. split_and!; [done..| |].
  - pose proof (FromUnix_Unix_le (t4 + lt)). rewrite Hl. lia.
  - intros u Hu. apply expire_at_live; [done|]. lia.
Qed.

Lemma update_run f s c : update (S:=S) f (s, c) = (Done tt, (s, f c)).
Proof. done. Qed.

Lemma notify_fields x c :
  instanceID (notify x c) = instanceID c ∧ isLeader (notify x c) = isLeader c ∧
  leaseExpiration (notify x c) = leaseExpiration c.
Proof. unfold notify. case_match; [by destruct c|done]. Qed.

Lemma backs_ext δ o c c' :
  instanceID c' = instanceID c → leaseExpiration c' = leaseExpiration c →
  backs δ o c → backs δ o c'.
Proof.
  intros Hi Hl (j&e&kv&?&?&?&?&?&?). exists j, e, kv. by rewrite Hi, Hl.
Qed.

Lemma try_claim_spec t3 t4 t5 s c :
  kv_wf s →
  ∃ s', try_claim t3 t4 t5 (s, c) = (Done true, (s', c)) ∧ kv_wf s' ∧
    kv_view s' leaderKey = Some (mkKeyValue (Json (leader_record c t3 t4)) (expire_at t5 (leaseTimeout c))).
Proof.
  intros Hs. unfold try_claim, self, mbind, GoM_bind.
  destruct (on_store_refines _ _ s c (kv_Set_refines leaderKey (Some (Json (leader_record c t3 t4))) (leaseTimeout c) t5) Hs)
    as (s'&E&Hs'&Hv).
  simpl. rewrite E. rewrite spec_Set_ok by done. exists s'. split_and!; [done|done|].
  rewrite Hv, spec_Set_ok by done. simpl. apply view_set_eq.
Qed.

(** The verification either leaves the instance as it was, or finds its own
    record and makes it the leader. *)
Lemma try_verify_spec t6 t7 s c :
  kv_wf s →
  ∃ s' c', try_verify unmarshal_raw t6 t7 (s, c) = (Done tt, (s', c')) ∧ kv_wf s' ∧
    instanceID c' = instanceID c ∧
    (c' = c ∨
     kv_view s' leaderKey = kv_view s leaderKey ∧ isLeader c' = true ∧
     leaseExpiration c' = t7 + leaseTimeout c ∧
     is_Some (kv_view s leaderKey)) ∧
    leaseTimeout c' = leaseTimeout c.
Proof.
  intros Hs. unfold try_verify.
  destruct (on_store_refines _ _ s c (kv_Get_refines leaderKey t6) Hs) as (s'&E&Hs'&Hv).
  unfold mbind at 1, GoM_bind at 1. rewrite E. specialize (Hv leaderKey). revert Hv.
  unfold spec_Get. rewrite decide_False by done.
  destruct (kv_view s leaderKey) as [kv|] eqn:Hkv; [destruct (kv_expired t6 kv)|];
    simpl; intros Hv; [by exists s', c; split_and!; auto| |by exists s', c; split_and!; auto].
  destruct (Unmarshal unmarshal_raw (kv_Value kv)); [|by exists s', c; split_and!; auto].
  unfold self, mbind, GoM_bind. simpl. case_decide; [|by exists s', c; split_and!; auto].
  destruct c as [id il le ls ch hb lt]. simpl.
  destruct il; simpl; eexists s', _; (split; [reflexivity|]);
    unfold notify; simpl; repeat case_match; simpl; split_and!; try done; right;
    split_and!; try done; congruence.
Qed.

Lemma try_keeps δ a b t :
  0 <= δ → 0 < a → b <= a + δ → within a b t → keeps δ a b (tryAcquireLeadership unmarshal_raw t).
Proof.
  intros Hδ Ha Hab (?&?&?&?&?&?&?&?) s c Hs Hown. unfold tryAcquireLeadership.
  destruct (try_check_spec (ck_1 t) (ck_2 t) s c Hs) as (go&s1&E1&Hs1&Hgo).
  unfold mbind at 1, GoM_bind at 1. rewrite E1. destruct go.
  2: { eexists _, s1, c. split_and!; [done|done|done| |].
    - intros Hst. assert (strong δ a c) by (eapply strong_mono; [|done]; lia).
      destruct (Hgo δ b c) as [_ ->]; auto; lia.
    - intros c2 _ Hst Hb. destruct (Hgo δ b c2) as [_ ->]; auto; lia. }
  assert (∀ c2, strong δ b c2 → ¬ backs δ (kv_view s leaderKey) c2) as Hnone.
  { intros c2 Hst Hb. destruct (Hgo δ b c2) as [? _]; try done; lia. }
  destruct (try_claim_spec (ck_3 t) (ck_4 t) (ck_5 t) s1 c Hs1) as (s2&E2&Hs2&Hv2).
  unfold mbind at 1, GoM_bind at 1. rewrite E2.
  destruct (try_verify_spec (ck_6 t) (ck_7 t) s2 c Hs2) as (s3&c3&E3&Hs3&Hid&Hc3&_).
  eexists _, s3, c3. split_and!; [exact E3|done|done| |].
  - intros Hst. destruct Hc3 as [->|(Hv3&_&Hl&_)].
    + exfalso. eapply Hnone; [exact Hst|]. apply Hown. eapply strong_mono; [|done]. lia.
    + rewrite Hv3, Hv2. apply (backs_fresh δ _ (ck_4 t) _ (ck_7 t)); try lia; [|done].
      by rewrite Hid.
  - intros c2 _ Hst Hb. by destruct (Hnone c2).
Qed.

Lemma renew_keeps δ a b t :
  0 <= δ → 0 < a → b <= a + δ → within a b t → keeps δ a b (renewLeadership unmarshal_raw t).
Proof.
  intros Hδ Ha Hab (?&?&?&?&?&?&?&?) s c Hs Hown. unfold renewLeadership.
  destruct (on_store_refines _ _ s c (kv_Get_refines leaderKey (ck_1 t)) Hs) as (s1&E&Hs1&Hv).
  assert (∀ c2, strong δ b c2 → backs δ (kv_view s leaderKey) c2 → ∃ j,
    (spec_Get leaderKey (ck_1 t) (kv_view s)).1 = Ok (Json j) ∧
    kv_view s1 leaderKey = kv_view s leaderKey ∧
    get_str "instanceID" j = Some (instanceID c2)) as Hb.
  { intros c2 Hst Hb. destruct (backs_get δ b (ck_1 t) (kv_view s) c2 Hδ Hst Hb)
      as (j&e&Hg&Hj&_); [lia|]. exists j. by rewrite Hv, Hg. }
  unfold mbind at 1, GoM_bind at 1. rewrite E.
  assert (strong δ b c → strong δ a c) as Hba by (apply strong_mono; lia).
  destruct (spec_Get leaderKey (ck_1 t) (kv_view s)).1 as [data|er] eqn:Hg.
  2: { rewrite update_run. eexists _, s1, _. split_and!; [done|done|by destruct c| |].
    - intros [Hc _]. by destruct c.
    - intros c2 _ Hst Hc2. by destruct (Hb c2 Hst Hc2) as (?&?&_). }
  destruct (Unmarshal unmarshal_raw data) as [j|] eqn:Hu.
  2: { eexists _, s1, c. split_and!; [done|done|done| |].
    - intros Hst. destruct (Hb c Hst) as (j&?&->&_); auto.
    - intros c2 _ Hst Hc2. by destruct (Hb c2 Hst Hc2) as (?&_&->&_). }
  unfold self. unfold mbind at 1, GoM_bind at 1. simpl. case_decide as Hid.
  - destruct (on_store_refines _ _ s1 c (kv_Set_refines leaderKey
      (Some (Json (<["expireTime" := JNum (Unix (Add (ck_2 t) (leaseTimeout c)))]> j)))
      (leaseTimeout c) (ck_3 t)) Hs1) as (s2&E2&Hs2&Hv2).
    unfold mbind at 1, GoM_bind at 1. rewrite E2, spec_Set_ok by done. simpl.
    eexists _, s2, _. split_and!; [reflexivity|done|by destruct c| |].
    + intros _. rewrite Hv2, spec_Set_ok by done. simpl. rewrite view_set_eq.
      apply (backs_fresh δ _ (ck_2 t) _ (ck_4 t)); try lia.
      * unfold get_str in *. rewrite lookup_insert_ne by done. by destruct c.
      * unfold get_num. by rewrite lookup_insert_eq.
      * by destruct c.
    + intros c2 Hne Hst Hc2. destruct (Hb c2 Hst Hc2) as (j2&Hj2&_&Hid2). simplify_eq/=;
      congruence.
  - eexists _, s1, _. split_and!; [reflexivity|done|by destruct c| |].
    + intros [Hc _]. by destruct c.
    + intros c2 _ Hst Hc2. by destruct (Hb c2 Hst Hc2) as (?&_&->&_).
Qed.

Lemma release_keeps δ a b t :
  0 <= δ → a <= t → t <= b → keeps δ a b (releaseLeadership unmarshal_raw t).
Proof.
  intros Hδ Hat Htb s c Hs Hown. unfold releaseLeadership.
  destruct (on_store_refines _ _ s c (kv_Get_refines leaderKey t) Hs) as (s1&E&Hs1&Hv).
  assert (∀ c2, strong δ b c2 → backs δ (kv_view s leaderKey) c2 → ∃ j,
    (spec_Get leaderKey t (kv_view s)).1 = Ok (Json j) ∧
    kv_view s1 leaderKey = kv_view s leaderKey ∧
    get_str "instanceID" j = Some (instanceID c2)) as Hb.
  { intros c2 Hst Hb. destruct (backs_get δ b t (kv_view s) c2 Hδ Hst Hb)
      as (j&e&Hg&Hj&_); [lia|]. exists j. by rewrite Hv, Hg. }
  assert (strong δ b c → strong δ a c) as Hba by (apply strong_mono; lia).
  assert (∃ r s' c', (mret tt : GoM (S * Coordinator) unit) (s1, c) = (Done r, (s', c')) ∧
    kv_wf s' ∧ instanceID c' = instanceID c ∧
    (strong δ b c' → backs δ (kv_view s' leaderKey) c') ∧
    ∀ c2, instanceID c2 ≠ instanceID c → strong δ b c2 →
      backs δ (kv_view s leaderKey) c2 → backs δ (kv_view s' leaderKey) c2) as Hskip.
  { eexists _, s1, c. split_and!; [done|done|done| |].
    - intros Hst. destruct (Hb c Hst) as (j&?&->&_); auto.
    - intros c2 _ Hst Hc2. by destruct (Hb c2 Hst Hc2) as (?&_&->&_). }
  unfold mbind at 1, GoM_bind at 1. rewrite E.
  destruct (spec_Get leaderKey t (kv_view s)).1 as [data|er] eqn:Hg; [|exact Hskip].
  destruct (Unmarshal unmarshal_raw data) as [j|] eqn:Hu; [|exact Hskip].
  unfold self. unfold mbind at 1, GoM_bind at 1. simpl. case_decide as Hid; [|exact Hskip].
  destruct (on_store_refines _ _ s1 c (kv_Delete_refines leaderKey) Hs1) as (s2&E2&Hs2&Hv2).
  unfold mbind at 1, GoM_bind at 1. rewrite E2.
  eexists _, s2, _. split_and!; [reflexivity|done|by destruct c| |].
  - intros [Hc _]. by destruct c.
  - intros c2 Hne Hst Hc2. destruct (Hb c2 Hst Hc2) as (j2&Hj2&_&Hid2). simplify_eq/=;
    congruence.
Qed.

(** Operations that leave the leader record and the instance alone. *)
Definition neutral {A} (m : GoM (S * Coordinator) A) : Prop :=
  ∀ s c, kv_wf s → ∃ r s', m (s, c) = (Done r, (s', c)) ∧ kv_wf s' ∧
    kv_view s' leaderKey = kv_view s leaderKey.

Lemma keeps_neutral_l {A B} δ a b (m : GoM (S * Coordinator) A) (f : A → GoM (S * Coordinator) B) :
  neutral m → (∀ r, keeps δ a b (f r)) → keeps δ a b (m ≫= f).
Proof.
  intros Hm Hf s c Hs Hown. destruct (Hm s c Hs) as (r&s1&E&Hs1&Hv).
  unfold mbind, GoM_bind. rewrite E. rewrite <-Hv in *. by apply Hf.
Qed.

Lemma keeps_neutral_r {A B} δ a b (m : GoM (S * Coordinator) A) (f : A → GoM (S * Coordinator) B) :
  keeps δ a b m → (∀ r, neutral (f r)) → keeps δ a b (m ≫= f).
Proof.
  intros Hm Hf s c Hs Hown. destruct (Hm s c Hs Hown) as (r&s1&c1&E&Hs1&?&?&?).
  destruct (Hf r s1 c1 Hs1) as (r2&s2&E2&Hs2&Hv).
  unfold mbind, GoM_bind. rewrite E, E2. eexists _, s2, c1. by rewrite Hv.
Qed.

Lemma keeps_ret {A} δ a b (x : A) : a <= b → keeps δ a b (mret x).
Proof.
  intros Hab s c Hs Hown. exists x, s, c. split_and!; auto.
  intros Hst. apply Hown. by apply (strong_mono _ a b).
Qed.

Lemma neutral_ret {A} (x : A) : neutral (mret x).
Proof. intros s c Hs. by exists x, s. Qed.

Lemma instanceKey_ne c : instanceKey c ≠ leaderKey.
Proof. unfold instanceKey, leaderKey. intros E. cbv in E. discriminate E. Qed.

Lemma register_neutral ip t1 t2 t3 : neutral (registerInstance ip t1 t2 t3).
Proof.
  intros s c Hs. unfold registerInstance. destruct ip as [ip|]; [|by apply neutral_ret].
  unfold self. unfold mbind at 1, GoM_bind at 1. simpl.
  set (v := Some (Json _)).
  destruct (on_store_refines _ _ s c (kv_Set_refines (instanceKey c) v
    (int64_wrap (leaseTimeout c * 2)) t3) Hs) as (s1&E&Hs1&Hv).
  unfold mbind, GoM_bind. rewrite E. eexists _, s1. split_and!; [done|done|].
  rewrite Hv. unfold v. rewrite spec_Set_ok by done. simpl.
  apply view_set_ne, instanceKey_ne.
Qed.

Lemma unregister_neutral : neutral unregisterInstance.
Proof.
  intros s c Hs. unfold unregisterInstance.
  unfold self. unfold mbind at 1, GoM_bind at 1. simpl.
  destruct (on_store_refines _ _ s c (kv_Delete_refines (instanceKey c)) Hs) as (s1&E&Hs1&Hv).
  unfold mbind, GoM_bind. rewrite E. eexists _, s1. split_and!; [done|done|].
  rewrite Hv. unfold spec_Delete. rewrite decide_False by done.
  case_match; [|done]. simpl. apply view_set_ne, instanceKey_ne.
Qed.

Lemma fold_fields (f : Coordinator → string → Coordinator) c order :
  (∀ c x, instanceID (f c x) = instanceID c ∧ isLeader (f c x) = isLeader c ∧
    leaseExpiration (f c x) = leaseExpiration c) →
  instanceID (foldl f c order) = instanceID c ∧ isLeader (foldl f c order) = isLeader c ∧
  leaseExpiration (foldl f c order) = leaseExpiration c.
Proof.
  intros Hf. revert c. induction order as [|x order IH]; intros c; simpl; [done|].
  destruct (IH (f c x)) as (->&->&->). apply Hf.
Qed.

Lemma monitor_fields now order c :
  let c' := monitorComponentLeadership now order c in
  instanceID c' = instanceID c ∧ isLeader c' = isLeader c ∧
  leaseExpiration c' = leaseExpiration c.
Proof.
  unfold monitorComponentLeadership. simpl.
  assert (∀ x b c, let c' := notify x (set_leadership (<[x := b]> (leadership c)) c) in
    instanceID c' = instanceID c ∧ isLeader c' = isLeader c ∧
    leaseExpiration c' = leaseExpiration c) as Hn.
  { intros x b c'. destruct (notify_fields x (set_leadership (<[x := b]> (leadership c')) c'))
      as (E1&E2&E3). simpl. rewrite E1, E2, E3. by destruct c'. }
  destruct (negb _); apply fold_fields; intros c' x;
    unfold drop_component, take_component; destruct (leadership c' !! x) as [[]|]; try done;
    apply Hn.
Qed.

(** The instants of an event lie in an interval; heartbeats of the component
    loop do not touch the lease. *)
Definition event_within (a b : Time) (e : event) : Prop :=
  match e with
  | EStart _ _ _ _ t | EHeartbeat _ t => within a b t
  | EComponents _ _ => True
  | EStop _ t => a <= t ∧ t <= b
  end.

Lemma handle_keeps δ a b e :
  0 <= δ → 0 < a → a <= b → b <= a + δ → event_within a b e →
  keeps δ a b (handle unmarshal_raw e).
Proof.
  intros Hδ Ha Hab Hb He. destruct e as [ip t1 t2 t3 t|now t|now order|now t]; simpl in *.
  - apply keeps_neutral_r; [|intros; apply neutral_ret]. unfold Start.
    apply keeps_neutral_l; [apply register_neutral|]. intros [|]; [|by apply keeps_ret].
    apply keeps_neutral_r; [by apply try_keeps|intros; apply neutral_ret].
  - intros s c. unfold heartbeat, self. unfold mbind at 1, GoM_bind at 1. simpl.
    case_match; [by apply renew_keeps|by apply try_keeps].
  - intros s c Hs Hown. rewrite update_run.
    destruct (monitor_fields now order c) as (E1&E2&E3).
    eexists _, s, _. split_and!; [done|done|done| |done].
    unfold strong in *. rewrite E2, E3. intros [? ?]. eapply backs_ext; [done..|].
    apply Hown. split; [done|lia].
  - unfold Stop. intros s c. unfold self. unfold mbind at 1, GoM_bind at 1. simpl.
    apply (keeps_neutral_r δ a b
      (if IsLeader now None c then releaseLeadership unmarshal_raw t else mret tt)).
    + case_match; [apply release_keeps; tauto|by apply keeps_ret].
    + intros _ s' c' Hs'. destruct (unregister_neutral s' c' Hs') as (r&s2&E&?&?).
      unfold mbind, GoM_bind. rewrite E. eauto.
Qed.

(** Events of the cluster, one after the other, each at most [δ] long. *)
Inductive schedule (δ : Duration) : Time → list (nat * event) → Time → Prop :=
| schedule_nil now now' : now <= now' → schedule δ now [] now'
| schedule_cons now a b i e es now' :
    now <= a → a <= b → b <= a + δ → event_within a b e → schedule δ b es now' →
    schedule δ now ((i, e) :: es) now'.

Definition distinct_ids (cl : Cluster S) : Prop :=
  ∀ i j, instanceID (cl_node cl i) = instanceID (cl_node cl j) → i = j.

Definition cluster_inv (δ : Duration) (now : Time) (cl : Cluster S) : Prop :=
  kv_wf (cl_store cl) ∧ distinct_ids cl ∧
  ∀ i, strong δ now (cl_node cl i) → backs δ (kv_view (cl_store cl) leaderKey) (cl_node cl i).

Lemma cluster_inv_mono δ a b cl : a <= b → cluster_inv δ a cl → cluster_inv δ b cl.
Proof.
  intros Hab (?&?&Hi). split_and!; [done..|]. intros i Hst. apply Hi.
  by apply (strong_mono _ a b).
Qed.

Lemma cluster_step δ a b i e cl :
  0 <= δ → 0 < a → a <= b → b <= a + δ → event_within a b e → cluster_inv δ a cl →
  cluster_inv δ b (run_node i (handle unmarshal_raw e) cl).2.
Proof.
  intros Hδ Ha Hab Hb He (Hwf&Hids&Hi).
  destruct (handle_keeps δ a b e Hδ Ha Hab Hb He (cl_store cl) (cl_node cl i) Hwf (Hi i))
    as (r&s'&c'&E&Hs'&Hid&Hown&Hoth).
  unfold run_node. rewrite E. simpl. split_and!; [done| |].
  - intros j1 j2. simpl. intros Hj. apply Hids.
    destruct (decide (i = j1)) as [<-|], (decide (i = j2)) as [<-|];
      rewrite ?fn_lookup_insert, ?fn_lookup_insert_ne in Hj by done; congruence.
  - intros j. simpl. destruct (decide (i = j)) as [<-|Hne].
    + by rewrite fn_lookup_insert.
    + rewrite fn_lookup_insert_ne by done. intros Hst. apply Hoth; [|done|].
      * intros Hj. by apply Hne, Hids.
      * apply Hi. by apply (strong_mono _ a b).
Qed.

Lemma cluster_run δ now es now' cl :
  0 <= δ → 0 < now → schedule δ now es now' → cluster_inv δ now cl →
  cluster_inv δ now' (run_cluster unmarshal_raw es cl).
Proof.
  intros Hδ Hnow Hsch. revert cl.
  induction Hsch as [now now' Hle|now a b i e es now' H1 H2 H3 He Hsch IH]; intros cl Hcl.
  - by apply (cluster_inv_mono _ now).
  - simpl. apply IH; [lia|]. apply cluster_step with (a := a); try done; [lia|].
    by apply (cluster_inv_mono _ now).
Qed.

(** No instance leads and no two have the same name. *)
Definition fresh_cluster (cl : Cluster S) : Prop :=
  kv_wf (cl_store cl) ∧ distinct_ids cl ∧ ∀ i, isLeader (cl_node cl i) = false.
End Facts.

(** ** The component loop *)

Lemma notify_leadership x c : leadership (notify x c) = leadership c.
Proof. unfold notify. case_match; [by destruct c|done]. Qed.

Lemma component_step (b : bool) c x y :
  leadership ((if b then take_component else drop_component) c x) !! y
  = if decide (x = y) then (λ _, b) <$> leadership c !! y else leadership c !! y.
Proof.
  assert (∀ b', leadership (notify x (set_leadership (<[x := b']> (leadership c)) c))
    = <[x := b']> (leadership c)) as Hn.
  { intros b'. rewrite notify_leadership. by destruct c. }
  unfold take_component, drop_component.
  destruct b; destruct (leadership c !! x) as [[]|] eqn:E; rewrite ?Hn;
    case_decide; subst; rewrite ?E, ?lookup_insert_eq, ?lookup_insert_ne by done; done.
Qed.

Lemma component_fold (b : bool) order c y :
  leadership (foldl (if b then take_component else drop_component) c order) !! y
  = if decide (y ∈ order) then (λ _, b) <$> leadership c !! y else leadership c !! y.
Proof.
  revert c. induction order as [|x order IH]; intros c; simpl.
  { done. }
  rewrite IH, component_step. repeat case_decide; subst; try set_solver.
  by destruct (leadership c !! y).
Qed.

Lemma monitor_leadership now order c x :
  (is_Some (leadership c !! x) → x ∈ order) →
  leadership (monitorComponentLeadership now order c) !! x
  = if decide (is_Some (leadership c !! x)) then Some (IsLeader now None c) else None.
Proof.
  intros Hx. unfold monitorComponentLeadership.
  pose proof (component_fold (IsLeader now None c) order c x) as Hf.
  destruct (IsLeader now None c); simpl in *; rewrite Hf;
    destruct (leadership c !! x); repeat case_decide; try done; naive_solver.
Qed.

(** ** Properties *)

Section Properties.
Context {S : Type} `{KVLaws S}.
Context (unmarshal_raw : string → option (gmap string jval)).

(** C2. When the operations of the instances do not interleave and each lasts at
    most [δ], two instances never both lead for more than a second and [δ]:
    of two that lead, one's lease is about to end. Any conforming storage will
    do, whatever it holds at the start. *)
Theorem leases_overlap_bounded (δ now now' : Time) (es : list (nat * event)) (cl : Cluster S)
    (Hδ : 0 <= δ) (Hnow : 0 < now) (Hcl : fresh_cluster cl) (Hes : schedule δ now es now')
    (i j : nat) (Hij : i ≠ j) :
  let cl' := run_cluster unmarshal_raw es cl in
  IsLeader now' None (cl_node cl' i) = true → IsLeader now' None (cl_node cl' j) = true →
  Z.min (leaseExpiration (cl_node cl' i)) (leaseExpiration (cl_node cl' j))
    < now' + Second + δ.
Proof.
  intros cl'. destruct Hcl as (Hwf&Hids&Hl).
  assert (cluster_inv δ now cl) as H1.
  { split_and!; [done..|]. intros k [Hk _]. by rewrite Hl in Hk. }
  destruct (cluster_run unmarshal_raw δ now es now' cl Hδ Hnow Hes H1) as (_&Hids'&Hb).
  unfold IsLeader. intros [Hi _]%andb_true_iff [Hj _]%andb_true_iff.
  destruct (Z_lt_le_dec (Z.min (leaseExpiration (cl_node cl' i))
    (leaseExpiration (cl_node cl' j))) (now' + Second + δ)) as [|Hge]; [done|exfalso].
  destruct (Hb i) as (ji&ei&kvi&Hvi&Hji&Hidi&_); [split; [done|unfold cl' in *; lia]|].
  destruct (Hb j) as (jj&ej&kvj&Hvj&Hjj&Hidj&_); [split; [done|unfold cl' in *; lia]|].
  apply Hij, Hids'. congruence.
Qed.

Lemma notify_timeout x c :
  leaseTimeout (notify x c) = leaseTimeout c ∧ leadership (notify x c) = leadership c.
Proof. unfold notify. case_match; [by destruct c|done]. Qed.

Lemma acquire_owns (t : clocks) (s : S) (c : Coordinator)
    (Hs : kv_wf s) (Hpos : 0 < ck_5 t) (Hlt : 0 <= leaseTimeout c)
    (Hord : ck_6 t <= ck_5 t + leaseTimeout c)
    (Hfree : match (spec_Get leaderKey (ck_1 t) (kv_view s)).1 with
             | Err _ => True
             | Ok (Raw _) => False
             | Ok (Json j) => match get_num "expireTime" j with
                              | Some e => FromUnix e <= ck_2 t
                              | None => True
                              end
             end) :
  ∃ s' c', tryAcquireLeadership unmarshal_raw t (s, c) = (Done tt, (s', c')) ∧
    isLeader c' = true ∧ leaseExpiration c' = ck_7 t + leaseTimeout c ∧
    kv_view s' leaderKey = Some (mkKeyValue (Json (leader_record c (ck_3 t) (ck_4 t)))
      (expire_at (ck_5 t) (leaseTimeout c))) ∧
    kv_wf s' ∧ instanceID c' = instanceID c ∧ leaseTimeout c' = leaseTimeout c ∧
    leadership c' = leadership c.
Proof.
  unfold tryAcquireLeadership, try_check.
  destruct (on_store_refines _ _ s c (kv_Get_refines leaderKey (ck_1 t)) Hs)
    as (s1&E1&Hs1&_).
  set (go := λ r : result StorageError bytes, match r with
    | Err _ => true | Ok data => match Unmarshal unmarshal_raw data with
      | None => false | Some j => match get_num "expireTime" j with
        | Some e => if Before (ck_2 t) (FromUnix e) then false else true | None => true end end end).
  assert (go (spec_Get leaderKey (ck_1 t) (kv_view s)).1 = true) as Hgo.
  { unfold go. destruct (spec_Get _ _ _).1 as [[?|j]|]; simpl; try done.
    destruct (get_num _ _); [|done]. by rewrite (proj2 (Before_false _ _)). }
  destruct (try_claim_spec (ck_3 t) (ck_4 t) (ck_5 t) s1 c Hs1) as (s2&E2&Hs2&Hv2).
  destruct (on_store_refines _ _ s2 c (kv_Get_refines leaderKey (ck_6 t)) Hs2)
    as (s3&E3&Hs3&Hv3).
  assert (spec_Get leaderKey (ck_6 t) (kv_view s2)
    = (Ok (Json (leader_record c (ck_3 t) (ck_4 t))), kv_view s2)) as Hg.
  { erewrite spec_Get_hit; [|done|exact Hv2|]; [done|]. by apply expire_at_live. }
  unfold mbind at 1, GoM_bind at 1. unfold mbind at 1, GoM_bind at 1. rewrite E1.
  unfold mret at 1, GoM_ret at 1. fold (go (spec_Get leaderKey (ck_1 t) (kv_view s)).1).
  rewrite Hgo. unfold mbind at 1, GoM_bind at 1. rewrite E2.
  unfold try_verify. unfold mbind at 1, GoM_bind at 1. rewrite E3, Hg. simpl.
  unfold self. unfold mbind at 1, GoM_bind at 1. rewrite decide_True by done.
  destruct c as [id il le ls ch hb lt]. simpl in *.
  destruct il; eexists s3, _; (split; [reflexivity|]); cbn.
  - rewrite Hv3, Hg. by split_and!.
  - match goal with |- context [notify "global" ?c] =>
      destruct (notify_fields "global" c) as (E6&E4&E5);
      destruct (notify_timeout "global" c) as [E7 E8] end.
    rewrite E4, E5, E6, E7, E8, Hv3, Hg. by split_and!.
Qed.

Lemma acquire_elects (t : clocks) (s : S) (c : Coordinator)
    (Hs : kv_wf s) (Hpos : 0 < ck_5 t) (Hlt : 0 <= leaseTimeout c)
    (Hord : ck_6 t <= ck_5 t + leaseTimeout c)
    (Hfree : match (spec_Get leaderKey (ck_1 t) (kv_view s)).1 with
             | Err _ => True
             | Ok (Raw _) => False
             | Ok (Json j) => match get_num "expireTime" j with
                              | Some e => FromUnix e <= ck_2 t
                              | None => True
                              end
             end) :
  ∃ s' c', tryAcquireLeadership unmarshal_raw t (s, c) = (Done tt, (s', c')) ∧
    isLeader c' = true ∧ leaseExpiration c' = ck_7 t + leaseTimeout c ∧
    kv_view s' leaderKey = Some (mkKeyValue (Json (leader_record c (ck_3 t) (ck_4 t)))
      (expire_at (ck_5 t) (leaseTimeout c))).
Proof.
  destruct (acquire_owns t s c Hs Hpos Hlt Hord Hfree) as (s'&c'&?&?&?&?&_). by exists s', c'.
Qed.

Lemma register_ok (ip : string) (t1 t2 t3 : Time) (s : S) (c : Coordinator) :
  kv_wf s → ∃ s', registerInstance (Some ip) t1 t2 t3 (s, c) = (Done (Ok tt), (s', c)) ∧
    kv_wf s' ∧ kv_view s' leaderKey = kv_view s leaderKey.
Proof.
  intros Hs. unfold registerInstance, self. unfold mbind at 1, GoM_bind at 1. simpl.
  set (v := Some (Json _)).
  destruct (on_store_refines _ _ s c (kv_Set_refines (instanceKey c) v
    (int64_wrap (leaseTimeout c * 2)) t3) Hs) as (s1&E&Hs1&Hv).
  unfold mbind, GoM_bind. rewrite E. unfold v in *. rewrite spec_Set_ok in * by done. simpl in *.
  exists s1. split; [done|]. split; [done|]. rewrite Hv. apply view_set_ne, instanceKey_ne.
Qed.

(** The start of an instance on a storage that holds no leader. *)
Lemma start_elects (ip : string) (t1 t2 t3 : Time) (t : clocks) (s : S) (c : Coordinator)
    (Hs : kv_wf s) (Hfree : kv_view s leaderKey = None) (Hpos : 0 < ck_5 t)
    (Hlt : 0 <= leaseTimeout c) (Hord : ck_6 t <= ck_5 t + leaseTimeout c) :
  ∃ s' c', Start unmarshal_raw (Some ip) t1 t2 t3 t (s, c) = (Done (Ok tt), (s', c')) ∧
    isLeader c' = true ∧ leaseExpiration c' = ck_7 t + leaseTimeout c.
Proof.
  destruct (register_ok ip t1 t2 t3 s c Hs) as (s1&E&Hs1&Hv).
  destruct (acquire_elects t s1 c Hs1 Hpos Hlt Hord) as (s2&c2&E2&Hl&He&_).
  { unfold spec_Get. rewrite decide_False by done. by rewrite Hv, Hfree. }
  exists s2, c2. split; [|done]. unfold Start. rewrite (bind_Done _ _ _ _ _ E).
  by rewrite (bind_Done _ _ _ _ _ E2).
Qed.

(** *** A leader that nobody else writes over

    The record in the storage is that of the leader, and lasts until [x]. *)
Definition own_record (x : Time) (s : S) (c : Coordinator) : Prop :=
  kv_wf s ∧ isLeader c = true ∧
  ∃ j, kv_view s leaderKey = Some (mkKeyValue (Json j) x) ∧
       get_str "instanceID" j = Some (instanceID c).

Lemma start_owns (ip : string) (t1 t2 t3 : Time) (t : clocks) (s : S) (c : Coordinator) :
  kv_wf s → kv_view s leaderKey = None → 0 < ck_5 t → 0 < leaseTimeout c →
  ck_6 t <= ck_5 t + leaseTimeout c →
  ∃ s' c', Start unmarshal_raw (Some ip) t1 t2 t3 t (s, c) = (Done (Ok tt), (s', c')) ∧
    own_record (ck_5 t + leaseTimeout c) s' c' ∧ leaseExpiration c' = ck_7 t + leaseTimeout c ∧
    leaseTimeout c' = leaseTimeout c ∧ instanceID c' = instanceID c ∧ leadership c' = leadership c.
Proof.
  intros Hs Hfree Hpos Hlt Hord.
  destruct (register_ok ip t1 t2 t3 s c Hs) as (s1&E&Hs1&Hv).
  destruct (acquire_owns t s1 c Hs1 Hpos) as (s2&c2&E2&Hl&He&Hv2&Hs2&Hid&Hlt2&Hc); [lia|done| |].
  { unfold spec_Get. rewrite decide_False by done. by rewrite Hv, Hfree. }
  exists s2, c2. split.
  { unfold Start. rewrite (bind_Done _ _ _ _ _ E). by rewrite (bind_Done _ _ _ _ _ E2). }
  split; [|done]. split; [done|]. split; [done|]. eexists. split.
  - rewrite Hv2. unfold expire_at. by rewrite (proj2 (Z.ltb_lt _ _)).
  - rewrite Hid. done.
Qed.

(** A heartbeat within the lease and before the record expires renews both. *)
Lemma heartbeat_renews (now : Time) (t : clocks) (x : Time) (s : S) (c : Coordinator) :
  own_record x s c → now < leaseExpiration c → ck_1 t <= x → 0 < leaseTimeout c →
  ∃ s' c', heartbeat unmarshal_raw now t (s, c) = (Done tt, (s', c')) ∧
    own_record (ck_3 t + leaseTimeout c) s' c' ∧ leaseExpiration c' = ck_4 t + leaseTimeout c ∧
    leaseTimeout c' = leaseTimeout c.
Proof.
  intros (Hs&Hl&j&Hv&Hid) Hnow Hx Hlt. unfold heartbeat.
  rewrite (bind_Done _ _ _ c (s, c)) by done.
  assert (IsLeader now None c = true) as ->.
  { unfold IsLeader. by rewrite Hl, (proj2 (Before_true _ _)). }
  unfold renewLeadership.
  destruct (on_store_refines _ _ s c (kv_Get_refines leaderKey (ck_1 t)) Hs) as (s1&E1&Hs1&_).
  rewrite (spec_Get_hit leaderKey _ _ _ ltac:(done) Hv) in E1.
  2: { unfold kv_expired. simpl. by rewrite (proj2 (Before_false _ _)), andb_false_r. }
  rewrite (bind_Done _ _ _ _ _ E1). simpl. rewrite (bind_Done _ _ _ c (s1, c)) by done.
  rewrite decide_True by done.
  set (j' := <["expireTime" := _]> j).
  destruct (on_store_refines _ _ s1 c (kv_Set_refines leaderKey (Some (Json j')) (leaseTimeout c) (ck_3 t)) Hs1)
    as (s2&E2&Hs2&Hv2).
  rewrite spec_Set_ok in E2, Hv2 by done. rewrite (bind_Done _ _ _ _ _ E2). simpl.
  eexists s2, _. split; [reflexivity|]. destruct c as [id il le ls ch hb lt]. simpl in *.
  split; [|done]. split; [done|]. split; [done|]. exists j'. split.
  - rewrite Hv2. simpl. rewrite view_set_eq. unfold expire_at. by rewrite (proj2 (Z.ltb_lt _ _)).
  - unfold j', get_str in *. by rewrite lookup_insert_ne.
Qed.

(** Heartbeats in time, from a lease and an expiration of the record on: each
    before the lease is over and before the record has expired. *)
Fixpoint in_time (lt : Duration) (lease x : Time) (hs : list (Time * clocks)) : Prop :=
  match hs with
  | [] => True
  | (now, t) :: hs => now < lease ∧ ck_1 t <= x ∧ in_time lt (ck_4 t + lt) (ck_3 t + lt) hs
  end.
Fixpoint last_lease (lt : Duration) (lease : Time) (hs : list (Time * clocks)) : Time :=
  match hs with [] => lease | (_, t) :: hs => last_lease lt (ck_4 t + lt) hs end.
Fixpoint heartbeats (hs : list (Time * clocks)) : GoM (S * Coordinator) unit :=
  match hs with [] => mret tt | (now, t) :: hs => heartbeat unmarshal_raw now t;; heartbeats hs end.

Lemma heartbeats_keep_lead hs : ∀ x s c,
  own_record x s c → 0 < leaseTimeout c → in_time (leaseTimeout c) (leaseExpiration c) x hs →
  ∃ s' c', heartbeats hs (s, c) = (Done tt, (s', c')) ∧ isLeader c' = true ∧
    leaseExpiration c' = last_lease (leaseTimeout c) (leaseExpiration c) hs.
Proof.
  induction hs as [|[now t] hs IH]; intros x s c Ho Hlt Ht.
  { exists s, c. by destruct Ho as (?&?&?). }
  destruct Ht as (Hnow&Hx&Ht).
  destruct (heartbeat_renews now t x s c Ho Hnow Hx Hlt) as (s1&c1&E1&Ho1&Hl1&Hlt1).
  destruct (IH _ s1 c1 Ho1) as (s'&c'&E&Hl&He); [by rewrite Hlt1|by rewrite Hlt1, Hl1|].
  exists s', c'. simpl. rewrite (bind_Done _ _ _ _ _ E1). split; [done|]. split; [done|].
  by rewrite He, Hlt1, Hl1.
Qed.

(** C17. Failover: once the leader's record is gone, has expired in the storage
    or says that its lease is over, the next attempt of any instance makes it
    the leader, for its whole lease, and its record is the one stored. *)
Theorem election_succeeds (t : clocks) (s : S) (c : Coordinator)
    (Hs : kv_wf s) (Hpos : 0 < ck_5 t) (Hlt : 0 <= leaseTimeout c)
    (Hord : ck_6 t <= ck_5 t + leaseTimeout c)
    (Hfree : match (spec_Get leaderKey (ck_1 t) (kv_view s)).1 with
             | Err _ => True
             | Ok (Raw _) => False
             | Ok (Json j) => match get_num "expireTime" j with
                              | Some e => FromUnix e <= ck_2 t
                              | None => True
                              end
             end) :
  ∃ s' c', tryAcquireLeadership unmarshal_raw t (s, c) = (Done tt, (s', c')) ∧
    isLeader c' = true ∧ leaseExpiration c' = ck_7 t + leaseTimeout c ∧
    kv_view s' leaderKey = Some (mkKeyValue (Json (leader_record c (ck_3 t) (ck_4 t)))
      (expire_at (ck_5 t) (leaseTimeout c))).
Proof. by apply acquire_elects. Qed.

(** After the component loop has visited every registered component, each is
    led by this instance exactly when the instance is the global leader, and
    both tests of component leadership say so. *)
Theorem components_follow_leader (now : Time) (order : list string) (c : Coordinator)
    (Hall : ∀ x, is_Some (leadership c !! x) → x ∈ order) :
  let c' := monitorComponentLeadership now order c in
  ∀ x, leadership c' !! x
       = (if decide (is_Some (leadership c !! x)) then Some (IsLeader now None c) else None) ∧
    IsComponentLeader now x c' = IsLeader now (Some x) c' ∧
    IsLeader now (Some x) c' = IsLeader now None c && bool_decide (is_Some (leadership c !! x)).
Proof.
  intros c' x.
  assert (leadership c' !! x
    = (if decide (is_Some (leadership c !! x)) then Some (IsLeader now None c) else None)) as Hx.
  { apply monitor_leadership; auto. }
  destruct (monitor_fields now order c) as (_&E1&E2).
  assert (IsLeader now None c' = IsLeader now None c) as Hl.
  { unfold IsLeader. unfold c'. by rewrite E1, E2. }
  split; [done|]. unfold IsComponentLeader. rewrite Hx.
  assert (IsLeader now (Some x) c' = IsLeader now None c && bool_decide (is_Some (leadership c !! x)))
    as Hs.
  { unfold IsLeader in *. rewrite Hl, Hx. case_decide as Hd.
    - rewrite bool_decide_true by done. by destruct (isLeader c), (Before now (leaseExpiration c)).
    - rewrite bool_decide_false by done. by destruct (isLeader c), (Before now (leaseExpiration c)). }
  split; [|done]. rewrite Hs, Hl. case_decide as Hd.
  - rewrite bool_decide_true by done. by destruct (IsLeader now None c).
  - rewrite bool_decide_false by done. by rewrite andb_false_r.
Qed.
End Properties.

(** ** Instances on the in-memory storage *)

Definition no_parse (_ : string) : option (gmap string jval) := None.
Definition sample_node (i : nat) : Coordinator :=
  mkCoordinator ("node-" +:+ pretty i) false zero_time {[ "rtp" := false ]} []
    (5 * Second) (15 * Second).
Definition sample_cluster : Cluster World :=
  mkCluster (new_world default_config (λ _, ODialog (mkDialog "" "" "" "" [] 0 0 "" "" "" 0 0 0 ∅)))
    sample_node.
(** All the clock readings of an operation that takes no time. *)
Definition at_instant (t : Time) : clocks := mkClocks t t t t t t t.
(** 999 milliseconds after a second boundary. *)
Definition election_time : Time := FromUnix 1000 + 999 * Millisecond.

Lemma sample_cluster_fresh : fresh_cluster sample_cluster.
Proof.
  split; [apply (new_world_inv default_config), default_config_ok|]. split; [|done].
  intros i j. simpl. intros Hij. by simplify_eq.
Qed.

Lemma within_instant t : within t t (at_instant t).
Proof. unfold within. simpl. lia. Qed.

(** The first instance is elected; the second tries fourteen seconds and two
    milliseconds later, when the recorded second has passed but the lease of
    the first has not. *)
Definition overlap_schedule : list (nat * event) :=
  [(0%nat, EStart (Some "10.0.0.1") election_time election_time election_time
      (at_instant election_time));
   (1%nat, EHeartbeat (FromUnix 1015 + Millisecond)
      (at_instant (FromUnix 1015 + Millisecond)))].
Definition overlap_time : Time := FromUnix 1015 + 500 * Millisecond.

Lemma overlap_scheduled : schedule 0 election_time overlap_schedule overlap_time.
Proof.
  apply (schedule_cons 0 _ election_time election_time);
    [lia|lia|lia|apply within_instant|].
  apply (schedule_cons 0 _ (FromUnix 1015 + Millisecond) (FromUnix 1015 + Millisecond));
    [done|lia|lia|apply within_instant|].
  by apply schedule_nil.
Qed.

Lemma leases_overlap_bounded_witness :
  let cl' := run_cluster no_parse overlap_schedule sample_cluster in
  Z.min (leaseExpiration (cl_node cl' 0%nat)) (leaseExpiration (cl_node cl' 1%nat))
    < overlap_time + Second + 0.
Proof.
  apply (leases_overlap_bounded no_parse 0 election_time overlap_time overlap_schedule
    sample_cluster); [lia|done|apply sample_cluster_fresh|apply overlap_scheduled|done|..];
    by vm_compute.
Defined.

(** The second lost to truncation is real: on the in-memory storage, with
    instantaneous operations that do not interleave, a second instance is
    elected while the first still leads. *)
Theorem truncated_leases_overlap :
  let cl' := run_cluster no_parse overlap_schedule sample_cluster in
  schedule 0 election_time overlap_schedule overlap_time ∧
  IsLeader overlap_time None (cl_node cl' 0%nat) = true ∧
  IsLeader overlap_time None (cl_node cl' 1%nat) = true.
Proof. split; [apply overlap_scheduled|]. split; by vm_compute. Qed.

(** Two attempts at one instant, the second's check before the first's claim
    and its claim after the first's verification. *)
Definition racing_attempts (t : Time) (cl : Cluster World) : Cluster World :=
  let cl := (run_node 0 (try_check no_parse t t) cl).2 in
  let cl := (run_node 1 (try_check no_parse t t) cl).2 in
  let cl := (run_node 0 (try_claim t t t) cl).2 in
  let cl := (run_node 0 (try_verify no_parse t t) cl).2 in
  let cl := (run_node 1 (try_claim t t t) cl).2 in
  (run_node 1 (try_verify no_parse t t) cl).2.


Lemma election_succeeds_witness :
  ∃ s' c', tryAcquireLeadership no_parse (at_instant election_time)
      (cl_store sample_cluster, sample_node 0) = (Done tt, (s', c')) ∧
    isLeader c' = true.
Proof.
  destruct (election_succeeds no_parse (at_instant election_time) (cl_store sample_cluster)
    (sample_node 0)) as (s'&c'&E&Hl&_); [apply sample_cluster_fresh|done|done|done| |].
  - by vm_compute.
  - exists s', c'. by split.
Defined.

Lemma components_follow_leader_witness :
  let c := set_leaseExpiration 100 (set_isLeader true (sample_node 0)) in
  IsComponentLeader 50 "rtp" (monitorComponentLeadership 50 ["rtp"] c) = true.
Proof.
  intros c. destruct (components_follow_leader 50 ["rtp"] c) with (x := "rtp")
    as (_&E&E').
  - intros x [b Hx]. unfold c in Hx. simpl in Hx.
    apply lookup_singleton_Some in Hx as [<- _]. set_solver.
  - rewrite E, E'. by vm_compute.
Defined.
