(* ===== verification/RTPEngine.v ===== *)
(** * rtpengine/rtpengine.go: the client of one RTPEngine

    One request over UDP: the circuit breaker of CircuitBreaker.v, the
    connection, the cookie, and the checks of the response. The bencode codec
    is a third-party package: its two functions are parameters. The network,
    the random cookie and the clock of one request are an [io]. *)

From stdpp Require Import pretty.
From S2P Require Import Prelude CircuitBreaker.

(** Values of a [map[string]interface{}] that goes through bencode. *)
Inductive bval : Type :=
| BStr (s : string)
| BInt (z : Z)
| BList (l : list bval)
| BDict (d : list (string * bval)).

Abbreviation dict := (gmap string bval) (only parsing).

Record RTPEngine : Type := mkRTPEngine {
  address : string;
  port : Z;
  timeout : Duration;
  conn : bool;                 (* [conn != nil] *)
  circuitBreaker : CircuitBreaker
}.

Record Config : Type := mkConfig {
  ec_Address : string; ec_Port : Z; ec_Timeout : Duration; ec_Weight : Z;
  ec_CircuitBreaker : CircuitBreakerConfig }.

Definition set_conn (b : bool) (r : RTPEngine) : RTPEngine :=
  let '(mkRTPEngine a p t _ cb) := r in mkRTPEngine a p t b cb.
Definition set_breaker (cb : CircuitBreaker) (r : RTPEngine) : RTPEngine :=
  let '(mkRTPEngine a p t c _) := r in mkRTPEngine a p t c cb.

(** [fmt.Sprintf("%s:%d", address, port)]. *)
Definition endpoint (a : string) (p : Z) : string := a +:+ ":" +:+ pretty p.

(** [resolve] is [net.ResolveUDPAddr]'s verdict. *)
Definition New (resolve : bool) (config : Config) (now : Time) : option RTPEngine :=
  if negb resolve then None
  else
    let t := ec_Timeout config in
    let t := if t <=? 0 then 500 * Millisecond else t in
    let cbName := "rtpengine-" +:+ endpoint (ec_Address config) (ec_Port config) in
    Some {| address := ec_Address config; port := ec_Port config; timeout := t;
            conn := false;
            circuitBreaker := NewCircuitBreaker cbName (ec_CircuitBreaker config) now |}.

(** The network of one request. [io_read] is [None] when the read fails, and
    the datagram otherwise; [io_cookie] is [rand.Intn(1000000)]; the times are
    those the circuit breaker reads. *)
Record io : Type := mkIo {
  io_dial : bool;
  io_cookie : N;
  io_set_write : bool;
  io_write : bool;
  io_set_read : bool;
  io_read : option string;
  io_since : Time;
  io_flip : Time;
  io_last : Time;
  io_change : Time
}.

Inductive req_error : Type :=
| BreakerOpen
| DialFailed
| EncodeFailed
| WriteDeadlineFailed
| SendFailed
| ReadDeadlineFailed
| ReceiveFailed
| CookieMismatch
| DecodeFailed
| NoResult
| EngineError (reason : string)
| UnexpectedPing.

#[export] Instance req_error_eq_dec : EqDecision req_error.
Proof. solve_decision. Defined.

Definition on_breaker (f : CircuitBreaker → CircuitBreaker) (r : RTPEngine) : RTPEngine :=
  set_breaker (f (circuitBreaker r)) r.

(** Always a fresh connection; [dial] is [net.DialUDP]'s verdict. *)
Definition ensureConnection (dial : bool) : GoM RTPEngine bool :=
  modify (set_conn false);;
  if dial then modify (set_conn true);; mret true else mret false.

Definition Close : GoM RTPEngine unit := modify (set_conn false).

Section Request.
Context (Encode : dict → option string) (Decode : string → option dict).

Definition get_bstr (key : string) (d : dict) : option string :=
  match d !! key with Some (BStr s) => Some s | _ => None end.

(** The failures that are recorded. *)
Definition fail (e : io) (err : req_error) : GoM RTPEngine (result req_error dict) :=
  modify (on_breaker (RecordFailure (io_last e) (io_change e)));; mret (Err err).

(** The checks of [result["result"]]. *)
Definition check_result (e : io) (res : dict) : GoM RTPEngine (result req_error dict) :=
  match res !! "result" with
  | None => fail e NoResult
  | Some (BStr resStr) =>
      if decide (resStr = "error")
      then fail e (EngineError (default "" (get_bstr "error-reason" res)))
      else modify (on_breaker (RecordSuccess (io_change e)));; mret (Ok res)
  | Some _ => modify (on_breaker (RecordSuccess (io_change e)));; mret (Ok res)
  end.

(** From the encoding to the return, while the connection is open. *)
Definition exchange (command : dict) (e : io) : GoM RTPEngine (result req_error dict) :=
  let cookie := pretty (io_cookie e) +:+ " " in
  match Encode command with
  | None => mret (Err EncodeFailed)
  | Some packet =>
      if negb (io_set_write e) then fail e WriteDeadlineFailed
      else if negb (io_write e) then fail e SendFailed
      else if negb (io_set_read e) then fail e ReadDeadlineFailed
      else match io_read e with
      | None => fail e ReceiveFailed
      | Some response =>
          if negb (HasPrefix response cookie) then fail e CookieMismatch
          else
            let response := TrimSpace (drop_string (String.length cookie) response) in
            match Decode response with
            | None => fail e DecodeFailed
            | Some res => check_result e res
            end
      end
  end.

(** The deferred function closes the connection on every return after the dial. *)
Definition Request (command : dict) (e : io) : GoM RTPEngine (result req_error dict) :=
  r ← get_state;
  let '(allowed, cb) := AllowRequest (io_since e) (io_flip e) (circuitBreaker r) in
  modify (set_breaker cb);;
  if negb allowed then mret (Err BreakerOpen)
  else
    ok ← ensureConnection (io_dial e);
    if negb (ok : bool) then fail e DialFailed
    else
      res ← exchange command e;
      modify (set_conn false);;
      mret res.

Definition Offer (params : dict) := Request (<["command" := BStr "offer"]> params).
Definition Answer (params : dict) := Request (<["command" := BStr "answer"]> params).
Definition Delete (params : dict) := Request (<["command" := BStr "delete"]> params).
Definition Query (params : dict) := Request (<["command" := BStr "query"]> params).
Definition List_ := Request {["command" := BStr "list"]}.
Definition GetStats := Request {["command" := BStr "statistics"]}.

Definition Ping (e : io) : GoM RTPEngine (result req_error unit) :=
  r ← Request {["command" := BStr "ping"]} e;
  mret match r with
       | Err err => Err err
       | Ok res => if decide (get_bstr "result" res = Some "pong") then Ok tt
                   else Err UnexpectedPing
       end.
End Request.

(** ** What a request does *)

Section Facts.
Context (Encode : dict → option string) (Decode : string → option dict).

(** What a response must be for a request to succeed with [d]. *)
Definition accepted (e : io) (d : dict) : Prop :=
  ∃ response, io_read e = Some response ∧
    HasPrefix response (pretty (io_cookie e) +:+ " ") = true ∧
    Decode (TrimSpace (drop_string (String.length (pretty (io_cookie e) +:+ " ")) response))
      = Some d ∧
    is_Some (d !! "result") ∧ get_bstr "result" d ≠ Some "error".

(** The breaker after a request whose outcome is [v]: exactly one record for
    each admitted request, except that a command that cannot be encoded is not
    recorded. *)
Definition recorded {A} (e : io) (v : result req_error A) (cb : CircuitBreaker) : CircuitBreaker :=
  match v with
  | Ok _ => RecordSuccess (io_change e) cb
  | Err BreakerOpen | Err EncodeFailed => cb
  | Err _ => RecordFailure (io_last e) (io_change e) cb
  end.

Lemma breaker_on_breaker f r : circuitBreaker (on_breaker f r) = f (circuitBreaker r).
Proof. by destruct r. Qed.
Lemma breaker_set_breaker cb r : circuitBreaker (set_breaker cb r) = cb.
Proof. by destruct r. Qed.
Lemma breaker_set_conn b r : circuitBreaker (set_conn b r) = circuitBreaker r.
Proof. by destruct r. Qed.
Lemma conn_set_conn b r : conn (set_conn b r) = b.
Proof. by destruct r. Qed.
Lemma conn_set_breaker cb r : conn (set_breaker cb r) = conn r.
Proof. by destruct r. Qed.
Lemma conn_on_breaker f r : conn (on_breaker f r) = conn r.
Proof. by destruct r. Qed.

#[local] Hint Rewrite breaker_on_breaker breaker_set_breaker breaker_set_conn conn_set_conn
  conn_set_breaker conn_on_breaker : gateway.

Lemma fail_spec e err r :
  fail e err r = (Done (Err err), on_breaker (RecordFailure (io_last e) (io_change e)) r).
Proof. done. Qed.

Lemma exchange_spec command e r :
  ∃ v, exchange Encode Decode command e r = (Done v, on_breaker (recorded e v) r) ∧
    v ≠ Err BreakerOpen ∧ (v = Err EncodeFailed ↔ Encode command = None) ∧
    ∀ d, v = Ok d ↔ is_Some (Encode command) ∧ io_set_write e = true ∧ io_write e = true ∧
      io_set_read e = true ∧ accepted e d.
Proof.
  assert (r = on_breaker (λ cb, cb) r) as Hid by (by destruct r).
  unfold exchange, accepted. destruct (Encode command) as [packet|].
  2: { exists (Err EncodeFailed). split; [by rewrite Hid at 1|].
       split_and!; [done|done|]. intros d. split; [done|]. by intros [[? ?] _]. }
  assert (∀ err, err ≠ BreakerOpen → err ≠ EncodeFailed →
    (∀ d, ¬ (io_set_write e = true ∧ io_write e = true ∧ io_set_read e = true ∧ accepted e d)) →
    ∃ v, fail e err r = (Done v, on_breaker (recorded e v) r) ∧ v ≠ Err BreakerOpen ∧
      (v = Err EncodeFailed ↔ Some packet = None) ∧
      ∀ d, v = Ok d ↔ is_Some (Some packet) ∧ io_set_write e = true ∧ io_write e = true ∧
        io_set_read e = true ∧ accepted e d) as Hfail.
  { intros err H1 H2 Hno. exists (Err err). split_and!; [by destruct err|congruence| |].
    - split; congruence.
    - intros d. split; [done|]. intros (_&Hd). by destruct (Hno d). }
  unfold accepted in Hfail.
  destruct (io_set_write e); [simpl|apply Hfail; naive_solver].
  destruct (io_write e); [simpl|apply Hfail; naive_solver].
  destruct (io_set_read e); [simpl|apply Hfail; naive_solver].
  destruct (io_read e) as [response|]; [|apply Hfail; naive_solver].
  destruct (HasPrefix _ _) eqn:Hp; [simpl|apply Hfail; naive_solver congruence].
  destruct (Decode _) as [res|] eqn:Hd; [|apply Hfail; naive_solver congruence].
  unfold check_result.
  destruct (res !! "result") as [x|] eqn:Hres.
  2: { apply Hfail; try done. intros d (_&_&_&?&?&?&?&[? ?]&_). congruence. }
  assert (get_bstr "result" res ≠ Some "error" →
    ∃ v, (modify (on_breaker (RecordSuccess (io_change e)));; mret (Ok res)) r
        = (Done v, on_breaker (recorded e v) r) ∧ v ≠ Err BreakerOpen ∧
      (v = Err EncodeFailed ↔ Some packet = None) ∧
      ∀ d, v = Ok d ↔ is_Some (Some packet) ∧ true = true ∧ true = true ∧ true = true ∧
        (∃ response0, Some response = Some response0 ∧
          HasPrefix response0 (pretty (io_cookie e) +:+ " ") = true ∧
          Decode (TrimSpace (drop_string (String.length (pretty (io_cookie e) +:+ " "))
            response0)) = Some d ∧ is_Some (d !! "result") ∧ get_bstr "result" d ≠ Some "error"))
    as Hok.
  { intros Hne. exists (Ok res). split_and!; [done|done|done|]. intros d. split.
    - intros [= <-]. split_and!; try done. exists response. by rewrite Hres.
    - intros (_&_&_&_&resp&?&_&?&_). simplify_eq. congruence. }
  unfold get_bstr in Hok at 1. rewrite Hres in Hok.
  destruct x as [resStr| | |]; [case_decide as He|..]; try (apply Hok; congruence).
  apply Hfail; try done. intros d (_&_&_&?&?&_&?&_&Hne). simplify_eq.
  unfold get_bstr in Hne. by rewrite Hres in Hne.
Qed.

Lemma Request_spec command e r :
  let '(allowed, cb) := AllowRequest (io_since e) (io_flip e) (circuitBreaker r) in
  ∃ v r', Request Encode Decode command e r = (Done v, r') ∧
    address r' = address r ∧ port r' = port r ∧
    (allowed = false → v = Err BreakerOpen ∧ conn r' = conn r ∧ circuitBreaker r' = cb) ∧
    (allowed = true → v ≠ Err BreakerOpen ∧ conn r' = false ∧
      circuitBreaker r' = recorded e v cb) ∧
    (v = Err EncodeFailed → Encode command = None) ∧
    (∀ d, v = Ok d ↔ allowed = true ∧ io_dial e = true ∧ is_Some (Encode command) ∧
      io_set_write e = true ∧ io_write e = true ∧ io_set_read e = true ∧ accepted e d).
Proof.
  destruct (AllowRequest _ _ _) as [allowed cb] eqn:Ha. unfold Request.
  go_steps. rewrite Ha. go_steps.
  destruct allowed; cbn [negb].
  2: { eexists _, _. split; [reflexivity|]. split_and!; try by destruct r.
       intros d. split; [done|]. by intros [? _]. }
  unfold ensureConnection. go_steps.
  destruct (io_dial e) eqn:Hd; go_steps; cbn [negb].
  2: { eexists _, _. split; [reflexivity|]. split_and!; try by destruct r.
       intros d. split; [done|]. by intros (_&?&_). }
  set (r1 := set_conn true (set_conn false (set_breaker cb r))).
  destruct (exchange_spec command e r1) as (v&E&Hv&He&Hok).
  rewrite (bind_Done _ _ _ _ _ E). go_steps. eexists v, _. split; [reflexivity|].
  unfold r1. split_and!; try done; try by destruct r.
  - apply He.
  - intros d. rewrite (Hok d). naive_solver.
Qed.
End Facts.

(** ** A dead engine *)

Section Dead.
Context (Encode : dict → option string) (Decode : string → option dict).

(** The engine does not answer. *)
Definition dead (req : dict * io) : Prop :=
  is_Some (Encode req.1) ∧ (io_dial req.2 = false ∨ io_read req.2 = None).

Fixpoint requests (reqs : list (dict * io)) : GoM RTPEngine unit :=
  match reqs with
  | [] => mret tt
  | (command, e) :: reqs => Request Encode Decode command e;; requests reqs
  end.

Lemma add_totalRequests_fields cb :
  cb_state (add_totalRequests cb) = cb_state cb ∧
  cb_consecutiveFailures (add_totalRequests cb) = cb_consecutiveFailures cb ∧
  cb_failureThreshold (add_totalRequests cb) = cb_failureThreshold cb ∧
  cb_resetTimeout (add_totalRequests cb) = cb_resetTimeout cb.
Proof. by destruct cb. Qed.

Lemma RecordFailure_fields t t' cb :
  cb_resetTimeout (RecordFailure t t' cb) = cb_resetTimeout cb ∧
  (cb_state (RecordFailure t t' cb) = StateOpen → cb_state cb ≠ StateOpen →
   cb_lastStateChange (RecordFailure t t' cb) = t').
Proof. unfold RecordFailure. destruct cb; simpl. case_match; by simpl. Qed.

(** One request to a dead engine through a closed breaker is one failure. *)
Lemma dead_request req r :
  dead req → cb_state (circuitBreaker r) = StateClosed →
  ∃ err r', Request Encode Decode req.1 req.2 r = (Done (Err err), r') ∧
    circuitBreaker r'
    = RecordFailure (io_last req.2) (io_change req.2) (add_totalRequests (circuitBreaker r)).
Proof.
  destruct req as [command e]. intros [[packet He] Hdead] Hc. simpl in *.
  pose proof (Request_spec Encode Decode command e r) as H.
  rewrite AllowRequest_closed in H by done.
  destruct H as (v&r'&E&_&_&_&Hrec&Henc&Hok).
  destruct (Hrec eq_refl) as (Hne&_&Hcb). destruct v as [d|err].
  - destruct (proj1 (Hok d) eq_refl) as (_&?&_&_&_&_&resp&?&_). naive_solver congruence.
  - exists err, r'. split; [done|]. rewrite Hcb. destruct err; try done.
    by rewrite He in Henc; specialize (Henc eq_refl).
Qed.

Lemma dead_requests reqs r :
  Forall dead reqs → cb_state (circuitBreaker r) = StateClosed →
  0 <= cb_consecutiveFailures (circuitBreaker r) →
  cb_consecutiveFailures (circuitBreaker r) + Z.of_nat (length reqs)
    < cb_failureThreshold (circuitBreaker r) <= max_int32 →
  ∃ r', requests reqs r = (Done tt, r') ∧ cb_state (circuitBreaker r') = StateClosed ∧
    cb_failureThreshold (circuitBreaker r') = cb_failureThreshold (circuitBreaker r) ∧
    cb_resetTimeout (circuitBreaker r') = cb_resetTimeout (circuitBreaker r) ∧
    cb_consecutiveFailures (circuitBreaker r')
    = cb_consecutiveFailures (circuitBreaker r) + Z.of_nat (length reqs).
Proof.
  revert r. induction reqs as [|req reqs IH]; intros r Hd Hc H0 Hb; simpl.
  { exists r. split_and!; [done..|lia]. }
  apply Forall_cons in Hd as [Hd Hds]. destruct req as [command e].
  destruct (dead_request (command, e) r Hd Hc) as (err&r1&E&Hcb). simpl in *.
  destruct (add_totalRequests_fields (circuitBreaker r)) as (F1&F2&F3&F4).
  destruct (RecordFailure_closed (io_last e) (io_change e) (add_totalRequests (circuitBreaker r)))
    as (G1&G2&G3); [congruence|lia|].
  destruct (RecordFailure_fields (io_last e) (io_change e) (add_totalRequests (circuitBreaker r)))
    as (G4&_).
  rewrite <-Hcb in *. rewrite F2, F3 in *.
  rewrite (proj2 (Z.leb_gt _ _)) in G3 by lia.
  destruct (IH r1 Hds G3) as (r2&E2&?&?&?&?); [lia|lia|].
  exists r2. rewrite (bind_Done _ _ _ _ _ E). split_and!; [done|done|lia|congruence|lia].
Qed.

Lemma requests_app reqs reqs' r r1 :
  requests reqs r = (Done tt, r1) → requests (reqs ++ reqs') r = requests reqs' r1.
Proof.
  revert r. induction reqs as [|[command e] reqs IH]; intros r; simpl; [by intros [= ->]|].
  unfold mbind, GoM_bind. destruct (Request _ _ _ _ r) as [[] ?]; try done. apply IH.
Qed.
End Dead.

(** ** Properties *)

Section Properties.
Context (Encode : dict → option string) (Decode : string → option dict).

(** C4. A request asks the breaker once and, when it is let through, leaves
    exactly one outcome on it - a success exactly when the engine's datagram
    carries the cookie, decodes, has a result, and the result is not "error" -
    except that a command that cannot be encoded leaves none. Rejected requests
    touch neither the connection nor the failure counters; the others leave
    the connection closed. *)
Theorem request_records_one_outcome (command : dict) (e : io) (r : RTPEngine) :
  let '(allowed, cb) := AllowRequest (io_since e) (io_flip e) (circuitBreaker r) in
  ∃ v r', Request Encode Decode command e r = (Done v, r') ∧
    (if allowed then conn r' = false ∧ circuitBreaker r' = recorded e v cb
     else v = Err BreakerOpen ∧ conn r' = conn r ∧ circuitBreaker r' = cb) ∧
    (∀ d, v = Ok d ↔ allowed = true ∧ io_dial e = true ∧ is_Some (Encode command) ∧
      io_set_write e = true ∧ io_write e = true ∧ io_set_read e = true ∧
      accepted Decode e d).
Proof.
  pose proof (Request_spec Encode Decode command e r) as H.
  destruct (AllowRequest _ _ _) as [allowed cb].
  destruct H as (v&r'&E&_&_&H1&H2&_&H3). exists v, r'. split; [done|].
  split; [|done]. destruct allowed; [by apply H2|by apply H1].
Qed.

(** An engine that stops answering is cut off: after as many consecutive
    requests as the failure threshold, the next request, within the reset
    timeout of the last failure, is refused without any use of the network. *)
Theorem dead_engine_is_cut_off (r : RTPEngine) (reqs : list (dict * io)) (last : dict * io)
    (Hwf : breaker_wf (circuitBreaker r)) (Hc : cb_state (circuitBreaker r) = StateClosed)
    (H0 : cb_consecutiveFailures (circuitBreaker r) = 0)
    (Hn : 1 + Z.of_nat (length reqs) = cb_failureThreshold (circuitBreaker r))
    (Hmax : cb_failureThreshold (circuitBreaker r) <= max_int32)
    (Hdead : Forall (dead Encode) (reqs ++ [last])) :
  ∃ r', requests Encode Decode (reqs ++ [last]) r = (Done tt, r') ∧
    cb_state (circuitBreaker r') = StateOpen ∧
    ∀ command e,
      Since (io_since e) (io_change last.2) <= cb_resetTimeout (circuitBreaker r) →
      Request Encode Decode command e r'
      = (Done (Err BreakerOpen), set_breaker (add_totalRequests (circuitBreaker r')) r').
Proof.
  apply Forall_app in Hdead as [Hds Hl%Forall_cons]. destruct Hl as [Hl _].
  destruct (dead_requests Encode Decode reqs r Hds Hc) as (r1&E1&Hs1&Hf1&Ht1&Hc1); [lia|lia|].
  destruct (dead_request Encode Decode last r1 Hl Hs1) as (err&r2&E2&Hcb).
  destruct (add_totalRequests_fields (circuitBreaker r1)) as (F1&F2&F3&F4).
  destruct (RecordFailure_closed (io_last last.2) (io_change last.2)
    (add_totalRequests (circuitBreaker r1))) as (_&_&G3); [congruence|lia|].
  destruct (RecordFailure_fields (io_last last.2) (io_change last.2)
    (add_totalRequests (circuitBreaker r1))) as (G4&G5).
  rewrite F2, F3, Hf1, Hc1 in G3. rewrite (proj2 (Z.leb_le _ _)) in G3 by lia.
  specialize (G5 G3 ltac:(rewrite F1, Hs1; done)). rewrite <-Hcb in *.
  exists r2. split; [|split; [done|]].
  - rewrite (requests_app Encode Decode reqs [last] r r1 E1). destruct last. simpl in *.
    by rewrite (bind_Done _ _ _ _ _ E2).
  - intros command e He. unfold Request. go_steps.
    rewrite AllowRequest_open by (done || (rewrite G4, F4, Ht1, G5; done)). by go_steps.
Qed.

(** The health check of an engine succeeds exactly when a request would have
    succeeded with the result "pong": an answer with any other result fails the
    check although the breaker counts it as a success. *)
Theorem ping_needs_pong (e : io) (r : RTPEngine) :
  let command : dict := {["command" := BStr "ping"]} in
  ∃ v, (Ping Encode Decode e r).1 = Done v ∧
    (Ping Encode Decode e r).2 = (Request Encode Decode command e r).2 ∧
    (v = Ok tt ↔ ∃ d, (Request Encode Decode command e r).1 = Done (Ok d) ∧
      get_bstr "result" d = Some "pong").
Proof.
  intros command. pose proof (Request_spec Encode Decode command e r) as H.
  destruct (AllowRequest _ _ _) as [allowed cb]. destruct H as (v&r'&E&_).
  unfold Ping. fold command. rewrite (bind_Done _ _ _ _ _ E), E.
  eexists. split; [reflexivity|]. split; [done|]. destruct v as [d|err]; simpl.
  - case_decide; split; naive_solver.
  - split; naive_solver.
Qed.
End Properties.

(** ** An instance *)

(** A codec that knows the two messages of a ping. *)
Definition ping_encode (d : dict) : option string := Some "d7:command4:pinge".
Definition ping_decode (s : string) : option dict :=
  if decide (s = "d6:result4:ponge") then Some {["result" := BStr "pong"]} else None.

Definition sample_engine : RTPEngine :=
  mkRTPEngine "10.0.0.7" 22222 (500 * Millisecond) false
    (NewCircuitBreaker "rtpengine-10.0.0.7:22222" demo_config 1).
Definition sample_io (read : option string) (t : Time) : io :=
  mkIo true 42 true true true read t t t t.

Example ping_answered :
  (Ping ping_encode ping_decode (sample_io (Some ("42 d6:result4:ponge" +:+ TrimSpace " "))
    100) sample_engine).1 = Done (Ok tt).
Proof. by vm_compute. Qed.

Lemma dead_engine_is_cut_off_witness :
  ∃ r', requests ping_encode ping_decode
      [(∅, sample_io None 100); (∅, sample_io None 200)] sample_engine = (Done tt, r') ∧
    (Request ping_encode ping_decode ∅ (sample_io (Some "42 d6:result4:ponge") 300) r').1
    = Done (Err BreakerOpen).
Proof.
  destruct (dead_engine_is_cut_off ping_encode ping_decode sample_engine
    [(∅, sample_io None 100)] (∅, sample_io None 200)) as (r'&E&_&Hr).
  - split; vm_compute; auto.
  - done.
  - done.
  - done.
  - by vm_compute.
  - repeat constructor; (by eexists) || by right.
  - exists r'. split; [exact E|]. rewrite Hr; [done|]. by vm_compute.
Defined.
