(* ===== verification/RTPManager.v ===== *)
(** * rtpengine/manager.go: several RTPEngines with failover

    The manager of the engines of RTPEngine.v, with its mutex (a goroutine that
    locks it twice deadlocks), the health of the engines, and the sessions it
    keeps in the storage of Storage.v. *)

From stdpp Require Import pretty.
From S2P Require Import Prelude CircuitBreaker KVStore Storage RTPEngine.

(** ** State *)

Record EngineStatus : Type := mkEngineStatus {
  IsHealthy : bool; FailCount : Z; LastFailed : Time }.

Record Manager : Type := mkManager {
  engines : list RTPEngine;
  weights : list Z;
  activeIdx : Z;
  locked : bool;                              (* [mutex] is held *)
  has_storage : bool;                         (* [storage != nil] *)
  engineStatus : option (list EngineStatus);  (* [nil] until initialised *)
  failureThreshold : Z
}.

Definition set_engines (v : list RTPEngine) (m : Manager) : Manager :=
  let '(mkManager _ w a l h s t) := m in mkManager v w a l h s t.
Definition set_activeIdx (v : Z) (m : Manager) : Manager :=
  let '(mkManager e w _ l h s t) := m in mkManager e w v l h s t.
Definition set_locked (v : bool) (m : Manager) : Manager :=
  let '(mkManager e w a _ h s t) := m in mkManager e w a v h s t.
Definition set_status (v : option (list EngineStatus)) (m : Manager) : Manager :=
  let '(mkManager e w a l h _ t) := m in mkManager e w a l h v t.
Definition set_threshold (v : Z) (m : Manager) : Manager :=
  let '(mkManager e w a l h s _) := m in mkManager e w a l h s v.

(** [NewManager]: the engines whose address resolves. *)
Definition new_engines (configs : list (bool * Config)) (now : Time)
    : list (RTPEngine * Z) :=
  omap (λ c, e ← New c.1 c.2 now;
             Some (e, if ec_Weight c.2 <=? 0 then 1 else ec_Weight c.2)) configs.

Definition NewManager (configs : list (bool * Config)) (storage : bool) (now : Time)
    : result string Manager :=
  match configs with
  | [] => Err "at least one RTPEngine instance required"
  | _ =>
      match new_engines configs now with
      | [] => Err "all RTPEngine instances failed to initialize"
      | es => Ok {| engines := es.*1; weights := es.*2; activeIdx := 0; locked := false;
                    has_storage := storage; engineStatus := None; failureThreshold := 0 |}
      end
  end.

(** ** Errors of the operations *)

Inductive mgr_error : Type :=
| RequestFailed (e : req_error)
| FailoverOfferFailed (e : req_error)
| NoSDP
| NoHealthyEngine
| AllEnginesFailed.

(** Clock readings and networks of one operation: [e_io n] is the network of
    its [n]-th request, [e_t n] its [n]-th clock reading, and [e_loc] where a
    session it creates is allocated. *)
Record menv : Type := mkMenv { e_io : nat → io; e_t : nat → Time; e_loc : loc }.

Definition St : Type := Manager * World.

(** ** Access to the parts of the state *)

Definition mgr : GoM St Manager := λ s, (Done (fst s), s).
Definition on_mgr (f : Manager → Manager) : GoM St unit := λ s, (Done tt, (f (fst s), snd s)).
Definition on_world {A} (m : GoM World A) : GoM St A :=
  λ s, let '(r, w) := m (snd s) in (r, (fst s, w)).
(** A method call on [m.engines[i]]. *)
Definition on_engine {A} (i : nat) (m : GoM RTPEngine A) : GoM St A :=
  λ s, match engines (fst s) !! i with
       | None => (Panic IndexOutOfRange, s)
       | Some e => let '(r, e) := m e in
                   (r, (set_engines (<[i := e]> (engines (fst s))) (fst s), snd s))
       end.
Definition engine_index (i : Z) : GoM St nat :=
  m ← mgr; lift (index (engines m) i);; mret (Z.to_nat i).

Definition Lock : GoM St unit :=
  m ← mgr; if locked m then lift Deadlock else on_mgr (set_locked true).
Definition Unlock : GoM St unit := on_mgr (set_locked false).

(** ** Health of the engines *)

Definition initEngineStatus : GoM St unit :=
  Lock;;
  on_mgr (λ m, if failureThreshold m <=? 0 then set_threshold 3 m else m);;
  on_mgr (λ m, set_status (Some (replicate (length (engines m)) (mkEngineStatus true 0 zero_time))) m);;
  Unlock.

(** [if m.engineStatus == nil { m.initEngineStatus() }]. *)
Definition ensureStatus : GoM St unit :=
  m ← mgr; match engineStatus m with None => initEngineStatus | Some _ => mret tt end.

Definition status_at (i : nat) : GoM St EngineStatus :=
  m ← mgr; lift (index (default [] (engineStatus m)) (Z.of_nat i)).

(** The increment of [FailCount], [LastFailed], and the threshold. *)
Definition fail_status (threshold : Z) (now : Time) (s : EngineStatus) : EngineStatus :=
  let count := int64_wrap (FailCount s + 1) in
  mkEngineStatus (if threshold <=? count then false else IsHealthy s) count now.

Definition recordEngineFailure (engineAddr : string) (now : Time) : GoM St unit :=
  Lock;;
  ensureStatus;;
  m ← mgr;
  match list_find (λ e, address e = engineAddr) (engines m) with
  | Some (i, _) =>
      status_at i;;
      on_mgr (λ m, set_status (alter (fail_status (failureThreshold m) now) i <$> engineStatus m) m)
  | None => mret tt
  end;;
  Unlock.

(** [t.UnixNano()]. *)
Definition UnixNano (t : Time) : Z := int64_wrap (t - unix_epoch_sec * Second).

Definition recordFailoverEvent (from to reason : string) (t1 t2 t3 : Time) : GoM St unit :=
  m ← mgr;
  let event : gmap string jval :=
    {[ "component" := JStr "rtpengine"; "from" := JStr from; "to" := JStr to;
       "timestamp" := JNum (Unix t1); "reason" := JStr reason ]} in
  if has_storage m then
    on_world (Storage.Set_ ("failover:rtpengine:" +:+ pretty (UnixNano t2)) (Some (Json event))
      (24 * Hour) t3);; mret tt
  else mret tt.

Definition SimplifyMigration (oldEngineIdx newEngineIdx : Z) (t1 t2 t3 : Time) : GoM St unit :=
  if oldEngineIdx =? newEngineIdx then mret tt
  else
    Lock;;
    m ← mgr;
    let n := Z.of_nat (length (engines m)) in
    (if (oldEngineIdx <? 0) || (n <=? oldEngineIdx) || (newEngineIdx <? 0) || (n <=? newEngineIdx)
     then mret tt
     else
       on_mgr (set_activeIdx (int32_wrap newEngineIdx));;
       oldEngine ← lift (index (engines m) oldEngineIdx);
       newEngine ← lift (index (engines m) newEngineIdx);
       if has_storage m then
         let event : gmap string jval :=
           {[ "component" := JStr "rtpengine"; "event" := JStr "engine_switch";
              "old_engine" := JStr (endpoint (address oldEngine) (port oldEngine));
              "new_engine" := JStr (endpoint (address newEngine) (port newEngine));
              "timestamp" := JNum (Unix t1); "no_migration" := JBool true ]} in
         on_world (Storage.Set_ ("events:rtpengine:migration:" +:+ pretty (UnixNano t2))
           (Some (Json event)) (24 * Hour) t3);; mret tt
       else mret tt);;
    Unlock.

(** The loop of [tryFailover], under the lock: the first other healthy engine. *)
Fixpoint find_healthy (currentIdx : Z) (sts : list EngineStatus) (js : list nat)
    : outcome (option nat) :=
  match js with
  | [] => Done None
  | i :: js =>
      if Z.of_nat i =? currentIdx then find_healthy currentIdx sts js
      else st ← index sts (Z.of_nat i);
           if IsHealthy st then Done (Some i) else find_healthy currentIdx sts js
  end.

Definition tryFailover (t : nat → Time) : GoM St (option nat) :=
  Lock;;
  ensureStatus;;
  m ← mgr;
  let currentIdx := activeIdx m in
  if Z.of_nat (length (engines m)) <=? currentIdx then Unlock;; mret None
  else
    current ← lift (index (engines m) currentIdx);
    found ← lift (find_healthy currentIdx (default [] (engineStatus m)) (seq 0 (length (engines m))));
    match found with
    | None => Unlock;; mret None
    | Some i =>
        new ← lift (index (engines m) (Z.of_nat i));
        Unlock;;
        SimplifyMigration currentIdx (Z.of_nat i) (t 0%nat) (t 1%nat) (t 2%nat);;
        Lock;;
        recordFailoverEvent (address current) (address new) "Reactive failover"
          (t 3%nat) (t 4%nat) (t 5%nat);;
        Unlock;;
        mret (Some i)
    end.

(** ** The operations *)

Section Operations.
Context (Encode : dict → option string) (Decode : string → option dict).

Definition to_bvals (flags : gmap string string) : dict := BStr <$> flags.

(** The result of an offer or an answer: the SDP of the response. *)
Definition sdp_of (d : dict) : result mgr_error string :=
  match get_bstr "sdp" d with Some s => Ok s | None => Err NoSDP end.

(** The loop of [failoverOffer], which takes the lock for each candidate. *)
Fixpoint pick_healthy (active : Z) (js : list nat) : GoM St (option nat) :=
  match js with
  | [] => mret None
  | i :: js =>
      if Z.of_nat i =? active then pick_healthy active js
      else
        Lock;; ensureStatus;;
        st ← status_at i;
        Unlock;;
        if IsHealthy st then mret (Some i) else pick_healthy active js
  end.

Definition offer_params (callID fromTag sdp : string) : dict :=
  {[ "call-id" := BStr callID; "from-tag" := BStr fromTag; "sdp" := BStr sdp ]}.

(** [options] is not sent. *)
Definition failoverOffer (callID fromTag sdp : string) (options : dict) (e : io) (t : nat → Time)
    : GoM St (result mgr_error string) :=
  Lock;; m ← mgr; let active := activeIdx m in Unlock;;
  found ← pick_healthy active (seq 0 (length (engines m)));
  match found with
  | None => mret (Err NoHealthyEngine)
  | Some i =>
      SimplifyMigration active (Z.of_nat i) (t 0%nat) (t 1%nat) (t 2%nat);;
      r ← on_engine i (Offer Encode Decode (offer_params callID fromTag sdp) e);
      mret match r with
           | Err err => Err (FailoverOfferFailed err)
           | Ok d => sdp_of d
           end
  end.

(** [e_t 0] is the time of the failure, [e_t 1] to [e_t 6] those of
    [tryFailover], the following ones those of [failoverOffer]. *)
Definition ProcessOffer (callID fromTag sdp : string) (flags : option (gmap string string))
    (e : menv) : GoM St (result mgr_error string) :=
  Lock;; m ← mgr; i ← engine_index (activeIdx m); Unlock;;
  ensureStatus;;
  let params := to_bvals (default ∅ flags) ∪ offer_params callID fromTag sdp in
  r ← on_engine i (Offer Encode Decode params (e_io e 0%nat));
  match r with
  | Err err =>
      recordEngineFailure (default "" (address <$> engines m !! i)) (e_t e 0%nat);;
      newEngine ← tryFailover (λ n, e_t e (1 + n)%nat);
      match newEngine with
      | Some _ => failoverOffer callID fromTag sdp ∅ (e_io e 1%nat) (λ n, e_t e (7 + n)%nat)
      | None => mret (Err (RequestFailed err))
      end
  | Ok d => mret (sdp_of d)
  end.

(** The session of the call, when the storage has one. *)
Definition stored_session (callID : string) (now : Time) : GoM St (option loc) :=
  m ← mgr;
  if has_storage m then
    r ← on_world (GetRTPSession callID now);
    mret match r with Ok l => Some l | Err _ => None end
  else mret None.

Definition session_engine (o : object) : option Z :=
  match o with ORTP s => Some (rtp_EngineIdx s) | _ => None end.

Definition heap_at (l : loc) : GoM St object := λ s, (Done (w_heap (snd s) l), s).

(** The engine of the session when its index is in range, else the active one. *)
Definition GetEngine (callID : string) (now : Time) : GoM St nat :=
  session ← (if decide (callID = "") then mret None else stored_session callID now);
  m ← mgr;
  match session with
  | Some l =>
      o ← heap_at l;
      let idx := default (-1) (session_engine o) in
      if (0 <=? idx) && (idx <? Z.of_nat (length (engines m)))
      then engine_index idx else engine_index (activeIdx m)
  | None => engine_index (activeIdx m)
  end.

Definition answer_params (callID fromTag toTag sdp : string) : dict :=
  {[ "call-id" := BStr callID; "from-tag" := BStr fromTag; "to-tag" := BStr toTag;
     "sdp" := BStr sdp ]}.

(** The loops of [failoverAnswer] and [failoverDelete]: engine [(current + i + 1)
    % n] for each [i], skipping the current one; the first success becomes the
    active engine. [request n] is the request with the [n]-th network. *)
Fixpoint try_engines (request : nat → GoM RTPEngine (result req_error dict)) (currentIdx : Z)
    (js : list nat) : GoM St (option (nat * dict)) :=
  match js with
  | [] => mret None
  | i :: js =>
      m ← mgr;
      let idx := Z.rem (currentIdx + Z.of_nat i + 1) (Z.of_nat (length (engines m))) in
      if idx =? currentIdx then try_engines request currentIdx js
      else
        k ← engine_index idx;
        r ← on_engine k (request i);
        match r with
        | Err _ => try_engines request currentIdx js
        | Ok d => on_mgr (set_activeIdx (int32_wrap idx));; mret (Some (k, d))
        end
  end.

(** A new [RTPSession] object, of which only these fields are set. *)
Definition new_session (callID : string) (idx : Z) (addr fromTag toTag : string) (now : Time)
    : object :=
  ORTP (mkRTPSession callID idx addr fromTag toTag "" zero_time now zero_time).

Definition failoverAnswer (callID fromTag toTag sdp : string) (options : dict) (e : menv)
    : GoM St (result mgr_error string) :=
  m ← mgr;
  let currentIdx := activeIdx m in
  let params := options ∪ answer_params callID fromTag toTag sdp in
  found ← try_engines (λ i, Answer Encode Decode params (e_io e (1 + i)%nat)) currentIdx
            (seq 0 (length (engines m)));
  match found with
  | None => mret (Err AllEnginesFailed)
  | Some (k, d) =>
      lift (index (engines m) currentIdx);;
      m' ← mgr;
      (if has_storage m then
         let engine := engines m' !! k in
         let addr := endpoint (default "" (address <$> engine)) (default 0 (port <$> engine)) in
         on_world (modify (on_object (e_loc e) (λ _,
           new_session callID (Z.of_nat k) addr fromTag toTag (e_t e 1%nat))));;
         on_world (StoreRTPSession (Some (e_loc e)) (e_t e 2%nat) (e_t e 3%nat));; mret tt
       else mret tt);;
      mret (sdp_of d)
  end.

(** [session.ToTag = toTag; session.Updated = time.Now()]. *)
Definition answer_session (toTag : string) (now : Time) (o : object) : object :=
  match o with
  | ORTP (mkRTPSession id ei ea ft _ mi cr _ et) => ORTP (mkRTPSession id ei ea ft toTag mi cr now et)
  | _ => o
  end.

Definition ProcessAnswer (callID fromTag toTag sdp : string) (options : dict) (e : menv)
    : GoM St (result mgr_error string) :=
  let params := options ∪ answer_params callID fromTag toTag sdp in
  i ← GetEngine callID (e_t e 0%nat);
  r ← on_engine i (Answer Encode Decode params (e_io e 0%nat));
  match r with
  | Err _ => failoverAnswer callID fromTag toTag sdp options e
  | Ok d =>
      match sdp_of d with
      | Err err => mret (Err err)
      | Ok sdpResult =>
          session ← stored_session callID (e_t e 1%nat);
          match session with
          | Some l =>
              on_world (modify (on_object l (answer_session toTag (e_t e 2%nat))));;
              on_world (StoreRTPSession (Some l) (e_t e 3%nat) (e_t e 4%nat));; mret tt
          | None => mret tt
          end;;
          mret (Ok sdpResult)
      end
  end.

Definition delete_session (callID : string) : GoM St unit :=
  m ← mgr;
  if has_storage m then on_world (DeleteRTPSession callID);; mret tt else mret tt.

Definition failoverDelete (callID : string) (e : menv) : GoM St (result mgr_error unit) :=
  m ← mgr;
  let currentIdx := activeIdx m in
  found ← try_engines (λ i, Delete Encode Decode {["call-id" := BStr callID]} (e_io e (1 + i)%nat))
            currentIdx (seq 0 (length (engines m)));
  match found with
  | None => mret (Err AllEnginesFailed)
  | Some _ => lift (index (engines m) currentIdx);; delete_session callID;; mret (Ok tt)
  end.

Definition DeleteSession (callID : string) (e : menv) : GoM St (result mgr_error unit) :=
  i ← GetEngine callID (e_t e 0%nat);
  r ← on_engine i (Delete Encode Decode {["call-id" := BStr callID]} (e_io e 0%nat));
  match r with
  | Err _ => failoverDelete callID e
  | Ok _ => delete_session callID;; mret (Ok tt)
  end.

(** One round of the health check of engine [i]: a ping whose verdict is only
    logged. *)
Definition health_check (i : nat) (e : io) : GoM St unit :=
  on_engine i (Ping Encode Decode e);; mret tt.

Definition close_all : nat → GoM St unit :=
  fix go n := match n with
              | O => mret tt
              | S n => go n;; on_engine n Close
              end.
Definition Stop : GoM St unit :=
  Lock;; m ← mgr; close_all (length (engines m));; Unlock.

Definition getFlagsOrDefault (flags : list (option (gmap string string))) : gmap string string :=
  match flags with Some f :: _ => f | _ => ∅ end.
End Operations.

(** ** Running the parts *)

Lemma bind_mgr {A} (f : Manager → GoM St A) m w : (mgr ≫= f) (m, w) = f m (m, w).
Proof. done. Qed.

Lemma bind_lift {A B} (a : A) o (f : A → GoM St B) s : o = Done a → (lift o ≫= f) s = f a s.
Proof. by intros ->. Qed.

Lemma bind_world {A B} (c : GoM World A) a (f : A → GoM St B) m w w' :
  c w = (Done a, w') → (on_world c ≫= f) (m, w) = f a (m, w').
Proof. intros E. unfold on_world, mbind, GoM_bind. simpl. by rewrite E. Qed.

(** ** The manager's invariant *)

(** Outside (or inside, [b]) the critical sections: the active index is the one
    of an engine, and each engine has a status once the statuses exist. *)
Record mgr_inv (b : bool) (m : Manager) : Prop := {
  mi_lock : locked m = b;
  mi_active : 0 <= activeIdx m < Z.of_nat (length (engines m));
  mi_small : Z.of_nat (length (engines m)) <= max_int32;
  mi_status : ∀ sts, engineStatus m = Some sts → length sts = length (engines m)
}.

(** How a manager may evolve: engines are not added or removed, and an engine
    that is marked unhealthy stays so. *)
Definition evolves (m0 m : Manager) : Prop :=
  length (engines m) = length (engines m0) ∧
  ∀ sts0 i st, engineStatus m0 = Some sts0 → sts0 !! i = Some st → IsHealthy st = false →
    ∃ sts st', engineStatus m = Some sts ∧ sts !! i = Some st' ∧ IsHealthy st' = false.

Lemma evolves_refl m : evolves m m.
Proof. split; [done|]. intros sts i st -> ? ?. eauto. Qed.

Lemma evolves_fields m0 m m' :
  evolves m0 m → length (engines m') = length (engines m) →
  engineStatus m' = engineStatus m → evolves m0 m'.
Proof. intros [H1 H2] Hl Hs. split; [congruence|]. rewrite Hs. done. Qed.

Section Invariant.
Context (τ : loc → kind) (m0 : Manager).

(** The invariant of a history that began in [m0]: [b] tells whether the lock
    is held, [K] is what is known of the engines and the active index. *)
Definition inv (b : bool) (K : list RTPEngine → Z → Prop) (s : St) : Prop :=
  mgr_inv b (fst s) ∧ evolves m0 (fst s) ∧ K (engines (fst s)) (activeIdx (fst s)) ∧
  store_inv τ (snd s).
(** The same, with the statuses initialised. *)
Definition ready (b : bool) (K : list RTPEngine → Z → Prop) (s : St) : Prop :=
  inv b K s ∧ is_Some (engineStatus (fst s)).

Implicit Types K : list RTPEngine → Z → Prop.

Lemma triple_mgr {A} P (f : Manager → GoM St A) Q :
  (∀ m, triple (λ s, P s ∧ fst s = m) (f m) Q) → triple P (mgr ≫= f) Q.
Proof. intros H s Hs. apply (H (fst s)). done. Qed.

Lemma triple_lift {A B} P (a : A) o (f : A → GoM St B) Q :
  o = Done a → triple P (f a) Q → triple P (lift o ≫= f) Q.
Proof. intros -> H s Hs. by apply H. Qed.

Lemma inv_lock b b' K m w : inv b K (m, w) → inv b' K (set_locked b' m, w).
Proof.
  intros ([??? H]&He&?&?). destruct m. split_and!; [by split| |done|done].
  by eapply evolves_fields.
Qed.

Lemma Lock_inv K : triple (inv false K) Lock (λ _, inv true K).
Proof.
  intros [m w] Hs. unfold Lock, mgr, mbind, GoM_bind. simpl in *.
  pose proof (mi_lock _ _ (proj1 Hs)) as Hl. simpl in Hl. rewrite Hl. eexists tt, _. split; [reflexivity|].
  by eapply inv_lock.
Qed.

Lemma Lock_ready K : triple (ready false K) Lock (λ _, ready true K).
Proof.
  intros [m w] [Hs Hr]. destruct (Lock_inv K (m, w) Hs) as ([]&[m' w']&E&H).
  eexists tt, _. split; [exact E|]. split; [done|].
  unfold Lock, mgr, mbind, GoM_bind in E. simpl in E.
  pose proof (mi_lock _ _ (proj1 Hs)) as Hl. simpl in Hl. rewrite Hl in E. injection E as <- <-. by destruct m.
Qed.

Lemma Unlock_inv b K : triple (inv b K) Unlock (λ _, inv false K).
Proof. intros [m w] Hs. eexists tt, _. split; [reflexivity|]. by eapply inv_lock. Qed.

Lemma Unlock_ready b K : triple (ready b K) Unlock (λ _, ready false K).
Proof.
  intros [m w] [Hs Hr]. eexists tt, _. split; [reflexivity|].
  split; [by eapply inv_lock|]. by destruct m.
Qed.

Lemma initEngineStatus_triple K :
  triple (λ s, inv false K s ∧ engineStatus (fst s) = None) initEngineStatus (λ _, ready false K).
Proof.
  intros [m w] [([Hl Ha Hn Hs]&[He Hu]&HK&Hw) Hnone]. unfold initEngineStatus.
  unfold Lock. unfold mgr, mbind, GoM_bind. simpl in *. rewrite Hl. simpl.
  eexists tt, _. split; [reflexivity|]. destruct m as [es ws a l h st t]. simpl in *. subst.
  assert (∀ b, mgr_inv false (mkManager es ws a false h
    (Some (replicate (length es) (mkEngineStatus true 0 zero_time))) b)) as Hm.
  { intros b. split; simpl; try done. intros ? [= <-]. apply length_replicate. }
  assert (∀ b, evolves m0 (mkManager es ws a false h
    (Some (replicate (length es) (mkEngineStatus true 0 zero_time))) b)) as Hev.
  { intros b. split; [done|]. intros sts0 i st0 H1 H2 H3.
    by destruct (Hu sts0 i st0 H1 H2 H3) as (?&?&?&_). }
  unfold ready, inv. simpl. case_match; simpl; split_and!; try done; by eexists.
Qed.

Lemma ensureStatus_triple K : triple (inv false K) ensureStatus (λ _, ready false K).
Proof.
  apply triple_mgr. intros m. destruct (engineStatus m) as [sts|] eqn:Hst.
  - apply triple_ret. intros s [Hs <-]. split; [done|]. by rewrite Hst.
  - eapply triple_conseq; [apply (initEngineStatus_triple K)| |done].
    intros s [Hs <-]. done.
Qed.

(** Under the lock [ensureStatus] is harmless only when the statuses exist. *)
Lemma ensureStatus_locked K : triple (ready true K) ensureStatus (λ _, ready true K).
Proof.
  apply triple_mgr. intros m. destruct (engineStatus m) as [sts|] eqn:Hst.
  - apply triple_ret. by intros s [Hs _].
  - intros s [[_ [? Hs]] <-]. congruence.
Qed.

Lemma status_at_triple b K i :
  triple (λ s, ready b K s ∧ (i < length (engines (fst s)))%nat) (status_at i)
    (λ st s, ready b K s ∧ ∃ sts, engineStatus (fst s) = Some sts ∧ sts !! i = Some st).
Proof.
  intros [m w] [[Hs [sts Hst]] Hi]. simpl in *. unfold status_at, mgr, mbind, GoM_bind, lift.
  simpl. rewrite Hst. simpl. pose proof (mi_status _ _ (proj1 Hs) sts Hst) as Hlen.
  destruct (index_Done sts (Z.of_nat i)) as (st&Hl&->); [simpl in *; lia|].
  rewrite Nat2Z.id in Hl. eexists st, _. split; [reflexivity|].
  split; [split; [done|by eexists]|]. by exists sts.
Qed.

(** A storage call of the manager. *)
Lemma on_world_triple {A} P b K (m : GoM World A) :
  (∀ w, store_inv τ w → ∃ r w', m w = (Done r, w') ∧ store_inv τ w') →
  triple (λ s, inv b K s ∧ P (fst s)) (on_world m) (λ _ s, inv b K s ∧ P (fst s)).
Proof.
  intros Hm [mm w] [(?&?&?&Hw) HP]. destruct (Hm w Hw) as (r&w'&E&?).
  unfold on_world. simpl. rewrite E. by eexists r, _.
Qed.

Lemma Set_safe key v d now w :
  store_inv τ w → ∃ r w', Storage.Set_ key v d now w = (Done r, w') ∧ store_inv τ w'.
Proof.
  intros Hw. destruct (store_inv_kv τ (KSet key v d now) w Hw) as (r&w'&E&?).
  simpl in E. unfold mbind, GoM_bind in E.
  destruct (Storage.Set_ key v d now w) as [[r1| |] w1]; [|done|done].
  exists r1, w1. split; [done|]. by injection E as _ <-.
Qed.

Lemma recordEngineFailure_triple K addr now :
  triple (ready false K) (recordEngineFailure addr now) (λ _, ready false K).
Proof.
  unfold recordEngineFailure.
  eapply triple_seq; [apply Lock_ready|]. eapply triple_seq; [apply ensureStatus_locked|].
  apply triple_mgr. intros m.
  eapply triple_seq; [|apply Unlock_ready].
  destruct (list_find _ _) as [[i e]|] eqn:Hf; [|by apply triple_ret; intros s [? _]].
  apply list_find_Some in Hf as (Hi&_&_).
  assert (i < length (engines m))%nat as Hlt by by eapply lookup_lt_Some.
  eapply triple_bind.
  { eapply triple_conseq; [apply (status_at_triple true K i)| |done].
    intros s [Hs <-]. done. }
  intros st. simpl. intros [m1 w] [[([Hl Ha Hn Hs]&[He Hu]&HK&Hw) [sts Hst]] _].
  eexists tt, _. split; [reflexivity|].
  destruct m1 as [es ws a l h sts1 t]. simpl in *. subst. simpl.
  split; [|by eexists]. split_and!; simpl; [split; simpl; try done| |done|done].
  - intros ? [= <-]. rewrite length_alter. by apply Hs.
  - split; [done|]. intros sts0 j st0 H1 H2 H3.
    destruct (Hu sts0 j st0 H1 H2 H3) as (?&st'&[= <-]&Hj&Hb).
    exists (alter (fail_status t now) i sts). destruct (decide (i = j)) as [<-|].
    + eexists (fail_status t now st'). split_and!; [done| |unfold fail_status; simpl; by destruct (_ <=? _)].
      by rewrite list_lookup_alter_eq, Hj.
    + exists st'. simpl. split_and!; [done| |done]. by rewrite list_lookup_alter_ne.
Qed.

Abbreviation n_engines := (Z.of_nat (length (engines m0))).

Lemma index_engines {A} m (f : RTPEngine → GoM St A) i P Q :
  length (engines m) = length (engines m0) → 0 <= i < n_engines →
  (∀ e, engines m !! Z.to_nat i = Some e → triple P (f e) Q) →
  triple P (lift (index (engines m) i) ≫= f) Q.
Proof.
  intros Hm Hi Hf. destruct (index_Done (engines m) i) as (e&He&->); [lia|].
  intros s Hs. by apply (Hf e He).
Qed.

Lemma set_event_triple b K key v d now :
  triple (ready b K) (on_world (Storage.Set_ key v d now);; mret tt) (λ _, ready b K).
Proof.
  eapply triple_bind.
  - apply (on_world_triple (λ m, is_Some (engineStatus m)) b K). apply Set_safe.
  - intros r. by apply triple_ret.
Qed.

Lemma recordFailoverEvent_triple b K from to reason t1 t2 t3 :
  triple (ready b K) (recordFailoverEvent from to reason t1 t2 t3) (λ _, ready b K).
Proof.
  apply triple_mgr. intros m. cbv zeta. destruct (has_storage m).
  - eapply triple_conseq; [apply set_event_triple|by intros ? []|done].
  - by apply triple_ret; intros ? [].
Qed.

(** Switching from [old] to [new]. *)
Definition moved (K : list RTPEngine → Z → Prop) (new : Z) : list RTPEngine → Z → Prop :=
  λ es a, a = new ∧ ∃ old, K es old.

Lemma set_activeIdx_triple b K new :
  0 <= new < n_engines →
  triple (ready b K) (on_mgr (set_activeIdx (int32_wrap new))) (λ _, ready b (moved K new)).
Proof.
  intros Hn [m w] [([Hl Ha Hsm Hs]&[He Hu]&HK&Hw) [sts Hst]].
  eexists tt, _. split; [reflexivity|]. simpl in *.
  rewrite int32_wrap_small by (unfold is_int32, min_int32; lia).
  destruct m as [es ws a l h st t]. simpl in *.
  split; [|by eexists]. split; [split; simpl; try done; lia|].
  split; [by split|]. split; [|done]. split; [done|]. by exists a.
Qed.

Lemma SimplifyMigration_triple K old new t1 t2 t3 :
  0 <= old < n_engines → 0 <= new < n_engines → old ≠ new →
  triple (ready false K) (SimplifyMigration old new t1 t2 t3) (λ _, ready false (moved K new)).
Proof.
  intros Ho Hn Hne. unfold SimplifyMigration. rewrite (proj2 (Z.eqb_neq _ _) Hne).
  eapply triple_seq; [apply Lock_ready|]. apply triple_mgr. intros m. cbv zeta.
  apply triple_intro. intros s0 [Hs0 Hm].
  assert (length (engines m) = length (engines m0)) as Hlen by (subst m; apply Hs0).
  rewrite Hlen.
  rewrite (proj2 (Z.ltb_ge old 0)), (proj2 (Z.leb_gt _ old)), (proj2 (Z.ltb_ge new 0)),
    (proj2 (Z.leb_gt _ new)) by lia. simpl orb. cbv iota.
  eapply triple_seq; [|apply Unlock_ready].
  eapply triple_seq.
  { eapply triple_conseq; [apply (set_activeIdx_triple true K new Hn)| |intros ? ? H; exact H].
    by intros ? ->. }
  apply index_engines; [done|lia|]. intros e1 _.
  apply index_engines; [done|lia|]. intros e2 _.
  destruct (has_storage m); [apply set_event_triple|by apply triple_ret].
Qed.

Lemma find_healthy_spec cur sts js :
  (∀ j, j ∈ js → (j < length sts)%nat) →
  ∃ r, find_healthy cur sts js = Done r ∧
    match r with
    | None => True
    | Some i => i ∈ js ∧ Z.of_nat i ≠ cur
    end.
Proof.
  induction js as [|j js IH]; intros Hj; simpl; [by eexists|].
  destruct IH as (r&->&Hr); [intros; apply Hj; by right|].
  destruct (Z.eqb_spec (Z.of_nat j) cur).
  - exists r. split; [done|]. destruct r; [|done]. split; [right|]; naive_solver.
  - destruct (index_Done sts (Z.of_nat j)) as (st&_&->).
    { specialize (Hj j ltac:(left)). lia. }
    simpl. destruct (IsHealthy st); [by eexists; repeat split; try left|].
    exists r. split; [done|]. destruct r; [|done]. split; [right|]; naive_solver.
Qed.

(** The loop's answer, when it finds an engine, is another one, now active. *)
Lemma tryFailover_triple (KE : list RTPEngine → Prop) t cur :
  triple (ready false (λ es a, KE es ∧ a = cur)) (tryFailover t)
    (λ r, ready false (λ es a, KE es ∧
       match r with None => a = cur | Some i => a = Z.of_nat i ∧ a ≠ cur end)).
Proof.
  unfold tryFailover. eapply triple_seq; [apply Lock_ready|].
  eapply triple_seq; [apply ensureStatus_locked|]. apply triple_mgr. intros m. cbv zeta.
  apply triple_intro. intros s0 [Hs0 Hm].
  pose proof Hs0 as [([Hl Ha Hsm Hst]&[Hlen _]&[HK Hcur]&_) [sts Hsts]]. subst m.
  rewrite (proj2 (Z.leb_gt _ _)) by lia.
  apply index_engines; [done|lia|]. intros e1 _.
  destruct (find_healthy_spec (activeIdx (fst s0)) (default [] (engineStatus (fst s0)))
    (seq 0 (length (engines (fst s0))))) as (r&Hr&Hres).
  { intros j [_ Hj]%elem_of_seq. rewrite Hsts. simpl. rewrite (Hst _ Hsts). lia. }
  eapply triple_lift; [exact Hr|]. destruct r as [i|].
  - destruct Hres as [[_ Hi]%elem_of_seq Hne].
    apply index_engines; [done|lia|]. intros e2 _.
    eapply triple_seq.
    { eapply triple_conseq; [apply (Unlock_ready true)|by intros ? ->|intros ? ? H; exact H]. }
    eapply triple_seq.
    { apply SimplifyMigration_triple; [lia|lia|done]. }
    eapply triple_seq; [apply Lock_ready|].
    eapply triple_seq; [apply recordFailoverEvent_triple|].
    eapply triple_seq; [apply Unlock_ready|]. apply triple_ret.
    intros s [(?&?&[Hact (old&?&Hold)]&?) ?]. split; [|done].
    do 2 (split; [done|]). split; [|done]. split_and!; [done|done|]. congruence.
  - eapply triple_seq.
    { eapply triple_conseq; [apply (Unlock_ready true)|by intros ? ->|intros ? ? H; exact H]. }
    by apply triple_ret.
Qed.

Lemma ready_weaken b K K' s :
  (∀ es a, K es a → K' es a) → ready b K s → ready b K' s.
Proof. intros HK [(?&?&?&?) ?]. split; [|done]. do 2 (split; [done|]). split; [by apply HK|done]. Qed.

(** A call on an engine changes that engine only. *)
Lemma on_engine_triple {A} (Q : option (list EngineStatus) → Prop) b K K' i (m : GoM RTPEngine A) :
  Z.of_nat i < n_engines → (∀ e, ∃ v e', m e = (Done v, e')) →
  (∀ es a e, K es a → K' (<[i := e]> es) a) →
  triple (λ s, inv b K s ∧ Q (engineStatus (fst s))) (on_engine i m)
    (λ _ s, inv b K' s ∧ Q (engineStatus (fst s))).
Proof.
  intros Hi Hm HK' [mm w] [([Hl Ha Hsm Hs]&[He Hu]&HK&Hw) HQ]. unfold on_engine. simpl in *.
  destruct (lookup_lt_is_Some_2 (engines mm) i) as [e Hei]; [lia|]. rewrite Hei.
  destruct (Hm e) as (v&e'&->). eexists v, _. split; [reflexivity|].
  destruct mm as [es ws a l h st t]. simpl in *. split; [|done].
  split; [split; simpl; rewrite ?length_insert; done|].
  split; [split; [simpl; by rewrite length_insert|done]|]. split; [by apply HK'|done].
Qed.

Lemma index_triple {A} P Q i (f : nat → GoM St A) :
  0 <= i < n_engines → (∀ s, P s → length (engines (fst s)) = length (engines m0)) →
  triple P (f (Z.to_nat i)) Q → triple P (engine_index i ≫= f) Q.
Proof.
  intros Hi Hlen Hf s Hs. unfold engine_index. rewrite bind_assoc.
  unfold mgr. unfold mbind at 1, GoM_bind at 1. simpl.
  destruct (index_Done (engines (fst s)) i) as (e&_&Hix); [rewrite Hlen by done; lia|].
  rewrite Hix. unfold mbind, GoM_bind, lift. simpl. by apply Hf.
Qed.

Lemma inv_len b K s : inv b K s → length (engines (fst s)) = length (engines m0).
Proof. intros (_&[Hl _]&_). done. Qed.

Section Requests.
Context (Encode : dict → option string) (Decode : string → option dict).

Lemma Request_total command e r : ∃ v r', Request Encode Decode command e r = (Done v, r').
Proof.
  pose proof (Request_spec Encode Decode command e r) as H.
  destruct (AllowRequest _ _ _). destruct H as (v&r'&?&_). eauto.
Qed.

Lemma Ping_total e r : ∃ v r', Ping Encode Decode e r = (Done v, r').
Proof.
  unfold Ping. destruct (Request_total {["command" := BStr "ping"]} e r) as (v&r'&E).
  rewrite (bind_Done _ _ _ _ _ E). eauto.
Qed.

Lemma pick_healthy_triple K active js :
  (∀ j, j ∈ js → Z.of_nat j < n_engines) →
  triple (ready false K) (pick_healthy active js)
    (λ r s, ready false K s ∧
       match r with Some i => Z.of_nat i ≠ active ∧ Z.of_nat i < n_engines | None => True end).
Proof.
  induction js as [|j js IH]; intros Hj; simpl; [by apply triple_ret|].
  assert (triple (ready false K) (pick_healthy active js) (λ r s, ready false K s ∧
       match r with Some i => Z.of_nat i ≠ active ∧ Z.of_nat i < n_engines | None => True end))
    as IH' by (apply IH; intros; apply Hj; by right).
  destruct (Z.eqb_spec (Z.of_nat j) active) as [|Hne]; [done|].
  eapply triple_seq; [apply Lock_ready|]. eapply triple_seq; [apply ensureStatus_locked|].
  eapply triple_bind.
  { eapply triple_conseq; [apply (status_at_triple true K j)| |intros ? ? H; exact H].
    intros s Hs. split; [done|]. specialize (Hj j ltac:(left)).
    rewrite (inv_len _ _ _ (proj1 Hs)). lia. }
  intros st. eapply triple_seq.
  { eapply triple_conseq; [apply (Unlock_ready true)|by intros ? [? _]|intros ? ? H; exact H]. }
  destruct (IsHealthy st); [|done]. apply triple_ret. intros s Hs.
  split; [done|]. split; [done|]. apply Hj. left.
Qed.

(** A failover offer goes to an engine that is not the active one. *)
Lemma failoverOffer_triple (KE : list RTPEngine → Prop) cur callID fromTag sdp o e t :
  (∀ i es x, Z.of_nat i ≠ cur → Z.of_nat i < n_engines → KE es → KE (<[i := x]> es)) →
  triple (ready false (λ es a, KE es ∧ a = cur))
    (failoverOffer Encode Decode callID fromTag sdp o e t)
    (λ _, ready false (λ es _, KE es)).
Proof.
  intros HKE. unfold failoverOffer. eapply triple_seq; [apply Lock_ready|].
  apply triple_mgr. intros m. cbv zeta. apply triple_intro. intros s0 [Hs0 Hm].
  pose proof Hs0 as [([Hl Ha Hsm Hst]&[Hlen _]&[HK Hcur]&_) _]. subst m.
  eapply triple_seq.
  { eapply triple_conseq; [apply (Unlock_ready true)|by intros ? ->|intros ? ? H; exact H]. }
  rewrite Hlen. eapply triple_bind.
  { apply pick_healthy_triple. intros j [_ Hj]%elem_of_seq. lia. }
  intros [i|]; simpl.
  2: { apply triple_ret. intros s [Hs _]. eapply ready_weaken; [|exact Hs]. by intros ? ? [? _]. }
  apply triple_intro. intros s1 [Hs1 [Hne Hi]]. rewrite Hcur in *.
  eapply triple_seq.
  { eapply triple_conseq; [apply (SimplifyMigration_triple (λ es a, KE es ∧ a = cur) cur (Z.of_nat i));
      lia || done|by intros ? ->|intros ? ? H; exact H]. }
  eapply triple_bind.
  { apply (on_engine_triple is_Some false _ (λ es _, KE es)); [done| |].
    - intros r. apply Request_total.
    - intros es a x (_&old&HKes&_). by apply HKE. }
  intros r. by apply triple_ret.
Qed.

Lemma ProcessOffer_triple (KE : list RTPEngine → Prop) cur callID fromTag sdp flags e :
  0 <= cur < n_engines →
  (∀ i es x, Z.of_nat i = cur → KE es → KE (<[i := x]> es)) →
  (∀ i k es x, Z.of_nat i ≠ cur → k ≠ i → Z.of_nat i < n_engines → Z.of_nat k < n_engines →
    KE es → KE (<[k := x]> es)) →
  triple (inv false (λ es a, KE es ∧ a = cur))
    (ProcessOffer Encode Decode callID fromTag sdp flags e) (λ _, ready false (λ es _, KE es)).
Proof.
  intros Hcur H1 H2. unfold ProcessOffer. eapply triple_seq; [apply Lock_inv|].
  apply triple_mgr. intros m.
  apply triple_intro. intros s0 [Hs0 Hm]. pose proof Hs0 as (_&_&[_ Ha]&_). subst m. rewrite Ha.
  apply index_triple; [done|intros ? ->; by eapply inv_len|].
  eapply triple_seq.
  { eapply triple_conseq; [apply (Unlock_inv true)|by intros ? ->|intros ? ? H; exact H]. }
  eapply triple_seq; [apply ensureStatus_triple|]. cbv zeta.
  eapply triple_bind.
  { apply (on_engine_triple is_Some false _ (λ es a, KE es ∧ a = cur)); [lia| |].
    - intros r. apply Request_total.
    - intros es a x [HK ->]. split; [|done]. apply H1; [lia|done]. }
  intros [d|err]; simpl.
  { apply triple_ret. intros s Hs. eapply ready_weaken; [|exact Hs]. by intros ? ? [? _]. }
  eapply triple_seq; [apply recordEngineFailure_triple|].
  eapply triple_bind; [apply (tryFailover_triple KE _ cur)|]. intros [i|]; simpl.
  2: { apply triple_ret. intros s Hs. eapply ready_weaken; [|exact Hs]. by intros ? ? [? _]. }
  apply triple_intro. intros s1 Hs1. pose proof Hs1 as [([Hl' Ha' _ _]&[Hlen' _]&[_ [Hi Hne]]&_) _].
  eapply triple_conseq; [apply (failoverOffer_triple KE (Z.of_nat i))| |intros ? ? H; exact H].
  - intros k es x Hk Hk'. apply (H2 i k); [congruence|lia|lia|done].
  - intros s ->. eapply ready_weaken; [|exact Hs1]. by intros ? ? [? [? _]].
Qed.

(** Nothing is known of the engines and the active index. *)
Definition any (es : list RTPEngine) (a : Z) : Prop := True.

Lemma ready_inv b K s : ready b K s → inv b any s.
Proof. by intros [(?&?&?&?) ?]. Qed.

Lemma store_call {A} (m : GoM World A) :
  (∀ w, store_inv τ w → ∃ r w', m w = (Done r, w') ∧ store_inv τ w') →
  triple (inv false any) (on_world m) (λ _, inv false any).
Proof.
  intros Hm. eapply triple_conseq; [apply (on_world_triple (λ _, True) false any m Hm)|done|].
  by intros ? ? [? _].
Qed.

Lemma stored_session_triple callID now :
  triple (inv false any) (stored_session callID now)
    (λ r s, inv false any s ∧ ∀ l, r = Some l → τ l = KRTP).
Proof.
  apply triple_mgr. intros m. destruct (has_storage m).
  2: { by apply triple_ret; intros ? [? _]. }
  intros [mm w] [(?&?&?&Hw) _]. unfold GetRTPSession.
  destruct (typed_Get_inv τ KRTP callID now w Hw) as (r&w'&E&Hw').
  unfold on_world. unfold mbind, GoM_bind. simpl. rewrite E.
  eexists _, _. split; [reflexivity|]. split; [done|]. intros l Hl. destruct r as [l'|]; [|done].
  injection Hl as ->. revert E. unfold typed_Get. case_decide; [done|].
  destruct (index_of KRTP (w_mem w) !! callID) as [l1|] eqn:El; [|done].
  repeat case_match; intros; simplify_eq. by eapply inv_typed.
Qed.

Lemma engine_index_triple i :
  0 <= i < n_engines →
  triple (inv false any) (engine_index i) (λ k s, inv false any s ∧ k = Z.to_nat i ∧
    Z.of_nat k < n_engines).
Proof.
  intros Hi s Hs. unfold engine_index, mgr, mbind, GoM_bind. simpl.
  destruct (index_Done (engines (fst s)) i) as (e&_&Hix);
    [by rewrite (inv_len _ _ _ Hs)|].
  unfold lift. rewrite Hix. eexists _, _. split; [reflexivity|]. split; [done|]. split; [done|lia].
Qed.

Lemma inv_active b K s : inv b K s → 0 <= activeIdx (fst s) < n_engines.
Proof. intros ([_ Ha _ _]&[Hl _]&_). by rewrite <-Hl. Qed.

Lemma GetEngine_triple callID now :
  triple (inv false any) (GetEngine callID now)
    (λ k s, inv false any s ∧ Z.of_nat k < n_engines).
Proof.
  unfold GetEngine. eapply triple_bind with (R := λ r s, inv false any s ∧ ∀ l, r = Some l → τ l = KRTP).
  { case_decide; [by apply triple_ret|apply stored_session_triple]. }
  intros r. apply triple_mgr. intros m. apply triple_intro. intros s0 [[Hs0 Hr] Hm]. subst m.
  assert (triple (λ s, s = s0) (engine_index (activeIdx (fst s0)))
    (λ k s, inv false any s ∧ Z.of_nat k < n_engines)) as Hact.
  { eapply triple_conseq; [apply engine_index_triple; by eapply inv_active|by intros ? ->|].
    by intros ? ? (?&_&?). }
  destruct r as [l|]; [|done]. eapply triple_bind with (R := λ _ s, s = s0).
  { intros s ->. by eexists _, _. }
  intros o. cbv zeta. destruct (_ && _) eqn:Hb; [|done]. bool_facts.
  eapply triple_conseq; [apply engine_index_triple|by intros ? ->|by intros ? ? (?&_&?)].
  rewrite <-(inv_len _ _ _ Hs0). lia.
Qed.

Lemma engine_call {A} i (m : GoM RTPEngine A) :
  Z.of_nat i < n_engines → (∀ e, ∃ v e', m e = (Done v, e')) →
  triple (inv false any) (on_engine i m) (λ _, inv false any).
Proof.
  intros Hi Hm. eapply triple_conseq; [apply (on_engine_triple (λ _, True) false any any i m Hi Hm)
    |done|]; [done|]. by intros ? ? [? _].
Qed.

Lemma rem_range a n : 0 <= a → 0 < n → 0 <= Z.rem a n < n.
Proof. intros. by apply Z.rem_bound_pos. Qed.

Lemma try_engines_triple request cur js :
  0 <= cur → (∀ i e, ∃ v e', request i e = (Done v, e')) →
  triple (inv false any) (try_engines request cur js) (λ _, inv false any).
Proof.
  intros Hcur Hreq. induction js as [|j js IH]; simpl; [by apply triple_ret|].
  apply triple_mgr. intros m. apply triple_intro. intros s0 [Hs0 Hm]. subst m. cbv zeta.
  rewrite (inv_len _ _ _ Hs0). pose proof (inv_active _ _ _ Hs0) as Ha.
  assert (triple (λ s, s = s0) (try_engines request cur js) (λ _, inv false any)) as IH'.
  { eapply triple_conseq; [apply IH|by intros ? ->|done]. }
  case_match; [done|].
  pose proof (rem_range (cur + Z.of_nat j + 1) n_engines ltac:(lia) ltac:(lia)) as Hr.
  set (idx := Z.rem _ _) in *. eapply triple_bind.
  { eapply triple_conseq; [apply (engine_index_triple idx Hr)|by intros ? ->|intros ? ? H'; exact H']. }
  intros k. eapply triple_bind with (R := λ _, inv false any).
  { intros s [Hs [-> Hk]]. by apply engine_call. }
  intros [d|err]; [|done].
  eapply triple_seq; [|apply triple_ret; intros s H'; exact H'].
  intros [m w] ([Hl Hac Hsm Hst]&[He Hu]&_&Hw). eexists tt, _. split; [reflexivity|].
  destruct m as [es ws a l h st t]. simpl in *.
  rewrite int32_wrap_small by (unfold is_int32, min_int32; lia).
  split; [split; simpl; try done; lia|]. by split.
Qed.

Lemma modify_object_inv l o w :
  store_inv τ w → kind_of o = τ l → store_inv τ (on_object l (λ _, o) w).
Proof.
  intros [Hc Ht Hh Hs] Ho. split; auto. intros l'. simpl.
  destruct (decide (l = l')) as [<-|Hne]; [by rewrite fn_lookup_insert|].
  by rewrite fn_lookup_insert_ne.
Qed.

Lemma kind_of_answer toTag now o : kind_of (answer_session toTag now o) = kind_of o.
Proof. by destruct o as [|[]| | | |]. Qed.

Lemma store_session l now now' :
  τ l = KRTP →
  triple (inv false any) (on_world (StoreRTPSession (Some l) now now')) (λ _, inv false any).
Proof.
  intros Hl. apply store_call. intros w Hw. apply store_self_inv; [done|]. by intros ? [= <-].
Qed.

Lemma modify_session l f :
  (∀ w, store_inv τ w → store_inv τ (on_object l f w)) →
  triple (inv false any) (on_world (modify (on_object l f))) (λ _, inv false any).
Proof. intros Hf. apply store_call. intros w Hw. eexists _, _. split; [reflexivity|auto]. Qed.

Lemma delete_session_triple callID :
  triple (inv false any) (delete_session callID) (λ _, inv false any).
Proof.
  apply triple_mgr. intros m. destruct (has_storage m).
  - eapply triple_seq; [|by apply triple_ret].
    eapply triple_conseq; [apply (store_call (DeleteRTPSession callID))|by intros ? [? _]|done].
    intros w Hw. by apply typed_Delete_inv.
  - by apply triple_ret; intros ? [? _].
Qed.

Lemma failoverAnswer_triple callID fromTag toTag sdp options e :
  τ (e_loc e) = KRTP →
  triple (inv false any) (failoverAnswer Encode Decode callID fromTag toTag sdp options e)
    (λ _, inv false any).
Proof.
  intros Hl. apply triple_mgr. intros m. cbv zeta.
  apply triple_intro. intros s0 [Hs0 Hm]. subst m. pose proof (inv_active _ _ _ Hs0) as Ha.
  eapply triple_bind.
  { eapply triple_conseq; [apply (try_engines_triple _ (activeIdx (fst s0)))| |intros ? ? H; exact H];
      [lia|intros; apply Request_total|by intros ? ->]. }
  intros [[k d]|]; [|by apply triple_ret].
  apply index_engines; [by eapply inv_len|done|]. intros e1 _. apply triple_mgr. intros m.
  eapply triple_seq; [|by apply triple_ret].
  destruct (has_storage (fst s0)); [|by apply triple_ret; intros ? [? _]]. cbv zeta.
  eapply triple_seq.
  { eapply triple_conseq; [apply modify_session| |intros ? ? H; exact H]; [|by intros ? [? _]].
    intros w Hw. apply modify_object_inv; [done|]. by rewrite Hl. }
  eapply triple_seq; [by apply store_session|by apply triple_ret].
Qed.

Lemma ProcessAnswer_triple callID fromTag toTag sdp options e :
  τ (e_loc e) = KRTP →
  triple (inv false any) (ProcessAnswer Encode Decode callID fromTag toTag sdp options e)
    (λ _, inv false any).
Proof.
  intros Hl. unfold ProcessAnswer. cbv zeta. eapply triple_bind; [apply GetEngine_triple|].
  intros i. eapply triple_bind with (R := λ _, inv false any).
  { intros s [Hs Hi]. by apply engine_call; [|intros; apply Request_total|]. }
  intros [d|err]; [|by apply failoverAnswer_triple].
  destruct (sdp_of d) as [sdpResult|]; [|by apply triple_ret].
  eapply triple_bind; [apply stored_session_triple|]. intros [l|].
  2: { eapply triple_seq; [|by apply triple_ret]. by apply triple_ret; intros ? [? _]. }
  apply triple_intro. intros s0 [Hs0 Hs]. specialize (Hs l eq_refl).
  eapply triple_seq; [|by apply triple_ret].
  eapply triple_seq.
  { eapply triple_conseq; [apply modify_session|by intros ? ->|intros ? ? H; exact H].
    intros w Hw. apply inv_object; [done|apply kind_of_answer]. }
  eapply triple_seq; [by apply store_session|by apply triple_ret].
Qed.

Lemma failoverDelete_triple callID e :
  triple (inv false any) (failoverDelete Encode Decode callID e) (λ _, inv false any).
Proof.
  apply triple_mgr. intros m. cbv zeta.
  apply triple_intro. intros s0 [Hs0 Hm]. subst m. pose proof (inv_active _ _ _ Hs0) as Ha.
  eapply triple_bind.
  { eapply triple_conseq; [apply (try_engines_triple _ (activeIdx (fst s0)))| |intros ? ? H; exact H];
      [lia|intros; apply Request_total|by intros ? ->]. }
  intros [[k d]|]; [|by apply triple_ret].
  apply index_engines; [by eapply inv_len|done|]. intros e1 _.
  eapply triple_seq; [apply delete_session_triple|by apply triple_ret].
Qed.

Lemma DeleteSession_triple callID e :
  triple (inv false any) (DeleteSession Encode Decode callID e) (λ _, inv false any).
Proof.
  unfold DeleteSession. eapply triple_bind; [apply GetEngine_triple|].
  intros i. eapply triple_bind with (R := λ _, inv false any).
  { intros s [Hs Hi]. by apply engine_call; [|intros; apply Request_total|]. }
  intros [d|err]; [|by apply failoverDelete_triple].
  eapply triple_seq; [apply delete_session_triple|by apply triple_ret].
Qed.
End Requests.
End Invariant.

(** ** Histories *)

Inductive mgr_op : Type :=
| MOffer (callID fromTag sdp : string) (flags : option (gmap string string)) (e : menv)
| MAnswer (callID fromTag toTag sdp : string) (options : dict) (e : menv)
| MDelete (callID : string) (e : menv)
| MHealth (i : nat) (e : io).

Section Histories.
Context (Encode : dict → option string) (Decode : string → option dict).

Definition mgr_exec (o : mgr_op) : GoM St unit :=
  match o with
  | MOffer callID fromTag sdp flags e =>
      ProcessOffer Encode Decode callID fromTag sdp flags e;; mret tt
  | MAnswer callID fromTag toTag sdp options e =>
      ProcessAnswer Encode Decode callID fromTag toTag sdp options e;; mret tt
  | MDelete callID e => DeleteSession Encode Decode callID e;; mret tt
  | MHealth i e => health_check Encode Decode i e
  end.

Fixpoint mgr_run (ops : list mgr_op) : GoM St unit :=
  match ops with
  | [] => mret tt
  | o :: ops => mgr_exec o;; mgr_run ops
  end.

(** Sessions are allocated where sessions live; the health goroutines are those
    of the engines. *)
Definition mgr_typed (τ : loc → kind) (n : nat) (o : mgr_op) : Prop :=
  match o with
  | MOffer _ _ _ _ e | MAnswer _ _ _ _ _ e | MDelete _ e => τ (e_loc e) = KRTP
  | MHealth i _ => (i < n)%nat
  end.

Lemma mgr_exec_triple τ m0 o :
  mgr_typed τ (length (engines m0)) o →
  triple (inv τ m0 false any) (mgr_exec o) (λ _, inv τ m0 false any).
Proof.
  intros Ho. destruct o as [c f sdp fl e|c f t sdp op e|c e|i e]; simpl in *.
  - eapply triple_seq; [|by apply triple_ret]. apply triple_intro. intros s0 Hs0.
    pose proof (inv_active _ _ _ _ _ Hs0) as Ha.
    eapply triple_conseq; [apply (ProcessOffer_triple τ m0 Encode Decode (λ _, True)
      (activeIdx (fst s0)) c f sdp fl e Ha); done| |].
    + intros s ->. destruct Hs0 as (?&?&?&?). done.
    + intros a s Hs. exact (ready_inv _ _ _ _ _ Hs).
  - eapply triple_seq; [by apply ProcessAnswer_triple|by apply triple_ret].
  - eapply triple_seq; [by apply DeleteSession_triple|by apply triple_ret].
  - unfold health_check. eapply triple_seq; [|by apply triple_ret].
    apply engine_call; [lia|]. intros r. apply Ping_total.
Qed.

Lemma mgr_run_triple τ m0 ops :
  Forall (mgr_typed τ (length (engines m0))) ops →
  triple (inv τ m0 false any) (mgr_run ops) (λ _, inv τ m0 false any).
Proof.
  induction 1 as [|o ops Ho Hops IH]; simpl; [by apply triple_ret|].
  eapply triple_seq; [by apply mgr_exec_triple|exact IH].
Qed.

Lemma NewManager_inv configs storage now m :
  NewManager configs storage now = Ok m → Z.of_nat (length configs) <= max_int32 →
  mgr_inv false m.
Proof.
  unfold NewManager. destruct configs as [|c cs]; [done|]. intros E Hlen.
  assert (length (new_engines (c :: cs) now) <= length (c :: cs))%nat as Hle.
  { unfold new_engines. apply length_omap_le. }
  destruct (new_engines (c :: cs) now) as [|x es]; [done|]. injection E as <-.
  split; simpl in *; rewrite ?length_fmap; try done; lia.
Qed.
End Histories.

(** ** The order of a failover *)

(** The engines after the current one, around the ring, each with the number of
    the attempt that reaches it. *)
Definition ring (cur : Z) (n : nat) : list (nat * nat) :=
  omap (λ i, let k := Z.rem (cur + Z.of_nat i + 1) (Z.of_nat n) in
             if k =? cur then None else Some (i, Z.to_nat k)) (seq 0 n).

(** The first engine of the list that accepts its request. *)
Fixpoint first_ok (request : nat → GoM RTPEngine (result req_error dict)) (es : list RTPEngine)
    (l : list (nat * nat)) : option (nat * dict) :=
  match l with
  | [] => None
  | (i, k) :: l =>
      match es !! k with
      | Some e => match (request i e).1 with
                  | Done (Ok d) => Some (k, d)
                  | _ => first_ok request es l
                  end
      | None => first_ok request es l
      end
  end.

Lemma elem_of_ring cur n k :
  0 <= cur < Z.of_nat n → k ∈ (ring cur n).*2 ↔ (k < n)%nat ∧ Z.of_nat k ≠ cur.
Proof.
  intros Hc. unfold ring. rewrite list_elem_of_fmap. split.
  - intros ([i k']&->&(j&_&Hj)%list_elem_of_omap). simpl.
    pose proof (rem_range (cur + Z.of_nat j + 1) (Z.of_nat n) ltac:(lia) ltac:(lia)) as Hr.
    destruct (Z.eqb_spec (Z.rem (cur + Z.of_nat j + 1) (Z.of_nat n)) cur); [done|].
    injection Hj as <- <-. lia.
  - intros [Hk Hne].
    set (i := Z.to_nat ((Z.of_nat k - cur - 1) mod Z.of_nat n)).
    exists (i, k). split; [done|]. apply list_elem_of_omap. exists i.
    pose proof (Z.mod_pos_bound (Z.of_nat k - cur - 1) (Z.of_nat n) ltac:(lia)) as Hm.
    assert (Z.of_nat i = (Z.of_nat k - cur - 1) mod Z.of_nat n) as Hi by (unfold i; lia).
    split; [apply elem_of_seq; lia|].
    assert (Z.rem (cur + Z.of_nat i + 1) (Z.of_nat n) = Z.of_nat k) as ->.
    { rewrite Z.rem_mod_nonneg by lia. rewrite Hi.
      replace (cur + (Z.of_nat k - cur - 1) mod Z.of_nat n + 1)
        with (cur + 1 + (Z.of_nat k - cur - 1) mod Z.of_nat n) by lia.
      rewrite Zplus_mod_idemp_r.
      replace (cur + 1 + (Z.of_nat k - cur - 1)) with (Z.of_nat k) by lia.
      apply Z.mod_small. lia. }
    rewrite (proj2 (Z.eqb_neq _ _) Hne), Nat2Z.id. done.
Qed.

Lemma ring_index_inj cur n i j :
  0 <= cur < Z.of_nat n → (i < n)%nat → (j < n)%nat →
  Z.rem (cur + Z.of_nat i + 1) (Z.of_nat n) = Z.rem (cur + Z.of_nat j + 1) (Z.of_nat n) → i = j.
Proof.
  intros Hc Hi Hj. rewrite !Z.rem_mod_nonneg by lia. intros Heq.
  pose proof (Z.div_mod (cur + Z.of_nat i + 1) (Z.of_nat n) ltac:(lia)) as H1.
  pose proof (Z.div_mod (cur + Z.of_nat j + 1) (Z.of_nat n) ltac:(lia)) as H2.
  rewrite Heq in H1.
  assert (Z.of_nat i - Z.of_nat j = Z.of_nat n *
    ((cur + Z.of_nat i + 1) / Z.of_nat n - (cur + Z.of_nat j + 1) / Z.of_nat n)) as Hd by lia.
  destruct (Z_lt_le_dec ((cur + Z.of_nat i + 1) / Z.of_nat n) ((cur + Z.of_nat j + 1) / Z.of_nat n));
    [nia|].
  destruct (Z_lt_le_dec ((cur + Z.of_nat j + 1) / Z.of_nat n) ((cur + Z.of_nat i + 1) / Z.of_nat n));
    [nia|]. nia.
Qed.

Section Ring.
Context (request : nat → GoM RTPEngine (result req_error dict)).
Context (Htotal : ∀ i e, ∃ v e', request i e = (Done v, e')).

(** The pairs an attempt number yields, for a list of attempt numbers. *)
Definition attempts (cur : Z) (n : nat) (js : list nat) : list (nat * nat) :=
  omap (λ i, let k := Z.rem (cur + Z.of_nat i + 1) (Z.of_nat n) in
             if k =? cur then None else Some (i, Z.to_nat k)) js.

Lemma first_ok_ext es es' l :
  (∀ i k, (i, k) ∈ l → es !! k = es' !! k) → first_ok request es l = first_ok request es' l.
Proof.
  induction l as [|[i k] l IH]; intros H; simpl; [done|].
  rewrite (H i k) by left. rewrite IH by (intros; eapply H; by right). done.
Qed.

Lemma try_engines_first cur js m w :
  0 <= cur < Z.of_nat (length (engines m)) → Z.of_nat (length (engines m)) <= max_int32 →
  NoDup js → (∀ j, j ∈ js → (j < length (engines m))%nat) →
  ∃ es, try_engines request cur js (m, w)
    = (let r := first_ok request (engines m) (attempts cur (length (engines m)) js) in
      (Done r, (match r with
                | Some (k, _) => set_activeIdx (Z.of_nat k) (set_engines es m)
                | None => set_engines es m
                end, w))) ∧ length es = length (engines m).
Proof.
  intros Hc Hmax. revert m Hc Hmax. induction js as [|j js IH]; intros m Hc Hmax Hnd Hj.
  { exists (engines m). by destruct m. }
  apply NoDup_cons in Hnd as [Hnj Hnd]. simpl try_engines.
  unfold mgr, mbind, GoM_bind. simpl. fold (attempts cur (length (engines m)) js).
  set (n := length (engines m)) in *. set (idx := Z.rem (cur + Z.of_nat j + 1) (Z.of_nat n)).
  destruct (Z.eqb_spec idx cur) as [Hidx|Hidx].
  { destruct (IH m Hc Hmax Hnd) as (es&E&?); [intros; apply Hj; by right|]. by exists es. }
  pose proof (rem_range (cur + Z.of_nat j + 1) (Z.of_nat n) ltac:(lia) ltac:(lia)) as Hr.
  fold idx in Hr. destruct (index_Done (engines m) idx) as (e&He&Hix); [lia|].
  unfold engine_index, mgr, mbind, GoM_bind, lift. simpl. rewrite Hix. simpl.
  unfold on_engine. simpl. rewrite He. destruct (Htotal j e) as (v&e'&Hreq). rewrite Hreq.
  simpl. destruct v as [d|err]; simpl.
  - exists (<[Z.to_nat idx := e']> (engines m)). rewrite length_insert. split; [|done].
    rewrite int32_wrap_small by (unfold is_int32, min_int32; lia).
    rewrite Z2Nat.id by lia. by destruct m.
  - destruct (IH (set_engines (<[Z.to_nat idx := e']> (engines m)) m)) as (es&E&Hes).
    + destruct m. simpl in *. by rewrite length_insert.
    + destruct m. simpl in *. by rewrite length_insert.
    + done.
    + intros i Hi. destruct m. simpl in *. rewrite length_insert. apply Hj. by right.
    + assert (engines (set_engines (<[Z.to_nat idx:=e']> (engines m)) m)
        = <[Z.to_nat idx:=e']> (engines m)) as Hse by (by destruct m).
      rewrite Hse, length_insert in E, Hes. fold n in E, Hes.
      exists es. split; [|done]. etrans; [exact E|]. cbv zeta.
      rewrite (first_ok_ext _ (engines m)).
      * destruct (first_ok _ _ _) as [[??]|]; by destruct m.
      * intros i k Hik. unfold attempts in Hik. apply list_elem_of_omap in Hik as (i'&Hi'&Hik).
        cbv zeta in Hik.
        destruct (Z.eqb_spec (Z.rem (cur + Z.of_nat i' + 1) (Z.of_nat n)) cur); [done|].
        injection Hik as <- <-. rewrite list_lookup_insert_ne; [done|]. intros Heq.
        pose proof (rem_range (cur + Z.of_nat i' + 1) (Z.of_nat n) ltac:(lia) ltac:(lia)) as Hr'.
        assert (j = i') as ->; [|done].
        apply (ring_index_inj cur n); [lia|apply Hj; by left|apply Hj; by right|].
        fold idx. lia.
Qed.
End Ring.

(** ** Properties *)

Section Properties.
Context (Encode : dict → option string) (Decode : string → option dict).

(** C18. A manager just built survives every history of offers, answers, deletes
    and health checks, whatever the engines and the network do: no operation
    panics, none deadlocks on the manager's mutex, the mutex is free
    afterwards and the active index is that of an engine. *)
Theorem manager_never_stuck (τ : loc → kind) (configs : list (bool * Config)) (storage : bool)
    (now : Time) (m : Manager) (w : World) (ops : list mgr_op)
    (Hm : NewManager configs storage now = Ok m) (Hlen : Z.of_nat (length configs) <= max_int32)
    (Hw : store_inv τ w) (Hops : Forall (mgr_typed τ (length (engines m))) ops) :
  ∃ m' w', mgr_run Encode Decode ops (m, w) = (Done tt, (m', w')) ∧ locked m' = false ∧
    0 <= activeIdx m' < Z.of_nat (length (engines m')).
Proof.
  assert (inv τ m false any (m, w)) as Hinv.
  { split; [by eapply NewManager_inv|]. split; [apply evolves_refl|]. by split. }
  destruct (mgr_run_triple Encode Decode τ m ops Hops _ Hinv) as ([]&[m' w']&E&Hi).
  destruct Hi as ([Hl Ha _ _]&_). by exists m', w'.
Qed.

(** Nothing ever marks an engine healthy again: an engine that has reached
    the failure threshold stays unhealthy through every later history, health
    checks included. *)
Theorem unhealthy_for_ever (τ : loc → kind) (m : Manager) (w : World) (ops : list mgr_op)
    (sts : list EngineStatus) (i : nat) (st : EngineStatus)
    (Hm : mgr_inv false m) (Hw : store_inv τ w)
    (Hops : Forall (mgr_typed τ (length (engines m))) ops)
    (Hsts : engineStatus m = Some sts) (Hi : sts !! i = Some st) (Hst : IsHealthy st = false) :
  ∃ m' w' sts' st', mgr_run Encode Decode ops (m, w) = (Done tt, (m', w')) ∧
    engineStatus m' = Some sts' ∧ sts' !! i = Some st' ∧ IsHealthy st' = false.
Proof.
  assert (inv τ m false any (m, w)) as Hinv by (split; [done|]; split; [apply evolves_refl|done]).
  destruct (mgr_run_triple Encode Decode τ m ops Hops _ Hinv) as ([]&[m' w']&E&Hi').
  destruct Hi' as (_&[_ Hu]&_). destruct (Hu sts i st Hsts Hi Hst) as (sts'&st'&?&?&?).
  by exists m', w', sts', st'.
Qed.

(** C5. With two engines the failover of an offer never reaches the other
    engine: the switch makes it the active one, and the retry then looks for a
    healthy engine that is not the active one, that is the one that just
    failed. Whatever the networks do, the other engine is not contacted. *)
Theorem offer_never_reaches_the_other_engine (τ : loc → kind) (m : Manager) (w : World)
    (callID fromTag sdp : string) (flags : option (gmap string string)) (e : menv)
    (j : nat) (other : RTPEngine)
    (Hm : mgr_inv false m) (Hw : store_inv τ w) (Htwo : length (engines m) = 2%nat)
    (Hj : engines m !! j = Some other) (Hact : Z.of_nat j ≠ activeIdx m) :
  ∃ r m' w', ProcessOffer Encode Decode callID fromTag sdp flags e (m, w) = (Done r, (m', w')) ∧
    engines m' !! j = Some other.
Proof.
  assert (j < 2)%nat as Hj2 by (rewrite <-Htwo; by eapply lookup_lt_Some).
  pose proof (mi_active _ _ Hm) as Ha.
  destruct (ProcessOffer_triple τ m Encode Decode (λ es, es !! j = Some other) (activeIdx m)
    callID fromTag sdp flags e Ha) with (s := (m, w)) as (r&[m' w']&E&[(_&_&Hk&_) _]).
  - intros i es x Hi Hes. rewrite list_lookup_insert_ne; [done|]. intros ->. by rewrite Hi in Hact.
  - intros i k es x Hi Hki Hin Hkn Hes. rewrite list_lookup_insert_ne; [done|]. intros ->.
    rewrite Htwo in *. lia.
  - split; [done|]. split; [apply evolves_refl|done].
  - by exists r, m', w'.
Qed.

(** C19. When an answer fails, the other engines are asked around the ring, each
    at most once and none left out: the first that accepts gives the answer
    and becomes the active engine; when all refuse, the answer fails and the
    active engine stays. *)
Theorem failover_answer_first_success (τ : loc → kind) (m : Manager) (w : World)
    (callID fromTag toTag sdp : string) (options : dict) (e : menv)
    (Hm : mgr_inv false m) (Hw : store_inv τ w) (Hloc : τ (e_loc e) = KRTP) :
  let n := length (engines m) in
  let params := options ∪ answer_params callID fromTag toTag sdp in
  let found := first_ok (λ i, Answer Encode Decode params (e_io e (1 + i)%nat)) (engines m)
                 (ring (activeIdx m) n) in
  (∀ k, k ∈ (ring (activeIdx m) n).*2 ↔ (k < n)%nat ∧ Z.of_nat k ≠ activeIdx m) ∧
  ∃ m' w', failoverAnswer Encode Decode callID fromTag toTag sdp options e (m, w)
      = (Done match found with Some (_, d) => sdp_of d | None => Err AllEnginesFailed end,
         (m', w')) ∧
    activeIdx m' = match found with Some (k, _) => Z.of_nat k | None => activeIdx m end.
Proof.
  intros n params found. split; [intros k; apply elem_of_ring, (mi_active _ _ Hm)|].
  destruct (try_engines_first (λ i, Answer Encode Decode params (e_io e (1 + i)%nat))
    ltac:(intros; apply Request_total) (activeIdx m) (seq 0 n) m w (mi_active _ _ Hm)
    (mi_small _ _ Hm)) as (es&E&Hes).
  { apply NoDup_seq. }
  { intros i [_ Hi]%elem_of_seq. done. }
  change (first_ok _ (engines m) (attempts _ _ _)) with found in E. cbv zeta in E.
  unfold failoverAnswer. rewrite bind_mgr. cbv zeta. fold params. fold n.
  rewrite (bind_Done _ _ _ _ _ E).
  destruct found as [[k d]|]; [|eexists _, _; split; [reflexivity|by destruct m]].
  destruct (index_Done (engines m) (activeIdx m) (mi_active _ _ Hm)) as (e1&_&Hix).
  rewrite (bind_lift _ _ _ _ Hix), bind_mgr.
  set (m1 := set_activeIdx _ _).
  assert (activeIdx m1 = Z.of_nat k) as Ha1 by (by destruct m).
  destruct (has_storage m); [|by eexists _, _]. cbv zeta. rewrite bind_assoc.
  erewrite bind_world; [|reflexivity]. rewrite bind_assoc.
  destruct (store_self_inv τ KRTP (Some (e_loc e)) (e_t e 2%nat) (e_t e 3%nat)
    (on_object (e_loc e) (λ _ : object, new_session callID (Z.of_nat k)
      (endpoint (default "" (address <$> engines m1 !! k)) (default 0 (port <$> engines m1 !! k)))
      fromTag toTag (e_t e 1%nat)) w)) as (r&w2&E2&_).
  { apply modify_object_inv; [done|]. by rewrite Hloc. }
  { by intros ? [= <-]. }
  exists m1, w2. erewrite bind_world; [|exact E2]. done.
Qed.

(** A call with a live session goes to the engine of its session, when that
    engine exists; every other call goes to the active engine. *)
Theorem engine_affinity (τ : loc → kind) (m : Manager) (w : World) (callID : string) (now : Time)
    (Hm : mgr_inv false m) (Hw : store_inv τ w) :
  let preferred :=
    if has_storage m && bool_decide (callID ≠ "") then
      match (GetRTPSession callID now w).1 with
      | Done (Ok l) =>
          match w_heap w l with
          | ORTP s => if (0 <=? rtp_EngineIdx s) && (rtp_EngineIdx s <? Z.of_nat (length (engines m)))
                      then Some (rtp_EngineIdx s) else None
          | _ => None
          end
      | _ => None
      end
    else None in
  (GetEngine callID now (m, w)).1 = Done (Z.to_nat (default (activeIdx m) preferred)).
Proof.
  intros preferred.
  assert (∀ i w', 0 <= i < Z.of_nat (length (engines m)) →
    (engine_index i (m, w')).1 = Done (Z.to_nat i)) as Hix.
  { intros i w' Hi. unfold engine_index. rewrite bind_mgr.
    destruct (index_Done (engines m) i Hi) as (e&_&->). done. }
  pose proof (λ w', Hix (activeIdx m) w' (mi_active _ _ Hm)) as Hact.
  unfold GetEngine, preferred. clear preferred. destruct (decide (callID = "")) as [->|Hne].
  { rewrite andb_false_r. rewrite bind_ret, bind_mgr. apply Hact. }
  rewrite bool_decide_true, andb_true_r by done. unfold stored_session.
  rewrite bind_assoc, bind_mgr.
  destruct (has_storage m); [|rewrite bind_ret, bind_mgr; apply Hact].
  destruct (typed_Get_inv τ KRTP callID now w Hw) as (r&w'&E&Hw').
  fold (GetRTPSession callID now) in E. rewrite bind_assoc. erewrite bind_world by exact E.
  rewrite E. simpl fst. rewrite bind_ret, bind_mgr. destruct r as [l|err]; [|apply Hact].
  assert (w' = w) as ->.
  { clear -E. revert E. unfold GetRTPSession, typed_Get. repeat case_match; intros; by simplify_eq. }
  unfold heap_at. unfold mbind, GoM_bind. simpl.
  destruct (w_heap w l) as [|s| | | |]; simpl; try apply Hact.
  destruct (_ && _) eqn:Hb; [|apply Hact]. bool_facts. by apply Hix.
Qed.

(** A failure is counted on the first engine that has the address of the
    failing one, whatever its port, and on no other; the count reaching the
    threshold makes it unhealthy. Before the statuses are initialised the same
    call deadlocks on the mutex it holds. *)
Theorem failure_is_blamed_on_first_address (m : Manager) (w : World) (addr : string) (now : Time)
    (i : nat) (e : RTPEngine)
    (Hm : mgr_inv false m) (Hf : list_find (λ e, address e = addr) (engines m) = Some (i, e)) :
  match engineStatus m with
  | None => (recordEngineFailure addr now (m, w)).1 = Deadlock
  | Some sts =>
      recordEngineFailure addr now (m, w)
      = (Done tt, (set_status (Some (alter (fail_status (failureThreshold m) now) i sts)) m, w))
  end.
Proof.
  destruct m as [es ws a l h st t]. pose proof (mi_lock _ _ Hm) as Hl. simpl in *. subst l.
  unfold recordEngineFailure, Lock. rewrite bind_assoc, bind_mgr. simpl.
  unfold on_mgr. unfold mbind at 1, GoM_bind at 1. simpl.
  destruct st as [sts|]; [|done].
  unfold ensureStatus. rewrite bind_assoc, bind_mgr. simpl engineStatus. cbv iota.
  rewrite bind_ret, bind_mgr. simpl engines. rewrite Hf.
  assert (i < length sts)%nat as Hi.
  { rewrite (mi_status _ _ Hm sts eq_refl). apply list_find_Some in Hf as (Hi&_). simpl.
    by eapply lookup_lt_Some. }
  destruct (index_Done sts (Z.of_nat i) ltac:(lia)) as (s&_&Hs).
  cbv iota beta. unfold status_at. rewrite !bind_assoc, bind_mgr. simpl engineStatus.
  by erewrite bind_lift.
Qed.
End Properties.

(** ** Instances *)

Definition blank_session : RTPSession := mkRTPSession "" 0 "" "" "" "" 0 0 0.
Definition rtp_world : World := new_world default_config (λ _, ORTP blank_session).
Definition all_rtp (l : loc) : kind := KRTP.

Lemma rtp_world_inv : store_inv all_rtp rtp_world.
Proof. apply store_inv_new; [apply default_config_ok|done]. Qed.

(** Two engines on one host. *)
Definition engine_configs : list (bool * Config) :=
  [(true, mkConfig "10.0.0.7" 22222 0 1 demo_config);
   (true, mkConfig "10.0.0.7" 22223 0 0 demo_config)].
Definition sample_manager : Manager :=
  match NewManager engine_configs true 1 with
  | Ok m => m
  | Err _ => mkManager [] [] 0 false true None 0
  end.
(** The same once the statuses exist, with the first engine given up. *)
Definition tired_manager : Manager :=
  set_status (Some [mkEngineStatus false 3 90; mkEngineStatus true 0 0])
    (set_threshold 3 sample_manager).

(** The [n]-th network of an operation does not answer unless [n] is in [ok]. *)
Definition sample_env (ok : list nat) : menv :=
  mkMenv (λ n, sample_io (if decide (n ∈ ok) then Some "42 d6:result4:ponge" else None) 100)
    (λ n, 100 + Z.of_nat n) 0%nat.

Lemma sample_manager_inv : mgr_inv false sample_manager.
Proof. by apply (NewManager_inv engine_configs true 1). Qed.

Lemma tired_manager_inv : mgr_inv false tired_manager.
Proof. split; [done|vm_compute; split; [by intros|done]|by vm_compute|by intros ? [= <-]]. Qed.

Definition sample_calls : list mgr_op :=
  [MOffer "call-1" "a" "v=0" None (sample_env []);
   MAnswer "call-1" "a" "b" "v=0" ∅ (sample_env [1%nat]);
   MHealth 1 (sample_io None 100);
   MDelete "call-1" (sample_env [0%nat])].

Lemma manager_never_stuck_witness :
  ∃ m' w', mgr_run ping_encode ping_decode sample_calls (sample_manager, rtp_world)
      = (Done tt, (m', w')) ∧ locked m' = false ∧ activeIdx m' < 2.
Proof.
  destruct (manager_never_stuck ping_encode ping_decode all_rtp engine_configs true 1
    sample_manager rtp_world sample_calls) as (m'&w'&E&Hl&Ha).
  - done.
  - by vm_compute.
  - apply rtp_world_inv.
  - repeat constructor.
  - exists m', w'. split; [exact E|]. split; [done|].
    assert (length (engines (fst (snd (mgr_run ping_encode ping_decode sample_calls
      (sample_manager, rtp_world))))) = 2%nat) as Hn by (by vm_compute).
    rewrite E in Hn. simpl in Hn. lia.
Defined.

Lemma unhealthy_for_ever_witness :
  ∃ m' w' sts' st', mgr_run ping_encode ping_decode sample_calls (tired_manager, rtp_world)
      = (Done tt, (m', w')) ∧
    engineStatus m' = Some sts' ∧ sts' !! 0%nat = Some st' ∧ IsHealthy st' = false.
Proof.
  apply (unhealthy_for_ever ping_encode ping_decode all_rtp tired_manager rtp_world sample_calls
    [mkEngineStatus false 3 90; mkEngineStatus true 0 0] 0 (mkEngineStatus false 3 90)).
  - apply tired_manager_inv.
  - apply rtp_world_inv.
  - repeat constructor.
  - done.
  - done.
  - done.
Defined.

Lemma offer_never_reaches_the_other_engine_witness :
  ∃ r m' w', ProcessOffer ping_encode ping_decode "call-1" "a" "v=0" None (sample_env [])
      (sample_manager, rtp_world) = (Done r, (m', w')) ∧
    engines m' !! 1%nat = engines sample_manager !! 1%nat.
Proof.
  apply (offer_never_reaches_the_other_engine ping_encode ping_decode all_rtp sample_manager
    rtp_world "call-1" "a" "v=0" None (sample_env []) 1).
  - apply sample_manager_inv.
  - apply rtp_world_inv.
  - done.
  - done.
  - done.
Defined.

Lemma failover_answer_first_success_witness :
  ∃ m' w', failoverAnswer ping_encode ping_decode "call-1" "a" "b" "v=0" ∅ (sample_env [1%nat])
      (sample_manager, rtp_world) = (Done (Err NoSDP), (m', w')) ∧ activeIdx m' = 1.
Proof.
  destruct (failover_answer_first_success ping_encode ping_decode all_rtp sample_manager rtp_world
    "call-1" "a" "b" "v=0" ∅ (sample_env [1%nat]) sample_manager_inv rtp_world_inv eq_refl)
    as (_&m'&w'&E&Ha).
  exists m', w'. split; [rewrite E; f_equal; by vm_compute|rewrite Ha; by vm_compute].
Defined.

Lemma engine_affinity_witness :
  (GetEngine "call-1" 100 (set_activeIdx 1 sample_manager, rtp_world)).1 = Done 1%nat.
Proof.
  rewrite (engine_affinity all_rtp (set_activeIdx 1 sample_manager) rtp_world "call-1" 100).
  - by vm_compute.
  - split; [done|vm_compute; split; [by intros|done]|by vm_compute|done].
  - apply rtp_world_inv.
Defined.

(** The failure of the second engine is counted on the first. *)
Lemma failure_is_blamed_on_first_address_witness :
  address <$> engines tired_manager !! 1%nat = Some "10.0.0.7" ∧
  recordEngineFailure "10.0.0.7" 100 (tired_manager, rtp_world)
  = (Done tt, (set_status (Some [mkEngineStatus false 4 100; mkEngineStatus true 0 0])
      tired_manager, rtp_world)).
Proof.
  split; [done|].
  destruct (engines tired_manager) as [|e es] eqn:He; [done|].
  exact (failure_is_blamed_on_first_address tired_manager rtp_world "10.0.0.7" 100 0 _
    tired_manager_inv ltac:(vm_compute; reflexivity)).
Defined.
