(* ===== verification/AMIClient.v ===== *)
(** * ami/ami.go: the client of the Asterisk Manager Interface

    The wire format, the state an [AMIClient] shares between goroutines, and the
    goroutines themselves - the callers of [Connect], [SendAction] and
    [Disconnect], the [readLoop] and the [eventDispatcher] - as threads that
    take one step at a time. A critical section of [c.mu] that the source
    releases at once is one step; the sections of [SendAction] and [connectImpl],
    which sleep and wait inside, are kept open in [mu]. *)

From stdpp Require Import pretty.
From S2P Require Import Prelude Strings CircuitBreaker.

(** ** The wire format *)

Abbreviation message := (gmap string string) (only parsing).

Definition CRLF : string := String (byte 13) (String (byte 10) EmptyString).

(** [fmt.Sprintf("%s: %s\r\n", k, v)] for each pair of the map, in the order of
    one iteration, and an empty line. *)
Definition format_line (kv : string * string) : string := kv.1 +:+ ": " +:+ kv.2 +:+ CRLF.
Definition format_action (pairs : list (string * string)) : string :=
  foldr (λ kv s, format_line kv +:+ s) CRLF pairs.

Definition is_line_end (c : Ascii.ascii) : bool :=
  bool_decide (c = byte 13) || bool_decide (c = byte 10).
(** [strings.TrimRight(line, "\r\n")]. *)
Fixpoint trim_line_end (l : list Ascii.ascii) : list Ascii.ascii :=
  match l with
  | [] => []
  | c :: l' => match trim_line_end l' with
               | [] => if is_line_end c then [] else [c]
               | l'' => c :: l''
               end
  end.
(** [strings.SplitN(line, ":", 2)] when it has two parts. *)
Fixpoint split_colon (l : list Ascii.ascii) : option (list Ascii.ascii * list Ascii.ascii) :=
  match l with
  | [] => None
  | c :: l => if decide (c = byte 58) then Some ([], l)
              else match split_colon l with Some (k, v) => Some (c :: k, v) | None => None end
  end.

Inductive parsed_line : Type :=
| EndOfMessage
| Invalid
| Pair (key value : string).

Definition parse_line (line : string) : parsed_line :=
  match trim_line_end (String.list_ascii_of_string line) with
  | [] => EndOfMessage
  | l => match split_colon l with
         | None => Invalid
         | Some (k, v) => Pair (TrimSpace (String.string_of_list_ascii k))
                               (TrimSpace (String.string_of_list_ascii v))
         end
  end.

(** [ReadString('\n')]: the input up to and including a newline, and the rest. *)
Fixpoint read_line (s : string) : option (string * string) :=
  match s with
  | EmptyString => None
  | String c s => if decide (c = byte 10) then Some (String c EmptyString, s)
                  else match read_line s with
                       | Some (l, r) => Some (String c l, r)
                       | None => None
                       end
  end.

(** The inner loop of [readLoop] on an input: one message and the rest. *)
Fixpoint read_message (fuel : nat) (response : message) (s : string)
    : option (message * string) :=
  match fuel with
  | O => None
  | S fuel =>
      match read_line s with
      | None => None
      | Some (line, s) =>
          match parse_line line with
          | EndOfMessage => Some (response, s)
          | Invalid => read_message fuel response s
          | Pair key value => read_message fuel (<[key := value]> response) s
          end
      end
  end.

(** ** The client *)

Record reply_chan : Type := mkReplyChan { ch_buf : option message; ch_closed : bool }.

Record AMIClient : Type := mkAMIClient {
  address : string;
  timeout : Duration;
  conn : bool;                            (* [conn != nil] *)
  connected : bool;
  bannerReceived : bool;
  responseChans : gmap string nat;        (* channels are positions in [chans] *)
  chans : list reply_chan;
  eventChan : list message;               (* capacity 100 *)
  circuitBreaker : CircuitBreaker;
  stopChan : nat;                         (* positions in [stops] and [dones] *)
  doneChan : nat;
  stops : list bool;                      (* the stop channels: closed? *)
  dones : list bool;
  connectedChan : list bool;              (* capacity 1 *)
  connectionAttemptTime : Time
}.

Record Config : Type := mkConfig {
  ac_Address : string; ac_Username : string; ac_Secret : string; ac_Timeout : Duration;
  ac_CircuitBreaker : CircuitBreakerConfig }.

Definition New (config : Config) (now : Time) : result string AMIClient :=
  if decide (ac_Address config = "") then Err "address is required"
  else if decide (ac_Username config = "") then Err "username is required"
  else if decide (ac_Secret config = "") then Err "secret is required"
  else
    let t := if ac_Timeout config <=? 0 then 10 * Second else ac_Timeout config in
    Ok {| address := ac_Address config; timeout := t; conn := false; connected := false;
          bannerReceived := false; responseChans := ∅; chans := []; eventChan := [];
          circuitBreaker := NewCircuitBreaker ("ami-" +:+ ac_Address config)
                              (ac_CircuitBreaker config) now;
          stopChan := 0; doneChan := 0; stops := [false]; dones := [false];
          connectedChan := []; connectionAttemptTime := zero_time |}.

Definition set_conn (v : bool) (c : AMIClient) : AMIClient :=
  let '(mkAMIClient a t _ cd br rc ch ec cb sc dc ss ds cc ca) := c in
  mkAMIClient a t v cd br rc ch ec cb sc dc ss ds cc ca.
Definition set_connected (v : bool) (c : AMIClient) : AMIClient :=
  let '(mkAMIClient a t cn _ br rc ch ec cb sc dc ss ds cc ca) := c in
  mkAMIClient a t cn v br rc ch ec cb sc dc ss ds cc ca.
Definition set_banner (v : bool) (c : AMIClient) : AMIClient :=
  let '(mkAMIClient a t cn cd _ rc ch ec cb sc dc ss ds cc ca) := c in
  mkAMIClient a t cn cd v rc ch ec cb sc dc ss ds cc ca.
Definition set_chans (rc : gmap string nat) (ch : list reply_chan) (c : AMIClient) : AMIClient :=
  let '(mkAMIClient a t cn cd br _ _ ec cb sc dc ss ds cc ca) := c in
  mkAMIClient a t cn cd br rc ch ec cb sc dc ss ds cc ca.
Definition set_events (v : list message) (c : AMIClient) : AMIClient :=
  let '(mkAMIClient a t cn cd br rc ch _ cb sc dc ss ds cc ca) := c in
  mkAMIClient a t cn cd br rc ch v cb sc dc ss ds cc ca.
Definition on_breaker (f : CircuitBreaker → CircuitBreaker) (c : AMIClient) : AMIClient :=
  let '(mkAMIClient a t cn cd br rc ch ec cb sc dc ss ds cc ca) := c in
  mkAMIClient a t cn cd br rc ch ec (f cb) sc dc ss ds cc ca.
Definition set_stops (v : list bool) (c : AMIClient) : AMIClient :=
  let '(mkAMIClient a t cn cd br rc ch ec cb sc dc _ ds cc ca) := c in
  mkAMIClient a t cn cd br rc ch ec cb sc dc v ds cc ca.
Definition set_dones (v : list bool) (c : AMIClient) : AMIClient :=
  let '(mkAMIClient a t cn cd br rc ch ec cb sc dc ss _ cc ca) := c in
  mkAMIClient a t cn cd br rc ch ec cb sc dc ss v cc ca.
Definition set_connectedChan (v : list bool) (c : AMIClient) : AMIClient :=
  let '(mkAMIClient a t cn cd br rc ch ec cb sc dc ss ds _ ca) := c in
  mkAMIClient a t cn cd br rc ch ec cb sc dc ss ds v ca.
Definition set_attempt (v : Time) (c : AMIClient) : AMIClient :=
  let '(mkAMIClient a t cn cd br rc ch ec cb sc dc ss ds cc _) := c in
  mkAMIClient a t cn cd br rc ch ec cb sc dc ss ds cc v.
(** [c.stopChan = make(chan struct{}); c.doneChan = make(chan struct{})]. *)
Definition new_stop_channels (c : AMIClient) : AMIClient :=
  let '(mkAMIClient a t cn cd br rc ch ec cb sc dc ss ds cc ca) := c in
  mkAMIClient a t cn cd br rc ch ec cb (length ss) (length ds) (ss ++ [false]) (ds ++ [false]) cc ca.

Definition is_closed (l : list bool) (i : nat) : bool := default true (l !! i).
(** Closing a channel: [None] is the panic of closing it twice. *)
Definition close_at (i : nat) (l : list bool) : option (list bool) :=
  if is_closed l i then None else Some (<[i := true]> l).

Definition closeConn (c : AMIClient) : AMIClient := set_banner false (set_conn false c).

(** [close(ch); delete(c.responseChans, id)] for every pending response. *)
Definition close_responses (c : AMIClient) : AMIClient :=
  set_chans ∅
    (foldr (λ i l, alter (λ ch, mkReplyChan (ch_buf ch) true) i l) (chans c)
       (snd <$> map_to_list (responseChans c))) c.

(** ** Goroutines *)

(** What a call returns. *)
Inductive call_result : Type :=
| ConnectOk
| ConnectThrottled
| ConnectFailed                         (* breaker, dial, banner, login, ping *)
| NotConnected                          (* [SendAction] could not connect *)
| NoConnection
| WriteFailed
| Response (resp : message)
| ErrorResponse (resp : message)
| ChannelClosed
| SyntheticPong
| TimedOut
| Disconnected.

(** What the caller of [connectImpl] is. [SendAction] calls it with [c.mu] held,
    and [connectImpl] locks [c.mu] itself. *)
Inductive caller : Type :=
| ForConnect
| ForAction (action : message).

Inductive thread : Type :=
(* Connect: the connection lock, then the throttle *)
| CStart
| CThrottle
(* connectImpl *)
| KLock (k : caller)
| KBegin (k : caller)
| KDrain (k : caller)                   (* waits for [doneChan], half a second *)
| KDial (k : caller)
| KLogin (k : caller)
| KPing (k : caller)
| KFailed (k : caller)                  (* [<-c.doneChan], without a timeout *)
(* SendAction: the lock, the test of [connected], sendActionLocked *)
| ALock (action : message)
| ATest (action : message)
| ASend (action : message)
| AWait (name : string) (id : string) (ch : nat)
(* Disconnect *)
| DLock
| DWait (done : nat)
(* readLoop *)
| RStart
| RTop
| RCheck
| RRead (resp : message)
| RLine (resp : message)
| RDeliver (resp : message)
| RCleanup
(* eventDispatcher *)
| ETop
| ESelect (stop : nat)
| EHandlers (event : message)
| EWildcard (event : message)
| EExit
(* finished *)
| Returned (r : call_result)
| Exited
| Panicked.

Record sys : Type := mkSys {
  cl : AMIClient;
  mu : option nat;                      (* the thread that holds [c.mu] *)
  connLock : option nat;                (* the holder of [c.connectionLock] *)
  threads : list thread;
  crashed : bool                        (* a panic outside any [recover] *)
}.

(** What the environment decides when a thread takes a step: the clock, whether
    a timer fires first, whether a network operation succeeds, the line that
    is read, whether a [select] prefers a pending event. *)
Record choice : Type := mkChoice {
  c_now : Time; c_timer : bool; c_net : bool; c_line : option string; c_event : bool }.

Definition set_cl (c : AMIClient) (s : sys) : sys :=
  mkSys c (mu s) (connLock s) (threads s) (crashed s).
Definition set_mu (m : option nat) (s : sys) : sys :=
  mkSys (cl s) m (connLock s) (threads s) (crashed s).
Definition set_connLock (m : option nat) (s : sys) : sys :=
  mkSys (cl s) (mu s) m (threads s) (crashed s).
Definition goto (t : nat) (p : thread) (s : sys) : sys :=
  mkSys (cl s) (mu s) (connLock s) (<[t := p]> (threads s)) (crashed s).
Definition spawn (p : thread) (s : sys) : sys :=
  mkSys (cl s) (mu s) (connLock s) (threads s ++ [p]) (crashed s).
Definition crash (t : nat) (s : sys) : sys :=
  mkSys (cl s) (mu s) (connLock s) (<[t := Panicked]> (threads s)) true.
Definition on_cl (f : AMIClient → AMIClient) (s : sys) : sys := set_cl (f (cl s)) s.

Definition fail_record (ch : choice) : AMIClient → AMIClient :=
  on_breaker (RecordFailure (c_now ch) (c_now ch)).
Definition succeed_record (ch : choice) : AMIClient → AMIClient :=
  on_breaker (RecordSuccess (c_now ch)).

(** The return of [connectImpl] with an error releases [c.mu]; its success
    releases it for [Connect] and goes on to the action for [SendAction]. *)
Definition connect_fails (t : nat) (k : caller) (s : sys) : sys :=
  let s := set_mu None s in
  match k with
  | ForConnect => goto t (Returned ConnectFailed) (set_connLock None s)
  | ForAction _ => goto t (Returned NotConnected) s
  end.
Definition connect_succeeds (t : nat) (k : caller) (s : sys) : sys :=
  match k with
  | ForConnect => goto t (Returned ConnectOk) (set_connLock None (set_mu None s))
  | ForAction action => goto t (ASend action) s
  end.

(** The panic of a caller: the deferred functions release what it holds. *)
Definition caller_panics (t : nat) (k : caller) (s : sys) : sys :=
  let s := set_mu None s in
  goto t Panicked match k with ForConnect => set_connLock None s | ForAction _ => s end.

(** The failure of the login or of the verification: [close(c.stopChan);
    c.closeConn(); RecordFailure]. *)
Definition abandon (t : nat) (k : caller) (ch : choice) (s : sys) : sys :=
  match close_at (stopChan (cl s)) (stops (cl s)) with
  | None => caller_panics t k s
  | Some ss => goto t (KFailed k) (on_cl (λ c, fail_record ch (closeConn (set_stops ss c))) s)
  end.

(** [connectImpl], from the test of [connected] on, under [c.mu]. *)
Definition connect_step (t : nat) (ch : choice) (p : thread) (s : sys) : sys :=
  let c := cl s in
  match p with
  | KBegin k =>
      if connected c then connect_succeeds t k s
      else
        let '(allowed, cb) := AllowRequest (c_now ch) (c_now ch) (circuitBreaker c) in
        let s := on_cl (on_breaker (λ _, cb)) s in
        if negb allowed then connect_fails t k s
        else if conn c then
          match close_at (stopChan c) (stops c) with
          | None => caller_panics t k (on_cl closeConn s)
          | Some ss => goto t (KDrain k) (on_cl (λ c, set_stops ss (closeConn c)) s)
          end
        else goto t (KDial k) s
  | KDrain k =>
      if is_closed (dones c) (doneChan c) || c_timer ch
      then goto t (KDial k) (on_cl new_stop_channels s) else s
  | KDial k =>
      if negb (c_net ch) then connect_fails t k (on_cl (fail_record ch) s)
      else
        let s := on_cl (set_conn true) s in
        match c_line ch with
        | None => connect_fails t k (on_cl (fail_record ch) s)
        | Some _ =>
            let s := on_cl (λ c, set_connectedChan
              (match connectedChan c with [] => [true] | l => l end) (set_banner true c)) s in
            goto t (KLogin k) (spawn RStart (spawn ETop s))
        end
  | KLogin k => if c_net ch then goto t (KPing k) s else abandon t k ch s
  | KPing k =>
      if c_net ch
      then connect_succeeds t k (on_cl (λ c, succeed_record ch (set_connected true c)) s)
      else abandon t k ch s
  | KFailed k => if is_closed (dones c) (doneChan c) then connect_fails t k s else s
  | _ => s
  end.

(** [sendActionLocked] up to the wait; [conn] is [nil] or the write goes out or
    fails. [AMI-%d] of the clock is the default identifier. *)
Definition with_id (now : Time) (action : message) : message :=
  match action !! "ActionID" with
  | Some _ => action
  | None => <["ActionID" := "AMI-" +:+ pretty (UnixNano now)]> action
  end.

Definition field (key : string) (m : message) : string := default "" (m !! key).

Definition send_step (t : nat) (ch : choice) (action : message) (s : sys) : sys :=
  let c := cl s in
  if negb (conn c) then
    goto t (Returned NoConnection) (set_mu None (on_cl (fail_record ch) s))
  else
    let action := with_id (c_now ch) action in
    let id := field "ActionID" action in
    let i := length (chans c) in
    let c := set_chans (<[id := i]> (responseChans c)) (chans c ++ [mkReplyChan None false]) c in
    if c_net ch then goto t (AWait (field "Action" action) id i) (set_cl c s)
    else
      let c := set_chans (delete id (responseChans c)) (chans c) c in
      goto t (Returned WriteFailed)
        (set_mu None (set_cl (set_connected false (fail_record ch c)) s)).

(** The [select] between the response and the timer; both branches delete the
    identifier and release [c.mu]. *)
Definition wait_step (t : nat) (ch : choice) (name id : string) (i : nat) (s : sys) : sys :=
  let c := cl s in
  let forget := λ c, set_chans (delete id (responseChans c)) (chans c) c in
  let return_ := λ r f, goto t (Returned r) (set_mu None (on_cl (λ c, f (forget c)) s)) in
  let timed_out :=
    if bool_decide (name = "Ping") && connected c
    then return_ SyntheticPong (λ c, c)
    else return_ TimedOut (fail_record ch) in
  match chans c !! i with
  | Some (mkReplyChan (Some resp) _) =>
      if c_timer ch then timed_out
      else if decide (field "Response" resp = "Error")
      then return_ (ErrorResponse resp) (fail_record ch)
      else return_ (Response resp) (succeed_record ch)
  | Some (mkReplyChan None true) =>
      if c_timer ch then timed_out else return_ ChannelClosed (fail_record ch)
  | _ => if c_timer ch then timed_out else s
  end.

(** [Connect]: one attempt at a time, and none within five seconds of the last. *)
Definition connect_call_step (t : nat) (ch : choice) (p : thread) (s : sys) : sys :=
  match p with
  | CStart =>
      match connLock s with
      | None => goto t CThrottle (set_connLock (Some t) s)
      | Some _ => s
      end
  | CThrottle =>
      if mu s then s
      else if connected (cl s) then goto t (Returned ConnectOk) (set_connLock None s)
      else if Since (c_now ch) (connectionAttemptTime (cl s)) <? 5 * Second
      then goto t (Returned ConnectThrottled) (set_connLock None s)
      else goto t (KLock ForConnect) (on_cl (set_attempt (c_now ch)) s)
  | _ => s
  end.

(** [Disconnect]: its section, then the wait for the dispatcher. A second close
    of [stopChan] panics with [c.mu] held, which nothing releases. *)
Definition disconnect_step (t : nat) (ch : choice) (p : thread) (s : sys) : sys :=
  match p with
  | DLock =>
      if mu s then s
      else if negb (connected (cl s)) then goto t (Returned Disconnected) s
      else match close_at (stopChan (cl s)) (stops (cl s)) with
           | None => goto t Panicked (set_mu (Some t) s)
           | Some ss =>
               goto t (DWait (doneChan (cl s)))
                 (on_cl (λ c, close_responses (set_connected false (closeConn (set_stops ss c)))) s)
           end
  | DWait done =>
      if is_closed (dones (cl s)) done || c_timer ch
      then goto t (Returned Disconnected) s else s
  | _ => s
  end.

(** The non-blocking send of a response to its channel, of capacity one; [None]
    is the panic of a send to a closed channel. *)
Definition deliver (resp : message) (c : AMIClient) : option AMIClient :=
  match responseChans c !! field "ActionID" resp with
  | Some i =>
      match chans c !! i with
      | Some (mkReplyChan None false) =>
          Some (set_chans (responseChans c) (<[i := mkReplyChan (Some resp) false]> (chans c)) c)
      | Some (mkReplyChan _ true) => None
      | _ => Some c
      end
  | None => Some c
  end.

(** [readLoop]; reading a line does not hold [c.mu], everything around it
    does. *)
Definition reader_step (t : nat) (ch : choice) (p : thread) (s : sys) : sys :=
  match p with
  | RStart => if mu s then s else goto t (if conn (cl s) then RTop else RCleanup) s
  | RTop => goto t (if is_closed (stops (cl s)) (stopChan (cl s)) then RCleanup else RCheck) s
  | RCheck => if mu s then s else goto t (if conn (cl s) then RRead ∅ else RCleanup) s
  | RRead resp => if mu s then s else goto t (if conn (cl s) then RLine resp else RCleanup) s
  | RLine resp =>
      match c_line ch with
      | None => goto t RCleanup s
      | Some line =>
          match parse_line line with
          | Invalid => goto t (RRead resp) s
          | Pair key value => goto t (RRead (<[key := value]> resp)) s
          | EndOfMessage =>
              if decide (is_Some (resp !! "Response")) then
                if decide (is_Some (resp !! "ActionID")) then goto t (RDeliver resp) s
                else goto t RTop s
              else if decide (is_Some (resp !! "Event")) then
                goto t RTop (on_cl (λ c, if (length (eventChan c) <? 100)%nat
                                         then set_events (eventChan c ++ [resp]) c else c) s)
              else goto t RTop s
          end
      end
  | RDeliver resp =>
      if mu s then s
      else match deliver resp (cl s) with
           | Some c => goto t RTop (set_cl c s)
           | None => goto t Panicked (set_mu (Some t) s)
           end
  | RCleanup =>
      if mu s then s
      else goto t Exited (on_cl (λ c, set_conn false (close_responses (set_connected false c))) s)
  | _ => s
  end.

(** [eventDispatcher]; its channel operand is read when the [select] is
    entered, and the channel it closes at the end when it is left. *)
Definition dispatcher_step (t : nat) (ch : choice) (p : thread) (s : sys) : sys :=
  let c := cl s in
  match p with
  | ETop => goto t (ESelect (stopChan c)) s
  | ESelect stop =>
      match eventChan c with
      | e :: es =>
          if is_closed (stops c) stop && negb (c_event ch) then goto t EExit s
          else goto t (if decide (is_Some (e !! "Event")) then EHandlers e else ETop)
                 (on_cl (set_events es) s)
      | [] => if is_closed (stops c) stop then goto t EExit s else s
      end
  | EHandlers e => if mu s then s else goto t (EWildcard e) s
  | EWildcard e => if mu s then s else goto t ETop s
  | EExit =>
      match close_at (doneChan c) (dones c) with
      | None => crash t s
      | Some ds => goto t Exited (on_cl (set_dones ds) s)
      end
  | _ => s
  end.

(** One step of thread [t]; a thread that must wait leaves the state as it is.
    Nothing runs once the process has crashed. *)
Definition step (t : nat) (ch : choice) (s : sys) : sys :=
  if crashed s then s
  else match threads s !! t with
  | None => s
  | Some p =>
      match p with
      | CStart | CThrottle => connect_call_step t ch p s
      | KLock k => match mu s with None => goto t (KBegin k) (set_mu (Some t) s) | Some _ => s end
      | ALock action =>
          match mu s with None => goto t (ATest action) (set_mu (Some t) s) | Some _ => s end
      | ATest action =>
          goto t (if connected (cl s) then ASend action else KLock (ForAction action)) s
      | KBegin _ | KDrain _ | KDial _ | KLogin _ | KPing _ | KFailed _ => connect_step t ch p s
      | ASend action => send_step t ch action s
      | AWait name id i => wait_step t ch name id i s
      | DLock | DWait _ => disconnect_step t ch p s
      | RStart | RTop | RCheck | RRead _ | RLine _ | RDeliver _ | RCleanup => reader_step t ch p s
      | ETop | ESelect _ | EHandlers _ | EWildcard _ | EExit => dispatcher_step t ch p s
      | Returned _ | Exited | Panicked => s
      end
  end.

Definition run (s : sys) (es : list (nat * choice)) : sys :=
  foldl (λ s e, step e.1 e.2 s) s es.

Definition SendAction (action : message) : thread := ALock action.
Definition Connect : thread := CStart.
Definition Disconnect : thread := DLock.
Definition Ping : thread := SendAction {["Action" := "Ping"]}.

Definition opt (key value : string) (m : message) : message :=
  if decide (value = "") then m else <[key := value]> m.
Definition Originate (channel exten context priority application data callerId : string)
    (timeout : Z) : thread :=
  SendAction
    ((if 0 <? timeout then insert "Timeout" (pretty timeout) else λ m, m)
      (opt "CallerID" callerId (opt "Data" data (opt "Application" application
        (opt "Priority" priority (opt "Context" context (opt "Exten" exten
          (opt "Channel" channel {["Action" := "Originate"]})))))))).
Definition GetStatus (channel : string) : thread :=
  SendAction (opt "Channel" channel {["Action" := "Status"]}).
Definition Hangup (channel cause : string) : thread :=
  SendAction (opt "Cause" cause (<["Channel" := channel]> {["Action" := "Hangup"]})).

(** A client and the calls that are made on it. *)
Definition start (c : AMIClient) (calls : list thread) : sys := mkSys c None None calls false.
Definition is_call (p : thread) : Prop :=
  p = Connect ∨ p = Disconnect ∨ ∃ action, p = SendAction action.

(** ** Who holds the mutex *)

(** A result that did not come from the server. *)
Definition no_reply (r : call_result) : Prop :=
  match r with Response _ | ErrorResponse _ | ChannelClosed => False | _ => True end.

(** The threads that are inside an open section of [c.mu] hold it; the channel
    of a waiting call is empty and open. *)
Definition ok_thread (s : sys) (t : nat) (p : thread) : Prop :=
  match p with
  | KLock (ForAction _) | KBegin _ | KDrain _ | KDial _ | KLogin _ | KPing _ | KFailed _
  | ATest _ | ASend _ => mu s = Some t
  | AWait _ _ i => mu s = Some t ∧ chans (cl s) !! i = Some (mkReplyChan None false)
  | Returned r => no_reply r
  | _ => True
  end.

Definition sys_ok (s : sys) : Prop := ∀ t p, threads s !! t = Some p → ok_thread s t p.

Definition fresh (p : thread) : Prop := p = RStart ∨ p = ETop.

(** What a step of thread [t] may do to the others. *)
Record frame (t : nat) (s s' : sys) : Prop := {
  fr_old : ∀ t' q, t' ≠ t → threads s !! t' = Some q → threads s' !! t' = Some q;
  fr_new : ∀ t' q, t' ≠ t → threads s !! t' = None → threads s' !! t' = Some q → fresh q;
  fr_mu : ∀ t0, mu s = Some t0 → t0 ≠ t → mu s' = Some t0 ∧ chans (cl s') = chans (cl s)
}.

Lemma frame_refl t s : frame t s s.
Proof. split; intros; [done|congruence|done]. Qed.

(** A step that only moves [t] and changes the shared state. *)
Lemma frame_goto t p s s' :
  threads s' = threads s →
  (∀ t0, mu s = Some t0 → t0 ≠ t → mu s' = Some t0 ∧ chans (cl s') = chans (cl s)) →
  frame t s (goto t p s').
Proof.
  intros Ht Hm. split; simpl; rewrite ?Ht; [| |done].
  - intros t' q Hne Hq. by rewrite list_lookup_insert_ne by done.
  - intros t' q Hne Hq. rewrite list_lookup_insert_ne by done. congruence.
Qed.

Lemma goto_self t p s :
  is_Some (threads s !! t) → threads (goto t p s) !! t = Some p.
Proof. intros Hs. simpl. apply list_lookup_insert_eq. by apply lookup_lt_is_Some. Qed.

(** Setters and the parts they leave alone. *)
Lemma chans_setters c :
  (∀ v, chans (set_conn v c) = chans c) ∧ (∀ v, chans (set_connected v c) = chans c) ∧
  (∀ v, chans (set_banner v c) = chans c) ∧ (∀ v, chans (set_events v c) = chans c) ∧
  (∀ f, chans (on_breaker f c) = chans c) ∧ (∀ v, chans (set_stops v c) = chans c) ∧
  (∀ v, chans (set_dones v c) = chans c) ∧ (∀ v, chans (set_connectedChan v c) = chans c) ∧
  (∀ v, chans (set_attempt v c) = chans c) ∧ chans (new_stop_channels c) = chans c ∧
  (∀ rc ch, chans (set_chans rc ch c) = ch).
Proof. destruct c. done. Qed.

(** A holder's step: nothing is asked of the mutex of the others. *)
Definition good_step (t : nat) (s s' : sys) : Prop :=
  frame t s s' ∧ ∀ q, threads s' !! t = Some q → ok_thread s' t q.

Lemma good_refl t s p :
  threads s !! t = Some p → ok_thread s t p → good_step t s s.
Proof. intros Hp Hok. split; [apply frame_refl|]. intros q Hq. by simplify_eq. Qed.

Lemma good_goto t p s s' :
  is_Some (threads s !! t) → threads s' = threads s →
  (∀ t0, mu s = Some t0 → t0 ≠ t → mu s' = Some t0 ∧ chans (cl s') = chans (cl s)) →
  ok_thread (goto t p s') t p → good_step t s (goto t p s').
Proof.
  intros Ht Hs Hm Hok. split; [by apply frame_goto|]. intros q Hq.
  rewrite goto_self in Hq by (by rewrite Hs). by simplify_eq.
Qed.

Ltac good_holder := eapply good_goto;
  [done | done | intros; congruence | try done; simpl; try done].

Lemma connect_fails_good t k s0 s :
  is_Some (threads s0 !! t) → threads s = threads s0 → mu s0 = Some t →
  good_step t s0 (connect_fails t k s).
Proof. intros. unfold connect_fails. destruct k; good_holder. Qed.

Lemma connect_succeeds_good t k s0 s :
  is_Some (threads s0 !! t) → threads s = threads s0 → mu s0 = Some t → mu s = Some t →
  good_step t s0 (connect_succeeds t k s).
Proof. intros. unfold connect_succeeds. destruct k; good_holder. Qed.

Lemma caller_panics_good t k s0 s :
  is_Some (threads s0 !! t) → threads s = threads s0 → mu s0 = Some t →
  good_step t s0 (caller_panics t k s).
Proof.
  intros. unfold caller_panics. eapply good_goto; [done|by destruct k|intros; congruence|done].
Qed.

Lemma abandon_good t k ch s :
  is_Some (threads s !! t) → mu s = Some t → good_step t s (abandon t k ch s).
Proof.
  intros. unfold abandon. case_match; [good_holder|by apply caller_panics_good].
Qed.

Lemma connect_step_good t ch s p :
  threads s !! t = Some p → ok_thread s t p →
  match p with KBegin _ | KDrain _ | KDial _ | KLogin _ | KPing _ | KFailed _ => True | _ => False end →
  good_step t s (connect_step t ch p s).
Proof.
  intros Hp Hok Hk. assert (is_Some (threads s !! t)) as Ht by eauto.
  assert (mu s = Some t) as Hmu by (by destruct p).
  destruct p; try done; unfold connect_step.
  - destruct (connected (cl s)); [by apply connect_succeeds_good|].
    destruct (AllowRequest _ _ _) as [allowed cb].
    destruct (negb allowed); [by apply connect_fails_good|].
    destruct (conn (cl s)); [|good_holder]. case_match; [good_holder|by apply caller_panics_good].
  - case_match; [good_holder|by eapply good_refl].
  - destruct (negb (c_net ch)); [by apply connect_fails_good|].
    destruct (c_line ch); [|by apply connect_fails_good].
    set (s1 := on_cl (λ c, set_connectedChan _ _) _).
    assert (threads s1 = threads s) as E1 by done.
    assert (mu s1 = Some t) as E2 by done. clearbody s1. simpl.
    assert (t < length (threads s))%nat as Hlt by (by apply lookup_lt_is_Some).
    assert (∀ t', threads (goto t (KLogin k) (spawn RStart (spawn ETop s1))) !! t'
      = if decide (t' = t) then Some (KLogin k) else (threads s ++ [ETop; RStart]) !! t') as El.
    { intros t'. simpl. rewrite E1, <-(assoc_L (++)). simpl. case_decide as Hd.
      - subst t'. apply list_lookup_insert_eq. rewrite length_app. lia.
      - by rewrite list_lookup_insert_ne. }
    split; [split|].
    + intros t' q Hne Hq. rewrite El, decide_False by done. by apply lookup_app_l_Some.
    + intros t' q Hne Hn. rewrite El, decide_False by done.
      rewrite lookup_app_r by (by apply lookup_ge_None).
      intros Hq%list_elem_of_lookup_2. unfold fresh. set_solver.
    + intros. congruence.
    + intros q. rewrite El, decide_True by done. intros [= <-]. done.
  - destruct (c_net ch); [good_holder|by apply abandon_good].
  - destruct (c_net ch); [by apply connect_succeeds_good|by apply abandon_good].
  - case_match; [by apply connect_fails_good|by eapply good_refl].
Qed.

Lemma send_step_good t ch action s :
  threads s !! t = Some (ASend action) → mu s = Some t → good_step t s (send_step t ch action s).
Proof.
  intros Hp Hmu. assert (is_Some (threads s !! t)) as Ht by eauto.
  unfold send_step. destruct (negb (conn (cl s))); [good_holder|]. cbv zeta.
  destruct (c_net ch); [|good_holder].
  eapply good_goto; [done|done|intros; congruence|]. simpl. split; [done|].
  rewrite (proj2 (proj2 (proj2 (proj2 (proj2 (proj2 (proj2 (proj2 (proj2 (proj2
    (chans_setters (cl s)))))))))))).
  by rewrite lookup_app_r, Nat.sub_diag by done.
Qed.

Lemma wait_step_good t ch name id i s :
  threads s !! t = Some (AWait name id i) → ok_thread s t (AWait name id i) →
  good_step t s (wait_step t ch name id i s).
Proof.
  intros Hp [Hmu Hch]. assert (is_Some (threads s !! t)) as Ht by eauto.
  unfold wait_step. rewrite Hch. destruct (c_timer ch).
  - case_match; good_holder.
  - eapply good_refl; done.
Qed.

(** Steps that do not need the mutex keep it and the channels; the others find
    it free. *)
Ltac good_free := eapply good_goto;
  [done | done
  | first [intros; congruence | intros; split; [done|simpl; match goal with |- context [cl ?x] => by destruct (cl x) end] | by intros]
  | try done; simpl; try done].

Lemma call_step_good t ch s p :
  threads s !! t = Some p → ok_thread s t p → (p = CStart ∨ p = CThrottle) →
  good_step t s (connect_call_step t ch p s).
Proof.
  intros Hp Hok Hk. assert (is_Some (threads s !! t)) as Ht by eauto.
  destruct Hk as [-> | ->]; unfold connect_call_step.
  - destruct (connLock s); [by eapply good_refl|good_free].
  - destruct (mu s) eqn:Hmu; [by eapply good_refl|]. repeat case_match; good_free.
Qed.

Lemma disconnect_step_good t ch s p :
  threads s !! t = Some p → ok_thread s t p → (p = DLock ∨ ∃ d, p = DWait d) →
  good_step t s (disconnect_step t ch p s).
Proof.
  intros Hp Hok Hk. assert (is_Some (threads s !! t)) as Ht by eauto.
  destruct Hk as [->|[d ->]]; unfold disconnect_step.
  - destruct (mu s) eqn:Hmu; [by eapply good_refl|]. repeat case_match; good_free.
  - case_match; [good_free|by eapply good_refl].
Qed.

Lemma reader_step_good t ch s p :
  threads s !! t = Some p → ok_thread s t p →
  match p with
  | RStart | RTop | RCheck | RRead _ | RLine _ | RDeliver _ | RCleanup => True
  | _ => False
  end → good_step t s (reader_step t ch p s).
Proof.
  intros Hp Hok Hk. assert (is_Some (threads s !! t)) as Ht by eauto.
  destruct p; try done; unfold reader_step.
  1,3,4,6,7: destruct (mu s) eqn:Hmu; [by eapply good_refl|].
  - destruct (conn _); good_free.
  - destruct (conn _); good_free.
  - destruct (conn _); good_free.
  - destruct (deliver _ _); good_free.
  - good_free.
  - case_match; good_free.
  - destruct (c_line ch) as [line|]; [|good_free].
    destruct (parse_line line) as [| |key value]; [|good_free|good_free].
    case_decide; [case_decide; good_free|]. case_decide; [|good_free].
    eapply good_goto; [done|done| |done]. intros t0 Ht0 _. split; [done|]. simpl.
    case_match; [by destruct (cl s)|done].
Qed.

Lemma dispatcher_step_good t ch s p :
  threads s !! t = Some p → ok_thread s t p →
  match p with ETop | ESelect _ | EHandlers _ | EWildcard _ | EExit => True | _ => False end →
  good_step t s (dispatcher_step t ch p s).
Proof.
  intros Hp Hok Hk. assert (is_Some (threads s !! t)) as Ht by eauto.
  destruct p; try done; unfold dispatcher_step; cbv zeta.
  - good_free.
  - destruct (eventChan (cl s)) as [|e es].
    + case_match; [good_free|by eapply good_refl].
    + case_match; [good_free|]. case_decide; good_free.
  - destruct (mu s) eqn:Hmu; [by eapply good_refl|good_free].
  - destruct (mu s) eqn:Hmu; [by eapply good_refl|good_free].
  - case_match; [good_free|].
    split; [destruct (frame_goto t Panicked s s) as [F1 F2 F3]; [done|by intros|by split]|].
    intros q Hq. unfold crash in Hq. simpl in Hq.
    rewrite list_lookup_insert_eq in Hq by (by apply lookup_lt_is_Some). by simplify_eq.
Qed.

Lemma step_good t ch s p :
  threads s !! t = Some p → ok_thread s t p → good_step t s (step t ch s).
Proof.
  intros Hp Hok. assert (is_Some (threads s !! t)) as Ht by eauto. unfold step.
  destruct (crashed s); [by eapply good_refl|]. rewrite Hp.
  destruct p;
    first [ by apply call_step_good; auto
          | by apply connect_step_good
          | by apply send_step_good
          | by apply wait_step_good
          | by apply disconnect_step_good; eauto
          | by apply reader_step_good
          | by apply dispatcher_step_good
          | by eapply good_refl
          | idtac ].
  - destruct (mu s) eqn:Hmu; [by eapply good_refl|good_free].
  - destruct (mu s) eqn:Hmu; [by eapply good_refl|good_free].
  - simpl in Hok. destruct (connected (cl s)); good_free.
Qed.

(** The invariant is kept by every step. *)
Lemma sys_ok_step t ch s : sys_ok s → sys_ok (step t ch s).
Proof.
  intros Hs. destruct (threads s !! t) as [p|] eqn:Hp.
  2: { unfold step. rewrite Hp. by destruct (crashed s). }
  destruct (step_good t ch s p Hp (Hs t p Hp)) as [[Hold Hnew Hmu] Hself].
  intros t' q Hq. destruct (decide (t' = t)) as [->|Hne]; [by apply Hself|].
  destruct (threads s !! t') as [q'|] eqn:Hq'.
  2: { destruct (Hnew t' q Hne Hq' Hq) as [->| ->]; done. }
  pose proof (Hold t' q' Hne Hq') as E. simplify_eq. pose proof (Hs t' q Hq') as Hok.
  destruct q; try done; simpl in *; try destruct k; try done;
    first [ by destruct (Hmu t' Hok Hne) as [-> _]
          | destruct Hok as [Ho Hc]; destruct (Hmu t' Ho Hne) as [-> ->]; by split ].
Qed.

Lemma sys_ok_run es s : sys_ok s → sys_ok (run s es).
Proof.
  revert s. induction es as [|[t ch] es IH]; intros s Hs; simpl; [done|].
  apply IH. by apply sys_ok_step.
Qed.

Lemma start_ok c calls : Forall is_call calls → sys_ok (start c calls).
Proof.
  intros Hc t p Hp. simpl in Hp. eapply Forall_lookup_1 in Hc; [|done].
  destruct Hc as [->|[->|[action ->]]]; done.
Qed.

(** ** The wire format round trip *)

(** A string without a line feed, and one that is already trimmed. *)
Definition one_line (s : string) : Prop :=
  Forall (λ c, c ≠ byte 10) (String.list_ascii_of_string s).
Definition trimmed (s : string) : Prop := TrimSpace s = s.
Definition wf_field (kv : string * string) : Prop :=
  one_line kv.1 ∧ trimmed kv.1 ∧
  Forall (λ c, c ≠ byte 58) (String.list_ascii_of_string kv.1) ∧
  one_line kv.2 ∧ trimmed kv.2.

Lemma read_line_app s r : one_line s → read_line (s +:+ CRLF +:+ r) = Some (s +:+ CRLF, r).
Proof.
  unfold one_line. induction s as [|c s IH]; rewrite ?append_cons; simpl; intros Hs; [done|].
  apply Forall_cons in Hs as [Hc Hs]. rewrite decide_False by done. by rewrite IH.
Qed.

Lemma trim_line_end_clean l :
  (∀ c, last l = Some c → is_line_end c = false) → trim_line_end (l ++ [byte 13; byte 10]) = l.
Proof.
  induction l as [|c l IH]; intros Hl; [done|]. simpl. rewrite IH.
  - destruct l as [|d l]; [|done]. by rewrite (Hl c eq_refl).
  - intros d Hd. apply Hl. destruct l; [done|]. exact Hd.
Qed.

(** The last byte of a trimmed field is no line end. *)
Lemma trimmed_last s c :
  trimmed s → last (String.list_ascii_of_string s) = Some c → is_line_end c = false.
Proof.
  intros Ht Hc. rewrite <-Ht in Hc. apply TrimSpace_last in Hc.
  destruct (is_line_end c) eqn:E; [|done]. destruct Hc. unfold is_line_end in E.
  apply orb_true_iff in E as [E|E]; apply bool_decide_eq_true_1 in E; subst;
    unfold white_space; simpl; set_solver.
Qed.

Lemma split_colon_app k v :
  Forall (λ c, c ≠ byte 58) k → split_colon (k ++ byte 58 :: v) = Some (k, v).
Proof.
  induction 1 as [|c k Hc Hk IH]; simpl; [done|]. by rewrite decide_False, IH.
Qed.

Lemma TrimSpace_space l :
  TrimSpace (String.string_of_list_ascii (byte 32 :: l)) = TrimSpace (String.string_of_list_ascii l).
Proof.
  unfold TrimSpace. rewrite !String.list_ascii_of_string_of_list_ascii. done.
Qed.

Lemma parse_format kv : wf_field kv → parse_line (format_line kv) = Pair kv.1 kv.2.
Proof.
  destruct kv as [k v]. intros (Hk&Htk&Hck&Hv&Htv). simpl in *. unfold parse_line, format_line. simpl fst. simpl snd.
  rewrite !list_of_string_app. simpl (String.list_ascii_of_string ": ").
  replace (String.list_ascii_of_string k ++ [Ascii.Ascii false true false true true true false false;
      Ascii.Ascii false false false false false true false false]
    ++ String.list_ascii_of_string v ++ String.list_ascii_of_string CRLF)
    with ((String.list_ascii_of_string k ++ byte 58 :: byte 32 :: String.list_ascii_of_string v)
      ++ [byte 13; byte 10]) by (by rewrite <-(assoc_L (++))).
  rewrite trim_line_end_clean.
  2: { intros c. rewrite last_app.
       destruct (String.list_ascii_of_string v) as [|d l] eqn:Ev; [simpl; intros [= <-]; reflexivity|].
       rewrite !last_cons_cons. intros Hl. apply (trimmed_last v c Htv). rewrite Ev.
       destruct (last (d :: l)) eqn:E; [done|]. by apply last_None in E. }
  destruct (_ ++ byte 58 :: _) as [|c l] eqn:E;
    [by destruct (String.list_ascii_of_string k)|].
  rewrite <-E, (split_colon_app _ _ Hck), TrimSpace_space.
  by rewrite !String.string_of_list_ascii_of_string, Htk, Htv.
Qed.

Lemma read_line_format kv r :
  wf_field kv → read_line (format_line kv +:+ r) = Some (format_line kv, r).
Proof.
  destruct kv as [k v]. intros (Hk&_&_&Hv&_). unfold format_line. simpl fst. simpl snd.
  assert (one_line (k +:+ ": " +:+ v)) as Hl.
  { unfold one_line. rewrite !list_of_string_app. apply Forall_app. split; [done|].
    apply Forall_app. split; [|done]. by repeat constructor. }
  replace ((k +:+ ": " +:+ v +:+ CRLF) +:+ r) with ((k +:+ ": " +:+ v) +:+ CRLF +:+ r)
    by (by rewrite !append_assoc).
  rewrite read_line_app by done. by rewrite !append_assoc.
Qed.

Lemma read_format fuel pairs m r :
  Forall wf_field pairs → (length pairs < fuel)%nat →
  read_message fuel m (format_action pairs +:+ r)
  = Some (foldl (λ m kv, <[kv.1 := kv.2]> m) m pairs, r).
Proof.
  intros Hp. revert fuel m. induction Hp as [|kv pairs Hkv Hp IH]; intros [|fuel] m Hf;
    simpl in Hf; try lia; [done|].
  simpl format_action. rewrite <-append_assoc. simpl read_message.
  rewrite read_line_format, parse_format by done. simpl. apply IH. lia.
Qed.

Lemma foldl_insert_list_to_map pairs (m : message) :
  NoDup pairs.*1 → foldl (λ m kv, <[kv.1 := kv.2]> m) m pairs = list_to_map pairs ∪ m.
Proof.
  revert m. induction pairs as [|[k v] pairs IH]; intros m Hnd; simpl.
  { by rewrite (left_id_L ∅ (∪)). }
  apply NoDup_cons in Hnd as [Hk Hnd]. rewrite IH by done.
  rewrite <-insert_union_r, insert_union_l; [done|]. by apply not_elem_of_list_to_map_1.
Qed.

(** ** Properties *)

(** C8. [SendAction] keeps [c.mu] while it waits, and [readLoop] needs [c.mu] to
    go on reading and to deliver: whatever the server sends, and in every
    interleaving of any number of calls, no call ever returns the server's
    response (or finds its channel closed). A call that got as far as sending
    ends with its timer - with an error, or for a ping with a success of the
    client's own making. *)
Theorem no_response_is_delivered (c : AMIClient) (calls : list thread)
    (es : list (nat * choice)) (t : nat) (r : call_result)
    (Hcalls : Forall is_call calls) (Hr : threads (run (start c calls) es) !! t = Some (Returned r)) :
  no_reply r.
Proof. exact (sys_ok_run es _ (start_ok c calls Hcalls) t _ Hr). Qed.

(** A thread that waits for the mutex it holds waits for ever, and so does the
    call that needs the mutex next. *)
Lemma held_step t action t' ch s :
  sys_ok s → mu s = Some t → threads s !! t = Some (KLock (ForAction action)) →
  mu (step t' ch s) = Some t ∧ threads (step t' ch s) !! t = Some (KLock (ForAction action)).
Proof.
  intros Hs Hmu Ht. destruct (decide (t' = t)) as [->|Hne].
  - unfold step. destruct (crashed s); [done|]. by rewrite Ht, Hmu.
  - destruct (threads s !! t') as [p|] eqn:Hp.
    + destruct (step_good t' ch s p Hp (Hs t' p Hp)) as [[Hold _ Hm] _].
      split; [by apply Hm|by apply Hold].
    + unfold step. rewrite Hp. by destruct (crashed s).
Qed.

Lemma held_run t action es s :
  sys_ok s → mu s = Some t → threads s !! t = Some (KLock (ForAction action)) →
  mu (run s es) = Some t ∧ threads (run s es) !! t = Some (KLock (ForAction action)).
Proof.
  revert s. induction es as [|[t' ch] es IH]; intros s Hs Hmu Ht; simpl; [done|].
  destruct (held_step t action t' ch s Hs Hmu Ht). apply IH; [by apply sys_ok_step|done..].
Qed.

Lemma waiting_run t action t' action' es s :
  sys_ok s → mu s = Some t → threads s !! t = Some (KLock (ForAction action)) →
  threads s !! t' = Some (ALock action') → threads (run s es) !! t' = Some (ALock action').
Proof.
  revert s. induction es as [|[u ch] es IH]; intros s Hs Hmu Ht Ht'; simpl; [done|].
  destruct (held_step t action u ch s Hs Hmu Ht) as [Hmu1 Ht1].
  apply IH; [by apply sys_ok_step|done|done|].
  destruct (decide (u = t')) as [->|Hne].
  - unfold step. destruct (crashed s); [done|]. by rewrite Ht', Hmu.
  - destruct (threads s !! u) as [p|] eqn:Hp.
    + destruct (step_good u ch s p Hp (Hs u p Hp)) as [[Hold _ _] _]. by apply Hold.
    + unfold step. rewrite Hp. by destruct (crashed s).
Qed.

(** [SendAction] on a client that is not connected deadlocks: it calls
    [connectImpl], which locks [c.mu] a second time. From then on, in every
    interleaving, the call never returns and the mutex is never released, so
    every other action waits for ever too. *)
Theorem action_without_connection_deadlocks (c : AMIClient) (calls : list thread)
    (es es' : list (nat * choice)) (t : nat) (action : message) (ch1 ch2 : choice)
    (Hcalls : Forall is_call calls) :
  let s := run (start c calls) es in
  crashed s = false → mu s = None → connected (cl s) = false →
  threads s !! t = Some (SendAction action) →
  let s' := run (step t ch2 (step t ch1 s)) es' in
  mu s' = Some t ∧ threads s' !! t = Some (KLock (ForAction action)) ∧
  ∀ t' action', t' ≠ t → threads s !! t' = Some (SendAction action') →
    threads s' !! t' = Some (SendAction action').
Proof.
  intros s Hcr Hmu Hcon Ht.
  assert (t < length (threads s))%nat as Hlt by (by eapply lookup_lt_Some).
  assert (step t ch2 (step t ch1 s)
    = goto t (KLock (ForAction action)) (goto t (ATest action) (set_mu (Some t) s))) as ->.
  { assert (step t ch1 s = goto t (ATest action) (set_mu (Some t) s)) as ->.
    { unfold step. by rewrite Hcr, Ht, Hmu. }
    unfold step. simpl. rewrite Hcr, list_lookup_insert_eq by done. by rewrite Hcon. }
  set (s2 := goto t (KLock _) _).
  assert (threads s2 !! t = Some (KLock (ForAction action))) as Ht2.
  { apply list_lookup_insert_eq. simpl. by rewrite length_insert. }
  assert (sys_ok s) as Hok by (by apply sys_ok_run, start_ok).
  assert (∀ t' q, t' ≠ t → threads s !! t' = Some q → threads s2 !! t' = Some q) as Hold.
  { intros t' q Hne Hq. simpl. by rewrite !list_lookup_insert_ne by done. }
  assert (sys_ok s2) as Hok2.
  { intros t' q Hq. destruct (decide (t' = t)) as [->|Hne]; [by simplify_eq|].
    assert (threads s !! t' = Some q) as Hq'.
    { simpl in Hq. by rewrite !list_lookup_insert_ne in Hq by done. }
    pose proof (Hok t' q Hq') as Hq2. destruct q; try done; simpl in *; try destruct k; try done;
      try congruence. destruct Hq2. congruence. }
  destruct (held_run t action es' s2 Hok2 eq_refl Ht2) as [? ?].
  split; [done|]. split; [done|]. intros t' action' Hne Ht'.
  eapply waiting_run; [exact Hok2|reflexivity|exact Ht2|]. by apply Hold.
Qed.

(** After [Disconnect] both stop channels are closed and stay in place,
    because the connection is [nil] when the client connects again: the new
    dispatcher stops at once, closes [doneChan] a second time, and the panic
    takes the process down. *)
Theorem reconnect_after_disconnect_crashes (s : sys) (t : nat) (k : caller) (ch : choice)
    (banner : string)
    (Halive : crashed s = false) (Ht : threads s !! t = Some (KDial k))
    (Hstop : is_closed (stops (cl s)) (stopChan (cl s)) = true)
    (Hdone : is_closed (dones (cl s)) (doneChan (cl s)) = true)
    (Hev : eventChan (cl s) = []) (Hnet : c_net ch = true) (Hban : c_line ch = Some banner) :
  let d := length (threads s) in
  let s1 := step t ch s in
  ∀ ch1 ch2 ch3, crashed (step d ch3 (step d ch2 (step d ch1 s1))) = true.
Proof.
  intros d s1 ch1 ch2 ch3.
  assert (t < d)%nat as Hlt by (by apply (lookup_lt_Some _ _ _ Ht)).
  assert (crashed s1 = false ∧ threads s1 !! d = Some ETop ∧
    stops (cl s1) = stops (cl s) ∧ stopChan (cl s1) = stopChan (cl s) ∧
    dones (cl s1) = dones (cl s) ∧ doneChan (cl s1) = doneChan (cl s) ∧
    eventChan (cl s1) = []) as (Hc1&Ht1&E1&E2&E3&E4&E5).
  { unfold s1, step. rewrite Halive, Ht. unfold connect_step. rewrite Hnet, Hban. simpl.
    split; [done|]. split.
    - rewrite list_lookup_insert_ne by lia. rewrite <-(assoc_L (++)). simpl.
      by rewrite lookup_app_r, Nat.sub_diag by done.
    - by destruct (cl s). }
  clearbody s1.
  assert (d < length (threads s1))%nat as Hd by (by eapply lookup_lt_Some).
  assert (step d ch1 s1 = goto d (ESelect (stopChan (cl s))) s1) as ->.
  { unfold step. rewrite Hc1, Ht1. simpl. by rewrite E2. }
  set (s2 := goto d (ESelect _) s1).
  assert (threads s2 !! d = Some (ESelect (stopChan (cl s)))) as Ht2
    by (by apply list_lookup_insert_eq).
  assert (step d ch2 s2 = goto d EExit s2) as ->.
  { unfold step. change (crashed s2) with (crashed s1). rewrite Hc1, Ht2. simpl.
    by rewrite E5, E1, Hstop. }
  set (s3 := goto d EExit s2).
  assert (threads s3 !! d = Some EExit) as Ht3.
  { apply list_lookup_insert_eq. simpl. by rewrite length_insert. }
  unfold step. change (crashed s3) with (crashed s1). rewrite Hc1, Ht3. simpl.
  unfold close_at. by rewrite E3, E4, Hdone.
Qed.

(** C13. The format that actions are written in is read back as the same map, in
    whatever order the map was iterated, as long as no field contains a line
    feed, no key a colon, and the fields have no surrounding space; the input
    that follows is left alone. *)
Theorem format_read_roundtrip (m : message) (pairs : list (string * string)) (rest : string)
    (fuel : nat) (Hp : pairs ≡ₚ map_to_list m)
    (Hwf : ∀ k v, m !! k = Some v → wf_field (k, v)) (Hfuel : (length pairs < fuel)%nat) :
  read_message fuel ∅ (format_action pairs +:+ rest) = Some (m, rest).
Proof.
  rewrite read_format; [|apply Forall_forall|done].
  2: { intros [k v]. rewrite Hp. intros Hkv%elem_of_map_to_list. by apply Hwf. }
  assert (NoDup pairs.*1) as Hnd by (rewrite Hp; apply NoDup_fst_map_to_list).
  rewrite foldl_insert_list_to_map, (right_id_L ∅ (∪)) by done.
  by rewrite (list_to_map_proper _ _ Hnd Hp), list_to_map_to_list.
Qed.

(** ** Instances *)

Definition ami_config : Config :=
  mkConfig "10.0.0.5:5038" "admin" "secret" 0 (mkCircuitBreakerConfig 5 0 3).
Definition sample_client : AMIClient :=
  match New ami_config 1 with
  | Ok c => c
  | Err _ => mkAMIClient "" 0 false false false ∅ [] [] (NewCircuitBreaker "" demo_config 1)
               0 0 [] [] [] 0
  end.

(** The network works, no timer fires. *)
Definition ok_at (t : Time) : choice := mkChoice t false true (Some "Asterisk Call Manager") false.
Definition line_at (t : Time) (l : string) : choice := mkChoice t false true (Some l) false.
Definition timer_at (t : Time) : choice := mkChoice t true true None false.

(** A connection, then a command whose answer arrives at once. *)
Definition answered_schedule : list (nat * choice) :=
  map (λ t, (t, ok_at (10 * Second))) [0;0;0;0;0;0;0]%nat ++
  map (λ t, (t, ok_at (11 * Second))) [3;3;3;3;1;1;1]%nat ++
  [(3, line_at (11 * Second) ("Response: Success" +:+ CRLF));
   (3, line_at (11 * Second) ("ActionID: AMI-1" +:+ CRLF));
   (3, line_at (11 * Second) CRLF); (1, timer_at (21 * Second))]%nat.

Lemma no_response_is_delivered_witness :
  let calls := [Connect; SendAction {["Action" := "Command"; "ActionID" := "AMI-1"]}] in
  Forall is_call calls ∧
  threads (run (start sample_client calls) answered_schedule) !! 1%nat = Some (Returned TimedOut) ∧
  no_reply TimedOut.
Proof.
  assert (Forall is_call [Connect; SendAction {["Action" := "Command"; "ActionID" := "AMI-1"]}])
    as Hc.
  { apply Forall_forall. intros p Hp. unfold is_call.
    apply elem_of_cons in Hp as [->|Hp]; [by auto|].
    apply list_elem_of_singleton in Hp as ->. eauto. }
  assert (threads (run (start sample_client [Connect;
    SendAction {["Action" := "Command"; "ActionID" := "AMI-1"]}]) answered_schedule) !! 1%nat
    = Some (Returned TimedOut)) as Ht by (by vm_compute).
  split; [done|]. split; [done|].
  exact (no_response_is_delivered sample_client _ answered_schedule 1 TimedOut Hc Ht).
Defined.

Lemma action_without_connection_deadlocks_witness :
  let calls := [SendAction {["Action" := "Ping"]}; SendAction {["Action" := "Status"]}] in
  let s' := run (step 0 (ok_at 1) (step 0 (ok_at 1) (run (start sample_client calls) [])))
              (map (λ t, (t, ok_at 2)) [0;1;0;1]%nat) in
  mu s' = Some 0%nat ∧ threads s' !! 1%nat = Some (SendAction {["Action" := "Status"]}).
Proof.
  intros calls s'.
  destruct (action_without_connection_deadlocks sample_client calls []
    (map (λ t, (t, ok_at 2)) [0;1;0;1]%nat) 0 {["Action" := "Ping"]} (ok_at 1) (ok_at 1))
    as (Hmu&_&Hw); [|done..|].
  - apply Forall_forall. intros p Hp. unfold calls in Hp. unfold is_call.
    apply elem_of_cons in Hp as [->|Hp]; [by eauto|].
    apply list_elem_of_singleton in Hp as ->. eauto.
  - split; [exact Hmu|]. by apply Hw.
Defined.

(** Connect, disconnect, and a second connection a minute later, up to the
    dial. *)
Definition reconnect_schedule : list (nat * choice) :=
  map (λ t, (t, ok_at (10 * Second))) [0;0;0;0;0;0;0; 3;3; 1; 3;3;3; 1]%nat ++
  map (λ t, (t, ok_at (70 * Second))) [2;2;2;2]%nat.

Lemma reconnect_after_disconnect_crashes_witness :
  let s := run (start sample_client [Connect; Disconnect; Connect]) reconnect_schedule in
  let s1 := step 2 (ok_at (70 * Second)) s in
  crashed (step 5 (ok_at 0) (step 5 (ok_at 0) (step 5 (ok_at 0) s1))) = true.
Proof.
  intros s s1.
  assert (length (threads s) = 5%nat) as Hl by (by vm_compute).
  rewrite <-Hl.
  apply (reconnect_after_disconnect_crashes s 2 ForConnect (ok_at (70 * Second))
    "Asterisk Call Manager"); by vm_compute.
Defined.

Lemma format_read_roundtrip_witness :
  let m : message := {["Action" := "Status"; "Channel" := "SIP/100-7"]} in
  read_message 3 ∅ (format_action [("Action", "Status"); ("Channel", "SIP/100-7")] +:+ "Next")
  = Some (m, "Next").
Proof.
  intros m. apply (format_read_roundtrip m).
  - vm_compute. first [reflexivity|apply perm_swap].
  - intros k v Hkv. unfold m in Hkv.
    apply lookup_insert_Some in Hkv as [[<- <-]|[_ [<- <-]%lookup_singleton_Some]];
      split_and!; (by repeat constructor) || by vm_compute.
  - simpl. lia.
Defined.
