(* ===== verification/AMIManager.v ===== *)
(** * ami/manager.go: several AMI clients with failover

    The manager uses its clients through a small interface - the address, the
    connection state, the sending of an action, the connection - which is a
    class here; the theorems hold for every implementation. Pending actions
    live in the storage of Storage.v. *)

From stdpp Require Import pretty.
From S2P Require Import Prelude KVStore Storage.

Abbreviation message := (gmap string string) (only parsing).

(** ** The interface of a client *)

Class AMIClientOps (C : Type) : Type := {
  cli_address : C → string;
  cli_connected : C → bool;
  cli_send : message → GoM C (result string message);
  cli_connect : Time → GoM C (result string unit);
  cli_disconnect : GoM C unit
}.

(** Calls return, and a call does not change a client's address. *)
Class AMIClientLaws (C : Type) `{AMIClientOps C} : Prop := {
  cli_send_done action c :
    ∃ r c', cli_send action c = (Done r, c') ∧ cli_address c' = cli_address c;
  cli_connect_done now c :
    ∃ r c', cli_connect now c = (Done r, c') ∧ cli_address c' = cli_address c
}.

(** ** State *)

Record ClientStatus : Type := mkClientStatus {
  IsHealthy : bool; FailCount : Z; LastFailed : Time }.

Record Manager (C : Type) : Type := mkManager {
  clients : list C;
  activeIdx : Z;
  initializing : bool;
  has_storage : bool;
  maxRetries : Z;
  retryDelay : Duration;
  clientStatus : option (list ClientStatus)
}.
Arguments mkManager {C} _ _ _ _ _ _ _.
Arguments clients {C} _.
Arguments activeIdx {C} _.
Arguments initializing {C} _.
Arguments has_storage {C} _.
Arguments maxRetries {C} _.
Arguments retryDelay {C} _.
Arguments clientStatus {C} _.

Section Manager.
Context {C : Type} `{AMIClientOps C}.

Definition set_clients (v : list C) (m : Manager C) : Manager C :=
  let '(mkManager _ a i h r d s) := m in mkManager v a i h r d s.
Definition set_activeIdx (v : Z) (m : Manager C) : Manager C :=
  let '(mkManager c _ i h r d s) := m in mkManager c v i h r d s.
Definition set_status (v : option (list ClientStatus)) (m : Manager C) : Manager C :=
  let '(mkManager c a i h r d _) := m in mkManager c a i h r d v.

(** [NewManager], from the clients [New] could build; the optional proxy is a
    component of its own. *)
Definition NewManager (n_configs : nat) (created : list C) (storage : bool)
    (cfg_MaxRetries : Z) (cfg_RetryDelay : Duration) : result string (Manager C) :=
  if decide (n_configs = 0%nat) then Err "at least one AMI client required"
  else match created with
  | [] => Err "all AMI clients failed to initialize"
  | _ => Ok {| clients := created; activeIdx := 0; initializing := false;
               has_storage := storage;
               maxRetries := if 0 <? cfg_MaxRetries then cfg_MaxRetries else 3;
               retryDelay := if 0 <? cfg_RetryDelay then cfg_RetryDelay else 5 * Second;
               clientStatus := None |}
  end.

Definition St : Type := Manager C * World.

Definition mgr : GoM St (Manager C) := λ s, (Done (fst s), s).
Definition on_mgr (f : Manager C → Manager C) : GoM St unit := λ s, (Done tt, (f (fst s), snd s)).
Definition on_world {A} (m : GoM World A) : GoM St A :=
  λ s, let '(r, w) := m (snd s) in (r, (fst s, w)).
Definition on_client {A} (i : nat) (m : GoM C A) : GoM St A :=
  λ s, match clients (fst s) !! i with
       | None => (Panic IndexOutOfRange, s)
       | Some c => let '(r, c) := m c in
                   (r, (set_clients (<[i := c]> (clients (fst s))) (fst s), snd s))
       end.

(** The index of [GetActiveClient]'s client. *)
Definition GetActiveClient : GoM St nat :=
  m ← mgr; lift (index (clients m) (activeIdx m));; mret (Z.to_nat (activeIdx m)).

Definition connected_at (m : Manager C) (i : nat) : bool :=
  match clients m !! i with Some c => cli_connected c | None => false end.
Definition address_at (m : Manager C) (i : nat) : string :=
  default "" (cli_address <$> clients m !! i).

Definition IsConnected : GoM St bool :=
  m ← mgr;
  if initializing m then mret true
  else i ← GetActiveClient; m ← mgr; mret (connected_at m i).

(** [if m.clientStatus == nil { ... }]. *)
Definition ensureStatus : GoM St unit :=
  on_mgr (λ m, match clientStatus m with
               | None => set_status (Some (replicate (length (clients m))
                           (mkClientStatus true 0 zero_time))) m
               | Some _ => m
               end).

Definition fail_status (now : Time) (s : ClientStatus) : ClientStatus :=
  let count := int64_wrap (FailCount s + 1) in
  mkClientStatus (if 3 <=? count then false else IsHealthy s) count now.

Definition recordClientFailure (clientAddr : string) (now : Time) : GoM St unit :=
  ensureStatus;;
  m ← mgr;
  match list_find (λ c, cli_address c = clientAddr) (clients m) with
  | Some (i, _) =>
      lift (index (default [] (clientStatus m)) (Z.of_nat i));;
      on_mgr (λ m, set_status (alter (fail_status now) i <$> clientStatus m) m)
  | None => mret tt
  end.

Definition recordFailoverEvent (from to reason : string) (t1 t2 t3 : Time) : GoM St unit :=
  m ← mgr;
  let event : gmap string jval :=
    {[ "component" := JStr "ami"; "from" := JStr from; "to" := JStr to;
       "timestamp" := JNum (Unix t1); "reason" := JStr reason ]} in
  if has_storage m then
    on_world (Set_ ("failover:ami:" +:+ pretty (UnixNano t2)) (Some (Json event)) (24 * Hour) t3);;
    mret tt
  else mret tt.

(** The loop of [tryFailover]: another client that is connected and healthy. *)
Fixpoint find_client (m : Manager C) (sts : list ClientStatus) (js : list nat)
    : outcome (option nat) :=
  match js with
  | [] => Done None
  | i :: js =>
      if (Z.of_nat i =? activeIdx m) || negb (connected_at m i) then find_client m sts js
      else st ← index sts (Z.of_nat i);
           if IsHealthy st then Done (Some i) else find_client m sts js
  end.

Definition tryFailover (t1 t2 t3 : Time) : GoM St (option nat) :=
  cur ← GetActiveClient;
  ensureStatus;;
  m ← mgr;
  found ← lift (find_client m (default [] (clientStatus m)) (seq 0 (length (clients m))));
  match found with
  | Some i =>
      on_mgr (set_activeIdx (int32_wrap (Z.of_nat i)));;
      recordFailoverEvent (address_at m cur) (address_at m i) "Reactive failover" t1 t2 t3;;
      mret (Some i)
  | None => mret None
  end.

(** [t 0] is the time of the failure, [t 1] to [t 3] those of the failover. *)
Definition SendAction (action : message) (t : nat → Time) : GoM St (result string message) :=
  i ← GetActiveClient;
  r ← on_client i (cli_send action);
  match r with
  | Ok resp => mret (Ok resp)
  | Err err =>
      m ← mgr;
      recordClientFailure (address_at m i) (t 0%nat);;
      newClient ← tryFailover (t 1%nat) (t 2%nat) (t 3%nat);
      match newClient with
      | Some j => on_client j (cli_send action)
      | None => mret (Err err)
      end
  end.

Definition opt_field (key value : string) (m : message) : message :=
  if decide (value = "") then m else <[key := value]> m.

(** The timeout is given in seconds and sent in milliseconds. *)
Definition originate_action (channel exten dialContext priority application data callerId : string)
    (timeout : Z) (now : Time) : message :=
  let action : message :=
    {[ "Action" := "Originate"; "Channel" := channel;
       "ActionID" := "originate-" +:+ pretty (UnixNano now) ]} in
  let action :=
    if bool_decide (exten ≠ "") && bool_decide (dialContext ≠ "") && bool_decide (priority ≠ "")
    then <["Priority" := priority]> (<["Context" := dialContext]> (<["Exten" := exten]> action))
    else action in
  let action := opt_field "CallerID" callerId
    (opt_field "Data" data (opt_field "Application" application action)) in
  if 0 <? timeout then <["Timeout" := pretty (int64_wrap (timeout * 1000))]> action else action.

Definition Originate (channel exten dialContext priority application data callerId : string)
    (timeout : Z) (now : Time) (t : nat → Time) : GoM St (result string message) :=
  SendAction (originate_action channel exten dialContext priority application data callerId
    timeout now) t.

Definition hangup_action (channel cause : string) (now : Time) : message :=
  opt_field "Cause" cause
    {[ "Action" := "Hangup"; "Channel" := channel;
       "ActionID" := "hangup-" +:+ pretty (UnixNano now) ]}.
Definition Hangup (channel cause : string) (now : Time) (t : nat → Time)
    : GoM St (result string message) := SendAction (hangup_action channel cause now) t.

(** ** Reconnection *)

(** The clients other than [skip] in order; the first that connects becomes
    active. *)
Fixpoint connect_first (skip : Z) (t : nat → Time) (js : list nat) : GoM St (option nat) :=
  match js with
  | [] => mret None
  | i :: js =>
      if Z.of_nat i =? skip then connect_first skip t js
      else
        r ← on_client i (cli_connect (t i));
        match r with
        | Err _ => connect_first skip t js
        | Ok _ => on_mgr (set_activeIdx (int32_wrap (Z.of_nat i)));; mret (Some i)
        end
  end.

Definition Reconnect (t : nat → Time) : GoM St (result string unit) :=
  i ← GetActiveClient;
  r ← on_client i (cli_connect (t i));
  match r with
  | Ok _ => mret (Ok tt)
  | Err _ =>
      m ← mgr;
      found ← connect_first (activeIdx m) t (seq 0 (length (clients m)));
      mret match found with
           | Some _ => Ok tt
           | None => Err "failed to reconnect any AMI client"
           end
  end.

(** The goroutines that reconnect every client, in the order [js] they finish;
    the first success becomes active ([foundConnected] is shared). *)
Fixpoint connect_each (foundConnected : bool) (t : nat → Time) (js : list nat) : GoM St unit :=
  match js with
  | [] => mret tt
  | i :: js =>
      r ← on_client i (cli_connect (t i));
      match r with
      | Err _ => connect_each foundConnected t js
      | Ok _ =>
          (if foundConnected then mret tt
           else on_mgr (set_activeIdx (int32_wrap (Z.of_nat i))));;
          connect_each true t js
      end
  end.

(** One tick of [monitorConnections]. *)
Definition monitor_tick (js : list nat) (t : nat → Time) : GoM St unit :=
  m ← mgr;
  i ← GetActiveClient;
  if connected_at m i then mret tt
  else
    match list_find (λ j, Z.of_nat j ≠ activeIdx m ∧ connected_at m j = true)
            (seq 0 (length (clients m))) with
    | Some (_, j) => on_mgr (set_activeIdx (int32_wrap (Z.of_nat j)))
    | None => connect_each false t js
    end.

(** ** Replay of the pending actions *)

Definition retry_action (o : object) : object :=
  match o with
  | OAMI (mkAMIAction id co pa cl ts re et) =>
      OAMI (mkAMIAction id co pa cl ts (int64_wrap (re + 1)) et)
  | _ => o
  end.
Definition retries_of (o : object) : Z := match o with OAMI a => ami_Retries a | _ => 0 end.
Definition params_of (o : object) : message := match o with OAMI a => ami_Params a | _ => ∅ end.

Definition heap_at (l : loc) : GoM St object := λ s, (Done (w_heap (snd s) l), s).

(** One action: dropped when expired or tried too often, else counted, stored,
    sent, and deleted on success. [t] are the clock readings. *)
Definition replay_action (client : nat) (actionID : string) (t : nat → Time) : GoM St unit :=
  r ← on_world (GetAMIAction actionID (t 0%nat));
  match r with
  | Err _ => mret tt
  | Ok l =>
      o ← heap_at l;
      if negb (IsZero (expire_time o)) && Before (expire_time o) (t 1%nat) then
        on_world (DeleteAMIAction actionID);; mret tt
      else if 3 <? retries_of o then on_world (DeleteAMIAction actionID);; mret tt
      else
        on_world (modify (on_object l retry_action));;
        on_world (StoreAMIAction (Some l) (t 2%nat) (t 3%nat));;
        response ← on_client client (cli_send (params_of o));
        match response with
        | Err _ => mret tt
        | Ok resp =>
            if decide (resp !! "Response" = Some "Success")
            then on_world (DeleteAMIAction actionID);; mret tt else mret tt
        end
  end.

Fixpoint replay_all (client : nat) (ids : list string) (t : nat → nat → Time) : GoM St unit :=
  match ids with
  | [] => mret tt
  | id :: ids => replay_action client id (t (length ids));; replay_all client ids t
  end.

Definition replayPendingActions (it : Iteration) (t : nat → nat → Time) : GoM St unit :=
  m ← mgr;
  if has_storage m then
    ids ← on_world (ListAMIActionIDs it);
    match ids with
    | [] => mret tt
    | _ => client ← GetActiveClient; replay_all client ids t
    end
  else mret tt.

Definition tryReconnectOrFailover (currentIdx : nat) (it : Iteration) (t0 : Time)
    (t : nat → Time) (tr : nat → nat → Time) : GoM St unit :=
  r ← on_client currentIdx (cli_connect t0);
  match r with
  | Ok _ => mret tt
  | Err _ =>
      m ← mgr;
      found ← connect_first (Z.of_nat currentIdx) t (seq 0 (length (clients m)));
      match found with
      | Some _ => replayPendingActions it tr
      | None => mret tt
      end
  end.

Fixpoint shutdown (js : list nat) : GoM St unit :=
  match js with
  | [] => mret tt
  | i :: js => on_client i cli_disconnect;; shutdown js
  end.
Definition Shutdown : GoM St unit := m ← mgr; shutdown (seq 0 (length (clients m))).
Definition GetAllClients : GoM St (list C) := m ← mgr; mret (clients m).
End Manager.
Arguments St C : clear implicits.

(** ** Facts *)

Section Facts.
Context {C : Type} `{AMIClientLaws C}.
Implicit Types m : Manager C.

Lemma ami_bind_mgr {A} (f : Manager C → GoM (St C) A) m w : (mgr ≫= f) (m, w) = f m (m, w).
Proof. done. Qed.
Lemma ami_bind_on_mgr {A} g (f : unit → GoM (St C) A) m w :
  (on_mgr g ≫= f) (m, w) = f tt (g m, w).
Proof. done. Qed.
Lemma ami_bind_world {A B} (c : GoM World A) a (f : A → GoM (St C) B) m w w' :
  c w = (Done a, w') → (on_world c ≫= f) (m, w) = f a (m, w').
Proof. intros E. unfold on_world, mbind, GoM_bind. simpl. by rewrite E. Qed.
Lemma ami_bind_lift {A B} (a : A) o (f : A → GoM (St C) B) s : o = Done a → (lift o ≫= f) s = f a s.
Proof. by intros ->. Qed.
Lemma ami_bind_client {A B} i c c' (g : GoM C A) a (f : A → GoM (St C) B) m w :
  clients m !! i = Some c → g c = (Done a, c') →
  (on_client i g ≫= f) (m, w) = f a (set_clients (<[i := c']> (clients m)) m, w).
Proof. intros Hc Hg. unfold on_client, mbind, GoM_bind. simpl. by rewrite Hc, Hg. Qed.

Record mgr_ok (m : Manager C) : Prop := {
  ok_active : 0 <= activeIdx m < Z.of_nat (length (clients m));
  ok_small : Z.of_nat (length (clients m)) <= max_int32;
  ok_status : ∀ sts, clientStatus m = Some sts → length sts = length (clients m)
}.

Lemma ami_bind_active {A} (f : nat → GoM (St C) A) m w :
  mgr_ok m → (GetActiveClient ≫= f) (m, w) = f (Z.to_nat (activeIdx m)) (m, w).
Proof.
  intros Hm. unfold GetActiveClient. rewrite bind_assoc, ami_bind_mgr.
  destruct (index_Done (clients m) (activeIdx m) (ok_active _ Hm)) as (c&_&E).
  rewrite bind_assoc. by rewrite (ami_bind_lift _ _ _ _ E).
Qed.

Lemma ensureStatus_spec m w :
  mgr_ok m → ∃ m', ensureStatus (m, w) = (Done tt, (m', w)) ∧ mgr_ok m' ∧
    clients m' = clients m ∧ activeIdx m' = activeIdx m ∧ has_storage m' = has_storage m ∧
    is_Some (clientStatus m') ∧ (∀ sts, clientStatus m = Some sts → clientStatus m' = Some sts).
Proof.
  intros [Ha Hs Hst]. unfold ensureStatus, on_mgr. simpl. eexists. split; [reflexivity|].
  destruct m as [cs a i h r d [sts|]]; simpl in *.
  - split_and!; try done; by eexists.
  - split; [split; simpl; try done|split_and!; try done; by eexists].
    intros ? [= <-]. apply length_replicate.
Qed.

Lemma recordClientFailure_spec m w addr now :
  mgr_ok m → ∃ m', recordClientFailure addr now (m, w) = (Done tt, (m', w)) ∧ mgr_ok m' ∧
    clients m' = clients m ∧ activeIdx m' = activeIdx m ∧ has_storage m' = has_storage m ∧
    is_Some (clientStatus m').
Proof.
  intros Hm. destruct (ensureStatus_spec m w Hm) as (m1&E1&Hm1&Hc&Ha&Hh&[sts Hst]&_).
  unfold recordClientFailure. rewrite (bind_Done _ _ _ _ _ E1), ami_bind_mgr.
  destruct (list_find _ _) as [[i c]|] eqn:Hf; [|by exists m1; eauto 10].
  apply list_find_Some in Hf as (Hi&_&_). rewrite Hst. simpl.
  destruct (index_Done sts (Z.of_nat i)) as (st&_&E2).
  { rewrite (ok_status _ Hm1 _ Hst). apply lookup_lt_Some in Hi. lia. }
  rewrite (ami_bind_lift _ _ _ _ E2). eexists. split; [reflexivity|].
  destruct m1 as [cs a ii h r d s]. simpl in *. subst. destruct Hm1 as [? ? Hst1].
  split.
  - split; simpl; [done|done|]. intros ? [= <-]. rewrite length_alter. by apply Hst1.
  - split_and!; try done; by eexists.
Qed.

Lemma find_client_spec m sts js :
  (∀ j, j ∈ js → (j < length sts)%nat) →
  ∃ r, find_client m sts js = Done r ∧
    match r with
    | None => ∀ j, j ∈ js → Z.of_nat j = activeIdx m ∨ connected_at m j = false ∨
        (IsHealthy <$> sts !! j) = Some false
    | Some i => i ∈ js ∧ Z.of_nat i ≠ activeIdx m ∧ connected_at m i = true ∧
        (IsHealthy <$> sts !! i) = Some true
    end.
Proof.
  induction js as [|j js IH]; intros Hj; simpl; [by eexists; split; [done|]; intros ? ?%not_elem_of_nil|].
  destruct IH as (r&E&Hr); [intros; apply Hj; by right|]. rewrite E.
  destruct (Z.eqb_spec (Z.of_nat j) (activeIdx m)) as [He|He]; simpl.
  { exists r. split; [done|]. destruct r; [destruct Hr; split; [by right|done]|].
    intros j' [->|?]%elem_of_cons; eauto. }
  destruct (connected_at m j) eqn:Hc; simpl.
  2: { exists r. split; [done|]. destruct r; [destruct Hr; split; [by right|done]|].
       intros j' [->|?]%elem_of_cons; eauto. }
  destruct (index_Done sts (Z.of_nat j)) as (st&Hst&->); [specialize (Hj j ltac:(left)); lia|].
  rewrite Nat2Z.id in Hst. simpl. destruct (IsHealthy st) eqn:Hh.
  - eexists. split; [done|]. split_and!; [left|done|done|by rewrite Hst; simpl; rewrite Hh].
  - exists r. split; [done|]. destruct r; [destruct Hr; split; [by right|done]|].
    intros j' [->|?]%elem_of_cons; [|by eauto]. right. right. rewrite Hst. simpl. by rewrite Hh.
Qed.

Lemma recordFailoverEvent_spec m w from to reason t1 t2 t3 :
  shards_wf w → ∃ w', recordFailoverEvent from to reason t1 t2 t3 (m, w) = (Done tt, (m, w')).
Proof.
  intros Hw. unfold recordFailoverEvent. rewrite ami_bind_mgr. cbv zeta.
  destruct (has_storage m); [|by eexists].
  set (v := Some _). set (key := _ +:+ _).
  pose proof (kv_Set_refines key v (24 * Hour) t3 : refines (S:=World) _ _) as Hr.
  destruct (Hr w Hw) as (w'&E&_). exists w'. by erewrite ami_bind_world by exact E.
Qed.
(** The failover makes a connected and healthy client active, or there is
    none. *)
Lemma tryFailover_spec m w t1 t2 t3 :
  mgr_ok m → shards_wf w → ∃ found m' w',
    tryFailover t1 t2 t3 (m, w) = (Done found, (m', w')) ∧ clients m' = clients m ∧
    match found with
    | Some j => (j < length (clients m))%nat ∧ Z.of_nat j ≠ activeIdx m ∧
        connected_at m j = true ∧ activeIdx m' = Z.of_nat j
    | None => activeIdx m' = activeIdx m ∧
        ∀ j sts, clientStatus m' = Some sts →
          Z.of_nat j = activeIdx m ∨ connected_at m j = false ∨
          (IsHealthy <$> sts !! j) = Some false
    end.
Proof.
  intros Hm Hw. unfold tryFailover. rewrite (ami_bind_active _ _ _ Hm).
  destruct (ensureStatus_spec m w Hm) as (m3&E3&Hm3&Ecl3&Eact3&_&[sts Hsts]&_).
  rewrite (bind_Done _ _ _ _ _ E3), ami_bind_mgr, Hsts. simpl default.
  destruct (find_client_spec m3 sts (seq 0 (length (clients m3)))) as (found&Ef&Hfound).
  { intros j [_ Hj]%elem_of_seq. by rewrite (ok_status _ Hm3 _ Hsts). }
  rewrite (ami_bind_lift _ _ _ _ Ef).
  assert (∀ j, connected_at m3 j = connected_at m j) as Hconn
    by (intros; unfold connected_at; by rewrite Ecl3).
  destruct found as [j|].
  - destruct Hfound as ([_ Hj]%elem_of_seq&Hne&Hcj&_).
    rewrite ami_bind_on_mgr.
    destruct (recordFailoverEvent_spec (set_activeIdx (int32_wrap (Z.of_nat j)) m3) w
      (address_at m3 (Z.to_nat (activeIdx m))) (address_at m3 j) "Reactive failover"
      t1 t2 t3 Hw) as (w4&E4).
    rewrite (bind_Done _ _ _ _ _ E4). eexists _, _, _. split; [reflexivity|].
    split; [by destruct m3|]. rewrite <-Ecl3, <-Eact3, <-Hconn. split_and!; try done.
    transitivity (int32_wrap (Z.of_nat j)); [by destruct m3|]. apply int32_wrap_small.
    pose proof (ok_small _ Hm3). unfold is_int32, min_int32. lia.
  - eexists _, _, _. split; [reflexivity|]. split; [done|]. split; [done|].
    intros j sts' Hs'. assert (sts' = sts) as -> by congruence. rewrite <-Eact3, <-Hconn.
    destruct (decide (j < length (clients m3))%nat) as [Hlt|Hge].
    + apply Hfound, elem_of_seq. lia.
    + right. left. unfold connected_at. by rewrite lookup_ge_None_2 by lia.
Qed.
(** A reconnection keeps the manager well formed, and does not use the storage. *)
Lemma connect_client_run m w i now c :
  mgr_ok m → clients m !! i = Some c → ∃ r m', on_client i (cli_connect now) (m, w) = (Done r, (m', w)) ∧
    mgr_ok m' ∧ length (clients m') = length (clients m).
Proof.
  intros [Ha Hs Hst] Hc. destruct (cli_connect_done now c) as (r&c'&E&_).
  unfold on_client. simpl. rewrite Hc, E. eexists _, _. split; [reflexivity|].
  destruct m as [cs a ii h rr d s]. simpl in *. split; [|by rewrite length_insert].
  split; simpl; rewrite ?length_insert; done.
Qed.

Lemma connect_first_ok skip t js m w :
  mgr_ok m → (∀ j, j ∈ js → j < length (clients m))%nat →
  ∃ r m', connect_first skip t js (m, w) = (Done r, (m', w)) ∧ mgr_ok m'.
Proof.
  revert m. induction js as [|i js IH]; intros m Hm Hjs; simpl; [by eexists _, _|].
  assert (∀ j, j ∈ js → j < length (clients m))%nat as Hjs' by (intros; apply Hjs; by right).
  destruct (_ =? skip); [by apply IH|].
  assert (i < length (clients m))%nat as Hi by (apply Hjs; left).
  destruct (lookup_lt_is_Some_2 _ _ Hi) as [c Hc].
  destruct (connect_client_run m w i (t i) c Hm Hc) as (r&m'&E&Hm'&Hl).
  rewrite (bind_Done _ _ _ _ _ E). destruct r; [|apply IH; [done|by rewrite Hl]].
  rewrite ami_bind_on_mgr. eexists _, _. split; [reflexivity|].
  destruct Hm' as [? ? ?]. destruct m' as [cs a0 ii h rr d s]. simpl in *.
  assert (int32_wrap (Z.of_nat i) = Z.of_nat i) as Ei.
  { apply int32_wrap_small. unfold is_int32, min_int32. lia. }
  split; simpl; rewrite ?Ei; [lia|done..].
Qed.

Lemma Reconnect_ok m w t :
  mgr_ok m → ∃ r m', Reconnect t (m, w) = (Done r, (m', w)) ∧ mgr_ok m'.
Proof.
  intros Hm. unfold Reconnect. rewrite (ami_bind_active _ _ _ Hm).
  destruct (lookup_lt_is_Some_2 (clients m) (Z.to_nat (activeIdx m))) as [c Hc].
  { destruct Hm as [? ? ?]. lia. }
  destruct (connect_client_run m w _ (t (Z.to_nat (activeIdx m))) c Hm Hc) as (r&m1&E&Hm1&Hl).
  rewrite (bind_Done _ _ _ _ _ E). destruct r; [by eexists _, _|].
  rewrite ami_bind_mgr.
  destruct (connect_first_ok (activeIdx m1) t (seq 0 (length (clients m1))) m1 w Hm1)
    as (r2&m2&E2&Hm2).
  { intros j. rewrite elem_of_seq. lia. }
  rewrite (bind_Done _ _ _ _ _ E2). by eexists _, _.
Qed.

(** The storage under the replay of an action. *)
Lemma delete_action w id l :
  id ≠ "" → amiActions (w_mem w) !! id = Some l → ∃ w',
    DeleteAMIAction id w = (Done (Ok tt), w') ∧ amiActions (w_mem w') !! id = None ∧
    w_heap w' = w_heap w.
Proof.
  intros Hid Hl. unfold DeleteAMIAction, typed_Delete. rewrite decide_False by done.
  simpl index_of. rewrite Hl. eexists. split; [reflexivity|]. split; [|done].
  change (idx KAMI (on_stats (add_count KAMI (-1)) (on_index KAMI (delete id) w)) !! id = None).
  autorewrite with gateway. rewrite decide_True by done. apply lookup_delete_eq.
Qed.

Lemma count_attempt w id l (a : Storage.AMIAction) t1 t2 :
  id ≠ "" → amiActions (w_mem w) !! id = Some l → w_heap w l = OAMI a → ami_ActionID a = id →
  is_int64 (ami_Retries a) → ami_Retries a <= 3 → ∃ w',
    StoreAMIAction (Some l) t1 t2 (on_object l retry_action w) = (Done (Ok tt), w') ∧
    amiActions (w_mem w') !! id = Some l ∧
    ∃ a', w_heap w' l = OAMI a' ∧ ami_Retries a' = ami_Retries a + 1 ∧
      ami_Params a' = ami_Params a ∧ ami_Command a' = ami_Command a.
Proof.
  intros Hid Hl Ha Hkey Hint Hle. set (w1 := on_object l retry_action w).
  assert (w_heap w1 l = retry_action (OAMI a)) as Hh1.
  { unfold w1. simpl. by rewrite fn_lookup_insert, Ha. }
  assert (key_of (w_heap w1 l) = id) as Hk1 by (rewrite Hh1; by destruct a).
  destruct (typed_Store_Get KAMI id l t1 t2 0 w1 Hid) as (w2&E2&Hh2&_).
  { rewrite Hh1. by destruct a. }
  exists w2. split.
  { unfold StoreAMIAction, store_self. by rewrite Hk1, decide_False. }
  split.
  - unfold typed_Store in E2. injection E2 as <-. change (idx KAMI w1 !! id = Some l) in Hl.
    match goal with |- amiActions (w_mem ?x) !! id = _ => change (idx KAMI x !! id = Some l) end.
    case_match; autorewrite with gateway; rewrite decide_True by done; apply lookup_insert_eq.
  - rewrite Hh2, fn_lookup_insert, Hh1. destruct a as [i0 co pa cl0 ts re et]. simpl in *.
    eexists. split; [reflexivity|]. simpl. split_and!; [|done|done].
    apply int64_wrap_small. unfold is_int64, max_int64, min_int64 in *. lia.
Qed.
End Facts.

(** ** Properties *)

Section Properties.
Context {C : Type} `{AMIClientLaws C}.


(** The replay of a pending action sends its parameters and nothing else -
    the command the action was stored with is not sent - counts the attempt,
    and forgets the action when the answer is a success; an action that has
    been tried more than three times is deleted without being sent. *)
Theorem replay_sends_parameters_only (m : Manager C) (w : World)
    (k : nat) (c c' : C) (id : string) (l : loc) (a : Storage.AMIAction)
    (r : result string message) (t : nat → Time)
    (Hid : id ≠ "") (Hl : amiActions (w_mem w) !! id = Some l)
    (Ha : w_heap w l = OAMI a) (Hkey : ami_ActionID a = id)
    (Hexp : ami_ExpireTime a = 0 ∨ (t 0%nat <= ami_ExpireTime a ∧ t 1%nat <= ami_ExpireTime a))
    (Hint : is_int64 (ami_Retries a))
    (Hk : clients m !! k = Some c) (Hsend : cli_send (ami_Params a) c = (Done r, c')) :
  ∃ m' w', replay_action k id t (m, w) = (Done tt, (m', w')) ∧
    if 3 <? ami_Retries a then
      m' = m ∧ amiActions (w_mem w') !! id = None
    else
      clients m' = <[k := c']> (clients m) ∧
      (∃ a', w_heap w' l = OAMI a' ∧ ami_Retries a' = ami_Retries a + 1 ∧
         ami_Params a' = ami_Params a ∧ ami_Command a' = ami_Command a) ∧
      amiActions (w_mem w') !! id
      = match r with
        | Ok resp => if decide (resp !! "Response" = Some "Success") then None else Some l
        | Err _ => Some l
        end.
Proof.
  assert (∀ u, u = t 0%nat ∨ u = t 1%nat → expired KAMI u (OAMI a) = false) as Hlive.
  { intros u Hu. unfold expired. simpl. unfold IsZero, Before, zero_time.
    destruct Hexp as [->|[? ?]]; [done|].
    rewrite (proj2 (Z.ltb_ge _ _)), andb_false_r; [done|]. destruct Hu as [->| ->]; lia. }
  assert (GetAMIAction id (t 0%nat) w = (Done (Ok l), w)) as Eget.
  { unfold GetAMIAction, typed_Get. rewrite decide_False by done. simpl index_of.
    rewrite Hl, Ha, decide_True by done. by rewrite Hlive by auto. }
  unfold replay_action. erewrite ami_bind_world by exact Eget.
  unfold heap_at. unfold mbind at 1, GoM_bind at 1. cbn [fst snd]. rewrite Ha.
  pose proof (Hlive (t 1%nat) ltac:(by right)) as Hl1. unfold expired in Hl1.
  rewrite Hl1. cbv iota. change (retries_of (OAMI a)) with (ami_Retries a).
  destruct (Z.ltb_spec 3 (ami_Retries a)) as [Hr|Hr].
  { destruct (delete_action w id l Hid Hl) as (w2&E2&?&?).
    erewrite ami_bind_world by exact E2. by exists m, w2. }
  destruct (count_attempt w id l a (t 2%nat) (t 3%nat) Hid Hl Ha Hkey Hint Hr)
    as (w2&E2&Hl2&Ha').
  erewrite ami_bind_world by reflexivity. erewrite ami_bind_world by exact E2.
  erewrite ami_bind_client by eauto.
  destruct r as [resp|err]; [case_decide as Hs|].
  - destruct (delete_action w2 id l Hid Hl2) as (w3&E3&Hn&Hh3).
    erewrite ami_bind_world by exact E3.
    eexists _, w3. split; [reflexivity|]. split; [by destruct m|].
    split; [by rewrite Hh3|done].
  - eexists _, w2. split; [reflexivity|]. split; [by destruct m|]. done.
  - eexists _, w2. split; [reflexivity|]. split; [by destruct m|]. done.
Qed.
End Properties.

(** ** Witnesses *)

(** A client that answers every action with [sc_reply]. *)
Record sample_client : Type := mkSample {
  sc_address : string; sc_up : bool; sc_reply : result string message }.

#[export] Instance sample_client_ops : AMIClientOps sample_client := {|
  cli_address := sc_address;
  cli_connected := sc_up;
  cli_send _ := λ c, (Done (sc_reply c), c);
  cli_connect _ := λ c, (Done (Ok tt), mkSample (sc_address c) true (sc_reply c));
  cli_disconnect := λ c, (Done tt, mkSample (sc_address c) false (sc_reply c))
|}.

#[export] Instance sample_client_laws : AMIClientLaws sample_client.
Proof. split; intros; eexists _, _; by split. Qed.

Definition success : message := {[ "Response" := "Success" ]}.
Definition sample_manager : Manager sample_client :=
  {| clients := [mkSample "a" false (Err "down"); mkSample "b" true (Ok success)];
     activeIdx := 0; initializing := false; has_storage := true; maxRetries := 3;
     retryDelay := 5 * Second; clientStatus := None |}.


Definition pending : Storage.AMIAction :=
  match w_heap used_world 1%nat with OAMI a => a | _ => mkAMIAction "" "" ∅ "" 0 0 0 end.

Lemma replay_sends_parameters_only_witness :
  ami_Command pending = "Originate" ∧
  ∃ m' w', replay_action 1 "act" (λ _, 30) (sample_manager, used_world) = (Done tt, (m', w')) ∧
    clients m' = clients sample_manager ∧ amiActions (w_mem w') !! "act" = None.
Proof.
  split; [by vm_compute|].
  destruct (replay_sends_parameters_only sample_manager used_world 1
    (mkSample "b" true (Ok success)) (mkSample "b" true (Ok success)) "act" 1%nat pending
    (Ok success) (λ _, 30)) as (m'&w'&E&Hc&_&Ha).
  1: discriminate.
  1-3: by vm_compute.
  1: right; by vm_compute.
  1: by vm_compute.
  1-2: reflexivity.
  exists m', w'. split; [exact E|split; [exact Hc|exact Ha]].
Defined.
