(* ===== verification/AMIStart.v ===== *)
(** * ami/manager.go: the start of the AMI manager

    [Start] with its search for a client that answers quickly, the goroutines of
    [retryAllConnections] as threads that take one step at a time over the
    manager they share, and the tick of the health check of a client. The
    starting of a connection in the background and the wait for its banner are
    an extension of the interface of AMIManager.v. *)

From S2P Require Import Prelude KVStore Storage AMIManager.

(** [ConnectNonBlocking], then [WaitForBanner] for a duration. *)
Class AMIStart (C : Type) : Type := cli_start : Duration → GoM C bool.

Class AMIStartLaws (C : Type) `{AMIClientOps C} `{AMIStart C} : Prop := {
  cli_start_done d c :
    ∃ b c', cli_start d c = (Done b, c') ∧ cli_address c' = cli_address c
}.

Section Start.
Context {C : Type} `{AMIClientOps C} `{AMIStart C}.

(** ** Start *)

Definition set_initializing (v : bool) (m : Manager C) : Manager C :=
  let '(mkManager c a _ h r d s) := m in mkManager c a v h r d s.

(** The backups, until one answers. *)
Fixpoint try_backups (js : list nat) : GoM (St C) unit :=
  match js with
  | [] => mret tt
  | i :: js =>
      b ← on_client i (cli_start (1 * Second));
      if (b : bool) then on_mgr (set_activeIdx (int32_wrap (Z.of_nat i))) else try_backups js
  end.

(** The result says whether the goroutine of [retryAllConnections] is started. *)
Definition Start : GoM (St C) bool :=
  on_mgr (set_initializing true);;
  bannerReceived ← on_client 0 (cli_start (3 * Second));
  (if (bannerReceived : bool) then mret tt
   else m ← mgr; try_backups (seq 1 (length (clients m) - 1)));;
  on_mgr (set_initializing false);;
  mret (negb bannerReceived).

(** ** The reconnections in the background *)

(** The delay before a retry, in float64, and at most two minutes. The power is
    exact up to the 33rd retry. Go leaves open what becomes of a float that
    does not fit an int64 - with five seconds' base, from the 53rd failure on,
    where the cap should apply. *)
Definition backoff (base : Duration) (n : Z) : Duration :=
  let delay := f_truncate (f_mul (float64 base) (f_div (float64 (3 ^ n)) (float64 (2 ^ n)))) in
  if 2 * Minute <? delay then 2 * Minute else delay.

Inductive rthread : Type :=
| RCheck (n : Z)                             (* the loop test, [retryCount = n] *)
| RWait (n : Z) (delay : Duration)
| RConnect (n : Z)
| RSwitch
| RGaveUp
| REnded.

(** What the [select] of the wait does. *)
Inductive wait_choice : Type := Waiting | Elapsed | CtxDone.
Record rchoice : Type := mkRChoice { rc_now : Time; rc_wait : wait_choice }.

Definition rstep (i : nat) (ch : rchoice) (p : rthread) : GoM (St C) rthread :=
  match p with
  | RCheck n =>
      m ← mgr;
      if n <? maxRetries m then
        mret (if connected_at m i then REnded else RWait n (backoff (retryDelay m) n))
      else mret RGaveUp
  | RWait n d =>
      mret match rc_wait ch with Waiting => RWait n d | Elapsed => RConnect n | CtxDone => REnded end
  | RConnect n =>
      r ← on_client i (cli_connect (rc_now ch));
      match r with
      | Err _ => mret (RCheck (n + 1))
      | Ok _ => m ← mgr;
                mret (if bool_decide (i = 0%nat) && (activeIdx m =? 0) then REnded else RSwitch)
      end
  | RSwitch =>
      j ← GetActiveClient;
      m ← mgr;
      (if connected_at m j then mret tt else on_mgr (set_activeIdx (int32_wrap (Z.of_nat i))));;
      mret REnded
  | RGaveUp | REnded => mret p
  end.

Record rsys : Type := mkRSys { rs_state : St C; rs_threads : list (nat * rthread); rs_dead : bool }.

Definition retry_step (t : nat) (ch : rchoice) (s : rsys) : rsys :=
  if rs_dead s then s
  else match rs_threads s !! t with
  | None => s
  | Some (i, p) =>
      match rstep i ch p (rs_state s) with
      | (Done p, st) => mkRSys st (<[t := (i, p)]> (rs_threads s)) false
      | (_, st) => mkRSys st (rs_threads s) true
      end
  end.
Definition retry_run (es : list (nat * rchoice)) (s : rsys) : rsys :=
  foldl (λ s e, retry_step e.1 e.2 s) s es.

(** One goroutine for each client that is not connected. *)
Definition unconnected (m : Manager C) : list nat :=
  filter (λ i, connected_at m i = false) (seq 0 (length (clients m))).
Definition retryAllConnections (st : St C) : rsys :=
  mkRSys st ((λ i, (i, RCheck 0)) <$> unconnected st.1) false.

(** ** The health check of a client *)

Definition ping_action : message := {[ "Action" := "Ping" ]}.
Definition health_tick (i : nat) (it : Iteration) (t0 : Time) (t : nat → Time)
    (tr : nat → nat → Time) : GoM (St C) unit :=
  m ← mgr;
  if negb (connected_at m i) then mret tt
  else
    r ← on_client i (cli_send ping_action);
    match r with
    | Ok _ => mret tt
    | Err _ =>
        m ← mgr;
        if activeIdx m =? Z.of_nat i then tryReconnectOrFailover i it t0 t tr else mret tt
    end.
End Start.
Arguments rsys C : clear implicits.

(** ** Facts *)

Section Facts.
Context {C : Type} `{AMIClientOps C} `{AMIStart C}.
Context {laws : AMIClientLaws C} {start_laws : AMIStartLaws C}.

(** Whether a client answers in time, from its state. *)
Definition answers (d : Duration) (m : Manager C) (i : nat) : bool :=
  match clients m !! i with
  | Some c => match (cli_start d c).1 with Done b => b | _ => false end
  | None => false
  end.

Definition same_settings (m m' : Manager C) : Prop :=
  length (clients m') = length (clients m) ∧ maxRetries m' = maxRetries m ∧
  retryDelay m' = retryDelay m ∧ clientStatus m' = clientStatus m.

Lemma same_settings_ok m m' :
  same_settings m m' → activeIdx m' = activeIdx m ∨ (∃ i, (i < length (clients m))%nat ∧
    activeIdx m' = Z.of_nat i) → mgr_ok m → mgr_ok m'.
Proof.
  intros (Hl&_&_&Hs) Ha [H1 H2 H3]. split.
  - rewrite Hl. destruct Ha as [->|(i&Hi&->)]; lia.
  - by rewrite Hl.
  - intros sts. rewrite Hs, Hl. apply H3.
Qed.

Lemma int32_index i (m : Manager C) :
  mgr_ok m → (i < length (clients m))%nat → int32_wrap (Z.of_nat i) = Z.of_nat i.
Proof.
  intros [_ Hs _] Hi. apply int32_wrap_small. unfold is_int32, min_int32, max_int32 in *. lia.
Qed.

Lemma on_client_done {A} i (g : GoM C A) m w c a c' :
  clients m !! i = Some c → g c = (Done a, c') →
  on_client i g (m, w) = (Done a, (set_clients (<[i := c']> (clients m)) m, w)).
Proof. intros Hc Hg. unfold on_client. simpl. by rewrite Hc, Hg. Qed.

Lemma set_clients_settings i c' (m : Manager C) :
  same_settings m (set_clients (<[i := c']> (clients m)) m) ∧
  activeIdx (set_clients (<[i := c']> (clients m)) m) = activeIdx m ∧
  clients (set_clients (<[i := c']> (clients m)) m) = <[i := c']> (clients m).
Proof. destruct m as [cs a ii h r d s]. unfold same_settings. simpl. by rewrite length_insert. Qed.

Lemma list_find_same (f g : nat → bool) js :
  (∀ k, k ∈ js → f k = g k) → list_find (λ j, f j = true) js = list_find (λ j, g j = true) js.
Proof.
  induction js as [|k js IH]; intros Hs; [done|]. simpl.
  rewrite (Hs k) by (apply elem_of_cons; by left).
  rewrite IH by (intros j Hj; apply Hs, elem_of_cons; by right). done.
Qed.

Lemma try_backups_spec js : ∀ m w,
  mgr_ok m → Forall (λ j, (j < length (clients m))%nat) js → NoDup js →
  ∃ m', try_backups js (m, w) = (Done tt, (m', w)) ∧ same_settings m m' ∧
    activeIdx m' = match list_find (λ j, answers (1 * Second) m j = true) js with
                   | Some (_, j) => Z.of_nat j
                   | None => activeIdx m
                   end.
Proof.
  induction js as [|j js IH]; intros m w Hm Hjs Hnd; simpl; [by exists m|].
  apply Forall_cons in Hjs as [Hj Hjs]. apply NoDup_cons in Hnd as [Hni Hnd].
  destruct (lookup_lt_is_Some_2 _ _ Hj) as [c Hc].
  destruct (cli_start_done (1 * Second) c) as (b&c'&E&_).
  rewrite (bind_Done _ _ _ _ _ (on_client_done _ _ _ w _ _ _ Hc E)).
  destruct (set_clients_settings j c' m) as (Hset&Hact&Hcl).
  set (m1 := set_clients (<[j := c']> (clients m)) m) in *.
  assert (answers (1 * Second) m j = b) as Hans by (unfold answers; by rewrite Hc, E).
  destruct b.
  - rewrite decide_True by done. eexists. split; [reflexivity|]. simpl.
    rewrite (int32_index j m Hm Hj). destruct m1 as [cs a ii h r d s]. by simpl in *.
  - rewrite decide_False by (by rewrite Hans).
    assert (mgr_ok m1) as Hm1 by (apply (same_settings_ok m); [done|by left|done]).
    destruct Hset as (Hl&Hset).
    destruct (IH m1 w Hm1) as (m'&->&(Hl'&Hs')&Ha'); [by rewrite Hl|done|].
    exists m'. split; [done|]. split; [unfold same_settings; intuition congruence|].
    rewrite Ha', Hact, (list_find_same (answers (1 * Second) m1) (answers (1 * Second) m)).
    { clear Ha'. by destruct (list_find _ js) as [[]|]. }
    intros k Hk. unfold answers. rewrite Hcl, list_lookup_insert_ne; [done|]. by intros ->.
Qed.


(** ** The retries end *)

(** What a goroutine can still do: steps, its waiting apart. *)
Definition measure (max : Z) (p : rthread) : nat :=
  match p with
  | RCheck n => (3 * Z.to_nat (max - n) + 2)%nat
  | RWait n _ => (3 * Z.to_nat (max - n) + 1)%nat
  | RConnect n => (3 * Z.to_nat (max - n))%nat
  | RSwitch => 1
  | RGaveUp | REnded => 0
  end.
(** Past the test of the loop, an attempt is left. *)
Definition in_bounds (max : Z) (p : rthread) : bool :=
  match p with
  | RCheck n => 0 <=? n
  | RWait n _ | RConnect n => (0 <=? n) && (n <? max)
  | _ => true
  end.

(** A step that is not one of a wait that goes on, or of a goroutine that has
    ended. *)
Definition effective (ch : rchoice) (p : rthread) : bool :=
  match p, rc_wait ch with
  | RGaveUp, _ | REnded, _ | RWait _ _, Waiting => false
  | _, _ => true
  end.

Lemma rstep_spec i ch p m w :
  mgr_ok m → (i < length (clients m))%nat → in_bounds (maxRetries m) p = true →
  ∃ p' m', rstep i ch p (m, w) = (Done p', (m', w)) ∧ mgr_ok m' ∧ same_settings m m' ∧
    in_bounds (maxRetries m) p' = true ∧
    (if effective ch p then (measure (maxRetries m) p' < measure (maxRetries m) p)%nat else p' = p).
Proof.
  intros Hm Hi Hp. assert (same_settings m m) as Hrefl by done.
  destruct p as [n|n d|n| | |]; simpl in Hp.
  - unfold rstep. rewrite ami_bind_mgr. simpl. destruct (Z.ltb_spec n (maxRetries m)) as [Hn|Hn].
    + destruct (connected_at m i); (do 2 eexists; split; [reflexivity|]); simpl;
        split_and!; try done; bool_facts; lia.
    + do 2 eexists. split; [reflexivity|]. simpl. split_and!; try done; lia.
  - unfold rstep, effective. destruct (rc_wait ch); (do 2 eexists; split; [reflexivity|]); simpl;
      split_and!; try done; lia.
  - unfold rstep. destruct (lookup_lt_is_Some_2 _ _ Hi) as [c Hc].
    destruct (cli_connect_done (rc_now ch) c) as (r&c'&E&_).
    rewrite (bind_Done _ _ _ _ _ (on_client_done _ _ _ w _ _ _ Hc E)).
    destruct (set_clients_settings i c' m) as (Hset&Hact&Hcl).
    set (m1 := set_clients (<[i := c']> (clients m)) m) in *.
    assert (mgr_ok m1) as Hm1 by (apply (same_settings_ok m); [done|by left|done]).
    bool_facts. destruct r as [[]|e].
    + rewrite ami_bind_mgr. do 2 eexists. split; [reflexivity|]. split; [done|]. split; [done|].
      destruct (_ && _); simpl; split_and!; try done; lia.
    + do 2 eexists. split; [reflexivity|]. simpl. split_and!; try done; [bool_facts|]; lia.
  - unfold rstep. rewrite (ami_bind_active _ _ _ Hm), ami_bind_mgr.
    destruct (connected_at m (Z.to_nat (activeIdx m))).
    + do 2 eexists. split; [reflexivity|]. simpl. split_and!; try done; lia.
    + rewrite ami_bind_on_mgr. do 2 eexists. split; [reflexivity|]. simpl.
      assert (same_settings m (set_activeIdx (int32_wrap (Z.of_nat i)) m)) as Hs by (by destruct m).
      split; [|split_and!; try done; lia]. apply (same_settings_ok m); [done| |done].
      right. exists i. split; [done|]. rewrite (int32_index i m Hm Hi). by destruct m.
  - do 2 eexists. split; [reflexivity|]. by split_and!.
  - do 2 eexists. split; [reflexivity|]. by split_and!.
Qed.

Definition retry_ok (max : Z) (s : rsys C) : Prop :=
  rs_dead s = false ∧ mgr_ok (rs_state s).1 ∧ maxRetries (rs_state s).1 = max ∧
  Forall (λ e, (e.1 < length (clients (rs_state s).1))%nat ∧ in_bounds max e.2 = true) (rs_threads s).
Definition total_measure (max : Z) (ts : list (nat * rthread)) : nat :=
  foldr (λ e n, measure max e.2 + n)%nat O ts.
Definition step_effective (t : nat) (ch : rchoice) (s : rsys C) : bool :=
  match rs_threads s !! t with Some (_, p) => effective ch p | None => false end.
Fixpoint count_effective (es : list (nat * rchoice)) (s : rsys C) : nat :=
  match es with
  | [] => O
  | (t, ch) :: es =>
      ((if step_effective t ch s then 1 else 0) + count_effective es (retry_step t ch s))%nat
  end.

Lemma total_measure_insert max t i p q ts :
  ts !! t = Some (i, p) →
  (total_measure max (<[t := (i, q)]> ts) + measure max p = total_measure max ts + measure max q)%nat.
Proof.
  revert t. induction ts as [|x ts IH]; intros [|t] Ht; simplify_eq/=; [lia|].
  specialize (IH t Ht). lia.
Qed.

Lemma total_measure_start max (l : list nat) :
  total_measure max ((λ i, (i, RCheck 0)) <$> l) = (length l * (3 * Z.to_nat max + 2))%nat.
Proof.
  induction l as [|i l IH]; [done|]. rewrite fmap_cons. cbn [total_measure foldr snd measure length].
  fold (total_measure max ((λ i, (i, RCheck 0)) <$> l)). rewrite IH, Z.sub_0_r. lia.
Qed.

Lemma retry_step_ok max t ch s :
  retry_ok max s → retry_ok max (retry_step t ch s) ∧
  (total_measure max (rs_threads (retry_step t ch s)) + (if step_effective t ch s then 1 else 0)
   <= total_measure max (rs_threads s))%nat.
Proof.
  intros (Hd&Hm&Hmax&Hts). destruct s as [[m w] ts dead]. simpl in *. subst.
  unfold retry_step, step_effective. simpl. destruct (ts !! t) as [[i p]|] eqn:Ht.
  2: { simpl. split; [done|lia]. }
  pose proof (Forall_lookup_1 _ _ _ _ Hts Ht) as [Hi Hp]. simpl in Hi, Hp.
  destruct (rstep_spec i ch p m w Hm Hi Hp) as (p'&m'&->&Hm'&Hs&Hp'&Hmeas).
  pose proof (total_measure_insert (maxRetries m) t i p p' ts Ht) as Htot. simpl.
  split.
  - destruct Hs as (Hl&Hmax'&_). split; [done|]. split; [done|]. split; [done|].
    simpl. apply Forall_insert; [|by rewrite Hl].
    apply (Forall_impl _ _ _ Hts). intros e. by rewrite Hl.
  - destruct (effective ch p); [lia|]. subst p'. lia.
Qed.

End Facts.

(** ** Instances *)

(** A client whose banner comes when it is up; a connection brings it up. *)
#[export] Instance sample_start : AMIStart sample_client := λ _ c, (Done (sc_up c), c).
#[export] Instance sample_start_laws : AMIStartLaws sample_client.
Proof. split. intros d c. by exists (sc_up c), c. Qed.

Lemma sample_manager_ok : mgr_ok sample_manager.
Proof. split; [simpl; lia|by vm_compute|by intros sts [=]]. Qed.


Definition patience : list (nat * rchoice) :=
  [(0%nat, mkRChoice 1 Waiting); (0%nat, mkRChoice 2 Waiting); (0%nat, mkRChoice 3 Elapsed);
   (0%nat, mkRChoice 4 Elapsed); (0%nat, mkRChoice 5 Elapsed)].


(** The delays of five seconds' base. *)
Example backoff_delays :
  backoff (5 * Second) <$> [0; 1; 2; 8] = [5 * Second; 7500 * Millisecond; 11250 * Millisecond; 2 * Minute].
Proof. by vm_compute. Qed.
