(* ===== verification/AMIConnect.v ===== *)
(** * ami/ami.go: connecting in the background, and the handlers of events

    [ConnectNonBlocking], the goroutine it starts and [WaitForBanner], as threads
    beside those of AMIClient.v over the same client: they meet in the channel
    [connectedChan], of capacity one. And the handlers of events, those of the
    client and those of the manager, which only log. *)

From S2P Require Import Prelude CircuitBreaker AMIClient.

(** ** Threads *)

Inductive xthread : Type :=
(* ConnectNonBlocking *)
| NDrain
| NTest
| NSend
| NReturned
(* its goroutine, whose call of Connect is a thread of the client *)
| GConnect (t : nat)
| GEnded
(* WaitForBanner *)
| WWait
| WReturned (r : bool).

Record xsys : Type := mkXSys { base : sys; extra : list xthread }.

Definition xgoto (t : nat) (p : xthread) (s : xsys) : xsys := mkXSys (base s) (<[t := p]> (extra s)).
Definition xspawn (p : xthread) (s : xsys) : xsys := mkXSys (base s) (extra s ++ [p]).
Definition on_base (f : sys → sys) (s : xsys) : xsys := mkXSys (f (base s)) (extra s).
Definition signal (l : list bool) : xsys → xsys := on_base (on_cl (set_connectedChan l)).

(** The panic of a goroutine without a [recover] takes the process down. *)
Definition xcrash (s : xsys) : xsys :=
  on_base (λ b, mkSys (cl b) (mu b) (connLock b) (threads b) true) s.

Definition xthread_step (t : nat) (ch : choice) (p : xthread) (s : xsys) : xsys :=
  let c := cl (base s) in
  match p with
  | NDrain => xgoto t NTest (signal [] s)
  | NTest =>
      if mu (base s) then s
      else if connected c then xgoto t NSend s
      else
        let i := length (threads (base s)) in
        xgoto t NReturned (xspawn (GConnect i) (on_base (spawn Connect) s))
  | NSend => match connectedChan c with [] => xgoto t NReturned (signal [true] s) | _ => s end
  | GConnect i =>
      match threads (base s) !! i with
      | Some (Returned ConnectOk) => xgoto t GEnded s
      | Some (Returned _) =>
          xgoto t GEnded (match connectedChan c with [] => signal [false] s | _ => s end)
      | Some Panicked => xcrash s
      | _ => s
      end
  | WWait =>
      match connectedChan c with
      | r :: rest => if c_timer ch then xgoto t (WReturned false) s
                     else xgoto t (WReturned r) (signal rest s)
      | [] => if c_timer ch then xgoto t (WReturned false) s else s
      end
  | NReturned | GEnded | WReturned _ => s
  end.

(** A step is one of the client's threads or one of these. *)
Inductive who : Type := Base (t : nat) | Extra (t : nat).
Definition xstep (w : who) (ch : choice) (s : xsys) : xsys :=
  match w with
  | Base t => on_base (step t ch) s
  | Extra t =>
      if crashed (base s) then s
      else match extra s !! t with Some p => xthread_step t ch p s | None => s end
  end.
Definition xrun (es : list (who * choice)) (s : xsys) : xsys :=
  foldl (λ s e, xstep e.1 e.2 s) s es.

Definition ConnectNonBlocking : xthread := NDrain.
Definition WaitForBanner : xthread := WWait.
Definition is_entry (p : xthread) : Prop := p = ConnectNonBlocking ∨ p = WaitForBanner.

(** ** Handlers of events *)

Section Handlers.
Context {H : Type}.

Definition RegisterEventHandler (event : string) (handler : H) (hs : gmap string (list H))
    : gmap string (list H) :=
  <[event := default [] (hs !! event) ++ [handler]]> hs.

(** What the dispatcher starts for an event: the handlers of its name, then the
    wildcard ones, each in a goroutine. *)
Definition dispatch (hs : gmap string (list H)) (event : message) : list H :=
  match event !! "Event" with
  | Some name => default [] (hs !! name) ++ default [] (hs !! "*")
  | None => []
  end.
End Handlers.

(** The handler of the manager logs the event, and some of it in full. *)
Inductive event_log : Type :=
| Received (event address : string)
| ChannelHangup (channel cause uniqueID : string)
| ChannelCreated (channel state uniqueID : string).
Definition handleHangupEvent (event : message) : list event_log :=
  [ChannelHangup (field "Channel" event) (field "Cause" event) (field "Uniqueid" event)].
Definition handleNewChannelEvent (event : message) : list event_log :=
  [ChannelCreated (field "Channel" event) (field "ChannelState" event) (field "Uniqueid" event)].
Definition manager_handler (address : string) (event : message) : list event_log :=
  match event !! "Event" with
  | None => []
  | Some name =>
      Received name address ::
      (if decide (name = "Hangup") then handleHangupEvent event
       else if decide (name = "NewChannel") then handleNewChannelEvent event else [])
  end.
(** One wildcard handler for each client, by its address. *)
Definition registerEventHandlers
    (clients : list (string * gmap string (list (message → list event_log))))
    : list (string * gmap string (list (message → list event_log))) :=
  (λ c, (c.1, RegisterEventHandler "*" (manager_handler c.1) c.2)) <$> clients.

(** ** Facts *)

(** What is known of the server: its banner has come, or the login is done. *)
Definition heard (s : xsys) : bool := bannerReceived (cl (base s)) || connected (cl (base s)).

(** The client's own threads put only one thing into the channel: [true], when
    the banner has come. *)
Lemma step_signal t ch s :
  connectedChan (cl (step t ch s)) = connectedChan (cl s) ∨
  (connectedChan (cl s) = [] ∧ connectedChan (cl (step t ch s)) = [true] ∧
   bannerReceived (cl (step t ch s)) = true).
Proof.
  destruct s as [c m k ts cr]. unfold step. destruct cr; [by left|]. simpl.
  destruct (ts !! t) as [p|]; [|by left].
  destruct c as [a tm cn cd br rc chs ec cb sc dc ss ds cc ca].
  destruct p; simpl; unfold connect_call_step, connect_step, send_step, wait_step, disconnect_step,
    reader_step, dispatcher_step, connect_fails, connect_succeeds, caller_panics, abandon, deliver,
    new_stop_channels, crash; simpl;
    repeat (case_match; simplify_eq/=); auto.
Qed.

(** The state, with what was known at some moment so far. *)
Record announced (seen : Prop) (s : xsys) : Prop := {
  an_capacity : (length (connectedChan (cl (base s))) <= 1)%nat;
  an_signal : true ∈ connectedChan (cl (base s)) → seen;
  an_thread t p : extra s !! t = Some p → p = NSend ∨ p = WReturned true → seen }.

Lemma announced_mono (seen seen' : Prop) s : (seen → seen') → announced seen s → announced seen' s.
Proof. intros H [H1 H2 H3]. split; [done|by auto|]. intros t p Ht Hp. apply H. by apply (H3 t p). Qed.

Lemma xgoto_lookup t p s u q :
  extra (xgoto t p s) !! u = Some q → q = p ∨ extra s !! u = Some q.
Proof. simpl. destruct (decide (t = u)) as [->|]; rewrite list_lookup_insert_Some; naive_solver. Qed.

Lemma announced_goto (seen : Prop) t p s s' :
  announced seen s → extra s' = extra s →
  (length (connectedChan (cl (base s'))) <= 1)%nat →
  (true ∈ connectedChan (cl (base s')) → seen) →
  (p = NSend ∨ p = WReturned true → seen) → announced seen (xgoto t p s').
Proof.
  intros Hs He Hc Ht Hp. split; [done|done|].
  intros u q [->|Hq]%xgoto_lookup; [done|]. rewrite He in Hq. by apply (an_thread seen s Hs u q).
Qed.

Lemma signal_chan l s : connectedChan (cl (base (signal l s))) = l.
Proof. destruct s as [[c ? ? ? ?] ?]. by destruct c. Qed.

Lemma connected_heard s : connected (cl (base s)) = true → heard s = true.
Proof. unfold heard. intros ->. by rewrite orb_true_r. Qed.

(** A channel with one known element, a thread that is not a witness. *)
Ltac side_conditions :=
  rewrite ?signal_chan; try first [done | simpl; lia | by intros ?%elem_of_nil
  | by intros ?%list_elem_of_singleton | by intros [?|?] | solve [auto]].

Lemma announced_xthread seen t ch p s : announced seen s → extra s !! t = Some p →
  announced (seen ∨ heard s = true) (xthread_step t ch p s).
Proof.
  intros Hs Ht. pose proof (announced_mono _ (seen ∨ heard s = true) s (@or_introl _ _) Hs) as Hs'.
  pose proof (an_capacity _ _ Hs') as Hcap. pose proof (an_signal _ _ Hs') as Hsig.
  pose proof (an_thread _ _ Hs' t p Ht) as Hp.
  destruct p as [| | | |i| | |r]; simpl; try exact Hs'.
  - apply (announced_goto _ t NTest s); side_conditions.
  - destruct (mu (base s)); [done|]. destruct (connected (cl (base s))) eqn:Hc.
    + apply (announced_goto _ t NSend s); try done. intros _. right. by apply connected_heard.
    + split; [done|done|]. intros u q [->|Hq]%xgoto_lookup; [naive_solver|].
      simpl in Hq. apply lookup_app_Some in Hq as [Hq|[_ Hq]]; [by apply (an_thread _ _ Hs' u q)|].
      apply list_lookup_singleton_Some in Hq as [_ <-]. naive_solver.
  - destruct (connectedChan (cl (base s))) eqn:Hc; [|exact Hs'].
    apply (announced_goto _ t NReturned s); side_conditions.
  - destruct (threads (base s) !! i) as [q|]; [|exact Hs'].
    assert (announced (seen ∨ heard s = true) (xgoto t GEnded s)) as Hend.
    { apply (announced_goto _ t GEnded s); side_conditions. }
    assert (announced (seen ∨ heard s = true) (xgoto t GEnded
      match connectedChan (cl (base s)) with [] => signal [false] s | _ :: _ => s end)) as Hsend.
    { destruct (connectedChan (cl (base s))) eqn:Hc; [|exact Hend].
      apply (announced_goto _ t GEnded s); side_conditions. }
    destruct q; try exact Hs'.
    + destruct r; first [exact Hend|exact Hsend].
    + split; [done|done|]. apply (an_thread _ _ Hs').
  - destruct (connectedChan (cl (base s))) as [|r rest] eqn:Hc.
    + destruct (c_timer ch); [|exact Hs'].
      apply (announced_goto _ t _ s); rewrite ?Hc; side_conditions.
    + destruct (c_timer ch).
      * apply (announced_goto _ t _ s); rewrite ?Hc; side_conditions.
      * destruct rest; [|simpl in Hcap; lia].
        apply (announced_goto _ t _ s); side_conditions.
        intros [?|[= ->]]; [done|]. apply Hsig. left.
Qed.

Lemma announced_step seen w ch s : announced seen s →
  announced (seen ∨ heard s = true ∨ heard (xstep w ch s) = true) (xstep w ch s).
Proof.
  intros Hs. destruct w as [t|t]; cbn [xstep].
  - destruct (step_signal t ch (base s)) as [E|(E0&E1&Hb)].
    + split; simpl; rewrite ?E; [apply Hs|intros ?; left; by apply (an_signal _ _ Hs)|].
      intros u q Hu Hq. left. by apply (an_thread _ _ Hs u q).
    + assert (heard (on_base (step t ch) s) = true) as Hh by (unfold heard; simpl; by rewrite Hb).
      split; simpl; rewrite ?E1; [simpl; lia|by right; right|]. intros u q Hu Hq. by right; right.
  - destruct (crashed (base s)); [by eapply announced_mono; [|exact Hs]; left|].
    destruct (extra s !! t) as [p|] eqn:Ht; [|by eapply announced_mono; [|exact Hs]; left].
    eapply announced_mono; [|by apply announced_xthread]. intros [?|?]; auto.
Qed.

Lemma xrun_app es es' s : xrun (es ++ es') s = xrun es' (xrun es s).
Proof. apply foldl_app. Qed.

Lemma announced_run es s0 : announced False s0 →
  announced (∃ k, heard (xrun (take k es) s0) = true) (xrun es s0).
Proof.
  intros H0. induction es as [|e es IH] using rev_ind; [by eapply announced_mono; [|exact H0]|].
  rewrite xrun_app. simpl. eapply announced_mono; [|by apply announced_step].
  intros [[k Hk]|[Hh|Hh]].
  - exists (min k (length es)). rewrite take_app_le by lia.
    rewrite <-Hk. f_equal. f_equal. destruct (decide (k <= length es)%nat) as [Hl|Hl].
    + by rewrite min_l.
    + rewrite min_r by lia. rewrite !take_ge by lia. done.
  - exists (length es). by rewrite take_app_length.
  - exists (length (es ++ [e])). rewrite take_ge by lia. by rewrite xrun_app.
Qed.

(** C39. What a wait for the banner says can be relied on in one direction, under
    every interleaving of calls and network events: when [WaitForBanner] returns
    true, the server's banner had come, or the client was logged in, at some
    moment before; and the channel never holds more than one signal, so the
    connection never blocks on it. *)
Theorem banner_was_heard (c : AMIClient) (calls : list thread) (waits : list xthread)
    (es : list (who * choice))
    (Hc : connectedChan c = []) (Hw : Forall is_entry waits) :
  let s0 := mkXSys (start c calls) waits in
  (length (connectedChan (cl (base (xrun es s0)))) <= 1)%nat ∧
  ∀ t, extra (xrun es s0) !! t = Some (WReturned true) →
    ∃ k, heard (xrun (take k es) s0) = true.
Proof.
  intros s0. assert (announced False s0) as H0.
  { split; simpl; rewrite ?Hc; [simpl; lia|by intros ?%elem_of_nil|].
    intros t p Ht Hp. rewrite Forall_lookup in Hw. by destruct (Hw t p Ht) as [-> | ->], Hp. }
  destruct (announced_run es s0 H0) as [Hcap _ Hth]. split; [done|].
  intros t Ht. apply (Hth t _ Ht). by right.
Qed.

(** The other direction fails. A wait that returns true does not mean a client
    that can be used: the login of the connection may fail after it. *)

(** The channel is written without a reader by a call on a connected client: of
    two such calls that both drain before either writes, the second waits for
    ever when nobody waits for the banner. *)
Lemma second_call_blocks (c : AMIClient) (ch : choice) (es : list (who * choice)) :
  connected c = true → connectedChan c = [] →
  let s0 := mkXSys (start c []) [ConnectNonBlocking; ConnectNonBlocking] in
  let s1 := xrun [(Extra 0, ch); (Extra 1, ch); (Extra 0, ch); (Extra 1, ch); (Extra 0, ch)] s0 in
  extra (xrun es s1) = [NReturned; NSend].
Proof.
  intros Hc Hch s0 s1.
  assert (s1 = mkXSys (start (set_connectedChan [true] c) []) [NReturned; NSend]) as ->.
  { destruct c as [a tm cn cd br rc chs ec cb sc dc ss ds cc ca]. simpl in *. by subst. }
  assert (∀ w ch, xstep w ch (mkXSys (start (set_connectedChan [true] c) []) [NReturned; NSend])
    = mkXSys (start (set_connectedChan [true] c) []) [NReturned; NSend]) as Hstep.
  { intros [t|t] ch'; [done|]. destruct c as [a tm cn cd br rc chs ec cb sc dc ss ds cc ca].
    by destruct t as [|[|t]]. }
  induction es as [|[w ch'] es IH]; [done|]. simpl. by rewrite Hstep.
Qed.

(** An event named by a star is handled twice by the wildcard handlers. *)
Lemma star_event_twice {H : Type} (hs : gmap string (list H)) (event : message) :
  event !! "Event" = Some "*" →
  dispatch hs event = default [] (hs !! "*") ++ default [] (hs !! "*").
Proof. unfold dispatch. by intros ->. Qed.

(** The manager's handler of a client that has no other handles every event
    once, and logs it under the address of that client. *)
Lemma manager_hears_every_event (addresses : list string) i address event name :
  addresses !! i = Some address → event !! "Event" = Some name → name ≠ "*" →
  ∃ hs, registerEventHandlers ((λ a, (a, ∅)) <$> addresses) !! i = Some (address, hs) ∧
    ∃ more, (λ h, h event) <$> dispatch hs event = [Received name address :: more].
Proof.
  intros Ha Hn Hs. eexists. split.
  - unfold registerEventHandlers. by rewrite !list_lookup_fmap, Ha.
  - unfold dispatch, RegisterEventHandler. rewrite Hn, lookup_insert_ne by done. cbn [fst snd].
    rewrite !lookup_empty, lookup_insert_eq. unfold manager_handler. csimpl. rewrite Hn. by eexists.
Qed.

(** ** Instances *)

(** The banner comes, the wait returns, and the login fails after it. *)
Definition banner_only : list (who * choice) :=
  [(Extra 0, ok_at 1); (Extra 0, ok_at 1); (Base 0, ok_at (10 * Second)); (Base 0, ok_at (10 * Second));
   (Base 0, ok_at (10 * Second)); (Base 0, ok_at (10 * Second)); (Base 0, ok_at (10 * Second));
   (Extra 1, ok_at (10 * Second))].
Definition login_refused : list (who * choice) :=
  [(Base 0, mkChoice (11 * Second) false false None false)].

Lemma banner_was_heard_witness :
  let s0 := mkXSys (start sample_client []) [ConnectNonBlocking; WaitForBanner] in
  extra (xrun banner_only s0) !! 1%nat = Some (WReturned true) ∧
  (∃ k, heard (xrun (take k banner_only) s0) = true) ∧
  heard (xrun (banner_only ++ login_refused) s0) = false.
Proof.
  destruct (banner_was_heard sample_client [] [ConnectNonBlocking; WaitForBanner] banner_only)
    as [_ Hh]; [by vm_compute|repeat constructor; by (left + right)|].
  split; [by vm_compute|]. split; [|by vm_compute]. apply (Hh 1%nat). by vm_compute.
Defined.
