(* ===== verification/WebSocket.v ===== *)
(** * websocket/server.go: the WebSocket server

    The shared state of a [Server], the handshake with its connection limit,
    the health of the backends, and the goroutines of a client - the handler,
    the reader of the client, the reader of the backend - as threads that take
    one step at a time over the client they share. The parser of SIP messages
    is a third-party package and a parameter; the rewriting of domains is the
    interface of domainproxy.go. *)

From stdpp Require Import pretty gmap sets.
From S2P Require Import Prelude CircuitBreaker KVStore Storage.

(** ** Interfaces *)

(** What the server looks at in a parsed message. *)
Record sip_request : Type := mkRequest {
  rq_method : string; rq_callID : option string;
  rq_fromTag : option string; rq_toTag : option string; rq_from : option string }.
Inductive sip_message : Type := Request (r : sip_request) | Response.

Class SIP : Type := {
  ParseMessage : string → option sip_message;
  (* [RewriteClientToBackend] for the mappings of one proxy *)
  RewriteClientToBackend : gmap string string → string → string → string
}.

(** ** State *)

Record ServerConfig : Type := mkServerConfig {
  MaxConnections : Z;
  ServerName : string;
  BackendServers : list string;
  FailoverThreshold : Z;
  DisableWSSIPProcessing : bool }.

(** The defaults of [NewServer]; the timeouts only go to the HTTP server. *)
Definition with_defaults (config : ServerConfig) : ServerConfig :=
  let '(mkServerConfig mc sn bs ft dp) := config in
  let sn := if decide (sn = "") then "WebRTC-SIP-Gateway" else sn in
  mkServerConfig (if mc <=? 0 then 1000 else mc) sn
    (match bs with [] => [sn] | _ => bs end) (if ft <=? 0 then 1 else ft) dp.

(** Connections to backends are positions in a list of flags: closed or not. *)
Record Shared : Type := mkShared {
  backendHealth : gmap string bool;
  connections : gset string;
  conns : list bool;
  breaker : CircuitBreaker;
  mappings : gmap string string;
  handler : bool;                          (* [s.handler != nil] *)
  store : World }.

Record ClientConnection : Type := mkClient {
  RemoteAddr : string;
  LastActivity : Time;
  SIPAddress : string;
  BackendConn : option nat;
  CurrentBackend : string;
  ErrorCount : Z;
  LastSIPCallID : string; LastSIPFromTag : string; LastSIPToTag : string;
  closed : bool;                           (* and the context cancelled *)
  clientDone : bool;
  backendDone : bool;
  errs : nat;                              (* errors in [errChan] *)
  writeDeadline : Time                     (* of the client's connection *)
}.

Definition NewServer (config : ServerConfig) (handler_set : bool) (now : Time) (w : World) : Shared :=
  {| backendHealth := list_to_map ((λ b, (b, true)) <$> BackendServers (with_defaults config));
     connections := ∅; conns := [];
     breaker := NewCircuitBreaker "websocket" (mkCircuitBreakerConfig 5 (30 * Second) 3) now;
     mappings := ∅; handler := handler_set; store := w |}.

Definition on_health (f : gmap string bool → gmap string bool) (s : Shared) : Shared :=
  let '(mkShared h c cs b m hd w) := s in mkShared (f h) c cs b m hd w.
Definition on_connections (f : gset string → gset string) (s : Shared) : Shared :=
  let '(mkShared h c cs b m hd w) := s in mkShared h (f c) cs b m hd w.
Definition on_conns (f : list bool → list bool) (s : Shared) : Shared :=
  let '(mkShared h c cs b m hd w) := s in mkShared h c (f cs) b m hd w.
Definition on_breaker (f : CircuitBreaker → CircuitBreaker) (s : Shared) : Shared :=
  let '(mkShared h c cs b m hd w) := s in mkShared h c cs (f b) m hd w.
Definition on_mappings (f : gmap string string → gmap string string) (s : Shared) : Shared :=
  let '(mkShared h c cs b m hd w) := s in mkShared h c cs b (f m) hd w.
(** A call on the storage whose error is ignored. *)
Definition on_store {A} (m : GoM World A) (s : Shared) : Shared :=
  let '(mkShared h c cs b mp hd w) := s in mkShared h c cs b mp hd (snd (m w)).

Definition set_activity (v : Time) (c : ClientConnection) : ClientConnection :=
  let '(mkClient ra _ sa bc cb ec ci ft tg cl cd bd e wd) := c in
  mkClient ra v sa bc cb ec ci ft tg cl cd bd e wd.
Definition set_address (v : string) (c : ClientConnection) : ClientConnection :=
  let '(mkClient ra la _ bc cb ec ci ft tg cl cd bd e wd) := c in
  mkClient ra la v bc cb ec ci ft tg cl cd bd e wd.
Definition set_backend (conn : nat) (url : string) (c : ClientConnection) : ClientConnection :=
  let '(mkClient ra la sa _ _ ec ci ft tg cl cd bd e wd) := c in
  mkClient ra la sa (Some conn) url ec ci ft tg cl cd bd e wd.
Definition set_errors (v : Z) (c : ClientConnection) : ClientConnection :=
  let '(mkClient ra la sa bc cb _ ci ft tg cl cd bd e wd) := c in
  mkClient ra la sa bc cb v ci ft tg cl cd bd e wd.
Definition set_session (ci ft tg : string) (c : ClientConnection) : ClientConnection :=
  let '(mkClient ra la sa bc cb ec _ _ _ cl cd bd e wd) := c in
  mkClient ra la sa bc cb ec ci ft tg cl cd bd e wd.
Definition set_closed (c : ClientConnection) : ClientConnection :=
  let '(mkClient ra la sa bc cb ec ci ft tg _ cd bd e wd) := c in
  mkClient ra la sa bc cb ec ci ft tg true cd bd e wd.
Definition set_clientDone (c : ClientConnection) : ClientConnection :=
  let '(mkClient ra la sa bc cb ec ci ft tg cl _ bd e wd) := c in
  mkClient ra la sa bc cb ec ci ft tg cl true bd e wd.
Definition set_backendDone (c : ClientConnection) : ClientConnection :=
  let '(mkClient ra la sa bc cb ec ci ft tg cl cd _ e wd) := c in
  mkClient ra la sa bc cb ec ci ft tg cl cd true e wd.
(** [errChan <- err]: the capacity is 3 and two goroutines send once each. *)
Definition send_error (c : ClientConnection) : ClientConnection :=
  let '(mkClient ra la sa bc cb ec ci ft tg cl cd bd e wd) := c in
  mkClient ra la sa bc cb ec ci ft tg cl cd bd (S e) wd.
(** [client.Conn.SetWriteDeadline]; a write after the deadline fails, the zero
    time is none. *)
Definition set_deadline (v : Time) (c : ClientConnection) : ClientConnection :=
  let '(mkClient ra la sa bc cb ec ci ft tg cl cd bd e _) := c in
  mkClient ra la sa bc cb ec ci ft tg cl cd bd e v.
Definition can_write (now : Time) (c : ClientConnection) : bool :=
  IsZero (writeDeadline c) || (now <=? writeDeadline c).

(** ** Backends *)

Definition UpdateBackendHealth (backend : string) (healthy : bool) : Shared → Shared :=
  on_health <[backend := healthy]>.

Definition Contains (s sub : string) : bool := bool_decide (is_Some (String.index 0 sub s)).

Definition accepted (response : string) : bool :=
  Contains response "SIP/2.0 200" || Contains response "SIP/2.0 405"
  || Contains response "SIP/2.0 403".
(** The verdict on the response to the SIP OPTIONS of a probe; the arguments of
    the log messages slice the response. *)
Definition probe_verdict (response : string) : outcome bool :=
  if accepted response
  then slice_to response 15;; mret true
  else slice_to response 100;; mret false.
(** [None] is a probe that could not be sent or was not answered. *)
Definition testBackendConnection (backend : string) (answer : option string) : outcome bool :=
  if decide (backend = "") then Done false
  else match answer with None => Done false | Some response => probe_verdict response end.

Lemma slice_to_short s n : 0 <= n → slice_to s n =
  if Z.of_nat (String.length s) <? n then Panic SliceOutOfRange else Done (take_string (Z.to_nat n) s).
Proof. intros Hn. unfold slice_to. by rewrite (proj2 (Z.ltb_ge n 0)) by lia. Qed.

(** A probe panics on an answer shorter than the slice of its log message. *)
Definition short_answer (response : string) : bool :=
  Z.of_nat (String.length response) <? (if accepted response then 15 else 100).
Lemma probe_verdict_spec response :
  probe_verdict response
  = if short_answer response then Panic SliceOutOfRange else Done (accepted response).
Proof.
  unfold probe_verdict, short_answer.
  destruct (accepted response); rewrite slice_to_short by lia; by case_match.
Qed.

Fixpoint CheckBackendHealth (answers : string → option string) (backends : list string)
    (s : Shared) : outcome Shared :=
  match backends with
  | [] => Done s
  | b :: bs => healthy ← testBackendConnection b (answers b);
               CheckBackendHealth answers bs (UpdateBackendHealth b healthy s)
  end.

Section Server.
Context `{SIP} (config : ServerConfig).

Definition selectHealthyBackend (s : Shared) : string :=
  match BackendServers config with
  | [] => ServerName config
  | first :: _ =>
      match list_find (λ b, backendHealth s !! b = Some true) (BackendServers config) with
      | Some (_, b) => b
      | None => first
      end
  end.

Definition HasBackends : bool := negb (bool_decide (BackendServers config = [])).
Definition HasHealthyBackends (s : Shared) : bool :=
  bool_decide (map_Exists (λ _ healthy, healthy = true) (backendHealth s)).

(** ** A client *)

Definition close_conn (i : nat) : Shared → Shared := on_conns <[i := true]>.
Definition conn_closed (s : Shared) (i : nat) : bool := default true (conns s !! i).

Definition closeConnection (id : string) (sc : Shared * ClientConnection)
    : Shared * ClientConnection :=
  let '(s, c) := sc in
  if closed c then (s, c)
  else
    let s := match BackendConn c with Some i => close_conn i s | None => s end in
    let s := on_connections (.∖ {[ id ]}) s in
    (on_store (Delete ("ws:" +:+ id)) s, set_closed c).

(** [extractSIPState]: a request updates what is known of the session and
    stores it. *)
Definition update_tag (old : string) (tag : option string) : string :=
  match tag with Some t => if decide (t = "") then old else t | None => old end.
Definition extractSIPState (id : string) (now : Time) (m : sip_message)
    (sc : Shared * ClientConnection) : Shared * ClientConnection :=
  let '(s, c) := sc in
  match m with
  | Response => (s, c)
  | Request r =>
      let c := set_session (default (LastSIPCallID c) (rq_callID r))
                 (update_tag (LastSIPFromTag c) (rq_fromTag r))
                 (update_tag (LastSIPToTag c) (rq_toTag r)) c in
      if decide (LastSIPCallID c = "") then (s, c)
      else
        let stateData : gmap string jval :=
          {[ "clientID" := JStr id; "callID" := JStr (LastSIPCallID c);
             "fromTag" := JStr (LastSIPFromTag c); "toTag" := JStr (LastSIPToTag c);
             "backend" := JStr (CurrentBackend c); "timestamp" := JStr (pretty (Unix now)) ]} in
        (on_store (Set_ ("sip:session:" +:+ LastSIPCallID c) (Some (Json stateData)) (1 * Hour) now) s,
         c)
  end.

(** The domain mappings of a new client. *)
Definition target_domain (backend : string) : string :=
  if Contains backend "qa.qalqul.io" then "qa.qalqul.io"
  else if Contains backend "businessoperations.qalqul.io" then "businessoperations.qalqul.io"
  else "".
Definition SetDomainMapping (clientID platformDomain backendDomain : string) : Shared → Shared :=
  on_mappings <[clientID +:+ ":" +:+ platformDomain := backendDomain]>.
Definition map_domains (id backend : string) (s : Shared) : Shared :=
  let target := target_domain backend in
  if decide (target = "") then s
  else SetDomainMapping id "businessoperations.qalqul.io" target
         (SetDomainMapping id "platform.qalqul.io" target s).

(** ** The goroutines of a client *)

Inductive read_event : Type :=
| Blocked
| NormalClose
| ReadError
| Message (text : bool) (msg : string).   (* a text or a binary message *)

(** What the environment decides in a step: the clock, whether a dial or a write
    succeeds, what a read returns, the request of a handshake. *)
Record choice : Type := mkChoice {
  ch_now : Time; ch_dial : bool; ch_write : bool; ch_read : read_event;
  ch_valid : bool; ch_upgrade : bool }.

Inductive cthread : Type :=
(* handleClient *)
| HStart
| HDial (url : string)
| HWait
| HClose
(* the reader of the client *)
| WLoop
| WRead
| WForward (text : bool) (msg : string)
| WFailover (text : bool) (msg : string)
| WDial (url : string) (text : bool) (msg : string)
| WProcess (text : bool) (msg : string)
| WExit
(* the reader of the backend *)
| BLoop
| BRead (conn : nat)
| BFailover
| BDial (url : string)
| BMessage (text : bool) (msg : string)
| BForward (msg : string)
| BExit
(* finished; stopped by a panic, which takes the process down *)
| Finished
| Crashed.

(** A step: the shared state, the client, the thread, the threads it starts. *)
Definition local : Type := Shared * ClientConnection * cthread * list cthread.
Definition move (s : Shared) (c : ClientConnection) (p : cthread) : local := (s, c, p, []).
Definition fail_with (s : Shared) (c : ClientConnection) (p : cthread) : local :=
  (s, send_error c, p, []).

(** A backend that fails a client: the count, and at the threshold its health. *)
Definition count_error (s : Shared) (c : ClientConnection) (failover exit : cthread) : local :=
  let c := set_errors (int64_wrap (ErrorCount c + 1)) c in
  if FailoverThreshold config <=? ErrorCount c
  then move (UpdateBackendHealth (CurrentBackend c) false s) c failover
  else fail_with s c exit.

Definition handler_step (id : string) (ch : choice) (p : cthread) (s : Shared)
    (c : ClientConnection) : local :=
  match p with
  | HStart =>
      let c := set_deadline zero_time c in
      let url := selectHealthyBackend s in
      if decide (url = "") then move s c HClose else move s c (HDial url)
  | HDial url =>
      if negb (ch_dial ch) then move s c HClose
      else
        let i := length (conns s) in
        let s := map_domains id url (on_conns (λ l, l ++ [false]) s) in
        (s, set_backend i url c, HWait, [WLoop; BLoop])
  | HWait => if closed c || (0 <? errs c)%nat then move s c HClose else move s c HWait
  | HClose => let '(s, c) := closeConnection id (s, c) in move s c Finished
  | _ => move s c p
  end.

(** The reader of the client; a message goes to the backend rewritten. A failed
    write may fail over, and the message is then written once more. *)
Definition client_reader_step (id : string) (ch : choice) (p : cthread) (s : Shared)
    (c : ClientConnection) : local :=
  match p with
  | WLoop => move s c (if closed c then WExit else WRead)
  | WRead =>
      if closed c then fail_with s c WExit
      else match ch_read ch with
      | Blocked => move s c WRead
      | NormalClose => move s c WExit
      | ReadError => fail_with s c WExit
      | Message text msg =>
          let c := set_activity (ch_now ch) c in
          let '(s, c) :=
            match (if decide (msg = "") then None else ParseMessage msg) with
            | Some m => extractSIPState id (ch_now ch) m (s, c)
            | None => (s, c)
            end in
          let msg := if text && negb (bool_decide (msg = ""))
                     then RewriteClientToBackend (mappings s) id msg else msg in
          move s c (WForward text msg)
      end
  | WForward text msg =>
      match BackendConn c with
      | None => move s c (WProcess text msg)
      | Some i =>
          if ch_write ch && negb (conn_closed s i)
          then move s (set_errors 0 c) (WProcess text msg)
          else count_error s c (WFailover text msg) WExit
      end
  | WFailover text msg =>
      let url := selectHealthyBackend s in
      if decide (url ≠ "" ∧ url ≠ CurrentBackend c) then move s c (WDial url text msg)
      else fail_with s c WExit
  | WDial url text msg =>
      if negb (ch_dial ch) then fail_with s c WExit
      else
        let s := match BackendConn c with Some i => close_conn i s | None => s end in
        let i := length (conns s) in
        move (on_conns (λ l, l ++ [false]) s) (set_errors 0 (set_backend i url c)) WLoop
  | WProcess text msg =>
      let c := match (if decide (msg = "") then None else ParseMessage msg) with
               | Some (Request r) =>
                   match rq_from r with Some a => set_address a c | None => c end
               | _ => c
               end in
      move s c WLoop
  | WExit => move s (set_clientDone c) Finished
  | _ => move s c p
  end.

(** The reader of the backend; it reads from the connection it found when it
    entered the read. A CANCEL or BYE goes to the SIP handler even when there
    is none. *)
Definition critical (m : sip_message) : bool :=
  match m with
  | Request r => bool_decide (rq_method r = "CANCEL") || bool_decide (rq_method r = "BYE")
  | Response => false
  end.
Definition backend_reader_step (id : string) (ch : choice) (p : cthread) (s : Shared)
    (c : ClientConnection) : local :=
  match p with
  | BLoop =>
      if closed c || clientDone c then move s c BExit
      else match BackendConn c with
           | Some i => move s c (BRead i)
           | None => move s c Crashed
           end
  | BRead i =>
      match (if conn_closed s i then ReadError else ch_read ch) with
      | Blocked => move s c (BRead i)
      | NormalClose => move s c BExit
      | ReadError => count_error s c BFailover BExit
      | Message text msg => move s c (BMessage text msg)
      end
  | BFailover =>
      let url := selectHealthyBackend s in
      if decide (url ≠ "" ∧ url ≠ CurrentBackend c) then move s c (BDial url)
      else fail_with s c BExit
  | BDial url =>
      if negb (ch_dial ch) then fail_with s c BExit
      else
        let i := length (conns s) in
        move (on_conns (λ l, l ++ [false]) s) (set_errors 0 (set_backend i url c)) BLoop
  | BMessage text msg =>
      match (if decide (msg = "") then None else ParseMessage msg) with
      | None => move s c (BForward msg)
      | Some m =>
          let '(s, c) := extractSIPState id (ch_now ch) m (s, c) in
          if critical m && negb (handler s) then move s c Crashed else move s c (BForward msg)
      end
  | BForward msg =>
      if closed c then move s c BExit
      else if ch_write ch && can_write (ch_now ch) c then move s c BLoop
      else fail_with s c BExit
  | BExit => move s (set_backendDone c) Finished
  | _ => move s c p
  end.

Definition client_step (id : string) (ch : choice) (p : cthread) (s : Shared)
    (c : ClientConnection) : local :=
  match p with
  | HStart | HDial _ | HWait | HClose => handler_step id ch p s c
  | WLoop | WRead | WForward _ _ | WFailover _ _ | WDial _ _ _ | WProcess _ _ | WExit =>
      client_reader_step id ch p s c
  | BLoop | BRead _ | BFailover | BDial _ | BMessage _ _ | BForward _ | BExit =>
      backend_reader_step id ch p s c
  | Finished | Crashed => move s c p
  end.

(** ** The server *)

Inductive gthread : Type :=
(* handleWebSocket, from an address *)
| SCheck (addr : string)
| SBreaker (addr : string)
| SUpgrade (addr : string)
| SRegister (addr : string)
| SDone (accepted : bool)
| OfClient (id : string) (p : cthread)
(* the tick of the connection cleaner, Stop, and PrepareForFailover *)
| Sweeper
| Stopper
| Notifier.

Record sys : Type := mkSys {
  shared : Shared; clients : gmap string ClientConnection; threads : list gthread; dead : bool }.

Definition client_id (addr : string) (now : Time) : string :=
  addr +:+ "-" +:+ pretty (UnixNano now).
Definition new_client (addr : string) (now : Time) : ClientConnection :=
  mkClient addr now "" None "" 0 "" "" "" false false false 0 (Add now (30 * Second)).

(** The capacity is tested under the lock of the server, the client is added
    under the lock again. *)
Definition handshake_step (ch : choice) (p : gthread) (s : Shared)
    : Shared * gthread * option (string * ClientConnection) :=
  match p with
  | SCheck addr =>
      (s, if MaxConnections config <=? Z.of_nat (size (connections s))
          then SDone false else SBreaker addr, None)
  | SBreaker addr =>
      let '(allowed, cb) := AllowRequest (ch_now ch) (ch_now ch) (breaker s) in
      (on_breaker (λ _, cb) s,
       if allowed && ch_valid ch then SUpgrade addr else SDone false, None)
  | SUpgrade addr =>
      if ch_upgrade ch then (s, SRegister addr, None)
      else (on_breaker (RecordFailure (ch_now ch) (ch_now ch)) s, SDone false, None)
  | SRegister addr =>
      let id := client_id addr (ch_now ch) in
      let s := on_connections (.∪ {[ id ]}) s in
      let s := on_store (Set_ ("ws:" +:+ id) (Some (Raw addr)) (1 * Hour) (ch_now ch)) s in
      (on_breaker (RecordSuccess (ch_now ch)) s, SDone true, Some (id, new_client addr (ch_now ch)))
  | _ => (s, p, None)
  end.

(** [closeConnection] of the listed clients. *)
Definition close_one (s : Shared * gmap string ClientConnection) (id : string)
    : Shared * gmap string ClientConnection :=
  match s.2 !! id with
  | Some c => let '(s1, c) := closeConnection id (s.1, c) in (s1, <[id := c]> s.2)
  | None => s
  end.
Definition inactive (now : Time) (cs : gmap string ClientConnection) (id : string) : bool :=
  match cs !! id with
  | Some c => Before (LastActivity c) (Add now (- (30 * Minute)))
  | None => false
  end.
Definition cleanConnections (now : Time) (s : Shared) (cs : gmap string ClientConnection)
    : Shared * gmap string ClientConnection :=
  foldl close_one (s, cs) (filter (λ id, inactive now cs id = true) (elements (connections s))).
Definition closeAllConnections (s : Shared) (cs : gmap string ClientConnection)
    : Shared * gmap string ClientConnection :=
  foldl close_one (s, cs) (elements (connections s)).

(** The notification of the clients sets a deadline for its own writes, and
    leaves it set. *)
Definition notify (now : Time) (cs : gmap string ClientConnection) (id : string)
    : gmap string ClientConnection :=
  match cs !! id with
  | Some c => if closed c then cs else <[id := set_deadline (Add now (5 * Second)) c]> cs
  | None => cs
  end.
Definition PrepareForFailover (now : Time) (s : Shared) (cs : gmap string ClientConnection)
    : gmap string ClientConnection :=
  foldl (notify now) cs (elements (connections s)).

Definition is_crashed (p : cthread) : bool := match p with Crashed => true | _ => false end.

Definition step (t : nat) (ch : choice) (s : sys) : sys :=
  if dead s then s
  else match threads s !! t with
  | None => s
  | Some (OfClient id p) =>
      match clients s !! id with
      | None => s
      | Some c =>
          let '(sh, c, p, new) := client_step id ch p (shared s) c in
          mkSys sh (<[id := c]> (clients s))
            (<[t := OfClient id p]> (threads s) ++ (OfClient id <$> new)) (is_crashed p)
      end
  | Some Sweeper =>
      let '(sh, cs) := cleanConnections (ch_now ch) (shared s) (clients s) in
      mkSys sh cs (threads s) false
  | Some Stopper =>
      let '(sh, cs) := closeAllConnections (shared s) (clients s) in
      mkSys sh cs (threads s) false
  | Some Notifier =>
      mkSys (shared s) (PrepareForFailover (ch_now ch) (shared s) (clients s)) (threads s) false
  | Some p =>
      let '(sh, p, new) := handshake_step ch p (shared s) in
      match new with
      | Some (id, c) =>
          mkSys sh (<[id := c]> (clients s)) (<[t := p]> (threads s) ++ [OfClient id HStart]) false
      | None => mkSys sh (clients s) (<[t := p]> (threads s)) false
      end
  end.

Definition run (s : sys) (es : list (nat * choice)) : sys :=
  foldl (λ s e, step e.1 e.2 s) s es.
End Server.

(** ** What the threads of a client leave alone *)

#[local] Arguments closeConnection : simpl never.
#[local] Arguments extractSIPState : simpl never.
#[local] Arguments map_domains : simpl never.

Section Frame.
Context `{SIP} (config : ServerConfig).

(** Only its own registration, and of the backend connections that exist only
    its own; a backend it takes is a new connection. *)
Record frame (id : string) (sc sc' : Shared * ClientConnection) : Prop := {
  fr_connections : connections sc'.1 ⊆ connections sc.1;
  fr_others : connections sc.1 ∖ {[id]} ⊆ connections sc'.1;
  fr_length : (length (conns sc.1) <= length (conns sc'.1))%nat;
  fr_conns i : (i < length (conns sc.1))%nat → BackendConn sc.2 ≠ Some i →
    conns sc'.1 !! i = conns sc.1 !! i ∧ BackendConn sc'.2 ≠ Some i
}.

Lemma ws_frame_refl id s s' c c' :
  connections s' = connections s → conns s' = conns s → BackendConn c' = BackendConn c →
  frame id (s, c) (s', c').
Proof. intros Hs Hc Hb. split; simpl; rewrite ?Hs, ?Hc, ?Hb; [done|set_solver|lia|done]. Qed.

Lemma ws_frame_trans id a b d : frame id a b → frame id b d → frame id a d.
Proof.
  intros [H1 H2 H3 H4] [K1 K2 K3 K4]. split; [set_solver|set_solver|lia|].
  intros i Hi Hb. destruct (H4 i Hi Hb) as [E1 B1]. destruct (K4 i ltac:(lia) B1) as [E2 B2].
  split; [congruence|done].
Qed.

Lemma frame_new_conn id s c url e :
  frame id (s, c) (on_conns (λ l, l ++ [false]) s, set_errors e (set_backend (length (conns s)) url c)).
Proof.
  destruct s as [h cs l b m hd w], c. split; simpl; [done|set_solver|rewrite length_app; lia|].
  intros i Hi _. split; [by rewrite lookup_app_l|]. intros [= Heq]. lia.
Qed.

Lemma frame_dial id s c url :
  frame id (s, c) (on_conns (λ l, l ++ [false]) s, set_backend (length (conns s)) url c).
Proof.
  eapply ws_frame_trans; [apply (frame_new_conn id s c url 0)|].
  apply ws_frame_refl; [done|done|by destruct c].
Qed.

Lemma frame_close_conn id s c :
  frame id (s, c) (match BackendConn c with Some i => close_conn i s | None => s end, c).
Proof.
  destruct s as [h cs l b m hd w]. destruct (BackendConn c) as [j|] eqn:Hb; [|by apply ws_frame_refl].
  split; simpl; [done|set_solver|by rewrite length_insert|].
  intros i Hi Hne. split; [|done]. rewrite list_lookup_insert_ne; [done|]. intros ->. by apply Hne.
Qed.

Lemma frame_closeConnection id s c : frame id (s, c) (closeConnection id (s, c)).
Proof.
  unfold closeConnection. destruct (closed c); [by apply ws_frame_refl|].
  eapply ws_frame_trans; [apply frame_close_conn|].
  set (s1 := match BackendConn c with Some i => _ | None => _ end). clearbody s1.
  destruct s1 as [h cs l b m hd w], c. split; simpl; [set_solver|set_solver|done|done].
Qed.

Lemma frame_extract id now m s c : frame id (s, c) (extractSIPState id now m (s, c)).
Proof.
  unfold extractSIPState. destruct m as [r|]; [|by apply ws_frame_refl].
  case_decide; apply ws_frame_refl; by destruct s, c.
Qed.

Lemma map_domains_fields id url s :
  connections (map_domains id url s) = connections s ∧ conns (map_domains id url s) = conns s.
Proof. unfold map_domains, SetDomainMapping. case_decide; [done|]. by destruct s. Qed.

Lemma frame_count_error id s c p q : frame id (s, c) (count_error config s c p q).1.1.
Proof. unfold count_error. case_match; apply ws_frame_refl; by destruct s, c. Qed.

Lemma frame_step id ch p s c : frame id (s, c) (client_step config id ch p s c).1.1.
Proof.
  destruct p; simpl; try (by apply ws_frame_refl); repeat case_match; simpl;
    try (by apply ws_frame_refl); try apply frame_count_error; try (apply ws_frame_refl; by destruct s, c).
  all: try (match goal with E : _ = (?s0, ?c0) |- frame _ _ (?s0, ?c0) => rewrite <-E end).
  all: try apply frame_closeConnection; try (apply ws_frame_refl; by destruct c).
  all: try (eapply ws_frame_trans; [|apply frame_extract]; apply ws_frame_refl; by destruct c).
  all: try apply frame_new_conn.
  - eapply ws_frame_trans; [apply frame_dial|]. apply ws_frame_refl; [apply map_domains_fields..|done].
  - pose proof (frame_close_conn id s c) as Hc.
    match goal with E : BackendConn c = Some _ |- _ => rewrite E in Hc end.
    eapply ws_frame_trans; [exact Hc|apply frame_new_conn].
Qed.

(** No other client uses a backend connection. *)
Definition owned (id : string) (i : nat) (cs : gmap string ClientConnection) : Prop :=
  ∀ id' c', id' ≠ id → cs !! id' = Some c' → BackendConn c' ≠ Some i.

(** A step for another client leaves a client's slot and connection alone. *)
Lemma frame_slot id id' i s s' c' c1 cs :
  id' ≠ id → cs !! id' = Some c' → owned id i cs → (i < length (conns s))%nat →
  frame id' (s, c') (s', c1) →
  <[id' := c1]> cs !! id = cs !! id ∧ (id ∈ connections s → id ∈ connections s') ∧
  conns s' !! i = conns s !! i ∧ owned id i (<[id' := c1]> cs).
Proof.
  intros Hne Hc' Hown Hi [_ Hoth _ Hconns]. simpl in *.
  destruct (Hconns i Hi (Hown _ _ Hne Hc')) as [E B]. split_and!.
  - by rewrite lookup_insert_ne.
  - set_solver.
  - done.
  - intros id2 c2 Hne2 [[<- <-]|[_ Hc2]]%lookup_insert_Some; [done|by eapply Hown].
Qed.

Lemma close_list_slot id i ids : ∀ s cs,
  id ∉ ids → owned id i cs → (i < length (conns s))%nat →
  let r := foldl close_one (s, cs) ids in
  r.2 !! id = cs !! id ∧ (id ∈ connections s → id ∈ connections r.1) ∧
  conns r.1 !! i = conns s !! i ∧ owned id i r.2.
Proof.
  induction ids as [|id' ids IH]; intros s cs Hni Hown Hi; simpl; [done|].
  apply not_elem_of_cons in Hni as [Hne Hni]. unfold close_one at 2 4 6 8. simpl.
  destruct (cs !! id') as [c'|] eqn:Hc'; [|by apply IH].
  pose proof (frame_closeConnection id' s c') as Hf.
  destruct (closeConnection id' (s, c')) as [s1 c1].
  destruct (frame_slot id id' i s s1 c' c1 cs) as (E1&E2&E3&E4); try done.
  pose proof (fr_length _ _ _ Hf) as Hlen. simpl in Hlen.
  destruct (IH s1 (<[id' := c1]> cs) Hni E4) as (F1&F2&F3&F4); [lia|].
  split_and!; [congruence|tauto|congruence|done].
Qed.

Lemma close_list_connections ids : ∀ s cs,
  connections (foldl close_one (s, cs) ids).1 ⊆ connections s.
Proof.
  induction ids as [|id ids IH]; intros s cs; simpl; [done|].
  unfold close_one at 2. simpl. destruct (cs !! id) as [c|]; [|by apply IH].
  pose proof (frame_closeConnection id s c) as Hf.
  destruct (closeConnection id (s, c)) as [s1 c1]. etrans; [apply IH|].
  apply (fr_connections _ _ _ Hf).
Qed.
End Frame.

(** ** The capacity *)

Section Capacity.
Context `{SIP} (config : ServerConfig).

(** Handshakes between the test of the capacity and the registration. *)
Definition past_check (p : gthread) : bool :=
  match p with SBreaker _ | SUpgrade _ | SRegister _ => true | _ => false end.
Definition count_past (ts : list gthread) : nat := length (filter (λ p, past_check p = true) ts).
Definition in_flight (s : sys) : nat := count_past (threads s).

Lemma count_past_insert t p q ts :
  ts !! t = Some p →
  (count_past (<[t := q]> ts) + (if past_check p then 1 else 0)
   = count_past ts + (if past_check q then 1 else 0))%nat.
Proof.
  unfold count_past.
  revert t. induction ts as [|x ts IH]; intros [|t] Ht; simplify_eq/=.
  - rewrite !filter_cons. destruct (past_check p), (past_check q); simpl; lia.
  - specialize (IH t Ht). rewrite !filter_cons. case_decide; simpl; lia.
Qed.

Lemma count_past_app ts new : count_past (ts ++ new) = (count_past ts + count_past new)%nat.
Proof. unfold count_past. by rewrite filter_app, length_app. Qed.

Lemma count_past_clients id (new : list cthread) : count_past (OfClient id <$> new) = 0%nat.
Proof.
  induction new; [done|]. unfold count_past. rewrite fmap_cons, filter_cons.
  by rewrite decide_False.
Qed.

(** With [h] handshakes in flight at most, what is taken and promised. *)
Definition room (h : nat) (s : sys) : Prop :=
  Z.of_nat (size (connections (shared s))) + Z.of_nat (in_flight s)
  <= MaxConnections config + Z.of_nat h - 1.

Lemma room_mono h s s' :
  room h s → connections (shared s') ⊆ connections (shared s) →
  (in_flight s' <= in_flight s)%nat → room h s'.
Proof. unfold room. intros ? Hc%subseteq_size ?. lia. Qed.

Lemma handshake_room h t ch s p sh q new :
  threads s !! t = Some p → handshake_step config ch p (shared s) = (sh, q, new) → room h s →
  (in_flight (mkSys sh (clients s) (<[t := q]> (threads s)) false) <= h)%nat →
  Z.of_nat (size (connections sh)) + Z.of_nat (count_past (<[t := q]> (threads s)))
  <= MaxConnections config + Z.of_nat h - 1.
Proof.
  unfold room, in_flight. simpl. intros Hp E Hroom Hh.
  pose proof (count_past_insert t p q _ Hp) as Hi.
  assert (∀ f, connections (on_breaker f (shared s)) = connections (shared s)) as Hb
    by (by destruct (shared s)).
  destruct p as [addr|addr|addr|addr|acc|id p| | |]; simpl in *; simplify_eq/=; try lia.
  - destruct (Z.leb_spec (MaxConnections config) (Z.of_nat (size (connections (shared s)))));
      simpl in *; lia.
  - destruct (AllowRequest _ _ _) as [allowed cb]. simplify_eq. rewrite Hb.
    destruct (allowed && ch_valid ch); simpl in *; lia.
  - destruct (ch_upgrade ch); simplify_eq; rewrite ?Hb; simpl in *; lia.
  - destruct (shared s) as [hh cs cn b m hd w]. simpl in *.
    pose proof (size_union_alt cs {[client_id addr (ch_now ch)]}) as Hsz.
    pose proof (subseteq_size ({[client_id addr (ch_now ch)]} ∖ cs) {[client_id addr (ch_now ch)]}
      ltac:(set_solver)) as Hs1. rewrite size_singleton in Hs1. lia.
Qed.

Lemma room_step h t ch s :
  (in_flight (step config t ch s) <= h)%nat → room h s → room h (step config t ch s).
Proof.
  unfold step. destruct (dead s); [done|].
  destruct (threads s !! t) as [p|] eqn:Hp; [|done]. intros Hh Hroom.
  destruct p as [addr|addr|addr|addr|acc|id p| | |].
  6: { destruct (clients s !! id) as [c|]; [|done].
       pose proof (frame_step config id ch p (shared s) c) as Hf.
       destruct (client_step _ _ _ _ _ _) as [[[sh c'] p'] new].
       eapply room_mono; [exact Hroom|apply (fr_connections _ _ _ Hf)|].
       unfold in_flight. simpl. rewrite count_past_app, count_past_clients.
       pose proof (count_past_insert t _ (OfClient id p') _ Hp). simpl in *. lia. }
  8: by eapply room_mono.
  6-7: match goal with |- context [let '(_, _) := ?f in _] => destruct f as [sh cs] eqn:E end;
    (eapply room_mono; [exact Hroom| |done]); simpl;
    change sh with (sh, cs).1; rewrite <-E; apply close_list_connections.
  all: destruct (handshake_step _ _ _ _) as [[sh q] new] eqn:E;
    assert (room h (mkSys sh (clients s) (<[t := q]> (threads s)) false)) as Hr
      by (eapply handshake_room; [exact Hp|exact E|exact Hroom|];
          destruct new as [[]|]; [|exact Hh]; unfold in_flight in *; simpl in *;
          rewrite count_past_app in Hh; unfold count_past in *; simpl in *; lia);
    destruct new as [[id c]|]; [|exact Hr];
    unfold room, in_flight in *; simpl in *; rewrite count_past_app;
    unfold count_past in *; simpl in *; lia.
Qed.
End Capacity.

(** ** A client that has gone *)

Section Slot.
Context `{SIP} (config : ServerConfig).

(** The client closed its connection in the normal way and nothing has failed:
    the handler waits, the reader of the client is over, the reader of the
    backend waits for the backend or is over. *)
Record abandoned (id : string) (h w b i : nat) (act : Time) (s : sys) : Prop := {
  ab_client : ∃ c, clients s !! id = Some c ∧ closed c = false ∧ errs c = 0%nat ∧
    BackendConn c = Some i ∧ LastActivity c = act;
  ab_slot : id ∈ connections (shared s);
  ab_conn : conns (shared s) !! i = Some false;
  ab_owned : owned id i (clients s);
  ab_handler : threads s !! h = Some (OfClient id HWait);
  ab_reader : ∃ p, threads s !! w = Some (OfClient id p) ∧ (p = WExit ∨ p = Finished);
  ab_backend : ∃ p, threads s !! b = Some (OfClient id p) ∧
    (p = BLoop ∨ p = BRead i ∨ p = BExit ∨ p = Finished);
  ab_threads : ∀ t p, threads s !! t = Some (OfClient id p) → t = h ∨ t = w ∨ t = b;
  ab_distinct : w ≠ b;
  ab_running : Stopper ∉ threads s
}.

(** Until then the backend stays silent or closes in the normal way, no other
    connection gets the same identifier, and no cleaner finds the client
    inactive for half an hour. *)
Definition undisturbed (id : string) (b : nat) (act : Time) (e : nat * choice) : Prop :=
  (e.1 = b → ch_read e.2 = Blocked ∨ ch_read e.2 = NormalClose) ∧
  (∀ addr, client_id addr (ch_now e.2) ≠ id) ∧
  ch_now e.2 <= act + 30 * Minute.

Lemma owned_insert id i c cs : owned id i cs → owned id i (<[id := c]> cs).
Proof.
  intros Hown id' c' Hne [[? _]|[_ Hc]]%lookup_insert_Some; [congruence|by eapply Hown].
Qed.

(** A step of one of the client's own threads. *)
Lemma abandoned_own id h w b i act t ch s c' p p' :
  abandoned id h w b i act s → threads s !! t = Some (OfClient id p) →
  closed c' = false → errs c' = 0%nat → BackendConn c' = Some i → LastActivity c' = act →
  (t = h → p' = HWait) → (t = w → p' = WExit ∨ p' = Finished) →
  (t = b → p' = BLoop ∨ p' = BRead i ∨ p' = BExit ∨ p' = Finished) →
  abandoned id h w b i act
    (mkSys (shared s) (<[id := c']> (clients s))
       (<[t := OfClient id p']> (threads s) ++ (OfClient id <$> [])) ch).
Proof.
  intros [Hc Hs Hi Ho Hh (pw&Hw&Hpw) (pb&Hb&Hpb) Ht Hd Hst] Hp Hcl He Hbc Hla H1 H2 H3.
  assert (t < length (threads s))%nat as Hlt by (by eapply lookup_lt_Some).
  assert (∀ u q, threads s !! u = Some (OfClient id q) →
    ∃ q', <[t := OfClient id p']> (threads s) !! u = Some (OfClient id q') ∧
      ((u = t ∧ q' = p') ∨ (u ≠ t ∧ q' = q))) as Hlook.
  { intros u q Hu. destruct (decide (u = t)) as [->|Hne].
    - exists p'. rewrite list_lookup_insert_eq by done. auto.
    - exists q. rewrite list_lookup_insert_ne by done. auto. }
  simpl. rewrite app_nil_r. split; simpl; try done.
  - exists c'. by rewrite lookup_insert_eq.
  - by apply owned_insert.
  - destruct (Hlook h _ Hh) as (q&E&[[-> ->]|[_ ->]]); [by rewrite E, H1|done].
  - destruct (Hlook w _ Hw) as (q&E&[[-> ->]|[_ ->]]); eauto.
  - destruct (Hlook b _ Hb) as (q&E&[[-> ->]|[_ ->]]); eauto.
  - intros u q Hu. destruct (decide (u = t)) as [->|Hne].
    + rewrite list_lookup_insert_eq in Hu by done. by eapply Ht.
    + rewrite list_lookup_insert_ne in Hu by done. by eapply Ht.
  - intros (u&Hu)%list_elem_of_lookup. destruct (decide (u = t)) as [->|Hne].
    + by rewrite list_lookup_insert_eq in Hu.
    + rewrite list_lookup_insert_ne in Hu by done. by apply Hst, list_elem_of_lookup; exists u.
Qed.
End Slot.

Section Slot2.
Context `{SIP} (config : ServerConfig).

Lemma owned_new id i id' addr now cs :
  owned id i cs → id' ≠ id → owned id i (<[id' := new_client addr now]> cs).
Proof.
  intros Hown Hne id2 c2 Hne2 [[<- <-]|[_ Hc]]%lookup_insert_Some; [done|by eapply Hown].
Qed.

(** A step of any other thread: it changes its own entry and adds threads of
    other clients. *)
Lemma abandoned_other id h w b i act t s sh cs q new p d :
  abandoned id h w b i act s → threads s !! t = Some p →
  (∀ p', p ≠ OfClient id p') → (∀ p', q ≠ OfClient id p') → q ≠ Stopper →
  Forall (λ p, ∃ id' p', p = OfClient id' p' ∧ id' ≠ id) new →
  cs !! id = clients s !! id → (id ∈ connections (shared s) → id ∈ connections sh) →
  conns sh !! i = conns (shared s) !! i → owned id i cs →
  abandoned id h w b i act (mkSys sh cs (<[t := q]> (threads s) ++ new) d).
Proof.
  intros [Hc Hs Hi Ho Hh (pw&Hw&Hpw) (pb&Hb&Hpb) Ht Hd Hst] Hp Hpo Hqo Hqs Hnew E1 E2 E3 E4.
  assert (∀ u r, threads s !! u = Some (OfClient id r) →
    (<[t := q]> (threads s) ++ new) !! u = Some (OfClient id r)) as Hold.
  { intros u r Hu. rewrite lookup_app_l by (rewrite length_insert; by eapply lookup_lt_Some).
    rewrite list_lookup_insert_ne; [done|]. intros ->. simplify_eq. by eapply Hpo. }
  rewrite Forall_forall in Hnew. split; simpl; try done.
  - by rewrite E1.
  - by apply E2.
  - by rewrite E3.
  - by apply Hold.
  - exists pw. split; [by apply Hold|done].
  - exists pb. split; [by apply Hold|done].
  - intros u r [Hu|[_ Hu]]%lookup_app_Some.
    + apply list_lookup_insert_Some in Hu as [(->&->&_)|[_ Hu]]; [by destruct (Hqo r)|].
      by eapply Ht.
    + apply list_elem_of_lookup_2, Hnew in Hu as (id'&p'&?&?). congruence.
  - intros [Hin|Hin]%elem_of_app.
    + apply list_elem_of_lookup in Hin as [u Hu].
      apply list_lookup_insert_Some in Hu as [(_&?&_)|[_ Hu]]; [done|].
      by apply list_elem_of_lookup_2 in Hu.
    + apply Hnew in Hin as (?&?&?&_). done.
Qed.

(** A notification of the clients changes nothing but deadlines. *)
Lemma notify_lookup now ids : ∀ cs id,
  foldl (notify now) cs ids !! id = cs !! id ∨
  ∃ c, cs !! id = Some c ∧
    foldl (notify now) cs ids !! id = Some (set_deadline (Add now (5 * Second)) c).
Proof.
  induction ids as [|id' ids IH]; intros cs id; simpl; [by left|].
  assert (notify now cs id' !! id = cs !! id ∨ ∃ c, cs !! id = Some c ∧
    notify now cs id' !! id = Some (set_deadline (Add now (5 * Second)) c)) as Hn.
  { unfold notify. destruct (cs !! id') as [c|] eqn:Hc; [|by left]. destruct (closed c); [by left|].
    destruct (decide (id' = id)) as [->|Hne].
    - right. exists c. by rewrite lookup_insert_eq.
    - left. by rewrite lookup_insert_ne. }
  destruct (IH (notify now cs id') id) as [E|(c&Ec&E)]; rewrite E.
  - destruct Hn as [Hn|(c&Hc&Hn)]; rewrite Hn; eauto.
  - destruct Hn as [Hn|(c1&Hc&Hn)]; rewrite Hn in Ec; [by eauto|]. simplify_eq.
    right. exists c1. split; [done|]. by destruct c1.
Qed.

Lemma abandoned_notify id h w b i act s now :
  abandoned id h w b i act s →
  abandoned id h w b i act
    (mkSys (shared s) (PrepareForFailover now (shared s) (clients s)) (threads s) false).
Proof.
  intros [(c&Hc&?&?&?&?) ? ? Ho ? ? ? ? ? ?]. unfold PrepareForFailover. split; simpl; try done.
  - destruct (notify_lookup now (elements (connections (shared s))) (clients s) id)
      as [E|(c'&Ec&E)]; rewrite E; [by exists c|].
    exists (set_deadline (Add now (5 * Second)) c'). simplify_eq. by destruct c.
  - intros id2 c2 Hne Hc2.
    destruct (notify_lookup now (elements (connections (shared s))) (clients s) id2)
      as [E|(c'&Ec&E)]; rewrite E in Hc2; [by eapply Ho|]. simplify_eq.
    pose proof (Ho _ _ Hne Ec). by destruct c'.
Qed.

(** A step of one of the client's own threads changes little. *)
Lemma own_step id h w b i act t ch s c p :
  abandoned id h w b i act s → undisturbed id b act (t, ch) →
  threads s !! t = Some (OfClient id p) → clients s !! id = Some c →
  let '(sh, c', p', new) := client_step config id ch p (shared s) c in
  sh = shared s ∧ new = [] ∧ closed c' = false ∧ errs c' = 0%nat ∧
  BackendConn c' = Some i ∧ LastActivity c' = act ∧
  (t = h → p' = HWait) ∧ (t = w → p' = WExit ∨ p' = Finished) ∧
  (t = b → p' = BLoop ∨ p' = BRead i ∨ p' = BExit ∨ p' = Finished).
Proof.
  intros [(c0&Hc&Hcl&He&Hbc&Hla) _ Hi _ Hh (pw&Hw&Hpw) (pb&Hb&Hpb) Ht Hd _] (Hread&_) Hp Hc'.
  assert (c0 = c) as -> by congruence.
  assert (∀ r, t = b → threads s !! t = Some (OfClient id r) → p = r) as Hr by congruence.
  destruct (Ht _ _ Hp) as [->|[->| ->]].
  - assert (p = HWait) as -> by congruence. simpl. rewrite Hcl, He. simpl.
    split_and!; try done; intros ->; exfalso; destruct_or?; simplify_eq.
  - assert (p = pw) as -> by congruence. destruct Hpw as [-> | ->]; simpl.
    all: split_and!; try done; try (by destruct c); try (intros ->; exfalso; simplify_eq; done);
      auto.
  - assert (p = pb) as -> by congruence. specialize (Hread eq_refl). simpl in Hread.
    assert (b ≠ h) as Hbh by (intros ->; destruct_or?; simplify_eq).
    destruct Hpb as [-> |[-> |[-> | ->]]]; simpl; unfold conn_closed;
      rewrite ?Hcl, ?Hbc, ?Hi; simpl; [destruct (clientDone c)|destruct Hread as [-> | ->]|..];
      simpl; split_and!; try done; try (by destruct c); auto.
Qed.

Lemma handshake_slot id h w b i act t ch s p :
  abandoned id h w b i act s → undisturbed id b act (t, ch) → threads s !! t = Some p →
  past_check p = true ∨ (∃ addr, p = SCheck addr) ∨ (∃ acc, p = SDone acc) →
  let '(sh, q, new) := handshake_step config ch p (shared s) in
  match new with
  | Some (id', c) => abandoned id h w b i act
      (mkSys sh (<[id' := c]> (clients s)) (<[t := q]> (threads s) ++ [OfClient id' HStart]) false)
  | None => abandoned id h w b i act (mkSys sh (clients s) (<[t := q]> (threads s)) false)
  end.
Proof.
  intros Hab (_&Hids&_) Hp Hkind.
  assert (∀ sh q, (∀ p', q ≠ OfClient id p') → q ≠ Stopper →
    connections sh = connections (shared s) → conns sh = conns (shared s) →
    abandoned id h w b i act (mkSys sh (clients s) (<[t := q]> (threads s)) false)) as Hnone.
  { intros sh q Hq Hqs Hcs Hcn.
    pose proof (abandoned_other id h w b i act t s sh (clients s) q [] p false Hab Hp) as Ho.
    rewrite app_nil_r in Ho. apply Ho; try done.
    - intros p' ->. destruct Hkind as [?|[[]|[]]]; done.
    - by rewrite Hcs.
    - by rewrite Hcn.
    - apply (ab_owned _ _ _ _ _ _ _ Hab). }
  destruct p as [addr|addr|addr|addr|acc|id' p| | |]; simpl;
    try (destruct Hkind as [?|[[]|[]]]; done).
  - case_match; by apply Hnone.
  - destruct (AllowRequest _ _ _) as [allowed cb].
    apply Hnone; try (by destruct (allowed && ch_valid ch)); by destruct (shared s).
  - destruct (ch_upgrade ch); apply Hnone; try done; by destruct (shared s).
  - assert (client_id addr (ch_now ch) ≠ id) as Hne by apply Hids.
    eapply abandoned_other; try done.
    + constructor; [|done]. by eexists _, _.
    + by rewrite lookup_insert_ne.
    + destruct (shared s). simpl. set_solver.
    + by destruct (shared s).
    + apply owned_new; [by destruct Hab|done].
  - by apply Hnone.
Qed.

Lemma abandoned_step id h w b i act t ch s :
  undisturbed id b act (t, ch) → abandoned id h w b i act s →
  abandoned id h w b i act (step config t ch s).
Proof.
  intros Hund Hab. pose proof Hund as (_&_&Hnow). unfold step. destruct (dead s); [done|].
  destruct (threads s !! t) as [p|] eqn:Hp; [|done].
  pose proof Hab as [(c&Hc&Hcl&He&Hbc&Hla) Hs Hi Ho Hh (pw&Hw&Hpw) (pb&Hb&Hpb) Ht Hd Hst].
  assert (i < length (conns (shared s)))%nat as Hlen by (by eapply lookup_lt_Some).
  destruct p as [addr|addr|addr|addr|acc|id' p| | |].
  7: { (* the cleaner *)
    destruct (cleanConnections _ _ _) as [sh cs] eqn:E. unfold cleanConnections in E.
    match type of E with foldl _ _ ?ids = _ => destruct (close_list_slot id i ids (shared s)
      (clients s)) as (F1&F2&F3&F4); [|done|done|] end.
    { intros [Hin _]%list_elem_of_filter. unfold inactive in Hin. rewrite Hc, Hla in Hin.
      unfold Before, Add in Hin. apply Z.ltb_lt in Hin. simpl in Hnow. lia. }
    rewrite E in F1, F2, F3, F4. simpl in *.
    replace (threads s) with (<[t := Sweeper]> (threads s) ++ [])
      by (rewrite app_nil_r; by apply list_insert_id).
    by eapply abandoned_other. }
  7: { exfalso. apply Hst, list_elem_of_lookup. by exists t. }
  7: by apply abandoned_notify.
  6: { (* a thread of a client *)
    destruct (decide (id' = id)) as [->|Hne].
    - rewrite Hc. assert (t = h ∨ t = w ∨ t = b) as Hcase by (by eapply Ht).
      pose proof (own_step id h w b i act t ch s c p Hab Hund Hp Hc) as Hown.
      destruct (client_step config id ch p (shared s) c) as [[[sh c'] p'] new].
      destruct Hown as (->&->&?&?&?&?&?&?&?). by eapply abandoned_own.
    - destruct (clients s !! id') as [c0|] eqn:Hc0; [|done].
      pose proof (frame_step config id' ch p (shared s) c0) as Hf.
      destruct (client_step _ _ _ _ _ _) as [[[sh c'] p'] new].
      destruct (frame_slot id id' i (shared s) sh c0 c' (clients s)) as (F1&F2&F3&F4); try done.
      eapply abandoned_other; try done; [by intros ? [= ? _]|by intros ? [= ? _]|].
      apply Forall_fmap, Forall_forall. intros x _. simpl. eauto. }
  all: pose proof (handshake_slot id h w b i act t ch s _ Hab Hund Hp) as Hhs;
    destruct (handshake_step _ _ _ _) as [[sh q] [[id' c']|]]; apply Hhs; eauto.
Qed.
End Slot2.

(** ** A notified client *)

Section Notified.
Context `{SIP} (config : ServerConfig).

(** The deadline of the notification stays on the connection: only the start of
    the handler resets it. *)
Definition noticed (id : string) (n : nat) (d : Time) (s : sys) : Prop :=
  (∃ c, clients s !! id = Some c ∧ writeDeadline c = d) ∧
  ∀ u p, threads s !! u = Some p → p ≠ OfClient id HStart ∧ (p = Notifier → u = n).

Lemma extract_deadline id now m s c :
  writeDeadline (extractSIPState id now m (s, c)).2 = writeDeadline c.
Proof. unfold extractSIPState. destruct m; [|done]. case_decide; by destruct c. Qed.

Lemma close_deadline id s c : writeDeadline (closeConnection id (s, c)).2 = writeDeadline c.
Proof. unfold closeConnection. destruct (closed c); [done|]. by destruct c. Qed.

Lemma step_deadline id ch p s c :
  p ≠ HStart → writeDeadline (client_step config id ch p s c).1.1.2 = writeDeadline c.
Proof.
  intros Hp. pose proof (close_deadline id s c) as Hcl.
  destruct p; simpl; try done; repeat case_match; simplify_eq/=; try done; try (by destruct c);
    unfold count_error; repeat case_match; simplify_eq/=; try (by destruct c); try congruence.
  all: match goal with E : extractSIPState _ ?now ?m (?s', ?c') = (?s0, ?c0) |- _ =>
      pose proof (extract_deadline id now m s' c') as Hx; rewrite E in Hx; simpl in Hx; rewrite Hx;
      by destruct c
    end.
Qed.

Lemma close_list_deadline ids id d : ∀ s cs,
  (∃ c, cs !! id = Some c ∧ writeDeadline c = d) →
  ∃ c, (foldl close_one (s, cs) ids).2 !! id = Some c ∧ writeDeadline c = d.
Proof.
  induction ids as [|id' ids IH]; intros s cs Hc; simpl; [done|].
  unfold close_one at 2. simpl. destruct (cs !! id') as [c'|] eqn:Hc'; [|by apply IH].
  destruct (closeConnection id' (s, c')) as [s1 c1] eqn:E. apply IH.
  destruct Hc as (c&Hc&Hd). destruct (decide (id' = id)) as [->|Hne].
  - exists c1. rewrite lookup_insert_eq. split; [done|]. simplify_eq.
    pose proof (close_deadline id s c) as Hcl. by rewrite E in Hcl.
  - exists c. by rewrite lookup_insert_ne.
Qed.

Lemma noticed_step id n d t ch s :
  t ≠ n → (∀ addr, client_id addr (ch_now ch) ≠ id) →
  noticed id n d s → noticed id n d (step config t ch s).
Proof.
  intros Htn Hids [Hc Hst]. unfold step. destruct (dead s); [done|].
  destruct (threads s !! t) as [p|] eqn:Hp; [|done].
  assert (∀ q new, q ≠ OfClient id HStart → q ≠ Notifier →
    (∀ x, x ∈ new → x ≠ OfClient id HStart ∧ x ≠ Notifier) →
    ∀ u x, (<[t := q]> (threads s) ++ new) !! u = Some x →
      x ≠ OfClient id HStart ∧ (x = Notifier → u = n)) as Hins.
  { intros q new Hq Hqn Hnew u x [Hu|[_ Hu]]%lookup_app_Some.
    - apply list_lookup_insert_Some in Hu as [(_&->&_)|[_ Hu]]; [by split|by apply Hst].
    - apply list_elem_of_lookup_2, Hnew in Hu as [? ?]. by split. }
  destruct p as [addr|addr|addr|addr|acc|id' p| | |]; [..|by destruct Htn; apply (Hst t Notifier)].
  7-8: match goal with |- context [let '(_, _) := ?f in _] => destruct f as [sh cs] eqn:E end;
    (split; [|done]); simpl; change cs with (sh, cs).2; rewrite <-E; by apply close_list_deadline.
  6: { destruct (clients s !! id') as [c0|] eqn:Hc0; [|done].
    pose proof (Hst _ _ Hp) as [Hns _].
    pose proof (step_deadline id' ch p (shared s) c0) as Hd.
    assert (∀ q, q ∈ (client_step config id' ch p (shared s) c0).2 → q ≠ HStart) as Hnew.
    { intros q. destruct p; simpl; repeat case_match; simpl; rewrite ?elem_of_cons, ?elem_of_nil;
        intros; destruct_or?; simplify_eq; try done.
      all: unfold count_error in *; repeat case_match; set_solver. }
    assert (p ≠ HStart → (client_step config id' ch p (shared s) c0).1.2 ≠ HStart) as Hp'.
    { destruct p; simpl; intros ?; unfold count_error; repeat case_match; done. }
    assert (id' = id → p ≠ HStart) as Hpn by (intros -> ->; done).
    assert (p = HStart → (client_step config id' ch p (shared s) c0).1.2 ≠ HStart) as Hp2.
    { intros ->. simpl. by case_match. }
    destruct (client_step _ _ _ _ _ _) as [[[sh c'] p'] new]. simpl in *. split; simpl.
    - destruct Hc as (c&Hc&Hcd). destruct (decide (id' = id)) as [->|Hne].
      + exists c'. rewrite lookup_insert_eq. split; [done|]. simplify_eq. apply Hd. tauto.
      + exists c. by rewrite lookup_insert_ne.
    - apply Hins; [|done|].
      + intros [= -> ->]. by apply Hp'; [tauto|].
      + intros x (q&->&Hq)%list_elem_of_fmap. split; [|done]. intros [= _ ->]. by apply (Hnew HStart). }
  all: destruct (handshake_step _ _ _ _) as [[sh q] new] eqn:E;
    assert (q ≠ OfClient id HStart ∧ q ≠ Notifier) as [Hq1 Hq2]
      by (unfold handshake_step in E; repeat case_match; simplify_eq/=; repeat case_match; done);
    destruct new as [[id2 c2]|];
    [|split; [done|]; simpl; rewrite <-(app_nil_r (<[t := q]> (threads s)));
      apply Hins; [done|done|by intros x ?%not_elem_of_nil]];
    assert (id2 ≠ id) as Hne
      by (unfold handshake_step in E; repeat case_match; simplify_eq/=; repeat case_match;
          simplify_eq/=; apply Hids);
    (split; simpl; [destruct Hc as (c&Hc&Hcd); exists c; by rewrite lookup_insert_ne|]);
    (apply Hins; [done|done|]);
    intros x ->%list_elem_of_singleton; (split; [congruence|done]).
Qed.

Lemma noticed_run id n d es s :
  Forall (λ e, e.1 ≠ n ∧ ∀ addr, client_id addr (ch_now e.2) ≠ id) es →
  noticed id n d s → noticed id n d (run config s es).
Proof.
  intros Hes. revert s. induction Hes as [|[t ch] es [? ?] _ IH]; intros s Hs; simpl; [done|].
  apply IH. by apply noticed_step.
Qed.

(** The write that comes too late, and what the handler makes of it. *)
Lemma late_write id d t ch s c :
  dead s = false → clients s !! id = Some c → writeDeadline c = d → d ≠ 0 → d < ch_now ch →
  (∃ msg, threads s !! t = Some (OfClient id (BForward msg))) →
  step config t ch s
  = if closed c then mkSys (shared s) (<[id := c]> (clients s))
                       (<[t := OfClient id BExit]> (threads s) ++ []) false
    else mkSys (shared s) (<[id := send_error c]> (clients s))
           (<[t := OfClient id BExit]> (threads s) ++ []) false.
Proof.
  intros Hd Hc Hw Hd0 Hlate [msg Ht]. unfold step. rewrite Hd, Ht, Hc. simpl.
  destruct (closed c); [done|]. unfold can_write, IsZero, zero_time. rewrite Hw.
  rewrite (proj2 (Z.eqb_neq d 0)), (proj2 (Z.leb_gt _ _)) by done. simpl. by rewrite andb_false_r.
Qed.

Lemma handler_closes id h ch1 ch2 s c :
  dead s = false → clients s !! id = Some c → closed c = false → (0 < errs c)%nat →
  threads s !! h = Some (OfClient id HWait) →
  id ∉ connections (shared (step config h ch2 (step config h ch1 s))).
Proof.
  intros Hd Hc Hcl He Hh. unfold step at 2. rewrite Hd, Hh, Hc. simpl.
  rewrite Hcl, (proj2 (Nat.ltb_lt 0 (errs c))) by done. simpl. rewrite app_nil_r.
  unfold step. simpl. rewrite list_lookup_insert_eq by (by eapply lookup_lt_Some).
  rewrite lookup_insert_eq. simpl. unfold closeConnection. rewrite Hcl.
  destruct (BackendConn c), (shared s); simpl; set_solver.
Qed.
End Notified.

(** ** Properties *)

(** What a server starts from: handshakes that arrive, the cleaner, [Stop]. *)
Definition arriving (p : gthread) : Prop :=
  (∃ addr, p = SCheck addr) ∨ p = Sweeper ∨ p = Stopper.
Definition serve (config : ServerConfig) (handler_set : bool) (now : Time) (w : World)
    (gs : list gthread) : sys := mkSys (NewServer config handler_set now w) ∅ gs false.

Section Properties.
Context `{SIP} (config0 : ServerConfig).
Abbreviation config := (with_defaults config0).

Lemma max_positive : 1 <= MaxConnections config.
Proof. destruct config0. simpl. case_match; lia. Qed.

(** C23. The limit on connections holds up to the handshakes in flight: when at
    most [h] of them are between the test of the limit and the registration at
    any time, there are never more than the limit and [h - 1] connections, in
    every interleaving. (The test and the registration are two critical
    sections, so with [h] of two and more the limit is really exceeded.) *)
Theorem capacity_bound (handler_set : bool) (now : Time) (w : World) (gs : list gthread)
    (es : list (nat * choice)) (h : nat)
    (Hgs : Forall arriving gs) (Hh : (1 <= h)%nat)
    (Hflight : ∀ n, (in_flight (run config (serve config0 handler_set now w gs) (take n es)) <= h)%nat) :
  Z.of_nat (size (connections (shared (run config (serve config0 handler_set now w gs) es))))
  <= MaxConnections config + Z.of_nat h - 1.
Proof.
  assert (∀ n, room config h (run config (serve config0 handler_set now w gs) (take n es))) as Hroom.
  { induction n as [|n IH].
    - unfold room. rewrite take_0. simpl run.
      assert (size (connections (shared (serve config0 handler_set now w gs))) = 0%nat) as -> by done.
      assert (in_flight (serve config0 handler_set now w gs) = 0%nat) as ->.
      { unfold in_flight, count_past. simpl. clear Hflight.
        induction Hgs as [|p gs [[? ->]|[-> | ->]] _ IH]; [done|..];
          by rewrite filter_cons_False by done. }
      pose proof max_positive. lia.
    - destruct (es !! n) as [[t ch]|] eqn:He.
      + specialize (Hflight (S n)). rewrite (take_S_r _ _ _ He) in *.
        unfold run in *. rewrite foldl_app in *. simpl in *. by apply room_step.
      + rewrite take_ge by (apply lookup_ge_None in He; lia).
        rewrite take_ge in IH by (apply lookup_ge_None in He; lia). done. }
  specialize (Hroom (length es)). rewrite take_ge in Hroom by lia. unfold room in Hroom. lia.
Qed.

(** A client that closes its connection in the normal way keeps its slot:
    its reader ends without a word to the handler, so as long as the backend
    sends nothing and does not fail - even if it closes in the normal way too -
    the connection stays registered and counts against the limit, in every
    interleaving with any other clients, until the cleaner finds it inactive
    for half an hour. *)
Theorem normal_close_keeps_slot (s : sys) (es : list (nat * choice)) (id : string)
    (h w b i : nat) (act : Time)
    (Hab : abandoned id h w b i act s) (Hes : Forall (undisturbed id b act) es) :
  id ∈ connections (shared (run config s es)) ∧
  ∃ c, clients (run config s es) !! id = Some c ∧ closed c = false ∧
    threads (run config s es) !! h = Some (OfClient id HWait).
Proof.
  assert (abandoned id h w b i act (run config s es)) as [(c&Hc&Hcl&_) Hs _ _ Hh _ _ _ _ _].
  { revert s Hab. induction Hes as [|[t ch] es He _ IH]; intros s Hab; simpl; [done|].
    apply IH. by apply abandoned_step. }
  split; [done|]. by exists c.
Qed.

(** With the default threshold of one, the failover of a failed write undoes
    itself: it closes the connection the backend reader is blocked on, the
    reader takes that for an error of the backend the client has just moved
    to, marks the new backend unhealthy, and gives the client up or moves it
    away again. *)
Theorem write_failover_undone (s : sys) (id : string) (c : ClientConnection) (w b i : nat)
    (url : string) (text : bool) (msg : string) (ch1 ch2 ch3 : choice)
    (Halive : dead s = false) (Hc : clients s !! id = Some c) (Hi : BackendConn c = Some i)
    (Hlen : (i < length (conns (shared s)))%nat)
    (Hw : threads s !! w = Some (OfClient id (WDial url text msg)))
    (Hb : threads s !! b = Some (OfClient id (BRead i)))
    (Hdial : ch_dial ch1 = true) (Hth : FailoverThreshold config = 1) :
  let s1 := step config w ch1 s in
  let s3 := step config b ch3 (step config b ch2 s1) in
  (CurrentBackend <$> clients s1 !! id) = Some url ∧
  backendHealth (shared s3) !! url = Some false ∧
  ((threads s3 !! b = Some (OfClient id BExit) ∧
    (errs <$> clients s3 !! id) = Some (S (errs c))) ∨
   ∃ url', url' ≠ url ∧ threads s3 !! b = Some (OfClient id (BDial url'))).
Proof.
  assert (w ≠ b) as Hwb by (intros ->; congruence).
  assert (b < length (threads s))%nat as Hbl by (by eapply lookup_lt_Some).
  set (c1 := set_errors 0 (set_backend (length (conns (close_conn i (shared s)))) url c)).
  set (sh1 := on_conns (λ l, l ++ [false]) (close_conn i (shared s))).
  intros s1. assert (s1 = mkSys sh1 (<[id := c1]> (clients s))
    (<[w := OfClient id WLoop]> (threads s)) false) as ->.
  { unfold s1, step. rewrite Halive, Hw, Hc. simpl. rewrite Hdial, Hi. simpl.
    by rewrite app_nil_r. }
  set (s1' := mkSys sh1 _ _ _).
  assert (conn_closed sh1 i = true) as Hcl.
  { unfold conn_closed, sh1, close_conn. destruct (shared s) as [hh cs l br m hd ww]. simpl in *.
    rewrite lookup_app_l by (by rewrite length_insert). by rewrite list_lookup_insert_eq. }
  assert (ErrorCount c1 = 0 ∧ CurrentBackend c1 = url ∧ errs c1 = errs c) as (He&Hu&Her)
    by (by destruct c).
  clearbody sh1 c1.
  set (c2 := set_errors 1 c1). set (sh2 := UpdateBackendHealth url false sh1).
  assert (step config b ch2 s1' = mkSys sh2 (<[id := c2]> (<[id := c1]> (clients s)))
    (<[b := OfClient id BFailover]> (<[w := OfClient id WLoop]> (threads s))) false) as ->.
  { unfold step. simpl. rewrite list_lookup_insert_ne, Hb, lookup_insert_eq by done. simpl.
    rewrite Hcl. unfold count_error. rewrite He. change (int64_wrap (0 + 1)) with 1.
    assert (ErrorCount (set_errors 1 c1) = 1 ∧ CurrentBackend (set_errors 1 c1) = url) as [-> ->]
      by (by destruct c1).
    rewrite Hth. simpl. by rewrite app_nil_r. }
  rewrite insert_insert_eq. set (s2 := mkSys sh2 _ _ _).
  assert (threads s2 !! b = Some (OfClient id BFailover)) as Hb2.
  { simpl. apply list_lookup_insert_eq. by rewrite length_insert. }
  assert (CurrentBackend c2 = url ∧ errs c2 = errs c) as [Hu2 Her2] by (by destruct c1).
  assert (backendHealth sh2 !! url = Some false) as Hh2.
  { unfold sh2. destruct sh1. apply lookup_insert_eq. }
  intros s3. split; [simpl; rewrite lookup_insert_eq; simpl; by rewrite Hu|].
  unfold s3, step. rewrite Hb2. simpl. rewrite lookup_insert_eq. simpl. rewrite Hu2.
  case_decide as Hsel; simpl; (split; [done|]); rewrite app_nil_r.
  - right. eexists. split; [apply Hsel|]. apply list_lookup_insert_eq. by rewrite !length_insert.
  - left. split; [apply list_lookup_insert_eq; by rewrite !length_insert|].
    rewrite lookup_insert_eq. simpl. f_equal. rewrite <-Her2. by destruct c2.
Qed.

(** C24. The notification of an OpenSIPS failover cuts the clients off: it sets a
    write deadline of five seconds on the connection of every client and never
    takes it back, so in every interleaving the first message the backend has
    for the client after that cannot be written; the reader of the backend
    gives up with an error, and the handler closes the connection. *)
Theorem notification_cuts_clients (s : sys) (es : list (nat * choice)) (id : string)
    (c : ClientConnection) (n t : nat) (msg : string) (ch ch' : choice)
    (Halive : dead s = false) (Hn : threads s !! n = Some Notifier)
    (Hc : clients s !! id = Some c) (Hopen : closed c = false) (Hreg : id ∈ connections (shared s))
    (Hothers : ∀ u p, threads s !! u = Some p → p ≠ OfClient id HStart ∧ (p = Notifier → u = n))
    (Hes : Forall (λ e, e.1 ≠ n ∧ ∀ addr, client_id addr (ch_now e.2) ≠ id) es)
    (Hnow : 0 <= ch_now ch) (Hlate : Add (ch_now ch) (5 * Second) < ch_now ch') :
  let s1 := run config (step config n ch s) es in
  dead s1 = false → threads s1 !! t = Some (OfClient id (BForward msg)) →
  let s2 := step config t ch' s1 in
  threads s2 !! t = Some (OfClient id BExit) ∧
  ((closed <$> clients s1 !! id) = Some true ∨
   ∀ h ch3 ch4, threads s2 !! h = Some (OfClient id HWait) →
     id ∉ connections (shared (step config h ch4 (step config h ch3 s2)))).
Proof.
  intros s1 Hd1 Ht s2.
  assert (noticed id n (Add (ch_now ch) (5 * Second)) s1) as [(c1&Hc1&Hw1) _].
  { unfold s1. apply noticed_run; [done|]. unfold step. rewrite Halive, Hn. split; [|done]. simpl.
    unfold PrepareForFailover.
    assert (∀ ids cs, (id ∈ ids ∧ ∃ c, cs !! id = Some c ∧ closed c = false) ∨
        (∃ c, cs !! id = Some c ∧ writeDeadline c = Add (ch_now ch) (5 * Second)) →
      ∃ c, foldl (notify (ch_now ch)) cs ids !! id = Some c ∧
           writeDeadline c = Add (ch_now ch) (5 * Second)) as Hfold.
    { clear. induction ids as [|i ids IH]; intros cs Hor; simpl.
      - destruct Hor as [[[]%not_elem_of_nil _]|?]; done.
      - apply IH. unfold notify. destruct (decide (i = id)) as [->|Hne].
        + right. destruct Hor as [[_ (c&Hc&Hcl)]|(c&Hc&Hw)]; rewrite Hc.
          * rewrite Hcl, lookup_insert_eq. eexists. split; [done|by destruct c].
          * destruct (closed c); [by exists c|]. rewrite lookup_insert_eq.
            eexists. split; [done|by destruct c].
        + assert ((match cs !! i with Some c => if closed c then cs else
            <[i := set_deadline (Add (ch_now ch) (5 * Second)) c]> cs | None => cs end) !! id = cs !! id)
            as ->.
          { destruct (cs !! i) as [c|]; [|done]. destruct (closed c); [done|].
            by rewrite lookup_insert_ne. }
          destruct Hor as [[Hin Hex]|Hex]; [left|by right]. split; [|done].
          apply elem_of_cons in Hin as [->|?]; done. }
    apply Hfold. left. split; [by apply elem_of_elements|by exists c]. }
  assert (t < length (threads s1))%nat as Hlt by (by eapply lookup_lt_Some).
  pose proof (late_write config id _ t ch' s1 c1 Hd1 Hc1 Hw1
    ltac:(unfold Add, Second in *; lia) Hlate (ex_intro _ msg Ht)) as E2. fold s2 in E2.
  destruct (closed c1) eqn:Hcl1; rewrite E2; simpl; rewrite app_nil_r.
  - split; [by apply list_lookup_insert_eq|]. left. by rewrite Hc1; simpl; rewrite Hcl1.
  - split; [by apply list_lookup_insert_eq|]. right. intros h ch3 ch4 Hh.
    eapply (handler_closes config id h ch3 ch4 _ (send_error c1)); [done| | | |done]; simpl.
    + by rewrite lookup_insert_eq.
    + by destruct c1.
    + destruct c1. simpl. lia.
Qed.
End Properties.

(** ** Instances *)

(** Messages that are not SIP, forwarded as they are. *)
#[export] Instance no_sip : SIP := {| ParseMessage _ := None; RewriteClientToBackend _ _ msg := msg |}.

Definition two_backends : ServerConfig := mkServerConfig 1 "" ["a"; "b"] 0 false.
Definition at_time (now : Time) (r : read_event) : choice := mkChoice now true true r true true.
Definition write_fails (now : Time) : choice := mkChoice now true false Blocked true true.

(** Two handshakes that both pass the test of a limit of one. *)
Definition crowd : sys :=
  serve two_backends false 1 sample_world [SCheck "x"; SCheck "y"; Sweeper; Stopper].
Definition crowd_schedule : list (nat * choice) :=
  map (λ t, (t, at_time 2 Blocked)) [0; 1; 0; 1; 0; 1; 0; 1]%nat.

Lemma capacity_bound_witness :
  size (connections (shared (run (with_defaults two_backends) crowd crowd_schedule))) = 2%nat ∧
  Z.of_nat (size (connections (shared (run (with_defaults two_backends) crowd crowd_schedule))))
  <= 1 + 2 - 1.
Proof.
  split; [by vm_compute|].
  apply (capacity_bound two_backends false 1 sample_world
    [SCheck "x"; SCheck "y"; Sweeper; Stopper] crowd_schedule 2).
  - rewrite !Forall_cons. unfold arriving. split_and!; eauto.
  - lia.
  - intros n. do 9 (destruct n as [|n]; [vm_compute; lia|]). vm_compute. lia.
Defined.

(** One client that connects to backend "a" and closes in the normal way. *)
Definition lone : sys := serve two_backends false 1 sample_world [SCheck "x"; Sweeper].
Definition connect_schedule : list (nat * choice) :=
  map (λ t, (t, at_time 10 Blocked)) [0; 0; 0; 0; 2; 2; 4; 3]%nat.
Definition gone : sys :=
  run (with_defaults two_backends) lone (connect_schedule ++ [(3%nat, at_time 10 NormalClose)]).
Definition lone_id : string := client_id "x" 10.

Lemma gone_abandoned : abandoned lone_id 2 3 4 0 10 gone.
Proof.
  split; try by vm_compute.
  - eexists. split; [by vm_compute|]. split_and!; by vm_compute.
  - assert (map_Forall (λ id' c', id' = lone_id ∨ BackendConn c' ≠ Some 0%nat) (clients gone))
      as Hown by by_decide.
    intros id' c' Hne Hc'. destruct (Hown id' c' Hc') as [Heq|Hb]; [destruct (Hne Heq)|exact Hb].
  - exists WExit. split; [by vm_compute|by left].
  - exists (BRead 0). split; [by vm_compute|auto].
  - intros t p Ht. vm_compute in Ht. do 5 (destruct t as [|t]; [simplify_eq/=; auto|]). done.
  - intros Hin. apply list_elem_of_lookup in Hin as [t Ht]. vm_compute in Ht.
    do 5 (destruct t as [|t]; [simplify_eq/=|]). done.
Qed.

(** Identifiers of different times differ. *)
Lemma lone_id_fresh addr : client_id addr 11 ≠ lone_id.
Proof.
  intros Heq. apply (f_equal (λ s, last (String.list_ascii_of_string s))) in Heq.
  unfold client_id in Heq. rewrite !list_of_string_app, !last_app in Heq. by vm_compute in Heq.
Qed.

Definition later : list (nat * choice) :=
  [(3%nat, at_time 11 Blocked); (4%nat, at_time 11 NormalClose); (4%nat, at_time 11 Blocked);
   (2%nat, at_time 11 Blocked); (1%nat, at_time 11 Blocked)].

Lemma later_undisturbed : Forall (undisturbed lone_id 4 10) later.
Proof.
  repeat constructor; simpl; try (apply lone_id_fresh); try (by vm_compute);
    intros ?; first [discriminate|by left|by right].
Qed.

Lemma normal_close_keeps_slot_witness :
  lone_id ∈ connections (shared (run (with_defaults two_backends) gone later)).
Proof.
  apply (normal_close_keeps_slot two_backends gone later lone_id 2 3 4 0 10 gone_abandoned
    later_undisturbed).
Defined.

(** The write to backend "a" fails, and the client moves to backend "b". *)
Definition failing : sys :=
  run (with_defaults two_backends) lone
    (connect_schedule ++
     [(3%nat, at_time 12 (Message true "hello")); (3%nat, write_fails 12);
      (3%nat, at_time 12 Blocked)]).

Lemma write_failover_undone_witness :
  let s1 := step (with_defaults two_backends) 3 (at_time 13 Blocked) failing in
  let s3 := step (with_defaults two_backends) 4 (at_time 13 Blocked)
              (step (with_defaults two_backends) 4 (at_time 13 Blocked) s1) in
  (CurrentBackend <$> clients s1 !! lone_id) = Some "b" ∧
  backendHealth (shared s3) !! "b" = Some false.
Proof.
  assert ((BackendConn <$> clients failing !! lone_id) = Some (Some 0%nat)) as Hb by by vm_compute.
  apply fmap_Some in Hb as (c&Hc&Hb).
  destruct (write_failover_undone two_backends failing lone_id c 3 4 0 "b" true "hello"
    (at_time 13 Blocked) (at_time 13 Blocked) (at_time 13 Blocked)) as (E1&E2&_).
  - by vm_compute.
  - exact Hc.
  - by symmetry.
  - apply Nat.ltb_lt. by vm_compute.
  - by vm_compute.
  - by vm_compute.
  - reflexivity.
  - by vm_compute.
  - split; [exact E1|exact E2].
Defined.

(** The backend of the lone client has a message for it six seconds after the
    notification. *)
Definition notified : sys :=
  run (with_defaults two_backends) (serve two_backends false 1 sample_world [SCheck "x"; Notifier])
    connect_schedule.
Definition ringing : list (nat * choice) :=
  [(4%nat, at_time 11 (Message true "INVITE")); (4%nat, at_time 11 Blocked)].

Definition starting (p : gthread) : bool :=
  match p with OfClient _ HStart => true | _ => false end.
Definition notifying (p : gthread) : bool := match p with Notifier => true | _ => false end.

Lemma notification_cuts_clients_witness :
  lone_id ∈ connections (shared notified) ∧
  let s1 := run (with_defaults two_backends) (step (with_defaults two_backends) 1
              (at_time 11 Blocked) notified) ringing in
  let s2 := step (with_defaults two_backends) 4 (at_time (6 * Second) Blocked) s1 in
  threads s2 !! 4%nat = Some (OfClient lone_id BExit).
Proof.
  assert ((closed <$> clients notified !! lone_id) = Some false) as Hb by by vm_compute.
  apply fmap_Some in Hb as (c&Hc&Hb).
  assert (lone_id ∈ connections (shared notified)) as Hreg by by_decide.
  split; [exact Hreg|].
  destruct (notification_cuts_clients two_backends notified ringing lone_id c 1 4 "INVITE"
    (at_time 11 Blocked) (at_time (6 * Second) Blocked)) as [E _].
  - by vm_compute.
  - by vm_compute.
  - exact Hc.
  - by symmetry.
  - exact Hreg.
  - assert (∀ u p, threads notified !! u = Some p → starting p = false ∧
      (notifying p = true → u = 1%nat)) as Hth.
    { intros u p Hu. vm_compute in Hu.
      do 5 (destruct u as [|u]; [injection Hu as <-; split; [reflexivity|by intros]|]).
      discriminate Hu. }
    intros u p Hu. destruct (Hth u p Hu) as [H1 H2].
    split; [intros ->; discriminate H1|intros ->; by apply H2].
  - repeat constructor; simpl; try (apply lone_id_fresh); done.
  - simpl. lia.
  - unfold Add, Second. simpl. lia.
  - by vm_compute.
  - by vm_compute.
  - exact E.
Defined.
