(* ===== verification/WSBackend.v ===== *)
(** * websocket/server.go: addresses, headers and messages

    How the WebSocket server addresses a backend - the URL it dials, the headers
    that carry a SIP session over a failover, the host and the request of a
    health probe - and the request it keeps clients alive with. *)

From Stdlib Require Import Ascii.
From stdpp Require Import pretty gmap.
From S2P Require Import Prelude Storage WebSocket.

(** ** Text *)

Definition HasPrefix (s p : string) : bool := String.prefix p s.
Definition drop_string (n : nat) (s : string) : string :=
  String.substring n (String.length s - n) s.
Definition TrimPrefix (s p : string) : string :=
  if HasPrefix s p then drop_string (String.length p) s else s.

(** The text before the first of a character, and whether there is one. *)
Fixpoint cut (a : ascii) (s : string) : string * bool :=
  match s with
  | EmptyString => ("", false)
  | String b s' => if decide (b = a) then ("", true)
                   else let '(l, found) := cut a s' in (String b l, found)
  end.
(** [strings.Split(s, sep)[0]]. *)
Definition before (a : ascii) (s : string) : string := (cut a s).1.
(** [if idx := strings.IndexByte(s, a); idx > 0 { s = s[:idx] }]. *)
Definition cut_after_first (a : ascii) (s : string) : string :=
  let '(l, found) := cut a s in
  if found && negb (bool_decide (l = "")) then l else s.

(** The canonical form of a header's name: capital after a hyphen, small else. *)
Definition to_upper (a : ascii) : ascii :=
  let n := N_of_ascii a in if ((97 <=? n) && (n <=? 122))%N then ascii_of_N (n - 32) else a.
Definition to_lower (a : ascii) : ascii :=
  let n := N_of_ascii a in if ((65 <=? n) && (n <=? 90))%N then ascii_of_N (n + 32) else a.
Fixpoint canonical_from (up : bool) (s : string) : string :=
  match s with
  | EmptyString => ""
  | String a s => String (if up then to_upper a else to_lower a)
                    (canonical_from (bool_decide (a = "-"%char)) s)
  end.
Definition CanonicalHeaderKey : string → string := canonical_from true.

Abbreviation Header := (gmap string (list string)) (only parsing).
Definition Add (key value : string) (h : Header) : Header :=
  let key := CanonicalHeaderKey key in <[key := default [] (h !! key) ++ [value]]> h.
Definition header (key : string) (h : Header) : list string :=
  default [] (h !! CanonicalHeaderKey key).

(** ** connectToBackend *)

Definition dial_url (backendURL : string) : string :=
  if HasPrefix backendURL "ws" then backendURL else "wss://" +:+ backendURL.

Definition backend_host (backendURL : string) : string :=
  before ":"%char (TrimPrefix (TrimPrefix (dial_url backendURL) "wss://") "ws://").

Definition add_known (key value : string) (h : Header) : Header :=
  if decide (value = "") then h else Add key value h.

Definition backend_headers (backendURL : string) (client : ClientConnection) : Header :=
  let host := backend_host backendURL in
  let h := Add "User-Agent" "QalqulVoiceGateway/1.0"
             (Add "Host" host (Add "Origin" ("https://" +:+ host) ∅)) in
  add_known "X-SIP-To-Tag" (LastSIPToTag client)
    (add_known "X-SIP-From-Tag" (LastSIPFromTag client)
      (add_known "X-SIP-Call-ID" (LastSIPCallID client) h)).

(** What is dialled: the URL and the headers. The dial itself is the
    environment's. *)
Definition connectToBackend (backendURL : string) (client : ClientConnection) : string * Header :=
  (dial_url backendURL, backend_headers backendURL client).

(** ** The probe of a backend *)

Definition probe_hostname (backend : string) : string :=
  cut_after_first "/"%char
    (cut_after_first ":"%char (TrimPrefix (TrimPrefix (dial_url backend) "wss://") "ws://")).
Definition probe_target (backend : string) : string := probe_hostname backend +:+ ":6060".

Definition CRLF : string := String (ascii_of_N 13) (String (ascii_of_N 10) "").
Definition LF : string := String (ascii_of_N 10) "".

(** The lines of a message, each with its end. *)
Definition message_of (eol : string) (lines : list string) : string :=
  foldr (λ l m, l +:+ eol +:+ m) "" lines.

Definition probe_request (backend : string) (t1 t2 t3 : Time) : string :=
  let hostname := probe_hostname backend in
  message_of CRLF
    ["OPTIONS sip:" +:+ hostname +:+ " SIP/2.0";
     "Via: SIP/2.0/UDP health.monitor;branch=z9hG4bK-" +:+ pretty (UnixNano t2) +:+ ";rport";
     "Max-Forwards: 69";
     "From: <sip:proxy@localhost>;tag=fromTag-" +:+ pretty (UnixNano t3);
     "To: <sip:" +:+ hostname +:+ ">";
     "Call-ID: health-" +:+ pretty (UnixNano t1);
     "CSeq: 1 OPTIONS";
     "User-Agent: Qalqul-WebSocket-Health-Monitor";
     "Allow: INVITE, ACK, CANCEL, OPTIONS, BYE";
     "Content-Length: 0"; ""].

(** ** The keepalive of a client

    The request is a raw string of the source: its lines end in a line feed. *)
Definition buildSipOptionsKeepAlive (ServerName clientAddr serverName : string) (t1 t2 t3 : Time)
    : string :=
  message_of LF
    ["OPTIONS sip:keepalive@" +:+ clientAddr +:+ " SIP/2.0";
     "Via: SIP/2.0/WSS " +:+ serverName +:+ ";branch=z9hG4bK-" +:+ pretty (UnixNano t2) +:+ ";rport";
     "Max-Forwards: 70";
     "From: <sip:monitor@" +:+ serverName +:+ ">;tag=fromTag-" +:+ pretty (UnixNano t3);
     "To: <sip:keepalive@" +:+ clientAddr +:+ ">";
     "Call-ID: keepalive-" +:+ pretty (UnixNano t1);
     "CSeq: 1 OPTIONS";
     "User-Agent: " +:+ ServerName;
     "Allow: INVITE, ACK, CANCEL, OPTIONS, BYE, REFER, SUBSCRIBE, NOTIFY, INFO, PUBLISH, MESSAGE";
     "Supported: replaces, timer";
     "Content-Length: 0"; ""].

(** A tick of the keepalive goroutine: [None] when it goes on, and otherwise
    whether it ended because the client is closed. *)
Definition keepalive_tick (now : Time) (written : bool) (c : ClientConnection) : option bool :=
  if closed c then Some true
  else if written && can_write now c then None else Some false.

Definition msgTypeToString (mt : Z) : string :=
  if mt =? 1 then "text" else if mt =? 2 then "binary" else if mt =? 8 then "close"
  else if mt =? 9 then "ping" else if mt =? 10 then "pong" else "unknown".

(** ** Facts *)

Definition single (v : string) : list string := if decide (v = "") then [] else [v].

Lemma header_add key key' v h :
  header key (Add key' v h) =
  if decide (CanonicalHeaderKey key' = CanonicalHeaderKey key) then header key h ++ [v] else header key h.
Proof.
  unfold header, Add. case_decide as Hk.
  - by rewrite Hk, lookup_insert_eq.
  - by rewrite lookup_insert_ne.
Qed.

Lemma header_add_known key key' v h :
  header key (add_known key' v h) =
  if decide (CanonicalHeaderKey key' = CanonicalHeaderKey key) then header key h ++ single v else header key h.
Proof.
  unfold add_known, single. case_decide as Hv; [|apply header_add].
  case_decide; [by rewrite app_nil_r|done].
Qed.

Lemma cut_app a l r : a ∉ String.list_ascii_of_string l → cut a (l +:+ String a r) = (l, true).
Proof.
  induction l as [|b l IH]; intros Hl; simpl in *; [by rewrite decide_True|].
  apply not_elem_of_cons in Hl as [Hb Hl]. rewrite decide_False by done. by rewrite (IH Hl).
Qed.

Lemma prefix_app p s : String.prefix p (p +:+ s) = true.
Proof.
  induction p as [|a p IH]; simpl; [by destruct s|]. destruct (ascii_dec a a); [apply IH|done].
Qed.

Lemma substring_all s : String.substring 0 (String.length s) s = s.
Proof. induction s as [|b s IH]; simpl; [done|by rewrite IH]. Qed.
Lemma substring_app p s : String.substring (String.length p) (String.length s) (p +:+ s) = s.
Proof. induction p as [|a p IH]; simpl; [apply substring_all|exact IH]. Qed.

Lemma length_string_app p s : String.length (p +:+ s) = (String.length p + String.length s)%nat.
Proof. induction p as [|a p IH]; simpl; [done|by rewrite IH]. Qed.

Lemma TrimPrefix_app p s : TrimPrefix (p +:+ s) p = s.
Proof.
  unfold TrimPrefix, HasPrefix, drop_string. rewrite prefix_app, length_string_app.
  replace (String.length p + String.length s - String.length p)%nat with (String.length s) by lia.
  apply substring_app.
Qed.

(** A dial for a client carries its SIP session: after a request, the headers
    name its Call-ID and its tags, each once, and what the request does not
    have is what was known before - so a request of another call without a
    To tag is announced with the tag of the call before it. The Host header is
    the host of the URL when the server is given as wss://host:port. *)
Theorem redial_carries_session (id : string) (now : Time) (r : sip_request)
    (s : Shared) (c : ClientConnection) (url : string) :
  let c' := (extractSIPState id now (Request r) (s, c)).2 in
  let h := (connectToBackend url c').2 in
  header "X-SIP-Call-ID" h = single (default (LastSIPCallID c) (rq_callID r)) ∧
  header "X-SIP-From-Tag" h = single (update_tag (LastSIPFromTag c) (rq_fromTag r)) ∧
  header "X-SIP-To-Tag" h = single (update_tag (LastSIPToTag c) (rq_toTag r)) ∧
  header "Host" h = [backend_host url] ∧
  (∀ host port, ":"%char ∉ String.list_ascii_of_string host → HasPrefix (host +:+ ":" +:+ port) "ws://" = false →
     url = "wss://" +:+ host +:+ ":" +:+ port →
     (connectToBackend url c').1 = url ∧ header "Host" h = [host]).
Proof.
  intros c' h.
  assert (LastSIPCallID c' = default (LastSIPCallID c) (rq_callID r) ∧
    LastSIPFromTag c' = update_tag (LastSIPFromTag c) (rq_fromTag r) ∧
    LastSIPToTag c' = update_tag (LastSIPToTag c) (rq_toTag r)) as (E1&E2&E3).
  { unfold c', extractSIPState. case_decide; destruct c; done. }
  assert (header "Host" h = [backend_host url]) as Hhost.
  { unfold h, connectToBackend, backend_headers. cbn [snd].
    by rewrite !header_add_known, !header_add. }
  unfold h, connectToBackend, backend_headers. cbn [snd]. rewrite !header_add_known, !header_add.
  cbn [fst]. rewrite E1, E2, E3. split; [done|]. split; [done|]. split; [done|].
  split; [done|]. intros host port Hc Hw ->.
  assert (backend_host ("wss://" +:+ host +:+ ":" +:+ port) = host) as Hb; [|by rewrite Hb].
  unfold backend_host, dial_url. change (HasPrefix _ "ws") with true. cbn iota.
  rewrite TrimPrefix_app. unfold TrimPrefix. rewrite Hw. unfold before.
  change (":" +:+ port) with (String ":"%char port). by rewrite (cut_app _ _ _ Hc).
Qed.

(** A call without a To tag, after one that had: its redial has the tag. *)
Lemma redial_carries_session_witness :
  let c := set_session "call-1" "f1" "t1" (new_client "198.51.100.9:4000" 1) in
  let s := NewServer (mkServerConfig 1 "" ["a"] 0 false) true 1 sample_world in
  let r := mkRequest "INVITE" (Some "call-2") (Some "f2") None None in
  let h := (connectToBackend "wss://gw.example.org:443"
              (extractSIPState "c" 2 (Request r) (s, c)).2).2 in
  header "X-SIP-Call-ID" h = ["call-2"] ∧ header "X-SIP-To-Tag" h = ["t1"] ∧
  header "Host" h = ["gw.example.org"].
Proof.
  intros c s r h.
  destruct (redial_carries_session "c" 2 r s c "wss://gw.example.org:443")
    as (H1&_&H3&H4&_).
  split; [exact H1|]. split; [exact H3|exact H4].
Defined.

(** The keepalive request has no carriage return of its own. *)
Example keepalive_ends_in_line_feeds :
  String.index 0 CRLF (buildSipOptionsKeepAlive "srv" "1.2.3.4:5" "gw" 1 2 3) = None.
Proof. by vm_compute. Qed.

(** A server whose name starts with [ws] is dialled without a scheme. *)
Example name_taken_for_url : dial_url "wsgateway.example.org:443" = "wsgateway.example.org:443".
Proof. by vm_compute. Qed.
