(* ===== verification/Health.v ===== *)
(** * health/health.go: the health monitor

    The monitor checks the OpenSIPS backends with concurrent probes, the AMI
    clients, the RTPEngine manager and the WebSocket backends, fails over, and
    stores what it found. The status of a component is a struct whose list of
    backends and whose statistics are references: the copies that
    [GetComponentHealth] hands out share them, so the model keeps them in a
    store of their own. The WebSocket server and the AMI clients are used
    through interfaces; the probes' network is a parameter. *)

From stdpp Require Import pretty.
From S2P Require Import Prelude KVStore Storage WebSocket AMIManager.

(** ** Interfaces *)

(** The clients of the AMI manager also tell whether they received a banner. *)
Class AMIBanner (C : Type) : Type := cli_banner : C → bool.

(** What the monitor asks of the WebSocket server; none of it is about the
    storage the two share. *)
Class WSServer (W : Type) : Type := {
  ws_HasBackends : W → bool;
  ws_CheckBackendHealth : (string → option string) → W → outcome W;
  ws_HasHealthyBackends : W → bool;
  ws_PrepareForFailover : Time → W → W
}.

(** [json.Marshal] of the status of all components. *)
Class HealthJSON (R : Type) : Type := marshal_status : gmap string R → option string.

(** ** State *)

Inductive Status : Type :=
| StatusHealthy | StatusUnhealthy | StatusDegraded | StatusFailover.

#[export] Instance Status_eq_dec : EqDecision Status.
Proof. solve_decision. Defined.

Record BackendHealth : Type := mkBackend {
  bh_Address : string; bh_Status : Status; bh_LastChecked : Time;
  bh_Message : string; bh_FailCount : Z; bh_IsActive : bool }.

(** [ch_Backends] and [ch_Stats] are references into the monitor's store, or
    nil. *)
Record ComponentHealth : Type := mkComponent {
  ch_Component : string; ch_Status : Status; ch_LastChecked : Time; ch_Message : string;
  ch_Backends : option nat; ch_Stats : option nat }.

Record FailoverEvent : Type := mkEvent {
  fe_Component : string; fe_From : string; fe_To : string; fe_Timestamp : Time;
  fe_Reason : string }.

Record HealthConfig : Type := mkHealthConfig {
  OpenSIPSAddress : string; OpenSIPSBackends : list string; CheckInterval : Duration;
  EnableFailover : bool; FailureThreshold : Z }.

Record HealthMonitor : Type := mkMonitor {
  opensipsBackends : list string;
  checkInterval : Duration;
  failoverEnabled : bool;
  failureThreshold : Z;
  componentStatus : gmap string ComponentHealth;
  failoverHistory : gmap string (list FailoverEvent);
  slices : list (list BackendHealth);
  statmaps : list (gmap string Z) }.

Definition NewHealthMonitor (config : HealthConfig) : HealthMonitor :=
  {| opensipsBackends :=
       if bool_decide (OpenSIPSBackends config = []) && bool_decide (OpenSIPSAddress config ≠ "")
       then [OpenSIPSAddress config] else OpenSIPSBackends config;
     checkInterval := if 0 <? CheckInterval config then CheckInterval config else 3 * Second;
     failoverEnabled := EnableFailover config;
     failureThreshold := if 0 <? FailureThreshold config then FailureThreshold config else 3;
     componentStatus := ∅; failoverHistory := ∅; slices := []; statmaps := [] |}.

Definition set_status (v : Status) (msg : string) (c : ComponentHealth) : ComponentHealth :=
  let '(mkComponent n _ l _ b st) := c in mkComponent n v l msg b st.
Definition set_checked (v : Time) (c : ComponentHealth) : ComponentHealth :=
  let '(mkComponent n s _ m b st) := c in mkComponent n s v m b st.
Definition set_backends (v : option nat) (c : ComponentHealth) : ComponentHealth :=
  let '(mkComponent n s l m _ st) := c in mkComponent n s l m v st.
Definition set_active (v : bool) (b : BackendHealth) : BackendHealth :=
  let '(mkBackend a s l m f _) := b in mkBackend a s l m f v.

Definition on_components (f : gmap string ComponentHealth → gmap string ComponentHealth)
    (h : HealthMonitor) : HealthMonitor :=
  let '(mkMonitor b i e t c fh sl sm) := h in mkMonitor b i e t (f c) fh sl sm.
Definition on_history (f : gmap string (list FailoverEvent) → gmap string (list FailoverEvent))
    (h : HealthMonitor) : HealthMonitor :=
  let '(mkMonitor b i e t c fh sl sm) := h in mkMonitor b i e t c (f fh) sl sm.
Definition on_slices (f : list (list BackendHealth) → list (list BackendHealth))
    (h : HealthMonitor) : HealthMonitor :=
  let '(mkMonitor b i e t c fh sl sm) := h in mkMonitor b i e t c fh (f sl) sm.
Definition on_statmaps (f : list (gmap string Z) → list (gmap string Z))
    (h : HealthMonitor) : HealthMonitor :=
  let '(mkMonitor b i e t c fh sl sm) := h in mkMonitor b i e t c fh sl (f sm).

(** ** A probe of one OpenSIPS backend *)

(** [strings.LastIndex(s, ":")]. *)
Fixpoint last_colon (l : list Ascii.ascii) : option nat :=
  match l with
  | [] => None
  | c :: l => match last_colon l with
              | Some i => Some (S i)
              | None => if decide (c = byte 58) then Some O else None
              end
  end.
Definition host_of (address : string) : string :=
  match last_colon (String.list_ascii_of_string address) with
  | Some (S i) => take_string (S i) address
  | _ => address
  end.

Definition crlf : string := String (byte 13) (String (byte 10) "").
(** [t1] to [t3] are the clock readings of the identifiers. *)
Definition buildSipOptionsMessage (serverAddress : string) (t1 t2 t3 : Time) : string :=
  String.concat "" (map (λ l, l +:+ crlf)
    ["OPTIONS sip:" +:+ serverAddress +:+ " SIP/2.0";
     "Via: SIP/2.0/UDP health.monitor;branch=z9hG4bK-" +:+ pretty (UnixNano t2) +:+ ";rport";
     "Max-Forwards: 69";
     "From: <sip:proxy@localhost>;tag=fromTag-" +:+ pretty (UnixNano t3);
     "To: <sip:" +:+ serverAddress +:+ ">";
     "Call-ID: health-" +:+ pretty (UnixNano t1);
     "CSeq: 1 OPTIONS";
     "User-Agent: Qalqul-Health-Monitor";
     "Allow: INVITE, ACK, CANCEL, OPTIONS, BYE";
     "Content-Length: 0"; ""]).

(** A message sent to an address over UDP and what came back, if anything did:
    the network at the probe of the [i]-th backend. *)
Definition exchange : Type := nat → string → string → option string.

Definition checkSingleOpenSIPSBackend (net : exchange) (t : Time) (address : string) (i : nat)
    : outcome bool :=
  let host := host_of address in
  match net i (host +:+ ":6060") (buildSipOptionsMessage host t t t) with
  | None => Done false
  | Some response => probe_verdict (take_string 4096 response)
  end.

(** What a probe does to the status of its backend. *)
Definition after_probe (threshold : Z) (healthy : bool) (now : Time) (b : BackendHealth)
    : BackendHealth :=
  let '(mkBackend a s _ m f act) := b in
  if healthy then mkBackend a StatusHealthy now "OpenSIPS responding to OPTIONS" 0 act
  else
    let f := int64_wrap (f + 1) in
    if threshold <=? f
    then mkBackend a StatusUnhealthy now ("Failed health check " +:+ pretty f +:+ " times") f act
    else mkBackend a s now m f act.

(** ** The monitor and what it watches *)

Section Monitor.
Context {C W : Type} `{AMIClientOps C} `{AMIBanner C} `{WSServer W}.

(** A status with its backends and statistics, as [json.Marshal] sees it. *)
Definition report : Type := ComponentHealth * option (list BackendHealth) * option (gmap string Z).
Context `{HealthJSON report}.

Record Env : Type := mkEnv {
  hm : HealthMonitor;
  amiManager : option (Manager C);
  rtpManager : bool;
  wsServer : option W;
  world : World }.

Definition monitor : GoM Env HealthMonitor := λ e, (Done (hm e), e).
Definition on_hm (f : HealthMonitor → HealthMonitor) : GoM Env unit :=
  λ e, let '(mkEnv h a r w s) := e in (Done tt, mkEnv (f h) a r w s).
(** A call of a method of the AMI manager; it dereferences the manager. *)
Definition on_ami {A} (m : GoM (St C) A) : GoM Env A :=
  λ e, let '(mkEnv h a r w s) := e in
       match a with
       | None => (Panic NilDereference, e)
       | Some mg => let '(o, (mg, s)) := m (mg, s) in (o, mkEnv h (Some mg) r w s)
       end.
Definition on_storage {A} (m : GoM World A) : GoM Env A :=
  λ e, let '(mkEnv h a r w s) := e in let '(o, s) := m s in (o, mkEnv h a r w s).

Definition set_ws (v : W) : GoM Env unit :=
  modify (λ e, let '(mkEnv h a r _ s) := e in mkEnv h a r (Some v) s).

(** [h.componentStatus[name]], dereferenced. *)
Definition component (name : string) : GoM Env ComponentHealth :=
  h ← monitor;
  match componentStatus h !! name with Some c => mret c | None => lift (Panic NilDereference) end.
Definition on_component (name : string) (f : ComponentHealth → ComponentHealth) : GoM Env unit :=
  component name;; on_hm (on_components (alter f name)).
Definition backends_of (h : HealthMonitor) (c : ComponentHealth) : list BackendHealth :=
  match ch_Backends c with Some r => default [] (slices h !! r) | None => [] end.
Definition backends (name : string) : GoM Env (list BackendHealth) :=
  c ← component name; h ← monitor; mret (backends_of h c).
(** [status.Backends[i]] written. *)
Definition on_backend (name : string) (i : nat) (f : BackendHealth → BackendHealth) : GoM Env unit :=
  c ← component name; h ← monitor;
  lift (index (backends_of h c) (Z.of_nat i));;
  match ch_Backends c with
  | Some r => on_hm (on_slices (alter (alter f i) r))
  | None => mret tt
  end.
Definition new_slice (l : list BackendHealth) : GoM Env nat :=
  h ← monitor; on_hm (on_slices (λ s, s ++ [l]));; mret (length (slices h)).
(** [status.Stats[key]++]; a write to a nil map panics. *)
Definition count (name key : string) : GoM Env unit :=
  c ← component name;
  match ch_Stats c with
  | Some r => on_hm (on_statmaps (alter (λ m, <[key := int64_wrap (default 0 (m !! key) + 1)]> m) r))
  | None => lift (Panic NilMapWrite)
  end.

(** ** Failover *)

Definition triggerFailover (name : string) (now : Time) (tr : nat → Time) : GoM Env unit :=
  e ← get_state;
  if decide (name = "opensips") then
    match wsServer e with Some w => set_ws (ws_PrepareForFailover now w) | None => mret tt end
  else if decide (name = "asterisk") then
    match amiManager e with Some _ => on_ami (Reconnect tr);; mret tt | None => mret tt end
  else mret tt.

(** ** The OpenSIPS backends *)

(** Each probe runs in a goroutine of its own and updates its backend under the
    mutex: [order] is the order in which they come to that. A panic in any of
    them takes the process down. *)
Fixpoint probe_backends (net : exchange) (t : nat → Time) (order : list nat) (results : list bool)
    : GoM Env (list bool) :=
  match order with
  | [] => mret results
  | i :: order =>
      h ← monitor;
      match opensipsBackends h !! i with
      | None => probe_backends net t order results
      | Some addr =>
          healthy ← lift (checkSingleOpenSIPSBackend net (t i) addr i);
          on_backend "opensips" i (after_probe (failureThreshold h) healthy (t i));;
          probe_backends net t order (<[i := healthy]> results)
      end
  end.

Definition find_active (bs : list BackendHealth) : option nat :=
  fst <$> list_find (λ b, bh_IsActive b = true) bs.
Definition healthyCount (results : list bool) : nat := length (filter (λ r, r = true) results).
(** The first healthy backend that is not the active one. *)
Definition find_healthy (results : list bool) (active : option nat) : option nat :=
  fst <$> list_find (λ x, x.2 = true ∧ active ≠ Some x.1) (imap pair results).

Fixpoint set_all_active (new : nat) (i : nat) (n : nat) : GoM Env unit :=
  match n with
  | O => mret tt
  | S n => on_backend "opensips" i (set_active (bool_decide (i = new)));; set_all_active new (S i) n
  end.

Definition opensips_failover (results : list bool) (active : option nat) (now : Time)
    (tr : nat → Time) : GoM Env unit :=
  match find_healthy results active with
  | None => mret tt
  | Some new =>
      h ← monitor;
      let at_ (i : option nat) :=
        index (opensipsBackends h) (match i with Some i => Z.of_nat i | None => -1 end) in
      oldBackend ← lift (at_ active);
      newBackend ← lift (at_ (Some new));
      bs ← backends "opensips";
      fails ← lift (index bs (match active with Some i => Z.of_nat i | None => -1 end));
      set_all_active new 0 (length bs);;
      let event := mkEvent "opensips" oldBackend newBackend now
                     ("Health check failure count: " +:+ pretty (bh_FailCount fails)) in
      on_hm (on_history (λ fh, <["opensips" := default [] (fh !! "opensips") ++ [event]]> fh));;
      count "opensips" "failovers";;
      triggerFailover "opensips" now tr
  end.

Definition opensips_verdict (healthy total : nat) : ComponentHealth → ComponentHealth :=
  if decide (healthy = total) then set_status StatusHealthy "All OpenSIPS backends healthy"
  else if decide (0 < healthy)%nat then
    set_status StatusDegraded (pretty healthy +:+ "/" +:+ pretty total +:+ " OpenSIPS backends healthy")
  else set_status StatusUnhealthy "All OpenSIPS backends unhealthy".

Definition checkOpenSIPSBackends (net : exchange) (order : list nat) (t : nat → Time) (now : Time)
    (tr : nat → Time) : GoM Env unit :=
  h ← monitor;
  if decide (opensipsBackends h = []) then mret tt
  else
    bs ← backends "opensips";
    active ← match find_active bs with
             | Some i => mret (Some i)
             | None => match bs with
                       | [] => mret None
                       | _ => on_backend "opensips" 0 (set_active true);; mret (Some O)
                       end
             end;
    results ← probe_backends net t order (replicate (length (opensipsBackends h)) false);
    let healthy := healthyCount results in
    let activeHealthy := match active with Some i => default false (results !! i) | None => false end in
    count "opensips" "total_checks";;
    count "opensips" (if decide (0 < healthy)%nat then "success" else "failure");;
    (if negb activeHealthy && bool_decide (0 < healthy)%nat && failoverEnabled h
     then opensips_failover results active now tr else mret tt);;
    on_component "opensips" (set_checked now);;
    on_component "opensips" (opensips_verdict healthy (length (opensipsBackends h))).

(** ** The AMI clients *)

Definition asterisk_backend (c : C) (isActive : bool) (now : Time) (b : BackendHealth)
    : BackendHealth :=
  let '(mkBackend _ _ _ _ f _) := b in
  if cli_connected c && cli_banner c then
    mkBackend (cli_address c) StatusHealthy now "AMI connected and banner received" 0 isActive
  else if cli_connected c then
    mkBackend (cli_address c) StatusDegraded now "AMI connected but no banner" 0 isActive
  else
    let f := int64_wrap (f + 1) in
    mkBackend (cli_address c) StatusUnhealthy now
      ("AMI not connected (failures: " +:+ pretty f +:+ ")") f isActive.

Fixpoint asterisk_backends (active : nat) (t : nat → Time) (i : nat) (cs : list C) : GoM Env unit :=
  match cs with
  | [] => mret tt
  | c :: cs =>
      on_backend "asterisk" i (asterisk_backend c (bool_decide (i = active)) (t i));;
      asterisk_backends active t (S i) cs
  end.

Definition fresh_backends (active : nat → bool) (addresses : list string) : list BackendHealth :=
  imap (λ i a, mkBackend a StatusUnhealthy zero_time "" 0 (active i)) addresses.

(** The manager always has an active client ([GetActiveClient] indexes its list
    of clients), so the code's branch for none is never taken. *)
Definition checkAsterisk (now : Time) (t : nat → Time) (tr : nat → Time) : GoM Env unit :=
  active ← on_ami GetActiveClient;
  all ← on_ami GetAllClients;
  on_component "asterisk" (set_checked now);;
  bs ← backends "asterisk";
  (if decide (length bs = length all) then mret tt
   else r ← new_slice (fresh_backends (λ i, bool_decide (i = active)) (cli_address <$> all));
        on_component "asterisk" (set_backends (Some r)));;
  match all !! active with
  | None => on_component "asterisk" (set_status StatusUnhealthy "No AMI clients configured")
  | Some client =>
      asterisk_backends active t 0 all;;
      if cli_banner client then
        on_component "asterisk" (set_status StatusHealthy "AMI banner received - Asterisk ready");;
        count "asterisk" "success"
      else if cli_connected client then
        on_component "asterisk" (set_status StatusDegraded "AMI connected but waiting for banner");;
        count "asterisk" "success"
      else
        on_component "asterisk" (set_status StatusUnhealthy "Active AMI client not connected");;
        count "asterisk" "failure";;
        h ← monitor;
        if bool_decide (Exists (λ c, cli_connected c = true) all) && failoverEnabled h then
          triggerFailover "asterisk" now tr;; count "asterisk" "failovers"
        else mret tt
  end.

(** ** The RTPEngine manager and the WebSocket server *)

Definition checkRTPEngine (now : Time) (tr : nat → Time) : GoM Env unit :=
  on_component "rtpengine" (set_checked now);;
  e ← get_state;
  if rtpManager e
  then on_component "rtpengine" (set_status StatusHealthy "RTPEngine manager available")
  else
    on_component "rtpengine" (set_status StatusUnhealthy "RTPEngine manager not available");;
    if failoverEnabled (hm e) then triggerFailover "rtpengine" now tr else mret tt.

Definition checkWebSocketBackends (answers : string → option string) (now : Time) : GoM Env unit :=
  e ← get_state;
  match wsServer e with
  | None => mret tt
  | Some w =>
      w ← lift (ws_CheckBackendHealth answers w);
      set_ws w;;
      on_hm (on_components (λ cs,
        match cs !! "websocket_backends" with
        | Some _ => cs
        | None => <["websocket_backends" := mkComponent "websocket_backends" StatusUnhealthy
                      zero_time "" None None]> cs
        end));;
      on_component "websocket_backends" (set_checked now);;
      on_component "websocket_backends"
        (if ws_HasHealthyBackends w
         then set_status StatusHealthy "At least one WebSocket backend is healthy"
         else set_status StatusUnhealthy "No healthy WebSocket backends available")
  end.

(** ** Reports *)

(** What a reader of a handed out status sees: the fields of the copy, and the
    backends and statistics its references lead to. *)
Definition look (h : HealthMonitor) (c : ComponentHealth) : report :=
  (c, (λ r, default [] (slices h !! r)) <$> ch_Backends c,
   (λ r, default ∅ (statmaps h !! r)) <$> ch_Stats c).

Definition GetComponentHealth (name : string) (h : HealthMonitor) : option ComponentHealth :=
  componentStatus h !! name.
Definition GetAllComponentHealth (h : HealthMonitor) : gmap string ComponentHealth :=
  componentStatus h.
Definition GetFailoverHistory (name : string) (h : HealthMonitor) : option (list FailoverEvent) :=
  failoverHistory h !! name.
Definition GetAllFailoverHistory (h : HealthMonitor) : gmap string (list FailoverEvent) :=
  failoverHistory h.

Definition storeHealthStatus (has_storage : bool) (now : Time) : GoM Env unit :=
  if has_storage then
    h ← monitor;
    match marshal_status (look h <$> componentStatus h) with
    | None => mret tt
    | Some doc => on_storage (Set_ "health:status" (Some (Raw doc)) 0 now);; mret tt
    end
  else mret tt.

(** ** A round of checks, and the start *)

(** What the environment decides in a round. *)
Record Round : Type := mkRound {
  rd_net : exchange; rd_order : list nat; rd_probe : nat → Time; rd_now : Time;
  rd_reconnect : nat → Time; rd_ws : string → option string; rd_storage : bool }.

Definition checkAllComponents (r : Round) : GoM Env unit :=
  checkOpenSIPSBackends (rd_net r) (rd_order r) (rd_probe r) (rd_now r) (rd_reconnect r);;
  checkAsterisk (rd_now r) (rd_probe r) (rd_reconnect r);;
  checkRTPEngine (rd_now r) (rd_reconnect r);;
  e ← get_state;
  (if match wsServer e with Some w => ws_HasBackends w | None => false end
   then checkWebSocketBackends (rd_ws r) (rd_now r) else mret tt);;
  storeHealthStatus (rd_storage r) (rd_now r).

Definition new_component (name : string) (bs : option (list BackendHealth)) : GoM Env unit :=
  r ← match bs with Some l => r ← new_slice l; mret (Some r) | None => mret None end;
  h ← monitor;
  on_hm (on_statmaps (λ s, s ++ [{[ "success" := 0; "failure" := 0; "failovers" := 0 ]}]));;
  on_hm (on_components <[name := mkComponent name StatusUnhealthy zero_time "" r
                           (Some (length (statmaps h)))]>).

(** The backends of the AMI manager; the first one with the address of the
    active client is the active one. *)
Definition ami_backends (e : Env) : outcome (option (list BackendHealth)) :=
  match amiManager e with
  | None => Done None
  | Some m =>
      match clients m with
      | [] => Done None
      | cs =>
          c ← index cs (activeIdx m);
          Done (Some (fresh_backends
            (λ i, bool_decide ((fst <$> list_find (λ x, cli_address x = cli_address c) cs) = Some i))
            (cli_address <$> cs)))
      end
  end.

Definition initialise : GoM Env unit :=
  h ← monitor;
  new_component "opensips" (Some (fresh_backends (λ i, bool_decide (i = O)) (opensipsBackends h)));;
  e ← get_state;
  bs ← lift (ami_backends e);
  new_component "asterisk" bs;;
  new_component "rtpengine" None.

(** [Start], up to the goroutine of the loop, which runs [checkAllComponents]
    every interval. *)
Definition Start (r : Round) : GoM Env unit := initialise;; checkAllComponents r.
Fixpoint monitorLoop (rs : list Round) : GoM Env unit :=
  match rs with
  | [] => mret tt
  | r :: rs => checkAllComponents r;; monitorLoop rs
  end.
End Monitor.
Arguments Env C W : clear implicits.

(** ** Facts *)

(** What the monitor watches: the OpenSIPS backends are a slice of their own,
    with exactly one active, the [a]-th. *)
Record opensips_ok (h : HealthMonitor) (r : nat) (bs : list BackendHealth) (a : nat) : Prop := {
  os_component : ∃ c k, componentStatus h !! "opensips" = Some c ∧ ch_Backends c = Some r ∧
    ch_Stats c = Some k;
  os_slice : slices h !! r = Some bs;
  os_length : length bs = length (opensipsBackends h);
  os_active : (a < length bs)%nat;
  os_unique : ∀ i b, bs !! i = Some b → bh_IsActive b = bool_decide (i = a)
}.

(** The backend that is active after a check: the old one unless it failed its
    probe, failover is enabled, and another one passed. *)
Definition next_active (enabled : bool) (results : list bool) (a : nat) : nat :=
  if default false (results !! a) then a
  else if enabled then default a (fst <$> list_find (λ x, x = true) results) else a.

Section Facts.
Context {C W : Type} `{AMIClientLaws C} `{AMIBanner C} `{WSServer W} `{HealthJSON report}.
Implicit Types e : Env C W.

Lemma hl_bind_on_hm {A} f (g : unit → GoM (Env C W) A) h am rt ws s :
  (on_hm f ≫= g) (mkEnv h am rt ws s) = g tt (mkEnv (f h) am rt ws s).
Proof. done. Qed.

Lemma on_component_run name f c e :
  componentStatus (hm e) !! name = Some c →
  on_component name f e = (Done tt, snd (on_hm (on_components (alter f name)) e)).
Proof.
  intros Hc. destruct e as [h am rt ws s]. simpl in *.
  unfold on_component, component, monitor, mbind, GoM_bind. simpl. by rewrite Hc.
Qed.

Lemma backends_run name c e :
  componentStatus (hm e) !! name = Some c →
  backends name e = (Done (backends_of (hm e) c), e).
Proof.
  intros Hc. unfold backends, component, monitor, mbind, GoM_bind. simpl. by rewrite Hc.
Qed.

Lemma on_backend_run name i f c r bs e :
  componentStatus (hm e) !! name = Some c → ch_Backends c = Some r →
  slices (hm e) !! r = Some bs → (i < length bs)%nat →
  on_backend name i f e = (Done tt, snd (on_hm (on_slices <[r := alter f i bs]>) e)).
Proof.
  intros Hc Hr Hs Hi. destruct e as [h am rt ws s]. simpl in *.
  unfold on_backend, component, monitor, mbind, GoM_bind. simpl. rewrite Hc. simpl.
  unfold backends_of. rewrite Hr, Hs. simpl.
  destruct (index_Done bs (Z.of_nat i)) as (b&_&E); [lia|]. rewrite E. unfold lift. simpl.
  unfold on_hm. do 2 f_equal. destruct h. simpl in *. unfold on_slices. f_equal.
  apply list_eq. intros j. destruct (decide (j = r)) as [->|Hne].
  - rewrite list_lookup_alter_eq, Hs, list_lookup_insert_eq by (by eapply lookup_lt_Some). done.
  - by rewrite list_lookup_alter_ne, list_lookup_insert_ne by done.
Qed.

Lemma count_run name key c k e :
  componentStatus (hm e) !! name = Some c → ch_Stats c = Some k →
  ∃ f, count name key e = (Done tt, snd (on_hm (on_statmaps f) e)).
Proof.
  intros Hc Hk. destruct e as [h am rt ws s]. simpl in *.
  unfold count, component, monitor, mbind, GoM_bind. simpl. rewrite Hc. simpl. rewrite Hk.
  by eexists.
Qed.

(** An update of the store of backends keeps everything else. *)
Definition upd_slice (r : nat) (bs : list BackendHealth) (e : Env C W) : Env C W :=
  snd (on_hm (on_slices <[r := bs]>) e).

Lemma upd_slice_ok r bs bs' a a' e :
  opensips_ok (hm e) r bs a → length bs' = length bs → (a' < length bs)%nat →
  (∀ i b, bs' !! i = Some b → bh_IsActive b = bool_decide (i = a')) →
  opensips_ok (hm (upd_slice r bs' e)) r bs' a'.
Proof.
  intros [Hc Hs Hl Ha Hu] Hlen Ha' Hu'. destruct e as [[] am rt ws s]. simpl in *.
  split; simpl; [done| |by rewrite Hlen|by rewrite Hlen|done].
  apply list_lookup_insert_eq. by eapply lookup_lt_Some.
Qed.

Lemma upd_slice_twice r bs bs' e : upd_slice r bs' (upd_slice r bs e) = upd_slice r bs' e.
Proof. destruct e as [[] am rt ws s]. unfold upd_slice. simpl. by rewrite list_insert_insert_eq. Qed.

Lemma upd_slice_id r bs a e : opensips_ok (hm e) r bs a → upd_slice r bs e = e.
Proof.
  intros [_ Hs _ _ _]. destruct e as [[] am rt ws s]. unfold upd_slice. simpl in *.
  by rewrite list_insert_id.
Qed.

(** The probes update each backend once, in whatever order. *)
Definition after_all (h : HealthMonitor) (V : nat → bool) (t : nat → Time) (done_ : list nat)
    (bs : list BackendHealth) : list BackendHealth :=
  imap (λ i b, if decide (i ∈ done_) then after_probe (failureThreshold h) (V i) (t i) b else b) bs.

Lemma after_probe_active th v t b : bh_IsActive (after_probe th v t b) = bh_IsActive b.
Proof. destruct b. unfold after_probe. repeat case_match; done. Qed.

Lemma after_all_active h V t ds bs (a : nat) :
  (∀ i b, bs !! i = Some b → bh_IsActive b = bool_decide (i = a)) →
  ∀ i b, after_all h V t ds bs !! i = Some b → bh_IsActive b = bool_decide (i = a).
Proof.
  intros Hu i b. unfold after_all. rewrite list_lookup_imap. intros (b0&Hb&->)%fmap_Some.
  case_decide; rewrite ?after_probe_active; by apply Hu.
Qed.

Lemma after_all_cons h V t i ds bs :
  i ∉ ds →
  after_all h V t ds (alter (after_probe (failureThreshold h) (V i) (t i)) i bs)
  = after_all h V t (i :: ds) bs.
Proof.
  intros Hi. apply list_eq. intros j. unfold after_all. rewrite !list_lookup_imap.
  destruct (decide (j = i)) as [->|Hne].
  - rewrite list_lookup_alter_eq. destruct (bs !! i); [|done]. simpl.
    destruct (decide (i ∈ ds)), (decide (i ∈ i :: ds)); set_solver.
  - rewrite list_lookup_alter_ne by done. destruct (bs !! j); [|done]. simpl.
    destruct (decide (j ∈ ds)), (decide (j ∈ i :: ds)); set_solver.
Qed.

Lemma probe_backends_run net t (V : nat → bool) order results e r bs a :
  opensips_ok (hm e) r bs a → NoDup order → (∀ i, i ∈ order → i < length bs)%nat →
  (∀ i addr, opensipsBackends (hm e) !! i = Some addr →
     checkSingleOpenSIPSBackend net (t i) addr i = Done (V i)) →
  probe_backends net t order results e
  = (Done (foldl (λ rs i, <[i := V i]> rs) results order),
     upd_slice r (after_all (hm e) V t order bs) e).
Proof.
  revert results e bs.
  induction order as [|i order IH]; intros results e bs Hok Hnd Hlt HV.
  - simpl. f_equal. symmetry. replace (after_all (hm e) V t [] bs) with bs.
    + by eapply upd_slice_id.
    + apply list_eq. intros j. unfold after_all. rewrite list_lookup_imap.
      by destruct (bs !! j).
  - apply NoDup_cons in Hnd as [Hi Hnd].
    assert (i < length bs)%nat as Hib by (apply Hlt; left).
    simpl. unfold monitor. rewrite (bind_Done (λ e, (Done (hm e), e)) _ e (hm e) e) by done.
    destruct (lookup_lt_is_Some_2 (opensipsBackends (hm e)) i) as [addr Haddr].
    { by rewrite <-(os_length _ _ _ _ Hok). }
    rewrite Haddr, (HV _ _ Haddr).
    rewrite (bind_Done (lift (Done (V i))) _ e (V i) e) by done.
    destruct (os_component _ _ _ _ Hok) as (c&k&Hc&Hr&_).
    rewrite (bind_Done _ _ _ _ _ (on_backend_run "opensips" i _ c r bs e Hc Hr
      (os_slice _ _ _ _ Hok) Hib)).
    fold (upd_slice r (alter (after_probe (failureThreshold (hm e)) (V i) (t i)) i bs) e).
    set (bs1 := alter _ i bs).
    assert (length bs1 = length bs) as Hl1 by apply length_alter.
    rewrite (IH _ _ bs1).
    + rewrite upd_slice_twice. f_equal. destruct e as [[] am rt ws s].
      unfold bs1. simpl. by rewrite <-after_all_cons.
    + eapply upd_slice_ok; [done|done|by apply (os_active _ _ _ _ Hok)|].
      intros j b. unfold bs1. destruct (decide (j = i)) as [->|Hne].
      * rewrite list_lookup_alter_eq. intros (b0&Hb&->)%fmap_Some.
        rewrite after_probe_active. by apply (os_unique _ _ _ _ Hok).
      * rewrite list_lookup_alter_ne by done. by apply (os_unique _ _ _ _ Hok).
    + done.
    + intros j Hj. rewrite Hl1. apply Hlt. by right.
    + by destruct e as [[] am rt ws s].
Qed.

(** Every probe has written its slot of the results. *)
Lemma results_complete (V : nat → bool) n order :
  order ≡ₚ seq 0 n →
  foldl (λ rs i, <[i := V i]> rs) (replicate n false) order = V <$> seq 0 n.
Proof.
  intros Hperm.
  assert (∀ l rs, length (foldl (λ rs i, <[i := V i]> rs) rs l) = length rs ∧
    ∀ j, (j < length rs)%nat →
      foldl (λ rs i, <[i := V i]> rs) rs l !! j
      = if decide (j ∈ l) then Some (V j) else rs !! j) as Hfold.
  { clear. induction l as [|i l IH]; intros rs; cbn [foldl].
    - done.
    - destruct (IH (<[i:=V i]> rs)) as [Hl Hj]. rewrite length_insert in Hl, Hj.
      split; [done|]. intros j Hlt. rewrite Hj by done.
      destruct (decide (j = i)) as [->|Hne].
      + rewrite list_lookup_insert_eq by done.
        destruct (decide (i ∈ l)), (decide (i ∈ i :: l)); set_solver.
      + rewrite list_lookup_insert_ne by done.
        destruct (decide (j ∈ l)), (decide (j ∈ i :: l)); set_solver. }
  destruct (Hfold order (replicate n false)) as [Hlen Hj]. rewrite length_replicate in *.
  apply list_eq. intros j. destruct (decide (j < n)%nat) as [Hlt|Hge].
  - rewrite Hj by done. rewrite list_lookup_fmap, lookup_seq_lt by done. simpl.
    rewrite decide_True; [done|]. rewrite Hperm. apply elem_of_seq. lia.
  - rewrite !lookup_ge_None_2; [done| |]; rewrite ?length_fmap, ?length_seq; lia.
Qed.

(** What the check of the OpenSIPS backends leaves alone. *)
Record frame (r : nat) (e e' : Env C W) : Prop := {
  fr_backends : opensipsBackends (hm e') = opensipsBackends (hm e);
  fr_enabled : failoverEnabled (hm e') = failoverEnabled (hm e);
  fr_threshold : failureThreshold (hm e') = failureThreshold (hm e);
  fr_others : ∀ name, name ≠ "opensips" →
    componentStatus (hm e') !! name = componentStatus (hm e) !! name;
  fr_slices : ∀ i, i ≠ r → slices (hm e') !! i = slices (hm e) !! i;
  fr_nslices : length (slices (hm e')) = length (slices (hm e));
  fr_ami : amiManager e' = amiManager e;
  fr_rtp : rtpManager e' = rtpManager e;
  fr_world : world e' = world e
}.

Lemma hl_frame_refl r e : frame r e e.
Proof. by split. Qed.
Lemma hl_frame_trans r e1 e2 e3 : frame r e1 e2 → frame r e2 e3 → frame r e1 e3.
Proof.
  intros [A1 A2 A3 A4 A5 A6 A7 A8 A9] [B1 B2 B3 B4 B5 B6 B7 B8 B9]. split; try congruence.
  - intros name Hn. by rewrite B4, A4.
  - intros i Hi. by rewrite B5, A5.
Qed.

(** The component, its backends and the history after a step. *)
Record watches (r : nat) (bs : list BackendHealth) (fh : gmap string (list FailoverEvent))
    (e : Env C W) : Prop := {
  wa_component : ∃ c k, componentStatus (hm e) !! "opensips" = Some c ∧ ch_Backends c = Some r ∧
    ch_Stats c = Some k;
  wa_slice : slices (hm e) !! r = Some bs;
  wa_history : failoverHistory (hm e) = fh
}.

Lemma opensips_ok_watches r bs a e :
  opensips_ok (hm e) r bs a → watches r bs (failoverHistory (hm e)) e.
Proof. intros []. by split. Qed.

Lemma watches_upd r bs bs' fh e :
  watches r bs fh e → watches r bs' fh (upd_slice r bs' e) ∧ frame r e (upd_slice r bs' e).
Proof.
  intros [Hc Hs Hf]. destruct e as [[] am rt ws s]. simpl in *. split; split; simpl; try done.
  - apply list_lookup_insert_eq. by eapply lookup_lt_Some.
  - intros i Hi. by rewrite list_lookup_insert_ne.
  - by rewrite length_insert.
Qed.

Lemma watches_count r bs fh e key :
  watches r bs fh e → ∃ e', count "opensips" key e = (Done tt, e') ∧ watches r bs fh e' ∧ frame r e e'.
Proof.
  intros [(c&k&Hc&Hr&Hk) Hs Hf]. destruct (count_run _ key _ _ _ Hc Hk) as [f ->].
  eexists. split; [reflexivity|]. destruct e as [[] am rt ws s]. simpl in *.
  split; split; simpl; eauto.
Qed.

Lemma watches_backend r bs fh e i f :
  watches r bs fh e → (i < length bs)%nat →
  on_backend "opensips" i f e = (Done tt, upd_slice r (alter f i bs) e).
Proof.
  intros [(c&k&Hc&Hr&Hk) Hs Hf] Hi. by rewrite (on_backend_run _ _ _ _ _ _ _ Hc Hr Hs Hi).
Qed.

Lemma set_all_active_run r bs fh e new n i :
  watches r bs fh e → (i + n)%nat = length bs →
  set_all_active new i n e
  = (Done tt, upd_slice r (imap (λ j b, if decide (i <= j)%nat
                                        then set_active (bool_decide (j = new)) b else b) bs) e).
Proof.
  revert i bs e. induction n as [|n IH]; intros i bs e Hw Hn.
  - simpl. unfold mret, GoM_ret. f_equal. destruct Hw as [_ Hs _].
    replace (imap _ bs) with bs.
    + destruct e as [[] am rt ws s]. unfold upd_slice. simpl in *. by rewrite list_insert_id.
    + apply list_eq. intros j. rewrite list_lookup_imap. destruct (bs !! j) eqn:Hj; [|done].
      simpl. rewrite decide_False; [done|]. apply lookup_lt_Some in Hj. lia.
  - simpl. rewrite (bind_Done _ _ _ _ _ (watches_backend r bs fh e i _ Hw ltac:(lia))).
    destruct (watches_upd r bs (alter (set_active (bool_decide (i = new))) i bs) fh e Hw) as [Hw' _].
    rewrite (IH (S i) _ _ Hw') by (rewrite length_alter; lia).
    rewrite upd_slice_twice. do 2 f_equal. apply list_eq. intros j. rewrite !list_lookup_imap.
    destruct (decide (j = i)) as [->|Hne].
    + rewrite list_lookup_alter_eq. destruct (bs !! i); [|done]. simpl.
      by rewrite decide_False, decide_True by lia.
    + rewrite list_lookup_alter_ne by done. destruct (bs !! j); [|done]. simpl. f_equal.
      by destruct (decide (S i <= j)%nat), (decide (i <= j)%nat); try lia.
Qed.

Lemma watches_component r bs fh e f :
  watches r bs fh e → (∀ c, ch_Backends (f c) = ch_Backends c ∧ ch_Stats (f c) = ch_Stats c) →
  ∃ e' c, on_component "opensips" f e = (Done tt, e') ∧ watches r bs fh e' ∧ frame r e e' ∧
    componentStatus (hm e') !! "opensips" = Some (f c).
Proof.
  intros [(c&k&Hc&Hr&Hk) Hs Hf] Hfc. exists (snd (on_hm (on_components (alter f "opensips")) e)), c.
  rewrite (on_component_run _ _ _ _ Hc). split; [done|].
  destruct e as [[] am rt ws s]. simpl in *. destruct (Hfc c) as [E1 E2].
  assert (alter f "opensips" componentStatus0 !! "opensips" = Some (f c)) as Hc'
    by by rewrite lookup_alter_eq, Hc.
  split_and!; [..|done].
  - split; simpl; [|done..]. exists (f c), k. by rewrite E1, E2.
  - split; try done. simpl. intros name Hn. by rewrite lookup_alter_ne.
Qed.

Lemma trigger_opensips r bs fh e now tr :
  watches r bs fh e → ∃ e', triggerFailover "opensips" now tr e = (Done tt, e') ∧
    watches r bs fh e' ∧ frame r e e'.
Proof.
  intros Hw. unfold triggerFailover. rewrite bind_get.
  destruct e as [h am rt [ws|] s]; simpl; eexists; (split; [reflexivity|]);
    destruct Hw; split; split; done.
Qed.

Lemma find_active_unique bs a :
  (a < length bs)%nat → (∀ i b, bs !! i = Some b → bh_IsActive b = bool_decide (i = a)) →
  find_active bs = Some a.
Proof.
  intros Ha Hu. unfold find_active. destruct (lookup_lt_is_Some_2 bs a Ha) as [b Hb].
  assert (bh_IsActive b = true) as Hact by (rewrite (Hu _ _ Hb); by apply bool_decide_eq_true).
  destruct (list_find _ bs) as [[i x]|] eqn:Hf; simpl.
  - apply list_find_Some in Hf as (Hx&Hax&_). f_equal. rewrite (Hu _ _ Hx) in Hax.
    by apply bool_decide_eq_true in Hax.
  - apply list_find_None in Hf. rewrite Forall_forall in Hf.
    destruct (Hf b); [by eapply list_elem_of_lookup_2|done].
Qed.

(** Without the active backend's pass the other ones are searched alone. *)
Lemma find_healthy_first results a :
  results !! a ≠ Some true →
  find_healthy results (Some a) = fst <$> list_find (λ x, x = true) results.
Proof.
  intros Ha. unfold find_healthy. destruct (list_find (λ x, x = true) results) as [[i b]|] eqn:Hf.
  - apply list_find_Some in Hf as (Hi&->&Hmin).
    rewrite (proj2 (list_find_Some _ _ i (i, true))); [done|]. split_and!.
    + by rewrite list_lookup_imap, Hi.
    + done.
    + simpl. congruence.
    + intros j y. rewrite list_lookup_imap. intros (b&Hb&->)%fmap_Some Hj [Hy _].
      by apply (Hmin j b).
  - apply list_find_None in Hf. rewrite (proj2 (list_find_None _ _)); [done|].
    apply Forall_lookup. intros j y. rewrite list_lookup_imap. intros (b&Hb&->)%fmap_Some [Hy _].
    simpl in Hy. subst. rewrite Forall_lookup in Hf. by apply (Hf j true).
Qed.

Lemma healthy_positive results :
  (0 < healthyCount results)%nat ↔ is_Some (list_find (λ x, x = true) results).
Proof.
  unfold healthyCount. induction results as [|[] l IH]; cbn [list_find].
  - split; [simpl; lia|by intros []].
  - rewrite filter_cons_True by done. simpl. split; [by eexists|lia].
  - rewrite filter_cons_False by done. rewrite IH. simpl.
    by destruct (list_find _ l) as [[]|]; split; intros []; eauto.
Qed.

(** A failover, when another backend passed its probe. *)
Lemma opensips_failover_run r bs fh e results (a n : nat) now tr :
  watches r bs fh e → length bs = length (opensipsBackends (hm e)) → (a < length bs)%nat →
  find_healthy results (Some a) = Some n → (n < length bs)%nat →
  ∃ e' ev, opensips_failover results (Some a) now tr e = (Done tt, e') ∧
    watches r (imap (λ j b, set_active (bool_decide (j = n)) b) bs)
      (<["opensips" := default [] (fh !! "opensips") ++ [ev]]> fh) e' ∧ frame r e e' ∧
    Some (fe_From ev) = opensipsBackends (hm e) !! a ∧ Some (fe_To ev) = opensipsBackends (hm e) !! n.
Proof.
  intros Hw Hlen Ha Hn Hnl. unfold opensips_failover. rewrite Hn.
  unfold monitor. rewrite (bind_Done (λ e, (Done (hm e), e)) _ e (hm e) e) by done. cbv zeta.
  destruct (index_Done (opensipsBackends (hm e)) (Z.of_nat a)) as (old&Hold&Eo); [lia|].
  destruct (index_Done (opensipsBackends (hm e)) (Z.of_nat n)) as (new&Hnew&En); [lia|].
  rewrite Eo, En, (bind_Done (lift (Done old)) _ e old e) by done.
  rewrite (bind_Done (lift (Done new)) _ e new e) by done.
  destruct (wa_component _ _ _ _ Hw) as (c&k&Hc&Hr&Hk).
  rewrite (bind_Done _ _ _ _ _ (backends_run _ _ _ Hc)).
  assert (backends_of (hm e) c = bs) as ->.
  { unfold backends_of. by rewrite Hr, (wa_slice _ _ _ _ Hw). }
  destruct (index_Done bs (Z.of_nat a)) as (b&_&Eb); [lia|].
  rewrite Eb, (bind_Done (lift (Done b)) _ e b e) by done.
  rewrite (bind_Done _ _ _ _ _ (set_all_active_run r bs fh e n (length bs) 0 Hw eq_refl)).
  set (bs' := imap _ bs). destruct (watches_upd r bs bs' fh e Hw) as [Hw1 Hf1].
  set (e1 := upd_slice r bs' e) in *. set (ev := mkEvent _ _ _ _ _).
  set (add := λ f : gmap string (list FailoverEvent),
    <["opensips" := default [] (f !! "opensips") ++ [ev]]> f).
  assert (watches r bs' (add fh) (snd (on_hm (on_history add) e1)) ∧
    frame r e1 (snd (on_hm (on_history add) e1))) as [Hw2 Hf2].
  { destruct Hw1 as [? ? <-]. destruct e1 as [[] ? ? ? ?]. by split. }
  rewrite (bind_Done (on_hm (on_history add)) _ e1 tt (snd (on_hm (on_history add) e1)))
    by by destruct e1.
  destruct (watches_count _ _ _ _ "failovers" Hw2) as (e3&E3&Hw3&Hf3).
  rewrite (bind_Done _ _ _ _ _ E3).
  destruct (trigger_opensips _ _ _ _ now tr Hw3) as (e4&E4&Hw4&Hf4).
  exists e4, ev. split; [done|]. split; [|split].
  - replace bs' with (imap (λ j b, set_active (bool_decide (j = n)) b) bs) in Hw4; [done|].
    apply imap_ext. intros i x _. done.
  - eauto using hl_frame_trans.
  - rewrite Nat2Z.id in *. by rewrite Hold, Hnew.
Qed.

Lemma set_active_same b : set_active (bh_IsActive b) b = b.
Proof. by destruct b. Qed.

Lemma after_all_complete h V t bs order :
  order ≡ₚ seq 0 (length bs) →
  after_all h V t order bs = imap (λ i b, after_probe (failureThreshold h) (V i) (t i) b) bs.
Proof.
  intros Hperm. apply list_eq. intros i. unfold after_all. rewrite !list_lookup_imap.
  destruct (bs !! i) as [b|] eqn:Hb; [|done]. simpl. rewrite decide_True; [done|].
  rewrite Hperm. apply elem_of_seq. apply lookup_lt_Some in Hb. lia.
Qed.

(** The failover step of a check. *)
Lemma failover_step_run r bs1 a results h now tr e :
  opensips_ok (hm e) r bs1 a → failoverEnabled h = failoverEnabled (hm e) →
  length results = length bs1 →
  let a' := next_active (failoverEnabled (hm e)) results a in
  let fh := failoverHistory (hm e) in
  ∃ e' fh',
    (if negb (default false (results !! a)) && bool_decide (0 < healthyCount results)%nat
        && failoverEnabled h
     then opensips_failover results (Some a) now tr else mret tt) e = (Done tt, e') ∧
    watches r (imap (λ j b, set_active (bool_decide (j = a')) b) bs1) fh' e' ∧ frame r e e' ∧
    (a' < length bs1)%nat ∧
    (if decide (a' = a) then fh' = fh
     else ∃ ev, fh' = <["opensips" := default [] (fh !! "opensips") ++ [ev]]> fh ∧
       Some (fe_From ev) = opensipsBackends (hm e) !! a ∧
       Some (fe_To ev) = opensipsBackends (hm e) !! a').
Proof.
  intros Hok Hen Hres a' fh.
  assert (Hsame : a' = a → watches r (imap (λ j b, set_active (bool_decide (j = a')) b) bs1) fh e).
  { intros ->. replace (imap _ bs1) with bs1; [by eapply opensips_ok_watches|].
    apply list_eq. intros j. rewrite list_lookup_imap. destruct (bs1 !! j) as [b|] eqn:Hb; [|done].
    simpl. by rewrite <-(os_unique _ _ _ _ Hok _ _ Hb), set_active_same. }
  pose proof (os_active _ _ _ _ Hok) as Ha.
  assert (a' = a → ∃ e' fh', mret (M:=GoM (Env C W)) tt e = (Done tt, e') ∧
    watches r (imap (λ j b, set_active (bool_decide (j = a')) b) bs1) fh' e' ∧ frame r e e' ∧
    (a' < length bs1)%nat ∧ fh' = fh) as Hstay.
  { intros E. exists e, fh. split_and!; [done|by apply Hsame|apply hl_frame_refl|by rewrite E|done]. }
  unfold next_active in a'. rewrite Hen.
  destruct (default false (results !! a)) eqn:Hd; simpl.
  { destruct (Hstay eq_refl) as (e'&fh'&?&?&?&?&?). exists e', fh'.
    by rewrite decide_True by done. }
  destruct (failoverEnabled (hm e)) eqn:Hfe.
  2: { rewrite andb_false_r. destruct (Hstay eq_refl) as (e'&fh'&?&?&?&?&?). exists e', fh'.
       by rewrite decide_True by done. }
  rewrite andb_true_r. assert (results !! a ≠ Some true) as Hna by (intros E; by rewrite E in Hd).
  destruct (list_find (λ x, x = true) results) as [[n b]|] eqn:Hf.
  - rewrite bool_decide_eq_true_2 by (apply healthy_positive; by rewrite Hf; eexists).
    pose proof (find_healthy_first results a Hna) as Hfh. rewrite Hf in Hfh. simpl in Hfh.
    apply list_find_Some in Hf as (Hn&->&_).
    assert (n < length bs1)%nat as Hlt by (rewrite <-Hres; by eapply lookup_lt_Some).
    assert (n ≠ a) as Hne by (intros ->; done).
    destruct (opensips_failover_run r bs1 fh e results a n now tr) as (e'&ev&E&Hw&Hfr&Hfrom&Hto);
      [by eapply opensips_ok_watches|by destruct Hok|done..|].
    eexists e', _. split; [done|]. split; [done|]. split; [done|]. split; [done|].
    subst a'. simpl. rewrite decide_False by done. eauto.
  - rewrite bool_decide_eq_false_2 by (rewrite healthy_positive, Hf; by intros []).
    destruct (Hstay eq_refl) as (e'&fh'&?&?&?&?&?). exists e', fh'.
    by rewrite decide_True by done.
Qed.

(** What a check does, when no probe panics. *)
Lemma check_opensips_run e net order t now tr V r bs a :
  opensips_ok (hm e) r bs a → order ≡ₚ seq 0 (length bs) →
  (∀ i addr, opensipsBackends (hm e) !! i = Some addr →
     checkSingleOpenSIPSBackend net (t i) addr i = Done (V i)) →
  let h := hm e in
  let results := V <$> seq 0 (length bs) in
  let a' := next_active (failoverEnabled h) results a in
  let fh := failoverHistory h in
  let bs' := imap (λ i b, set_active (bool_decide (i = a'))
                            (after_probe (failureThreshold h) (V i) (t i) b)) bs in
  ∃ e' c fh', checkOpenSIPSBackends net order t now tr e = (Done tt, e') ∧ frame r e e' ∧
    opensips_ok (hm e') r bs' a' ∧
    componentStatus (hm e') !! "opensips" = Some (opensips_verdict (healthyCount results)
      (length bs) c) ∧
    failoverHistory (hm e') = fh' ∧
    (if decide (a' = a) then fh' = fh
     else ∃ ev, fh' = <["opensips" := default [] (fh !! "opensips") ++ [ev]]> fh ∧
       Some (fe_From ev) = opensipsBackends h !! a ∧ Some (fe_To ev) = opensipsBackends h !! a').
Proof.
  intros Hok Hperm HV h results a' fh bs'. pose proof (os_active _ _ _ _ Hok) as Ha.
  pose proof (os_length _ _ _ _ Hok) as Hlen. fold h in Hlen.
  unfold checkOpenSIPSBackends, monitor.
  rewrite (bind_Done (λ e, (Done (hm e), e)) _ e h e) by done.
  rewrite decide_False by (intros E; rewrite E in Hlen; simpl in Hlen; lia).
  destruct (os_component _ _ _ _ Hok) as (c&k&Hc&Hr&Hk).
  rewrite (bind_Done _ _ _ _ _ (backends_run _ _ _ Hc)).
  assert (backends_of (hm e) c = bs) as ->.
  { unfold backends_of. by rewrite Hr, (os_slice _ _ _ _ Hok). }
  rewrite (find_active_unique bs a Ha (os_unique _ _ _ _ Hok)).
  rewrite (bind_Done (mret (Some a)) _ e (Some a) e) by done.
  assert (NoDup order) as Hnd by (rewrite Hperm; apply NoDup_seq).
  assert (∀ i, i ∈ order → i < length bs)%nat as Hlt
    by (intros i; rewrite Hperm, elem_of_seq; lia).
  rewrite (bind_Done _ _ _ _ _ (probe_backends_run net t V order _ e r bs a Hok Hnd Hlt HV)).
  rewrite <-Hlen, (results_complete V (length bs) order Hperm). fold results.
  rewrite (after_all_complete _ _ _ _ _ Hperm). fold h. set (bs1 := imap _ bs).
  assert (length bs1 = length bs) as Hl1 by apply length_imap.
  assert (opensips_ok (hm (upd_slice r bs1 e)) r bs1 a) as Hok1.
  { eapply upd_slice_ok; [done..|]. intros i b. unfold bs1. rewrite list_lookup_imap.
    intros (b0&Hb&->)%fmap_Some. rewrite after_probe_active. by apply (os_unique _ _ _ _ Hok). }
  destruct (watches_upd r bs bs1 fh e) as [_ Hf1]; [by eapply opensips_ok_watches|].
  assert (failoverHistory (hm (upd_slice r bs1 e)) = fh) as Hh1 by by destruct e as [[] ? ? ? ?].
  set (e1 := upd_slice r bs1 e) in *. clearbody e1. cbv zeta.
  destruct (watches_count r bs1 fh e1 "total_checks") as (e2&E2&Hw2&Hf2);
    [rewrite <-Hh1; by eapply opensips_ok_watches|].
  rewrite (bind_Done _ _ _ _ _ E2).
  destruct (watches_count r bs1 fh e2 (if decide (0 < healthyCount results)%nat
    then "success" else "failure") Hw2) as (e3&E3&Hw3&Hf3).
  rewrite (bind_Done _ _ _ _ _ E3).
  assert (frame r e e3) as Hf03 by eauto using hl_frame_trans.
  assert (opensips_ok (hm e3) r bs1 a) as Hok3.
  { destruct Hw3 as [? ? ?]. destruct Hok1 as [? ? ? ? ?]. split; try done.
    rewrite Hl1, (fr_backends _ _ _ Hf03). done. }
  destruct (failover_step_run r bs1 a results h now tr e3 Hok3) as (e4&fh'&E4&Hw4&Hf4&Ha4&Hfh).
  { by rewrite (fr_enabled _ _ _ Hf03). }
  { unfold results. by rewrite Hl1, length_fmap, length_seq. }
  rewrite (fr_enabled _ _ _ Hf03), (fr_backends _ _ _ Hf03) in *. fold h in Hw4, Ha4, Hfh.
  fold a' in Hw4, Ha4, Hfh.
  rewrite (bind_Done _ _ _ _ _ E4).
  assert (imap (λ j b, set_active (bool_decide (j = a')) b) bs1 = bs') as Hbs.
  { apply list_eq. intros i. unfold bs1, bs'. rewrite !list_lookup_imap. by destruct (bs !! i). }
  rewrite Hbs in Hw4.
  destruct (watches_component r bs' fh' e4 (set_checked now) Hw4) as (e5&c5&E5&Hw5&Hf5&_);
    [by intros []|].
  rewrite (bind_Done _ _ _ _ _ E5).
  destruct (watches_component r bs' fh' e5 (opensips_verdict (healthyCount results) (length bs)) Hw5)
    as (e6&c6&E6&Hw6&Hf6&Hc6).
  { intros []. unfold opensips_verdict. by repeat case_decide. }
  rewrite E6. exists e6, c6, fh'. split; [done|].
  assert (frame r e e6) as Hf06 by eauto 10 using hl_frame_trans.
  split; [done|]. destruct Hw6 as [Hcc Hss Hhh]. split_and!; [|done|done|].
  - split; [done|done| | |].
    + unfold bs'. by rewrite length_imap, (fr_backends _ _ _ Hf06).
    + unfold bs'. by rewrite length_imap, <-Hl1.
    + intros i b. unfold bs'. rewrite list_lookup_imap. intros (b0&_&->)%fmap_Some.
      by destruct (after_probe _ _ _ b0).
  - rewrite (wa_history _ _ _ _ Hw3) in Hfh. done.
Qed.

(** A short answer among those to come stops the process. *)
Definition answer (e : Env C W) (net : exchange) (t : nat → Time) (i : nat) : option string :=
  addr ← opensipsBackends (hm e) !! i;
  take_string 4096 <$> net i (host_of addr +:+ ":6060")
                         (buildSipOptionsMessage (host_of addr) (t i) (t i) (t i)).
Definition crashes (e : Env C W) (net : exchange) (t : nat → Time) (i : nat) : Prop :=
  ∃ response, answer e net t i = Some response ∧ short_answer response = true.

Lemma check_single e net t i addr :
  opensipsBackends (hm e) !! i = Some addr →
  checkSingleOpenSIPSBackend net (t i) addr i
  = match answer e net t i with
    | None => Done false
    | Some response =>
        if short_answer response then Panic SliceOutOfRange else Done (accepted response)
    end.
Proof.
  intros Ha. unfold checkSingleOpenSIPSBackend, answer. rewrite Ha. simpl.
  destruct (net i _ _); [|done]. simpl. apply probe_verdict_spec.
Qed.

Lemma probe_backends_panic net t order results e r bs a :
  opensips_ok (hm e) r bs a → (∀ i, i ∈ order → i < length bs)%nat →
  Exists (crashes e net t) order →
  ∃ e', probe_backends net t order results e = (Panic SliceOutOfRange, e').
Proof.
  revert results e bs. induction order as [|i order IH]; intros results e bs Hok Hlt Hcr;
    [by apply Exists_nil in Hcr|].
  assert (i < length bs)%nat as Hib by (apply Hlt; left).
  simpl. unfold monitor. rewrite (bind_Done (λ e, (Done (hm e), e)) _ e (hm e) e) by done.
  destruct (lookup_lt_is_Some_2 (opensipsBackends (hm e)) i) as [addr Haddr].
  { by rewrite <-(os_length _ _ _ _ Hok). }
  rewrite Haddr, (check_single _ _ _ _ _ Haddr).
  destruct (match answer e net t i with Some _ => _ | None => _ end) as [b|p|] eqn:Ev.
  - rewrite (bind_Done (lift (Done b)) _ e b e) by done.
    destruct (os_component _ _ _ _ Hok) as (c&k&Hc&Hr&_).
    rewrite (bind_Done _ _ _ _ _ (on_backend_run "opensips" i _ c r bs e Hc Hr
      (os_slice _ _ _ _ Hok) Hib)).
    set (bs1 := alter _ i bs). fold (upd_slice r bs1 e).
    assert (length bs1 = length bs) as Hl1 by apply length_alter.
    eapply (IH _ _ bs1).
    + eapply upd_slice_ok; [done|done|by apply (os_active _ _ _ _ Hok)|].
      intros j x. unfold bs1. destruct (decide (j = i)) as [->|Hne].
      * rewrite list_lookup_alter_eq. intros (b0&Hb&->)%fmap_Some.
        rewrite after_probe_active. by apply (os_unique _ _ _ _ Hok).
      * rewrite list_lookup_alter_ne by done. by apply (os_unique _ _ _ _ Hok).
    + intros j Hj. rewrite Hl1. apply Hlt. by right.
    + assert (∀ j, crashes (upd_slice r bs1 e) net t j ↔ crashes e net t j) as Hsame
        by (intros j; by destruct e as [[] ? ? ? ?]).
      apply Exists_cons in Hcr as [(response&Ha&Hs)|Hcr].
      * rewrite Ha, Hs in Ev. done.
      * eapply Exists_impl; [exact Hcr|]. intros j. apply Hsame.
  - assert (p = SliceOutOfRange) as -> by (destruct (answer e net t i); repeat case_match; congruence).
    by eexists.
  - destruct (answer e net t i); repeat case_match; congruence.
Qed.

Lemma check_opensips_panic e net order t now tr r bs a i :
  opensips_ok (hm e) r bs a → order ≡ₚ seq 0 (length bs) → crashes e net t i →
  ∃ e', checkOpenSIPSBackends net order t now tr e = (Panic SliceOutOfRange, e').
Proof.
  intros Hok Hperm Hcr. pose proof (os_active _ _ _ _ Hok) as Ha.
  pose proof (os_length _ _ _ _ Hok) as Hlen. unfold checkOpenSIPSBackends, monitor.
  rewrite (bind_Done (λ e, (Done (hm e), e)) _ e (hm e) e) by done.
  rewrite decide_False by (intros E; rewrite E in Hlen; simpl in Hlen; lia).
  destruct (os_component _ _ _ _ Hok) as (c&k&Hc&Hr&Hk).
  rewrite (bind_Done _ _ _ _ _ (backends_run _ _ _ Hc)).
  assert (backends_of (hm e) c = bs) as ->.
  { unfold backends_of. by rewrite Hr, (os_slice _ _ _ _ Hok). }
  rewrite (find_active_unique bs a Ha (os_unique _ _ _ _ Hok)).
  rewrite (bind_Done (mret (Some a)) _ e (Some a) e) by done.
  destruct (probe_backends_panic net t order (replicate (length (opensipsBackends (hm e))) false)
    e r bs a Hok) as [e' E].
  - intros j. rewrite Hperm, elem_of_seq. lia.
  - apply Exists_exists. exists i. split; [|done]. rewrite Hperm. apply elem_of_seq.
    destruct Hcr as (resp&Hans&_). unfold answer in Hans.
    destruct (opensipsBackends (hm e) !! i) eqn:Hi; [|done]. apply lookup_lt_Some in Hi. lia.
  - rewrite (bind_Panic _ _ _ _ _ E). by eexists.
Qed.

(** ** A well-formed monitor *)

(** The statuses of a started monitor: the OpenSIPS backends with exactly one
    active; a list of AMI backends that is not the same one; an AMI manager
    and a storage that are well formed. *)
Context (ops : list string).
Record monitoring (r : nat) (bs : list BackendHealth) (a : nat) (e : Env C W) : Prop := {
  mo_opensips : opensips_ok (hm e) r bs a;
  mo_backends : opensipsBackends (hm e) = ops;
  mo_asterisk : ∃ c k, componentStatus (hm e) !! "asterisk" = Some c ∧ ch_Stats c = Some k ∧
    ∀ q, ch_Backends c = Some q → q ≠ r ∧ (q < length (slices (hm e)))%nat;
  mo_rtp : is_Some (componentStatus (hm e) !! "rtpengine");
  mo_ami : ∃ m, amiManager e = Some m ∧ mgr_ok m;
  mo_world : shards_wf (world e)
}.

(** The number of AMI backends listed. *)
Definition listed (n : nat) (e : Env C W) : Prop :=
  ∃ c, componentStatus (hm e) !! "asterisk" = Some c ∧ length (backends_of (hm e) c) = n.

Section Asterisk.
Context (r : nat) (bs : list BackendHealth) (a n : nat).
Abbreviation inv := (λ e, monitoring r bs a e ∧ listed n e).

Lemma asterisk_component f :
  (∀ c, ch_Backends (f c) = ch_Backends c ∧ ch_Stats (f c) = ch_Stats c) →
  triple inv (on_component "asterisk" f) (λ _, inv).
Proof.
  intros Hf e [[Hos Hops (c&k&Hc&Hk&Hq) Hrtp Hami Hw] (c'&Hc'&Hn)].
  assert (c' = c) as -> by congruence. rewrite (on_component_run _ _ _ _ Hc). destruct (Hf c) as [F1 F2].
  eexists _, _. split; [reflexivity|]. destruct e as [[] am rt ws s]. simpl in *.
  assert (alter f "asterisk" componentStatus0 !! "asterisk" = Some (f c)) as Hc1
    by by rewrite lookup_alter_eq, Hc.
  split.
  - split; simpl; try done.
    + destruct Hos as [Hcc ? ? ? ?]. split; try done. simpl.
      by rewrite lookup_alter_ne.
    + exists (f c), k. by rewrite F1, F2.
    + by rewrite lookup_alter_ne.
  - exists (f c). split; [done|]. unfold backends_of in *. simpl. by rewrite F1.
Qed.

Lemma asterisk_count key : triple inv (count "asterisk" key) (λ _, inv).
Proof.
  intros e [[Hos Hops (c&k&Hc&Hk&Hq) Hrtp Hami Hw] (c'&Hc'&Hn)].
  destruct (count_run "asterisk" key c k e Hc Hk) as [f E]. rewrite E.
  eexists _, _. split; [reflexivity|]. destruct e as [[] am rt ws s]. simpl in *.
  split; [split; simpl; try done; [by destruct Hos|by eauto]|by exists c'].
Qed.

Lemma asterisk_backend_at i f :
  (i < n)%nat → triple inv (on_backend "asterisk" i f) (λ _, inv).
Proof.
  intros Hi e [[Hos Hops (c&k&Hc&Hk&Hq) Hrtp Hami Hw] (c'&Hc'&Hn)].
  assert (c' = c) as -> by congruence. unfold backends_of in Hn.
  destruct (ch_Backends c) as [q|] eqn:Hb; [|simpl in Hn; lia].
  destruct (Hq q eq_refl) as [Hqr Hql].
  destruct (lookup_lt_is_Some_2 _ _ Hql) as [l Hl]. rewrite Hl in Hn. simpl in Hn.
  rewrite (on_backend_run _ i f c q l e Hc Hb Hl) by lia.
  eexists _, _. split; [reflexivity|]. destruct e as [[] am rt ws s]. simpl in *.
  split.
  - split; simpl; try done.
    + destruct Hos as [? Hs ? ? ?]. split; try done. simpl. by rewrite list_lookup_insert_ne.
    + exists c, k. split_and!; try done. intros q' Hq'. rewrite length_insert. apply Hq. congruence.
  - exists c. split; [done|]. unfold backends_of. simpl. rewrite Hb, list_lookup_insert_eq by done.
    simpl. by rewrite length_alter.
Qed.

Lemma asterisk_backends_ok act t i cs :
  (i + length cs)%nat = n → triple inv (asterisk_backends act t i cs) (λ _, inv).
Proof.
  revert i. induction cs as [|c cs IH]; intros i Hn; simpl.
  - by apply triple_ret.
  - eapply triple_seq; [apply asterisk_backend_at; simpl in Hn; lia|].
    apply IH. simpl in Hn. lia.
Qed.

Lemma asterisk_trigger now tr : triple inv (triggerFailover "asterisk" now tr) (λ _, inv).
Proof.
  intros e [[Hos Hops Hast Hrtp (m&Hm&Hok) Hw] Hl]. unfold triggerFailover. rewrite bind_get. simpl.
  rewrite Hm. destruct (Reconnect_ok m (world e) tr Hok) as (x&m'&E&Hok').
  destruct e as [h am rt ws s]. simpl in *. subst am. unfold on_ami, mbind, GoM_bind. simpl.
  rewrite E. eexists _, _. split; [reflexivity|]. split; [split; simpl; try done; by eexists|done].
Qed.
End Asterisk.

Lemma get_active_run (m : Manager C) w :
  mgr_ok m → GetActiveClient (m, w) = (Done (Z.to_nat (activeIdx m)), (m, w)).
Proof.
  intros Hm. unfold GetActiveClient. rewrite ami_bind_mgr.
  destruct (index_Done (clients m) (activeIdx m) (ok_active _ Hm)) as (c&_&E).
  by rewrite (ami_bind_lift _ _ _ _ E).
Qed.

Lemma new_slice_run l e :
  new_slice l e = (Done (length (slices (hm e))), snd (on_hm (on_slices (λ s, s ++ [l])) e)).
Proof. by destruct e as [[] ? ? ? ?]. Qed.

Lemma on_ami_run {A} (g : GoM (St C) A) m x e :
  amiManager e = Some m → g (m, world e) = (Done x, (m, world e)) → on_ami g e = (Done x, e).
Proof. intros Hm E. destruct e as [h am rt ws s]. simpl in *. subst am. by rewrite E. Qed.

Lemma same_backends_status s msg c :
  ch_Backends (set_status s msg c) = ch_Backends c ∧ ch_Stats (set_status s msg c) = ch_Stats c.
Proof. by destruct c. Qed.
Lemma same_backends_checked v c :
  ch_Backends (set_checked v c) = ch_Backends c ∧ ch_Stats (set_checked v c) = ch_Stats c.
Proof. by destruct c. Qed.
#[local] Hint Resolve same_backends_status same_backends_checked : core.

(** The list of AMI backends has the length of the list of clients before the
    clients are looked at. *)
Lemma resize_ok r bs a n (act : nat → bool) (addrs : list string) k :
  length addrs = k →
  triple (λ e, monitoring r bs a e ∧ listed n e)
    (if decide (n = k) then mret tt
     else q ← new_slice (fresh_backends act addrs); on_component "asterisk" (set_backends (Some q)))
    (λ _ e, monitoring r bs a e ∧ listed k e).
Proof.
  intros Hk. case_decide as Hn; [subst n; by apply triple_ret|].
  intros e [[Hos Hops (c&kk&Hc&Hst&Hq) Hrtp Hami Hw] (c'&Hc'&Hl)].
  rewrite (bind_Done _ _ _ _ _ (new_slice_run _ e)).
  set (e1 := snd _).
  assert (componentStatus (hm e1) !! "asterisk" = Some c) as Hc1 by by destruct e as [[] ? ? ? ?].
  rewrite (on_component_run _ _ _ _ Hc1). eexists _, _. split; [reflexivity|].
  destruct Hos as [Hcc Hs ? ? ?]. pose proof (lookup_lt_Some _ _ _ Hs) as Hlt.
  destruct e as [[] am rt ws s]. subst e1. simpl in *.
  assert (∀ f : ComponentHealth → ComponentHealth,
    alter f "asterisk" componentStatus0 !! "asterisk" = Some (f c)) as Hal
    by (intros f; by rewrite lookup_alter_eq, Hc).
  split.
  - split; simpl; try done.
    + split; simpl; try done; [by rewrite lookup_alter_ne|by rewrite lookup_app_l].
    + exists (set_backends (Some (length slices0)) c), kk. rewrite Hal. destruct c; simpl in *.
      split_and!; [done|done|]. intros q [= <-]. rewrite length_app. simpl. lia.
    + by rewrite lookup_alter_ne.
  - exists (set_backends (Some (length slices0)) c). simpl. rewrite Hal. split; [done|]. unfold backends_of. destruct c; simpl.
    rewrite lookup_app_r, Nat.sub_diag by done. simpl. unfold fresh_backends.
    by rewrite length_imap.
Qed.

Lemma check_asterisk_ok r bs a now t tr :
  triple (monitoring r bs a) (checkAsterisk now t tr) (λ _, monitoring r bs a).
Proof.
  intros e Hmo. pose proof Hmo as [_ _ (c&k&Hc&Hk&_) _ (m&Hm&Hok) _].
  unfold checkAsterisk.
  rewrite (bind_Done _ _ _ _ _ (on_ami_run _ _ _ _ Hm (get_active_run m (world e) Hok))).
  rewrite (bind_Done (on_ami GetAllClients) _ e (clients m) e)
    by (apply (on_ami_run GetAllClients m); done).
  set (act := Z.to_nat (activeIdx m)). set (all := clients m).
  set (n := length (backends_of (hm e) c)).
  assert (monitoring r bs a e ∧ listed n e) as Hinv by (split; [done|by exists c]).
  clearbody n act. clear Hc Hk Hmo. revert e Hm Hinv. intros e Hm. clear Hm. revert e.
  eapply triple_seq; [by apply asterisk_component|]. intros e [Hmo (c1&Hc1&Hn)].
  rewrite (bind_Done _ _ _ _ _ (backends_run _ _ _ Hc1)). rewrite Hn.
  assert (monitoring r bs a e ∧ listed n e) as Hinv by (split; [done|by exists c1]).
  clear Hc1 Hn Hmo. revert e Hinv.
  eapply triple_seq; [apply resize_ok; apply length_fmap|].
  set (I := λ e, monitoring r bs a e ∧ listed (length all) e).
  eapply (triple_post _ _ (λ _, I)); [|by intros ? ? []].
  destruct (all !! act) as [client|]; [|by apply asterisk_component].
  eapply triple_seq; [apply asterisk_backends_ok; lia|]. fold I.
  assert (∀ s msg key, triple I (on_component "asterisk" (set_status s msg);; count "asterisk" key)
    (λ _, I)) as Hstep.
  { intros. eapply triple_seq; [by apply asterisk_component|apply asterisk_count]. }
  destruct (cli_banner client); [apply Hstep|]. destruct (cli_connected client); [apply Hstep|].
  eapply triple_seq; [by apply asterisk_component|].
  eapply triple_seq; [apply asterisk_count|]. fold I.
  intros e He. unfold monitor. rewrite (bind_Done (λ e, (Done (hm e), e)) _ e (hm e) e) by done.
  destruct (_ && _); [|by exists tt, e]. revert e He.
  eapply triple_seq; [apply asterisk_trigger|apply asterisk_count].
Qed.

Lemma other_component r bs a name f :
  name ≠ "opensips" → name ≠ "asterisk" →
  triple (λ e, monitoring r bs a e ∧ is_Some (componentStatus (hm e) !! name))
    (on_component name f)
    (λ _ e, monitoring r bs a e ∧ is_Some (componentStatus (hm e) !! name)).
Proof.
  intros Hn1 Hn2 e [[Hos Hops Hast Hrtp Hami Hw] [c Hc]]. rewrite (on_component_run _ _ _ _ Hc).
  eexists _, _. split; [reflexivity|]. destruct Hos. destruct e as [[] am rt ws s]. simpl in *.
  split; [|by rewrite lookup_alter_eq, Hc; eexists].
  split; simpl; try done.
  - split; try done. simpl. by rewrite lookup_alter_ne.
  - by rewrite lookup_alter_ne.
  - destruct (decide (name = "rtpengine")) as [->|?].
    + rewrite lookup_alter_eq, Hc. by eexists.
    + by rewrite lookup_alter_ne.
Qed.

Lemma check_rtp_ok r bs a now tr :
  triple (monitoring r bs a) (checkRTPEngine now tr) (λ _, monitoring r bs a).
Proof.
  set (I := λ e, monitoring r bs a e ∧ is_Some (componentStatus (hm e) !! "rtpengine")).
  apply (triple_conseq I _ _ (λ _, I)); [|by intros e []; split|by intros _ e []].
  assert (∀ f, triple I (on_component "rtpengine" f) (λ _, I)) as Hstep
    by (intros; by apply other_component).
  eapply triple_seq; [apply Hstep|]. intros e He. rewrite bind_get. revert e He.
  intros e. destruct (rtpManager e).
  - revert e. apply Hstep.
  - revert e. intros e. generalize (failoverEnabled (hm e)). intros b. revert e.
    eapply triple_seq; [apply Hstep|]. intros e He. destruct b; [|by exists tt, e].
    unfold triggerFailover. rewrite bind_get. by exists tt, e.
Qed.

Lemma set_ws_ok r bs a w : triple (monitoring r bs a) (set_ws w) (λ _, monitoring r bs a).
Proof.
  intros e [Hos Hops Hast Hrtp Hami Hw]. eexists _, _. split; [reflexivity|].
  by destruct e as [h am rt ws s].
Qed.

Lemma check_ws_ok r bs a answers now :
  (∀ w : W, ∃ w', ws_CheckBackendHealth answers w = Done w') →
  triple (monitoring r bs a) (checkWebSocketBackends answers now) (λ _, monitoring r bs a).
Proof.
  intros Hws e Hmo. unfold checkWebSocketBackends. rewrite bind_get.
  destruct (wsServer e) as [w|]; [|by exists tt, e].
  destruct (Hws w) as [w' ->]. rewrite (bind_Done (lift (Done w')) _ e w' e) by done.
  revert e Hmo. eapply triple_seq; [apply set_ws_ok|].
  set (I := λ e, monitoring r bs a e ∧ is_Some (componentStatus (hm e) !! "websocket_backends")).
  assert (∀ f, triple I (on_component "websocket_backends" f) (λ _, I)) as Hstep
    by (intros; by apply other_component).
  eapply (triple_seq _ I).
  - intros e [Hos Hops Hast Hrtp Hami Hw]. destruct e as [[] am rt ws s].
    eexists _, _. split; [reflexivity|]. destruct Hos. simpl in *. unfold I. simpl.
    destruct (componentStatus0 !! "websocket_backends") as [c|] eqn:Hc; simpl.
    + split; [|by rewrite Hc; eexists]. by split.
    + split; [|by rewrite lookup_insert_eq; eexists]. split; simpl; try done.
      * split; try done. simpl. by rewrite lookup_insert_ne.
      * by rewrite lookup_insert_ne.
      * by rewrite lookup_insert_ne.
  - eapply triple_seq; [apply Hstep|].
    eapply triple_post; [apply Hstep|by intros ? ? []].
Qed.

Lemma store_ok r bs a has now :
  triple (monitoring r bs a) (storeHealthStatus has now) (λ _, monitoring r bs a).
Proof.
  intros e Hmo. unfold storeHealthStatus. destruct has; [|by exists tt, e].
  unfold monitor. rewrite (bind_Done (λ e, (Done (hm e), e)) _ e (hm e) e) by done.
  destruct (marshal_status _) as [doc|]; [|by exists tt, e].
  destruct Hmo as [Hos Hops Hast Hrtp Hami Hw]. destruct e as [h am rt ws s]. simpl in *.
  pose proof (kv_Set_refines "health:status" (Some (Raw doc)) 0 now : refines (S:=World) _ _) as Hr.
  destruct (Hr s Hw) as (s'&E&Hs'&_). simpl in E.
  unfold on_storage, mbind, GoM_bind. rewrite E. eexists _, _. split; [reflexivity|]. by split.
Qed.

(** A round in which every answer is long enough for the log messages, and
    every probe ends. *)
Definition quiet (rd : Round) : Prop :=
  rd_order rd ≡ₚ seq 0 (length ops) ∧
  (∀ i addr response, ops !! i = Some addr →
     rd_net rd i (host_of addr +:+ ":6060") (buildSipOptionsMessage (host_of addr)
       (rd_probe rd i) (rd_probe rd i) (rd_probe rd i)) = Some response →
     short_answer (take_string 4096 response) = false) ∧
  (∀ w : W, ∃ w', ws_CheckBackendHealth (rd_ws rd) w = Done w').

Definition probe_passes (net : exchange) (t : nat → Time) (addrs : list string) (i : nat) : bool :=
  match addrs !! i with
  | None => false
  | Some addr => match checkSingleOpenSIPSBackend net (t i) addr i with Done b => b | _ => false end
  end.

Lemma quiet_single e net t i addr :
  (∀ response, answer e net t i = Some response → short_answer response = false) →
  opensipsBackends (hm e) !! i = Some addr →
  checkSingleOpenSIPSBackend net (t i) addr i = Done (probe_passes net t (opensipsBackends (hm e)) i).
Proof.
  intros Hq Ha. unfold probe_passes. rewrite Ha, (check_single _ _ _ _ _ Ha).
  destruct (answer e net t i) as [response|]; [|done]. by rewrite (Hq response).
Qed.

Lemma check_all_ok r bs a rd e :
  quiet rd → monitoring r bs a e →
  ∃ e' bs' a', checkAllComponents rd e = (Done tt, e') ∧ monitoring r bs' a' e'.
Proof.
  intros (Hperm&Hans&Hws) Hmo. pose proof Hmo as [Hos Hops Hast Hrtp Hami Hw].
  assert (length bs = length ops) as Hlen by (rewrite (os_length _ _ _ _ Hos), Hops; done).
  unfold checkAllComponents.
  destruct (check_opensips_run e (rd_net rd) (rd_order rd) (rd_probe rd) (rd_now rd)
    (rd_reconnect rd) (probe_passes (rd_net rd) (rd_probe rd) ops) r bs a Hos)
    as (e1&c&fh&E1&Hfr&Hos1&_).
  { by rewrite Hlen. }
  { intros i addr Ha. rewrite <-Hops. apply quiet_single; [|done].
    intros response. unfold answer. rewrite Ha. simpl. rewrite Hops in Ha.
    destruct (rd_net rd i _ _) as [resp|] eqn:Hn; simpl; [|done]. intros [= <-]. eauto. }
  rewrite (bind_Done _ _ _ _ _ E1).
  set (bs1 := imap _ bs) in Hos1. set (a1 := next_active _ _ a) in Hos1.
  assert (monitoring r bs1 a1 e1) as Hmo1.
  { pose proof Hfr as [F1 F2 F3 F4 F5 F6 F7 F8 F9]. split; [done| | | | |].
    - congruence.
    - rewrite F4, F6 by done. done.
    - by rewrite F4.
    - by rewrite F7.
    - by rewrite F9. }
  cut (triple (monitoring r bs1 a1)
    (checkAsterisk (rd_now rd) (rd_probe rd) (rd_reconnect rd);;
     checkRTPEngine (rd_now rd) (rd_reconnect rd);;
     e ← get_state;
     (if match wsServer e with Some w => ws_HasBackends w | None => false end
      then checkWebSocketBackends (rd_ws rd) (rd_now rd) else mret tt);;
     storeHealthStatus (rd_storage rd) (rd_now rd)) (λ _, monitoring r bs1 a1)).
  { intros Ht. destruct (Ht e1 Hmo1) as ([]&e2&E2&Hmo2). by exists e2, bs1, a1. }
  eapply triple_seq; [apply check_asterisk_ok|]. eapply triple_seq; [apply check_rtp_ok|].
  intros e2 He2. rewrite bind_get.
  set (b := match wsServer e2 with Some w => ws_HasBackends w | None => false end). clearbody b.
  revert e2 He2. eapply (triple_seq _ (monitoring r bs1 a1)); [|apply store_ok].
  destruct b; [by apply check_ws_ok|by apply triple_ret].
Qed.

Lemma rounds_ok r bs a rds e :
  Forall quiet rds → monitoring r bs a e →
  ∃ e' bs' a', monitorLoop rds e = (Done tt, e') ∧ monitoring r bs' a' e'.
Proof.
  revert bs a e. induction rds as [|rd rds IH]; intros bs a e Hq Hmo; [by exists e, bs, a|].
  apply Forall_cons in Hq as [Hq Hqs].
  destruct (check_all_ok r bs a rd e Hq Hmo) as (e1&bs1&a1&E1&Hmo1). simpl.
  rewrite (bind_Done _ _ _ _ _ E1). by eapply IH.
Qed.

Lemma fresh_backends_at act addrs i b :
  fresh_backends act addrs !! i = Some b → bh_IsActive b = act i.
Proof. unfold fresh_backends. rewrite list_lookup_imap. by intros (x&_&->)%fmap_Some. Qed.

Lemma initialise_ok config e m :
  hm e = NewHealthMonitor config → opensipsBackends (hm e) = ops → ops ≠ [] →
  amiManager e = Some m → mgr_ok m → shards_wf (world e) →
  ∃ e' bs, initialise e = (Done tt, e') ∧ monitoring 0 bs 0 e'.
Proof.
  intros Hh Hops Hne Hm Hok Hw. destruct e as [h am rt ws s]. simpl in *. subst h am.
  unfold initialise, monitor.
  rewrite (bind_Done (λ e, (Done (hm e), e)) _ _ _ _ eq_refl). unfold new_component, new_slice, monitor.
  destruct (index_Done (clients m) (activeIdx m) (ok_active _ Hok)) as (c&_&E).
  set (act := λ i, bool_decide ((fst <$> list_find (λ x, cli_address x = cli_address c) (clients m))
                                = Some i)).
  set (abs := fresh_backends act (cli_address <$> clients m)).
  assert (∀ h, ami_backends (mkEnv h (Some m) rt ws s) = Done (Some abs)) as Ha.
  { intros h. unfold ami_backends. simpl. pose proof (ok_active _ Hok) as Hact.
    subst abs act. destruct (clients m); [simpl in Hact; lia|]. by rewrite E. }
  unfold mbind, GoM_bind, get_state, lift. simpl. rewrite Ha. simpl.
  eexists _, _. split; [reflexivity|]. unfold NewHealthMonitor in Hops. simpl in Hops.
  split; simpl.
  - split; simpl; rewrite ?Hops.
    + eexists _, _. split; [rewrite lookup_insert_ne, lookup_insert_ne, lookup_insert_eq by done; reflexivity|done].
    + done.
    + unfold fresh_backends. by rewrite length_imap.
    + unfold fresh_backends. rewrite length_imap. destruct ops; [done|simpl; lia].
    + intros i b. apply fresh_backends_at.
  - done.
  - eexists _, _. rewrite lookup_insert_ne, lookup_insert_eq by done. split; [done|].
    split; [done|]. simpl. intros q [= <-]. lia.
  - rewrite lookup_insert_eq. by eexists.
  - by exists m.
  - done.
Qed.
End Facts.

(** ** Properties *)

Section Properties.
Context {C W : Type} `{AMIClientLaws C} `{AMIBanner C} `{WSServer W} `{HealthJSON report}.

(** C25. The check of the OpenSIPS backends probes them in parallel; in whatever
    order the probes come to their updates, the result is the same: every
    backend is updated by its own probe, exactly one is active afterwards - the
    old one as long as its probe passes, failover is disabled or no other
    passes, else the first that passes, on the very first failed probe and
    whatever the failure threshold - and a change of the active backend, and
    only that, is recorded in the history with both addresses. *)
Theorem opensips_check_order_free (e : Env C W) (net : exchange) (order : list nat)
    (t : nat → Time) (now : Time) (tr : nat → Time) (r : nat) (bs : list BackendHealth) (a : nat)
    (Hok : opensips_ok (hm e) r bs a) (Horder : order ≡ₚ seq 0 (length bs))
    (Hanswers : ∀ i, ¬ crashes e net t i) :
  let h := hm e in
  let passes := probe_passes net t (opensipsBackends h) in
  let results := passes <$> seq 0 (length bs) in
  let a' := next_active (failoverEnabled h) results a in
  ∃ e', checkOpenSIPSBackends net order t now tr e = (Done tt, e') ∧
    slices (hm e') !! r = Some (imap (λ i b, set_active (bool_decide (i = a'))
      (after_probe (failureThreshold h) (passes i) (t i) b)) bs) ∧
    (ch_Status <$> GetComponentHealth "opensips" (hm e'))
    = Some (if decide (healthyCount results = length bs) then StatusHealthy
            else if decide (0 < healthyCount results)%nat then StatusDegraded
            else StatusUnhealthy) ∧
    if decide (a' = a) then failoverHistory (hm e') = failoverHistory h
    else ∃ ev, GetFailoverHistory "opensips" (hm e')
               = Some (default [] (GetFailoverHistory "opensips" h) ++ [ev]) ∧
         Some (fe_From ev) = opensipsBackends h !! a ∧ Some (fe_To ev) = opensipsBackends h !! a'.
Proof.
  intros h passes results a'.
  destruct (check_opensips_run e net order t now tr passes r bs a Hok Horder)
    as (e'&c&fh&E&_&Hok'&Hc&Hf&Hh).
  { intros i addr Ha. apply quiet_single; [|done]. intros response Hans.
    destruct (short_answer response) eqn:Hs; [|done]. destruct (Hanswers i). by exists response. }
  exists e'. split; [exact E|]. split; [exact (os_slice _ _ _ _ Hok')|]. split.
  - unfold GetComponentHealth. rewrite Hc. simpl. unfold opensips_verdict. by repeat case_decide; destruct c.
  - fold h results a' in Hh. rewrite Hf. case_decide; [done|]. destruct Hh as (ev&->&?&?).
    exists ev. split; [|done]. unfold GetFailoverHistory. by rewrite Hf, lookup_insert_eq.
Qed.

(** An OpenSIPS backend (or whoever answers for it over UDP) stops the
    gateway with a short datagram: an answer of less than 100 bytes that is
    none of the expected ones, or of less than 15 bytes that is, makes the
    probe slice it out of range, in a goroutine without recovery, whatever the
    other probes do. Without such an answer the check ends. *)
Theorem short_answer_crashes (e : Env C W) (net : exchange) (order : list nat)
    (t : nat → Time) (now : Time) (tr : nat → Time) (r : nat) (bs : list BackendHealth) (a : nat)
    (Hok : opensips_ok (hm e) r bs a) (Horder : order ≡ₚ seq 0 (length bs)) :
  (∃ e', checkOpenSIPSBackends net order t now tr e = (Panic SliceOutOfRange, e')) ↔
  ∃ i response, answer e net t i = Some response ∧
    Z.of_nat (String.length response) < (if accepted response then 15 else 100).
Proof.
  assert (∀ s, short_answer s = true ↔ Z.of_nat (String.length s) < (if accepted s then 15 else 100))
    as Hshort by (intros s; unfold short_answer; apply Z.ltb_lt).
  split.
  - intros [e' E]. destruct (decide (Exists (λ i, match answer e net t i with
      | Some s => short_answer s | None => false end = true) (seq 0 (length bs)))) as [Hex|Hno].
    + apply Exists_exists in Hex as (i&_&Hi). destruct (answer e net t i) as [s|] eqn:Ha; [|done].
      exists i, s. split; [done|]. by apply Hshort.
    + destruct (check_opensips_run e net order t now tr
        (probe_passes net t (opensipsBackends (hm e))) r bs a Hok Horder) as (e2&?&?&E2&_).
      * intros i addr Ha. apply quiet_single; [|done]. intros s Hs.
        destruct (short_answer s) eqn:Hss; [|done]. destruct Hno. apply Exists_exists. exists i.
        rewrite Hs. split; [|done]. apply elem_of_seq. rewrite (os_length _ _ _ _ Hok).
        apply lookup_lt_Some in Ha. lia.
      * by rewrite E in E2.
  - intros (i&s&Ha&Hs%Hshort). apply (check_opensips_panic e net order t now tr r bs a i Hok Horder).
    by exists s.
Qed.

(** A started monitor is well formed and stays so: from the configuration
    with at least one OpenSIPS backend and an AMI manager, the start and any
    number of rounds of checks end without a panic, as long as no answer is
    short, and exactly one OpenSIPS backend is active after them. *)
Theorem monitor_one_active (config : HealthConfig) (e : Env C W) (m : Manager C)
    (rd : Round) (rds : list Round)
    (Hnew : hm e = NewHealthMonitor config) (Hsome : opensipsBackends (hm e) ≠ [])
    (Hm : amiManager e = Some m) (Hmok : mgr_ok m) (Hw : shards_wf (world e))
    (Hquiet : Forall (quiet (W:=W) (opensipsBackends (hm e))) (rd :: rds)) :
  ∃ e' c bs a, (Start rd;; monitorLoop rds) e = (Done tt, e') ∧
    GetComponentHealth "opensips" (hm e') = Some c ∧ backends_of (hm e') c = bs ∧
    length bs = length (opensipsBackends (hm e)) ∧
    (a < length bs)%nat ∧ ∀ i b, bs !! i = Some b → bh_IsActive b = bool_decide (i = a).
Proof.
  destruct (initialise_ok (opensipsBackends (hm e)) config e m Hnew eq_refl Hsome Hm Hmok Hw)
    as (e1&bs1&E1&Hmo1).
  destruct (rounds_ok _ _ _ _ (rd :: rds) e1 Hquiet Hmo1) as (e2&bs2&a2&E2&Hmo2).
  destruct (mo_opensips _ _ _ _ _ Hmo2) as [(c&k&Hc&Hr&_) Hs Hl Ha Hu].
  exists e2, c, bs2, a2. unfold Start. rewrite bind_assoc, (bind_Done _ _ _ _ _ E1).
  split; [exact E2|]. split; [done|]. split; [unfold backends_of; by rewrite Hr, Hs|].
  rewrite <-(mo_backends _ _ _ _ _ Hmo2). done.
Qed.
End Properties.

(** ** The WebSocket server the monitor is given *)

#[export] Instance websocket_server : WSServer (ServerConfig * sys) := {|
  ws_HasBackends w := HasBackends w.1;
  ws_CheckBackendHealth answers w :=
    sh ← CheckBackendHealth answers (BackendServers w.1) (shared w.2);
    mret (w.1, mkSys sh (WebSocket.clients w.2) (threads w.2) (dead w.2));
  ws_HasHealthyBackends w := HasHealthyBackends (shared w.2);
  ws_PrepareForFailover now w :=
    (w.1, mkSys (shared w.2) (PrepareForFailover now (shared w.2) (WebSocket.clients w.2))
            (threads w.2) (dead w.2))
|}.

(** ** What the checks show besides *)

Section Findings.
Context {C W : Type} `{AMIClientLaws C} `{AMIBanner C} `{WSServer W} `{HealthJSON report}.

(** [Start] takes care of a monitor without an AMI manager, the checks do not. *)
Lemma asterisk_check_needs_manager (e : Env C W) now t tr :
  amiManager e = None → checkAsterisk now t tr e = (Panic NilDereference, e).
Proof.
  intros Hm. unfold checkAsterisk. destruct e as [h am rt ws s]. simpl in *. by subst am.
Qed.

(** The copy [GetComponentHealth] makes is shallow: its list of backends is the
    monitor's, and changes under the reader's eyes. *)
Lemma copies_share_backends (e : Env C W) net order t now tr r bs a c :
  opensips_ok (hm e) r bs a → order ≡ₚ seq 0 (length bs) → (∀ i, ¬ crashes e net t i) →
  GetComponentHealth "opensips" (hm e) = Some c →
  ∃ e', checkOpenSIPSBackends net order t now tr e = (Done tt, e') ∧
    (look (hm e') c).1.1 = c ∧
    ((look (hm e') c).1.2 : option (list BackendHealth))
    = (look (hm e') <$> GetComponentHealth "opensips" (hm e')) ≫= λ x, x.1.2.
Proof.
  intros Hok Hperm Hans Hc.
  destruct (check_opensips_run e net order t now tr
    (probe_passes net t (opensipsBackends (hm e))) r bs a Hok Hperm) as (e'&c'&fh&E&_&Hok'&_).
  { intros i addr Ha. apply quiet_single; [|done]. intros response Hr.
    destruct (short_answer response) eqn:Hs; [|done]. destruct (Hans i). by exists response. }
  exists e'. split; [exact E|]. split; [done|].
  destruct (os_component _ _ _ _ Hok) as (c0&k&Hc0&Hr&_).
  destruct (os_component _ _ _ _ Hok') as (c2&k2&Hc2&Hr2&_).
  unfold GetComponentHealth in *. rewrite Hc2. simplify_eq. simpl. by rewrite Hr, Hr2.
Qed.
End Findings.

(** ** Instances *)

#[export] Instance sample_banner : AMIBanner sample_client := sc_up.
#[export] Instance sample_health_json : HealthJSON report := λ _, Some "{}".

Definition sample_config : HealthConfig :=
  mkHealthConfig "" ["10.0.0.1:5060"; "10.0.0.2:5060"] 0 true 3.
Definition sample_env : Env sample_client (ServerConfig * sys) :=
  {| hm := NewHealthMonitor sample_config; amiManager := Some sample_manager; rtpManager := true;
     wsServer := Some (with_defaults two_backends, lone); world := sample_world |}.

(** Sixteen bytes of acceptance; the first backend does not answer. *)
Definition ok_answer : string := "SIP/2.0 200 OK__".
Definition one_answers : exchange := λ i _ _, match i with 1%nat => Some ok_answer | _ => None end.
Definition sample_round (order : list nat) : Round :=
  mkRound one_answers order (λ i, 100 + Z.of_nat i) 200 (λ _, 150) (λ _, None) true.

Definition started : Env sample_client (ServerConfig * sys) :=
  (initialise (C:=sample_client) (W:=ServerConfig * sys) sample_env).2.
Definition initial_backends : list BackendHealth :=
  [mkBackend "10.0.0.1:5060" StatusUnhealthy zero_time "" 0 true;
   mkBackend "10.0.0.2:5060" StatusUnhealthy zero_time "" 0 false].

Lemma started_ok : opensips_ok (hm started) 0 initial_backends 0.
Proof.
  split.
  - eexists (mkComponent "opensips" StatusUnhealthy zero_time "" (Some 0%nat) (Some 0%nat)), 0%nat.
    split_and!; by vm_compute.
  - by vm_compute.
  - by vm_compute.
  - simpl. lia.
  - intros [|[|i]] b Hb; simplify_eq/=; done.
Qed.

Lemma sample_order : [1; 0]%nat ≡ₚ seq 0 (length initial_backends).
Proof. apply Permutation_swap. Qed.

Lemma no_crash i : ¬ crashes started one_answers (λ i, 100 + Z.of_nat i) i.
Proof.
  intros (response&Ha&Hs). unfold answer in Ha.
  destruct (opensipsBackends (hm started) !! i) as [addr|]; [|done].
  destruct i as [|[|i]]; try done. simpl in Ha. injection Ha as <-. by vm_compute in Hs.
Qed.

Lemma opensips_check_order_free_witness :
  ∃ e', checkOpenSIPSBackends one_answers [1; 0]%nat (λ i, 100 + Z.of_nat i) 200 (λ _, 150) started
        = (Done tt, e') ∧
    (map bh_IsActive <$> slices (hm e') !! 0%nat) = Some [false; true] ∧
    (map bh_FailCount <$> slices (hm e') !! 0%nat) = Some [1; 0].
Proof.
  destruct (opensips_check_order_free started one_answers [1; 0]%nat (λ i, 100 + Z.of_nat i) 200
    (λ _, 150) 0 initial_backends 0 started_ok sample_order no_crash) as (e'&E&Hs&_).
  exists e'. split; [exact E|]. rewrite Hs. split; by vm_compute.
Defined.

Lemma short_answer_crashes_witness :
  ∃ e', checkOpenSIPSBackends (λ _ _ _, Some "") [1; 0]%nat (λ i, 100 + Z.of_nat i) 200 (λ _, 150)
          started = (Panic SliceOutOfRange, e').
Proof.
  apply (short_answer_crashes started (λ _ _ _, Some "") [1; 0]%nat (λ i, 100 + Z.of_nat i) 200
    (λ _, 150) 0 initial_backends 0 started_ok sample_order).
  exists 0%nat, "". split; [by vm_compute|]. vm_compute. reflexivity.
Defined.

Lemma sample_quiet : quiet (W:=ServerConfig * sys) (opensipsBackends (hm sample_env))
  (sample_round [0; 1]%nat).
Proof.
  split; [done|]. split.
  - intros [|[|i]] addr response Ha Hn; try done. simpl in Hn. injection Hn as <-. by vm_compute.
  - intros [cfg s]. simpl. generalize (BackendServers cfg) (shared s). intros l.
    induction l as [|b l IH]; intros sh; simpl; [by eexists|].
    unfold testBackendConnection. destruct (decide (b = "")); simpl; apply IH.
Qed.

Lemma monitor_one_active_witness :
  ∃ e', (Start (sample_round [0; 1]%nat);; monitorLoop [sample_round [0; 1]%nat]) sample_env
        = (Done tt, e') ∧ is_Some (GetComponentHealth "opensips" (hm e')).
Proof.
  destruct (monitor_one_active sample_config sample_env sample_manager (sample_round [0; 1]%nat)
    [sample_round [0; 1]%nat]) as (e'&c&bs&a&E&Hc&_).
  - reflexivity.
  - discriminate.
  - reflexivity.
  - by split.
  - apply new_world_inv, default_config_ok.
  - constructor; [exact sample_quiet|]. constructor; [exact sample_quiet|constructor].
  - exists e'. split; [exact E|]. by exists c.
Defined.
