(* ===== verification/SIPProxy.v ===== *)
(** * sip/proxy.go: the SIP proxy

    The registry, the routing of a request to a registered contact or to the
    next hop, the handlers of the messages that come over a WebSocket, the
    retries of [forwardRequest], and the forwarding loop of the [sipgo] server's
    transactions. The package sipgo is third-party code: requests and responses
    are known by the parts the proxy looks at, and sending is an interface. *)

From stdpp Require Import pretty.
From S2P Require Import Prelude.

(** ** Messages *)

Record Uri : Type := mkUri { User : string; Host : string; Port : Z }.

(** [body] is the rest of a message, which the proxy carries along. *)
Record Request : Type := mkReq {
  Method : string; To : option Uri; Contact : option Uri;
  Source : string; Destination : string; body : string }.
Record Response : Type := mkResp {
  StatusCode : Z; Reason : string; RespDestination : string; via : list string }.
Inductive Message : Type := MRequest (r : Request) | MResponse (r : Response).

Definition SetDestination (d : string) (r : Request) : Request :=
  let '(mkReq m t c s _ b) := r in mkReq m t c s d b.

(** Sending through sipgo: a client transaction, a request without one, a
    request whose response is awaited, the answer to a server transaction; an
    error is its text. *)
Class Sipgo (N : Type) : Type := {
  TransactionRequest : Request → N → option string * N;
  WriteRequest : Request → N → option string * N;
  Do_ : Request → N → result string Z * N;
  Respond : Response → N → option string * N;
  (* [Response.RemoveHeader("Via")] and [NewResponseFromRequest] *)
  RemoveVia : Response → Response;
  NewResponse : Request → Z → string → Response;
  (* the headers [newCancelRequest] copies *)
  cancel_headers : Request → string
}.

(** ** Addresses, from the standard library *)

Definition colon : Ascii.ascii := byte 58.
Definition lbracket : Ascii.ascii := byte 91.
Definition rbracket : Ascii.ascii := byte 93.

Definition last_index (a : Ascii.ascii) (l : list Ascii.ascii) : option nat :=
  (λ i, (length l - 1 - i)%nat) <$> (fst <$> list_find (a =.) (rev l)).
Definition has (a : Ascii.ascii) (l : list Ascii.ascii) : bool := bool_decide (a ∈ l).

(** [net.SplitHostPort]; both parts are empty on an error. *)
Definition SplitHostPort (hostport : string) : string * string :=
  let l := String.list_ascii_of_string hostport in
  let str := String.string_of_list_ascii in
  match last_index colon l with
  | None => ("", "")
  | Some i =>
      let port := drop (S i) l in
      if bool_decide (head l = Some lbracket) then
        match fst <$> list_find (rbracket =.) l with
        | Some e =>
            if bool_decide (S e = i) && negb (has lbracket (tail l)) && negb (has rbracket port)
            then (str (drop 1 (take e l)), str port) else ("", "")
        | None => ("", "")
        end
      else
        let host := take i l in
        if has colon host || has lbracket l || has rbracket l then ("", "") else (str host, str port)
  end.

(** [strconv.Atoi], without its error: 0 when the text is no number, the extreme
    integer when it is out of range. *)
Definition digit (a : Ascii.ascii) : option Z :=
  let n := Z.of_nat (Ascii.nat_of_ascii a) in
  if (48 <=? n) && (n <=? 57) then Some (n - 48) else None.
Fixpoint digits (acc : Z) (l : list Ascii.ascii) : option Z :=
  match l with
  | [] => Some acc
  | a :: l => d ← digit a; digits (10 * acc + d) l
  end.
Definition Atoi (s : string) : Z :=
  let parse l := match l with [] => None | _ => digits 0 l end in
  let l := String.list_ascii_of_string s in
  let v := match l with
           | a :: r => if decide (a = byte 45) then Z.opp <$> parse r
                       else if decide (a = byte 43) then parse r else parse l
           | [] => None
           end in
  match v with Some z => Z.max min_int64 (Z.min max_int64 z) | None => 0 end.

Definition address (u : Uri) : string := Host u +:+ ":" +:+ pretty (Port u).

(** ** State *)

Record SIPConfig : Type := mkSIPConfig {
  DefaultNextHop : string; DisableUDPSIPProcessing : bool; DisableWSSIPProcessing : bool;
  bindHost : string; bindPort : Z            (* [sip.ParseAddr(UDPBindAddr)] *)
}.

Abbreviation Registry := (gmap string string) (only parsing).
Definition NewRegistry : Registry := ∅.
Definition Add_ (user addr : string) : Registry → Registry := <[user := addr]>.
Definition Get (user : string) (r : Registry) : string := default "" (r !! user).

Section Proxy.
Context {N : Type} `{Sipgo N} (config : SIPConfig).

Record Proxy : Type := mkProxy { registry : Registry; net : N }.
Definition NewProxy (n : N) : Proxy := mkProxy NewRegistry n.

Definition getDestination (p : Proxy) (req : Request) : string :=
  match To req with
  | None => DefaultNextHop config
  | Some u =>
      if decide (Host u = "") then DefaultNextHop config
      else
        let dst := Get (User u) (registry p) in
        if decide (dst = "") then DefaultNextHop config else dst
  end.

(** ** Messages of WebSocket clients *)

Definition Contains (s sub : string) : bool := bool_decide (is_Some (String.index 0 sub s)).

(** The retries: [last] is [err], [tries] what is left of three attempts. *)
Definition bind_error (e : string) : bool := Contains e "bind: address already in use".
Fixpoint attempts (tries : nat) (last : option string) (req : Request) (n : N)
    : result string unit * N :=
  match tries with
  | O => (match last with Some e => Err e | None => Ok tt end, n)
  | S tries =>
      let '(err, n) := TransactionRequest req n in
      match err with
      | None => (Ok tt, n)
      | Some e => if bind_error e then attempts tries (Some e) req n else (Err e, n)
      end
  end.

(** The handlers tell a WebSocket client by a dash in its address. *)
Definition dashed (clientAddr : string) : bool := Contains clientAddr "-".
Definition skip_by_address (clientAddr : string) : bool :=
  if dashed clientAddr then DisableWSSIPProcessing config else DisableUDPSIPProcessing config.

Definition forwardRequest (req : Request) (clientAddr : string) (p : Proxy)
    : result string unit * Proxy :=
  if skip_by_address clientAddr then (Ok tt, p)
  else
    let dstAddr := getDestination p req in
    if decide (dstAddr = "") then (Err "no destination found", p)
    else
      let '(r, n) := attempts 3 None (SetDestination dstAddr req) (net p) in
      (r, mkProxy (registry p) n).

Definition handleRegister (req : Request) (clientAddr : string) (p : Proxy)
    : result string unit * Proxy :=
  match Contact req with
  | None => (Err "missing address of record", p)
  | Some uri =>
      if decide (Host uri = "") then (Err "missing address of record", p)
      else
        let '(host, port) := SplitHostPort clientAddr in
        if bool_decide (Host uri = host) && (Port uri =? Atoi port)
        then (Err "contact address not provided", p)
        else
          let p := mkProxy (Add_ (User uri) (address uri) (registry p)) (net p) in
          if skip_by_address clientAddr then (Ok tt, p) else forwardRequest req clientAddr p
  end.

Definition handleInvite (req : Request) (clientAddr : string) (p : Proxy) : result string unit * Proxy :=
  if skip_by_address clientAddr then (Ok tt, p) else forwardRequest req clientAddr p.
Definition handleAck (req : Request) (clientAddr : string) (p : Proxy) : result string unit * Proxy :=
  if skip_by_address clientAddr then (Ok tt, p) else forwardRequest req clientAddr p.
Definition handleBye (req : Request) (clientAddr : string) (p : Proxy) : result string unit * Proxy :=
  forwardRequest req clientAddr p.
Definition handleCancel (req : Request) (clientAddr : string) (p : Proxy) : result string unit * Proxy :=
  forwardRequest req clientAddr p.
Definition handleOptions (req : Request) (clientAddr : string) (p : Proxy) : result string unit * Proxy :=
  forwardRequest req clientAddr p.
Definition handleResponse (resp : Response) (clientAddr : string) (p : Proxy)
    : result string unit * Proxy := (Ok tt, p).

(** [HandleMessage] tells a WebSocket client by the network of its address. *)
Definition is_websocket (network : string) : bool :=
  bool_decide (network = "ws") || bool_decide (network = "wss") || Contains network "websocket".
Definition skip_by_network (network : string) : bool :=
  if is_websocket network then DisableWSSIPProcessing config else DisableUDPSIPProcessing config.

Definition HandleMessage (msg : Message) (network clientAddr : string) (p : Proxy)
    : result string unit * Proxy :=
  match msg with
  | MResponse resp => handleResponse resp clientAddr p
  | MRequest req =>
      if skip_by_network network then (Ok tt, p)
      else if decide (Method req = "REGISTER") then handleRegister req clientAddr p
      else if decide (Method req = "INVITE") then handleInvite req clientAddr p
      else if decide (Method req = "BYE") then handleBye req clientAddr p
      else if decide (Method req = "ACK") then handleAck req clientAddr p
      else if decide (Method req = "CANCEL") then handleCancel req clientAddr p
      else if decide (Method req = "OPTIONS") then handleOptions req clientAddr p
      else (Ok tt, p)
  end.

(** ** Transactions of the sipgo server *)

Definition on_net {A} (f : N → A * N) (p : Proxy) : Proxy := mkProxy (registry p) (f (net p)).2.

Definition reply (req : Request) (code : Z) (reason : string) : N → option string * N :=
  let '(mkResp c r _ v) := NewResponse req code reason in
  Respond (mkResp c r (Source req) v).

Definition newCancelRequest (inv : Request) : Request :=
  mkReq "CANCEL" (To inv) None (Source inv) (Destination inv) (cancel_headers inv).

(** What [route]'s loop can receive. *)
Inductive tx_error : Type := Canceled | OtherError.
Inductive route_event : Type :=
| ResponseIn (res : Response)
| ResponsesClosed
| ClientDone
| AckIn (ack : Request)
| ServerDone (err : option tx_error).

Definition route_step (req : Request) (dstAddr : string) (ev : route_event) (n : N) : N * bool :=
  match ev with
  | ResponseIn (mkResp c r _ v) => ((Respond (RemoveVia (mkResp c r (Source req) v)) n).2, false)
  | ResponsesClosed | ClientDone => (n, true)
  | AckIn ack => ((WriteRequest (SetDestination dstAddr ack) n).2, false)
  | ServerDone (Some Canceled) =>
      (if decide (Method req = "INVITE") then (Do_ (newCancelRequest req) n).2 else n, true)
  | ServerDone _ => (n, true)
  end.
Fixpoint route_loop (req : Request) (dstAddr : string) (evs : list route_event) (n : N) : N * bool :=
  match evs with
  | [] => (n, false)
  | ev :: evs => let '(n, finished) := route_step req dstAddr ev n in
                 if finished then (n, true) else route_loop req dstAddr evs n
  end.

(** [OnInvite], [OnCancel] and [OnBye]; [true] when the transaction is over. *)
Definition route (req : Request) (evs : list route_event) (p : Proxy) : Proxy * bool :=
  let dstAddr := getDestination p req in
  if decide (dstAddr = "") then (on_net (reply req 404 "Not found") p, true)
  else
    let req := SetDestination dstAddr req in
    match TransactionRequest req (net p) with
    | (Some _, n) => (mkProxy (registry p) (reply req 500 "" n).2, true)
    | (None, n) => let '(n, finished) := route_loop req dstAddr evs n in
                   (mkProxy (registry p) n, finished)
    end.

Definition on_register (req : Request) (p : Proxy) : Proxy :=
  match Contact req with
  | None => on_net (reply req 404 "Missing address of record") p
  | Some uri =>
      if decide (Host uri = "") then on_net (reply req 404 "Missing address of record") p
      else if bool_decide (Host uri = bindHost config) && (Port uri =? bindPort config)
      then on_net (reply req 401 "Contact address not provided") p
      else on_net (Respond (NewResponse req 200 "OK"))
             (mkProxy (Add_ (User uri) (address uri) (registry p)) (net p))
  end.

Definition on_ack (req : Request) (p : Proxy) : Proxy :=
  let dstAddr := getDestination p req in
  if decide (dstAddr = "") then p
  else
    let req := SetDestination dstAddr req in
    match WriteRequest req (net p) with
    | (Some _, n) => mkProxy (registry p) (reply req 500 "" n).2
    | (None, n) => mkProxy (registry p) n
    end.
End Proxy.
Arguments Proxy N : clear implicits.
Arguments mkProxy {N} _ _.
Arguments registry {N} _.
Arguments net {N} _.

(** ** Transports and the server *)

(** A transport is a value of an interface; the one that is made holds a socket
    bound to its address. *)
Inductive Transport : Type := UDPTransport (bindAddr : string) | OtherTransport.
(** [None] when the address does not resolve or the socket is not to be had. *)
Definition NewUDPTransport (bindAddr : string) (resolves listens : bool) : option Transport :=
  if resolves && listens then Some (UDPTransport bindAddr) else None.
(** The argument of the log message asserts the type. *)
Definition AddTransport (t : Transport) (transports : list Transport) : outcome (list Transport) :=
  match t with
  | UDPTransport _ => Done (transports ++ [t])
  | OtherTransport => Panic TypeAssertion
  end.
(** [written] is the error of the write; a destination is an address of UDP or
    another. *)
Definition Send (udp : bool) (written : option string) : option string :=
  if negb udp then Some "invalid UDP address" else written.

(** The network and the address that [Start] has the sipgo server listen on. *)
Definition Start (config : SIPConfig) : string * string := ("udp", "").

(** ** Facts *)

Section Facts.
Context {N : Type} `{Sipgo N} (config : SIPConfig).
Implicit Types p : Proxy N.

(** The network after [k] attempts, and the result of the next. *)
Definition after (req : Request) (n : N) (k : nat) : N :=
  Nat.iter k (λ n, (TransactionRequest req n).2) n.
Definition error_at (req : Request) (n : N) (k : nat) : option string :=
  (TransactionRequest req (after req n k)).1.

Lemma after_S req n k : after req (TransactionRequest req n).2 k = after req n (S k).
Proof. unfold after. by rewrite Nat.iter_succ_r. Qed.

Lemma attempts_spec req tries : ∀ last n, (0 < tries)%nat →
  ∃ k, (k < tries)%nat ∧
    attempts tries last req n
    = (match error_at req n k with None => Ok tt | Some e => Err e end, after req n (S k)) ∧
    (∀ j, (j < k)%nat → ∃ e, error_at req n j = Some e ∧ bind_error e = true) ∧
    (S k = tries ∨ ∀ e, error_at req n k = Some e → bind_error e = false).
Proof.
  induction tries as [|tries IH]; intros last n Ht; [lia|].
  destruct (TransactionRequest req n) as [err n1] eqn:E.
  assert (error_at req n 0 = err ∧ after req n 1 = n1) as [E0 A1].
  { unfold error_at, after. simpl. by rewrite E. }
  cbn [attempts]. rewrite E.
  destruct err as [e|]; [|exists 0%nat; rewrite E0; split_and!; [lia|by rewrite A1|lia|by right]].
  destruct (bind_error e) eqn:Hb.
  - destruct tries as [|tries].
    + exists 0%nat. rewrite E0. split_and!; [lia|by rewrite A1|lia|by left].
    + destruct (IH (Some e) n1 ltac:(lia)) as (k&Hk&Ek&Hj&Hend).
      assert (∀ j, error_at req n1 j = error_at req n (S j)) as He.
      { intros j. unfold error_at. rewrite <-(after_S req n j), E. done. }
      assert (∀ j, after req n1 j = after req n (S j)) as Ha.
      { intros j. rewrite <-(after_S req n j), E. done. }
      exists (S k). rewrite He, Ha in Ek. split_and!; [lia|done| |].
      * intros [|j] Hlt; [by exists e; rewrite E0|]. rewrite <-He. apply Hj. lia.
      * destruct Hend as [?|Hend]; [left; lia|right]. intros e'. rewrite <-He. apply Hend.
  - exists 0%nat. rewrite E0. split_and!; [lia|by rewrite A1|lia|]. right. by intros ? [= <-].
Qed.

Lemma forwardRequest_registry req addr p :
  registry (forwardRequest config req addr p).2 = registry p.
Proof.
  unfold forwardRequest. case_match; [done|]. case_decide; [done|]. by destruct (attempts _ _ _ _).
Qed.

(** The registration a message makes, if any. *)
Definition registration (msg : Message) (network clientAddr : string) : option (string * string) :=
  match msg with
  | MResponse _ => None
  | MRequest req =>
      if skip_by_network config network || negb (bool_decide (Method req = "REGISTER")) then None
      else uri ← Contact req;
           let '(host, port) := SplitHostPort clientAddr in
           if bool_decide (Host uri = "") || (bool_decide (Host uri = host) && (Port uri =? Atoi port))
           then None else Some (User uri, address uri)
  end.

Lemma HandleMessage_registry msg network addr p :
  registry (HandleMessage config msg network addr p).2
  = match registration msg network addr with
    | Some (user, a) => <[user := a]> (registry p)
    | None => registry p
    end.
Proof.
  destruct msg as [req|resp]; [|done]. unfold HandleMessage, registration.
  destruct (skip_by_network config network); [done|]. simpl.
  destruct (decide (Method req = "REGISTER")) as [Hm|Hm].
  - rewrite bool_decide_eq_true_2 by done. unfold handleRegister. simpl.
    destruct (Contact req) as [uri|]; [|done]. simpl.
    destruct (decide (Host uri = "")) as [Hh|Hh].
    + rewrite bool_decide_eq_true_2 by done. by destruct (SplitHostPort addr).
    + rewrite (bool_decide_eq_false_2 _ Hh). destruct (SplitHostPort addr) as [host port]. simpl.
      destruct (bool_decide (Host uri = host) && _); [done|].
      case_match; [done|]. by rewrite forwardRequest_registry.
  - rewrite bool_decide_eq_false_2 by done. simpl.
    unfold handleInvite, handleBye, handleAck, handleCancel, handleOptions.
    repeat case_decide; try done; try apply forwardRequest_registry;
      (destruct (skip_by_address config addr); [done|apply forwardRequest_registry]).
Qed.

Lemma address_nonempty u : address u ≠ "".
Proof. unfold address. by destruct (Host u). Qed.

Lemma registration_nonempty msg network addr user a :
  registration msg network addr = Some (user, a) → a ≠ "".
Proof.
  unfold registration. destruct msg as [req|]; [|done]. destruct (_ || _); [done|].
  destruct (Contact req) as [uri|]; simpl; [|done]. destruct (SplitHostPort addr) as [host port].
  destruct (_ || _); [done|]. intros [= <- <-]. apply address_nonempty.
Qed.

(** What the network does for [route]. *)
Inductive netop : Type := OWrite (r : Request) | ORespond (r : Response) | ODo (r : Request).
Definition exec (n : N) (o : netop) : N :=
  match o with
  | OWrite r => (WriteRequest r n).2
  | ORespond r => (Respond r n).2
  | ODo r => (Do_ r n).2
  end.

(** The events up to and with the first that ends the transaction. *)
Definition ends (ev : route_event) : bool :=
  match ev with ResponsesClosed | ClientDone | ServerDone _ => true | _ => false end.
Fixpoint until_end (evs : list route_event) : list route_event :=
  match evs with
  | [] => []
  | ev :: evs => if ends ev then [ev] else ev :: until_end evs
  end.
(** The operations an event calls for. *)
Definition ops_of (req : Request) (dst : string) (ev : route_event) : list netop :=
  match ev with
  | ResponseIn (mkResp c r _ v) => [ORespond (RemoveVia (mkResp c r (Source req) v))]
  | AckIn ack => [OWrite (SetDestination dst ack)]
  | ServerDone (Some Canceled) =>
      if decide (Method req = "INVITE") then [ODo (newCancelRequest req)] else []
  | _ => []
  end.
End Facts.

(** ** Properties *)

Section Properties.
Context {N : Type} `{Sipgo N} (config : SIPConfig).

(** Forwarding a request ends after one to three attempts, all to the same
    destination: only an error of a local port that is in use is retried, the
    first success or other error ends it, and the result is that of the last
    attempt. *)
Theorem forward_retries (req : Request) (clientAddr : string) (p : Proxy N)
    (Hon : skip_by_address config clientAddr = false) (Hdst : getDestination config p req ≠ "") :
  let out := SetDestination (getDestination config p req) req in
  ∃ k, (k < 3)%nat ∧
    forwardRequest config req clientAddr p
    = (match error_at out (net p) k with None => Ok tt | Some e => Err e end,
       mkProxy (registry p) (after out (net p) (S k))) ∧
    (∀ j, (j < k)%nat → ∃ e, error_at out (net p) j = Some e ∧ bind_error e = true) ∧
    (k = 2%nat ∨ ∀ e, error_at out (net p) k = Some e → bind_error e = false).
Proof.
  intros out. destruct (attempts_spec out 3 None (net p) ltac:(lia)) as (k&Hk&E&Hj&Hend).
  exists k. split; [done|]. split; [|split; [done|destruct Hend; [left; lia|by right]]].
  unfold forwardRequest. rewrite Hon, decide_False by done. fold out. by rewrite E.
Qed.

Lemma HandleMessage_forwards (req : Request) (network clientAddr : string) (p : Proxy N) :
  Method req ∈ ["INVITE"; "ACK"; "BYE"; "CANCEL"; "OPTIONS"] →
  HandleMessage config (MRequest req) network clientAddr p
  = if skip_by_network config network || skip_by_address config clientAddr then (Ok tt, p)
    else if decide (getDestination config p req = "") then (Err "no destination found", p)
    else
      let '(r, n) := attempts 3 None (SetDestination (getDestination config p req) req) (net p) in
      (r, mkProxy (registry p) n).
Proof.
  intros Hmethod.
  unfold HandleMessage. destruct (skip_by_network config network); [done|]. simpl.
  rewrite decide_False.
  2: { intros E. rewrite E in Hmethod. revert Hmethod. by_decide. }
  unfold handleInvite, handleBye, handleAck, handleCancel, handleOptions, forwardRequest.
  repeat case_decide; try (by destruct (skip_by_address config clientAddr)).
  all: exfalso; rewrite !elem_of_cons, elem_of_nil in Hmethod; destruct_or!; done.
Qed.

(** A BYE, a CANCEL or an OPTIONS is dropped in silence exactly like an
    INVITE or an ACK - and two tests decide it: the flag of the transport by
    the network of the address, and the flag of the transport by a dash in the
    address. When either says so, nothing is sent and no error is returned. *)
Theorem forwarded_iff_both_tests_allow (req : Request) (network clientAddr : string) (p : Proxy N)
    (Hmethod : Method req ∈ ["INVITE"; "ACK"; "BYE"; "CANCEL"; "OPTIONS"]) :
  HandleMessage config (MRequest req) network clientAddr p
  = if skip_by_network config network || skip_by_address config clientAddr then (Ok tt, p)
    else if decide (getDestination config p req = "") then (Err "no destination found", p)
    else
      let '(r, n) := attempts 3 None (SetDestination (getDestination config p req) req) (net p) in
      (r, mkProxy (registry p) n).
Proof. by apply HandleMessage_forwards. Qed.

(** C26. The registry is the history of the registrations: a request goes to the
    contact of the last REGISTER that was accepted for its user, however long
    ago that was - nothing expires or removes a contact - and to the next hop
    when there was none. *)
Theorem last_registration_is_used (msgs : list (Message * string * string)) (n : N) (req : Request)
    (u : Uri) (Hto : To req = Some u) (Hhost : Host u ≠ "") :
  getDestination config
    (foldl (λ p m, (HandleMessage config m.1.1 m.1.2 m.2 p).2) (NewProxy n) msgs) req
  = default (DefaultNextHop config)
      (snd <$> (last (filter (λ r, r.1 = User u)
                        (omap (λ m, registration config m.1.1 m.1.2 m.2) msgs)))).
Proof.
  set (regs := omap _ msgs). set (p := foldl _ _ msgs).
  assert (registry p !! User u = snd <$> last (filter (λ r, r.1 = User u) regs) ∧
    ∀ a, registry p !! User u = Some a → a ≠ "") as [Hreg Hne].
  { unfold p, regs. clear p regs. induction msgs as [|m msgs IH] using rev_ind; [done|].
    destruct IH as [IH1 IH2]. rewrite foldl_app, omap_app. simpl. rewrite HandleMessage_registry.
    destruct (registration config m.1.1 m.1.2 m.2) as [[user a]|] eqn:E; simpl.
    - rewrite filter_app. destruct (decide (user = User u)) as [->|Hu].
      + rewrite filter_cons_True, last_app by done. simpl. rewrite lookup_insert_eq.
        split; [done|]. intros ? [= <-].
        by eapply registration_nonempty.
      + rewrite filter_cons_False, app_nil_r, lookup_insert_ne by done. done.
    - by rewrite app_nil_r. }
  unfold getDestination. rewrite Hto, decide_False by done. unfold Get.
  rewrite <-Hreg. destruct (registry p !! User u) as [a|] eqn:E; simpl; [|done].
  rewrite decide_False; [done|by apply Hne].
Qed.

(** The loop of [route] does, in order, exactly what its events call for up
    to the first that ends the transaction: every response goes back to the
    source of the request without its Via, every ACK to the destination, and
    one CANCEL downstream when, and only when, the caller cancelled an
    INVITE. *)
Theorem route_operations (req : Request) (dst : string) (evs : list route_event) (n : N) :
  route_loop req dst evs n
  = (foldl exec n (flat_map (ops_of req dst) (until_end evs)), existsb ends evs).
Proof.
  revert n. induction evs as [|ev evs IH]; intros n; [done|].
  destruct ev as [[c r d v]| | |ack|[[]|]]; simpl; try done; try by rewrite IH.
  by case_decide.
Qed.
End Properties.

(** ** Instances *)

(** A network that records what it is given, and refuses the first attempts. *)
Record recorder : Type := mkRecorder { refusals : list string; sent : list string }.
#[export] Instance recording : Sipgo recorder := {|
  TransactionRequest r n :=
    match refusals n with
    | e :: es => (Some e, mkRecorder es (sent n))
    | [] => (None, mkRecorder [] (sent n ++ [Method r +:+ " " +:+ Destination r]))
    end;
  WriteRequest r n := (None, mkRecorder (refusals n) (sent n ++ [Method r]));
  Do_ r n := (Ok 200, mkRecorder (refusals n) (sent n ++ [Method r]));
  Respond r n := (None, mkRecorder (refusals n) (sent n ++ [Reason r]));
  RemoveVia r := mkResp (StatusCode r) (Reason r) (RespDestination r) (tail (via r));
  NewResponse _ code reason := mkResp code reason "" [];
  cancel_headers := body
|}.

Definition next_hop : SIPConfig := mkSIPConfig "10.0.0.1:5060" false false "0.0.0.0" 5060.
Definition alice : Uri := mkUri "alice" "192.0.2.7" 5062.
Definition register_alice : Request := mkReq "REGISTER" (Some alice) (Some alice) "198.51.100.9:4000" "" "".
Definition bye_alice : Request := mkReq "BYE" (Some alice) None "198.51.100.9:4000" "" "".
Definition busy : string := "listen udp: bind: address already in use".

Lemma forward_retries_witness :
  ∃ k, forwardRequest next_hop bye_alice "198.51.100.9:4000" (NewProxy (mkRecorder [busy] []))
       = (Ok tt, mkProxy ∅ (mkRecorder [] ["BYE 10.0.0.1:5060"])) ∧ (k < 3)%nat ∧ k = 1%nat.
Proof.
  destruct (forward_retries next_hop bye_alice "198.51.100.9:4000" (NewProxy (mkRecorder [busy] [])))
    as (k&Hk&E&Hj&Hend).
  - by vm_compute.
  - by vm_compute.
  - exists k. assert (k = 1%nat) as ->; [|split; [rewrite E; by vm_compute|by split]].
    destruct k as [|[|k]]; [|done|].
    + destruct Hend as [?|Hend]; [done|]. specialize (Hend busy eq_refl). by vm_compute in Hend.
    + destruct (Hj 1%nat ltac:(lia)) as (e&He&_). by vm_compute in He.
Defined.

(** A WebSocket client with WebSocket processing on and UDP processing off. *)
Lemma forwarded_iff_both_tests_allow_witness :
  let config := mkSIPConfig "10.0.0.1:5060" true false "0.0.0.0" 5060 in
  HandleMessage config (MRequest bye_alice) "wss" "198.51.100.9:4000" (NewProxy (mkRecorder [] []))
  = (Ok tt, NewProxy (mkRecorder [] [])).
Proof.
  intros config.
  rewrite (forwarded_iff_both_tests_allow config bye_alice "wss" "198.51.100.9:4000"); [|by_decide].
  by vm_compute.
Defined.

Lemma last_registration_is_used_witness :
  getDestination next_hop
    (foldl (λ p m, (HandleMessage next_hop m.1.1 m.1.2 m.2 p).2) (NewProxy (mkRecorder [] []))
       [(MRequest register_alice, "wss", "198.51.100.9:4000"); (MRequest bye_alice, "wss", "x")]) bye_alice
  = "192.0.2.7:5062".
Proof.
  rewrite (last_registration_is_used next_hop _ (mkRecorder [] []) bye_alice alice eq_refl).
  - by vm_compute.
  - by vm_compute.
Defined.
