(* ===== verification/WSSip.v ===== *)
(** * websocket/server.go and sip/proxy.go: a message on its way

    What becomes of a message of a WebSocket client, and of one for it, between
    the server of WebSocket.v and the proxy of SIPProxy.v: the readers hand the
    message on as it is and hand it to the SIP handler as well, under an address
    that is made for the purpose. The parser is third-party code; a parsed
    message is what both sides look at. *)

From S2P Require Import Prelude KVStore Storage SIPProxy WebSocket.

(** ** The address of a client *)

Record websocketAddr : Type := mkAddr { wa_clientID : string; wa_network : string; wa_address : string }.
Definition Network (a : websocketAddr) : string := wa_network a.
Definition AddrString (a : websocketAddr) : string := wa_address a.

(** The message of the proxy's model, and that of the server's. *)
Record parsed : Type := mkParsed { pm_message : SIPProxy.Message; pm_session : WebSocket.sip_message }.

Class SIPParser : Type := parse : string → option parsed.
(** A request is one for both, with one method. *)
Class SIPParserLaws `{SIPParser} : Prop :=
  parse_coherent s m : parse s = Some m →
    match pm_message m, pm_session m with
    | MRequest req, WebSocket.Request r => Method req = rq_method r
    | MResponse _, WebSocket.Response => True
    | _, _ => False
    end.

Section Flow.
Context {N : Type} `{Sipgo N} `{SIPParser}.
(** The configuration of the server, and of its SIP handler, if it has one. *)
Context (config : WebSocket.ServerConfig) (sip : option SIPConfig).

(** ** From a client *)

(** [transport] is the sub-protocol of the connection. The error of the handler
    is logged: [Some] of its result when it was called. *)
Definition handle_client_message (id transport msg : string) (c : ClientConnection) (p : Proxy N)
    : option (result string unit) * ClientConnection * Proxy N :=
  match (if decide (msg = "") then None else parse msg) with
  | Some (mkParsed m (WebSocket.Request r)) =>
      match rq_from r with
      | None => (None, c, p)
      | Some a =>
          let c := set_address a c in
          match sip with
          | Some sc =>
              if WebSocket.DisableWSSIPProcessing config then (None, c, p)
              else
                let addr := mkAddr id transport (RemoteAddr c) in
                let '(r, p) := HandleMessage sc m (Network addr) (AddrString addr) p in
                (Some r, c, p)
          | None => (None, c, p)
          end
      end
  | _ => (None, c, p)
  end.

(** ** From a backend *)

Definition handle_backend_message (msg : string) (c : ClientConnection) (p : Proxy N)
    : outcome (option (result string unit) * Proxy N) :=
  match (if decide (msg = "") then None else parse msg) with
  | None => Done (None, p)
  | Some (mkParsed m session) =>
      let enabled := match sip with Some _ => negb (WebSocket.DisableWSSIPProcessing config) | None => false end in
      if enabled || critical session then
        let addr := mkAddr ("backend-" +:+ CurrentBackend c) "wss" (CurrentBackend c) in
        match sip with
        | None => Panic NilDereference
        | Some sc => let '(r, p) := HandleMessage sc m (Network addr) (AddrString addr) p in
                     Done (Some r, p)
        end
      else Done (None, p)
  end.

(** ** Facts *)

(** The part of the client's record that both models keep. *)
Lemma client_message_agrees `{SIP} (Hp : ∀ s, ParseMessage s = pm_session <$> parse s)
    (id transport msg : string) (text : bool) (ch : choice) (s : Shared) (c : ClientConnection)
    (p : Proxy N) :
  client_reader_step config id ch (WProcess text msg) s c
  = move s (handle_client_message id transport msg c p).1.2 WLoop.
Proof.
  unfold client_reader_step, handle_client_message. rewrite Hp.
  destruct (decide (msg = "")); [done|]. destruct (parse msg) as [[m [r|]]|]; simpl; [|done|done].
  destruct (rq_from r) as [a|]; [|done]. destruct sip as [sc|]; [|done].
  destruct (WebSocket.DisableWSSIPProcessing config); [done|]. by destruct (HandleMessage _ _ _ _ _).
Qed.

(** And the crash of the backend's reader. *)
Lemma backend_message_agrees `{SIP} (Hp : ∀ s, ParseMessage s = pm_session <$> parse s)
    (id msg : string) (text : bool) (ch : choice) (s : Shared) (c : ClientConnection) (p : Proxy N) :
  handler s = bool_decide (is_Some sip) →
  (backend_reader_step config id ch (BMessage text msg) s c).1.2 = Crashed ↔
  handle_backend_message msg c p = Panic NilDereference.
Proof.
  intros Hs. unfold backend_reader_step, handle_backend_message. rewrite Hp.
  destruct (decide (msg = "")); [done|]. destruct (parse msg) as [[m session]|]; cbn [fmap option_fmap option_map pm_session]; [|done].
  destruct (extractSIPState id (ch_now ch) session (s, c)) as [s1 c1] eqn:E.
  assert (handler s1 = handler s) as ->.
  { unfold extractSIPState in E. destruct session; [|by simplify_eq].
    case_decide; simplify_eq; [done|]. by destruct s. }
  rewrite Hs. destruct sip as [sc|]; simpl.
  - rewrite andb_false_r. simpl. destruct (_ || critical session); [|done].
    by destruct (HandleMessage _ _ _ _ _).
  - destruct (critical session); simpl; done.
Qed.

(** The network after the proxy has passed a request on, from a client or a
    backend of the server. *)
Definition passed_on (sc : SIPConfig) (req : SIPProxy.Request) (network address : string) (p : Proxy N)
    : Proxy N :=
  let dst := getDestination sc p req in
  if skip_by_network sc network || skip_by_address sc address || bool_decide (dst = "") then p
  else mkProxy (registry p) (attempts 3 None (SetDestination dst req) (net p)).2.

Lemma HandleMessage_passed_on sc req network address p :
  Method req ∈ ["INVITE"; "ACK"; "BYE"; "CANCEL"; "OPTIONS"] →
  (HandleMessage sc (MRequest req) network address p).2 = passed_on sc req network address p.
Proof.
  intros Hm. rewrite HandleMessage_forwards by done. unfold passed_on.
  destruct (skip_by_network sc network || skip_by_address sc address); [done|]. cbn [orb].
  case_decide as Hd; [by rewrite bool_decide_true|]. rewrite bool_decide_false by done.
  by destruct (attempts 3 None (SetDestination (getDestination sc p req) req) (net p)).
Qed.

End Flow.

(** ** Instances *)

(** A BYE of a client on a server whose SIP processing is off: the client's goes
    to its backend only, the backend's to the client and to the next hop. *)
#[local] Instance bye_parser : SIPParser := λ s,
  if decide (s = "BYE") then
    Some (mkParsed (MRequest bye_alice)
      (WebSocket.Request (mkRequest "BYE" None None None (Some "sip:alice@example.org"))))
  else None.
#[local] Instance bye_parser_laws : SIPParserLaws.
Proof. intros s m. unfold parse, bye_parser. case_decide; [|done]. by intros [= <-]. Qed.

Definition ws_off (off : bool) : WebSocket.ServerConfig := WebSocket.mkServerConfig 1 "" ["b"] 0 off.
Definition connected_client : ClientConnection :=
  mkClient "198.51.100.9:4000" 0 "" (Some 0%nat) "b" 0 "" "" "" false false false 0 0.
Definition open_server : Shared :=
  on_conns (λ _, [false]) (WebSocket.NewServer (ws_off true) true 1 sample_world).

