(* ===== verification/AMIProxy.v ===== *)
(** * ami/proxy.go and the backend manager of ami/ami.go: the AMI proxy

    The [BackendManager] sends to one of several AMI clients - used through the
    interface of AMIManager.v - and switches between them; the proxy server
    accepts connections while the node leads, reads actions, checks logins and
    forwards. What a client does is handled one action at a time: the
    goroutines of different clients share only the table of clients, each
    touching its own entry, and the backend manager. *)

From stdpp Require Import pretty.
From S2P Require Import Prelude Strings KVStore Storage AMIManager AMIClient.

(** ** The backend manager *)

(** The time of a client's last connection attempt. *)
Class AMIAttempt (C : Type) : Type := cli_last_attempt : C → Time.

Record BackendManager (C : Type) : Type := mkBM { backends : list C; activeBackend : Z }.
Arguments mkBM {C} _ _.
Arguments backends {C} _.
Arguments activeBackend {C} _.

Definition reconnectDelay : Duration := 30 * Second.

Section Backends.
Context {C : Type} `{AMIClientOps C} `{AMIAttempt C}.

Definition bm_get : GoM (BackendManager C) (BackendManager C) := get_state.
Definition setActiveBackend (i : Z) : GoM (BackendManager C) unit :=
  modify (λ m, mkBM (backends m) i).
Definition getActiveBackend : GoM (BackendManager C) Z := m ← bm_get; mret (activeBackend m).
Definition GetActiveClient : GoM (BackendManager C) nat :=
  m ← bm_get; lift (index (backends m) (activeBackend m));; mret (Z.to_nat (activeBackend m)).
Definition on_backend {A} (i : nat) (g : GoM C A) : GoM (BackendManager C) A :=
  λ m, match backends m !! i with
       | None => (Panic IndexOutOfRange, m)
       | Some c => let '(r, c) := g c in (r, mkBM (<[i := c]> (backends m)) (activeBackend m))
       end.
Definition is_connected (m : BackendManager C) (i : nat) : bool :=
  match backends m !! i with Some c => cli_connected c | None => false end.

(** The backends after the first, until one connects. *)
Fixpoint connect_rest (t : nat → Time) (js : list nat) : GoM (BackendManager C) unit :=
  match js with
  | [] => mret tt
  | i :: js => r ← on_backend i (cli_connect (t i));
               if is_ok r then setActiveBackend (Z.of_nat i) else connect_rest t js
  end.

(** [NewBackendManager], from what [New] made of each configuration; the
    monitors it starts are [monitor_tick]. *)
Fixpoint all_created (rs : list (string * result string C)) : result string (list C) :=
  match rs with
  | [] => Ok []
  | (addr, Err e) :: _ => Err ("failed to create AMI client for " +:+ addr +:+ ": " +:+ e)
  | (_, Ok c) :: rs => match all_created rs with Ok cs => Ok (c :: cs) | Err e => Err e end
  end.
Definition NewBackendManager (created : list (string * result string C)) (t : nat → Time)
    : result string (outcome unit * BackendManager C) :=
  if decide (created = []) then Err "no backend configurations provided"
  else match all_created created with
  | Err e => Err e
  | Ok cs => Ok ((r ← on_backend 0 (cli_connect (t 0%nat));
                  if is_ok r then mret tt else connect_rest t (seq 1 (length cs - 1)))
                 (mkBM cs 0))
  end.

(** The global manager is made once. *)
Definition GetBackendManager (global : option (BackendManager C))
    (created : list (string * result string C)) (t : nat → Time)
    : result string (outcome unit * BackendManager C) :=
  match global with
  | Some m => Ok (Done tt, m)
  | None => NewBackendManager created t
  end.

(** [true] when all backends are to be reconnected, in a goroutine. *)
Definition handleBackendFailure (failedIndex : Z) : GoM (BackendManager C) bool :=
  m ← bm_get;
  if negb (failedIndex =? activeBackend m) then mret false
  else
    match list_find (λ i, Z.of_nat i ≠ failedIndex ∧ is_connected m i = true)
            (seq 0 (length (backends m))) with
    | Some (_, i) => setActiveBackend (Z.of_nat i);; mret false
    | None => mret true
    end.

Definition too_soon (c : C) (now : Time) : bool := Since now (cli_last_attempt c) <? reconnectDelay.

Fixpoint attempt_each (t : nat → Time) (js : list nat) : GoM (BackendManager C) unit :=
  match js with
  | [] => mret tt
  | i :: js =>
      m ← bm_get;
      match backends m !! i with
      | None => mret tt
      | Some c =>
          if cli_connected c || too_soon c (t i) then attempt_each t js
          else
            r ← on_backend i (cli_connect (t i));
            if is_ok r then setActiveBackend (Z.of_nat i) else attempt_each t js
      end
  end.
Definition attemptReconnectAll (t : nat → Time) : GoM (BackendManager C) unit :=
  m ← bm_get; attempt_each t (seq 0 (length (backends m))).

Definition ping : message := {[ "Action" := "Ping" ]}.

(** One tick of [monitorBackend]; a failed ping is only logged. *)
Definition monitor_tick (i : nat) (now : Time) (t : nat → Time) : GoM (BackendManager C) unit :=
  m ← bm_get;
  match backends m !! i with
  | None => lift (Panic IndexOutOfRange)
  | Some c =>
      if negb (cli_connected c) && too_soon c now then mret tt
      else
        isConnected ← (if cli_connected c then mret true
                       else r ← on_backend i (cli_connect now); mret (is_ok r));
        (if (isConnected : bool) then on_backend i (cli_send ping);; mret tt else mret tt);;
        if negb isConnected then
          again ← handleBackendFailure (Z.of_nat i);
          if (again : bool) then attemptReconnectAll t else mret tt
        else
          m ← bm_get;
          if Z.of_nat i =? activeBackend m then mret tt
          else
            lift (index (backends m) (activeBackend m));;
            m ← bm_get;
            if is_connected m (Z.to_nat (activeBackend m)) then mret tt
            else setActiveBackend (Z.of_nat i)
  end.

(** The reconnection that a failure starts runs beside the caller, and is left
    to [attemptReconnectAll]. *)
Definition SendAction (action : message) : GoM (BackendManager C) (result string message) :=
  i ← GetActiveClient;
  r ← on_backend i (cli_send action);
  match r with
  | Ok resp => mret (Ok resp)
  | Err _ =>
      a ← getActiveBackend;
      handleBackendFailure a;;
      j ← GetActiveClient;
      on_backend j (cli_send action)
  end.
End Backends.

(** ** Reading actions *)

(** [strings.EqualFold(s, "login")]: the letters of the word fold in ASCII only. *)
Definition lower (a : Ascii.ascii) : Ascii.ascii :=
  let n := Ascii.nat_of_ascii a in if ((65 <=? n) && (n <=? 90))%nat then byte (n + 32) else a.
Definition is_login (s : string) : bool :=
  bool_decide (map lower (String.list_ascii_of_string s) = String.list_ascii_of_string "login").

Definition field (key : string) (m : message) : string := default "" (m !! key).

Definition proxy_line (line : string) : parsed_line :=
  let line := TrimSpace line in
  if decide (line = "") then EndOfMessage
  else match split_colon (String.list_ascii_of_string line) with
       | None => Invalid
       | Some (k, v) => Pair (TrimSpace (String.string_of_list_ascii k))
                             (TrimSpace (String.string_of_list_ascii v))
       end.

(** [readAction] on what a connection will bring: the action and the rest, or
    nothing when the input ends first. Every line takes one unit of fuel. *)
Fixpoint readAction (fuel : nat) (action : message) (s : string) : option (message * string) :=
  match fuel with
  | O => None
  | S fuel =>
      match read_line s with
      | None => None
      | Some (line, s) =>
          match proxy_line line with
          | EndOfMessage => Some (action, s)
          | Invalid => readAction fuel action s
          | Pair key value => readAction fuel (<[key := value]> action) s
          end
      end
  end.

(** ** The server *)

Record clientInfo : Type := mkInfo { authenticated : bool; username : string; sourceAddr : string }.

Inductive output : Type := Banner | Formatted (m : message).

(** What was sent to a backend, and for whom: kept for the statements. *)
Inductive call : Type :=
| LoginCall (conn : nat) (user secret : string) (accepted : bool)
| Forwarded (conn : nat) (action : message).

Record Server (C : Type) : Type := mkServer {
  backendManager : BackendManager C;
  clients : gmap nat clientInfo;
  next_conn : nat;                         (* connections are numbered *)
  running : bool;
  stopped : bool;                          (* [stopChan] is closed *)
  outputs : list (nat * output);
  calls : list call }.
Arguments mkServer {C} _ _ _ _ _ _ _.
Arguments backendManager {C} _.
Arguments clients {C} _.
Arguments next_conn {C} _.
Arguments running {C} _.
Arguments stopped {C} _.
Arguments outputs {C} _.
Arguments calls {C} _.

Section Server.
Context {C : Type} `{AMIClientOps C}.

Definition on_bm {A} (g : GoM (BackendManager C) A) : GoM (Server C) A :=
  λ s, let '(mkServer b c n r st o l) := s in
       let '(x, b) := g b in (x, mkServer b c n r st o l).
Definition on_clients (f : gmap nat clientInfo → gmap nat clientInfo) : GoM (Server C) unit :=
  modify (λ s, let '(mkServer b c n r st o l) := s in mkServer b (f c) n r st o l).
Definition record (x : call) : GoM (Server C) unit :=
  modify (λ s, let '(mkServer b c n r st o l) := s in mkServer b c n r st o (l ++ [x])).

(** A connection the table no longer has gets nothing. *)
Definition sendResponse (conn : nat) (m : message) : GoM (Server C) unit :=
  modify (λ s, let '(mkServer b c n r st o l) := s in
    match c !! conn with
    | Some _ => mkServer b c n r st (o ++ [(conn, Formatted m)]) l
    | None => s
    end).
Definition sendErrorResponse (conn : nat) (msg : string) : GoM (Server C) unit :=
  sendResponse conn {[ "Response" := "Error"; "Message" := msg ]}.

Definition handleLoginAction (conn : nat) (action : message) : GoM (Server C) unit :=
  let user := field "Username" action in
  let secret := field "Secret" action in
  if bool_decide (user = "") || bool_decide (secret = "")
  then sendErrorResponse conn "Missing credentials"
  else
    response ← on_bm (i ← GetActiveClient;
      on_backend i (cli_send {[ "Action" := "Login"; "Username" := user; "Secret" := secret ]}));
    let ok := match response with
              | Ok m => bool_decide (m !! "Response" = Some "Success")
              | Err _ => false
              end in
    record (LoginCall conn user secret ok);;
    if ok then
      on_clients (λ cs, let i := default (mkInfo false "" "") (cs !! conn) in
                        <[conn := mkInfo true user (sourceAddr i)]> cs);;
      sendResponse conn {[ "Response" := "Success"; "Message" := "Authentication accepted" ]}
    else sendErrorResponse conn "Authentication failed".

(** One turn of the loop of [handleClient]. *)
Definition handle_action (conn : nat) (action : message) : GoM (Server C) unit :=
  if is_login (field "Action" action) then handleLoginAction conn action
  else
    s ← get_state;
    if negb (default false (authenticated <$> clients s !! conn))
    then sendErrorResponse conn "Not authenticated"
    else
      record (Forwarded conn action);;
      response ← on_bm (SendAction action);
      match response with
      | Err e => sendErrorResponse conn e
      | Ok m => sendResponse conn m
      end.

(** The loop, on all the input of a connection; each action is at least one
    line of it. The connection is closed and forgotten at the end. *)
Fixpoint handle_input (fuel : nat) (conn : nat) (input : string) : GoM (Server C) unit :=
  match fuel with
  | O => mret tt
  | S fuel =>
      match readAction (S (String.length input)) ∅ input with
      | None => mret tt
      | Some (action, rest) => handle_action conn action;; handle_input fuel conn rest
      end
  end.
Definition handleClient (conn : nat) (input : string) : GoM (Server C) unit :=
  modify (λ s, let '(mkServer b c n r st o l) := s in mkServer b c n r st (o ++ [(conn, Banner)]) l);;
  handle_input (S (String.length input)) conn input;;
  on_clients (delete conn).

(** The wildcard handler of a client, for an event of its backend. *)
Definition deliver_event (conn : nat) (event : message) : GoM (Server C) unit :=
  s ← get_state;
  if default false (authenticated <$> clients s !! conn) then sendResponse conn event else mret tt.

(** A new connection, in [acceptLoop]. *)
Definition register (addr : string) : GoM (Server C) unit :=
  modify (λ s, let '(mkServer b c n r st o l) := s in
    mkServer b (<[n := mkInfo false "" addr]> c) (S n) r st o l).

Definition Start : GoM (Server C) unit :=
  modify (λ s, let '(mkServer b c n _ st o l) := s in mkServer b c n true st o l).
(** Closing [stopChan] twice panics. *)
Definition Stop : GoM (Server C) unit :=
  s ← get_state;
  if negb (running s) then mret tt
  else
    modify (λ s, let '(mkServer b c n _ st o l) := s in mkServer b c n false st o l);;
    (if stopped s then lift (Panic CloseOfClosedChannel) else mret tt);;
    modify (λ s, let '(mkServer b c n r _ o l) := s in mkServer b c n r true o l).
End Server.

(** ** Histories of a server *)

(** What happens to a server, in order; the actions of a connection come from
    its goroutine, which ends with the connection. *)
Inductive event : Type :=
| EAccept (addr : string)
| EAction (conn : nat) (action : message)
| EBackend (conn : nat) (ev : message)
| EClose (conn : nat)
| EMonitor (i : nat) (now : Time) (t : nat → Time)
| EReconnect (t : nat → Time)
| EStart
| EStop.

Section History.
Context {C : Type} `{AMIClientOps C} `{AMIAttempt C}.

Definition handle (e : event) : GoM (Server C) unit :=
  match e with
  | EAccept addr => register addr
  | EAction conn action =>
      s ← get_state;
      if bool_decide (is_Some (clients s !! conn)) then handle_action conn action else mret tt
  | EBackend conn ev => deliver_event conn ev
  | EClose conn => on_clients (delete conn)
  | EMonitor i now t => on_bm (monitor_tick i now t)
  | EReconnect t => on_bm (attemptReconnectAll t)
  | EStart => Start
  | EStop => Stop
  end.
Fixpoint history (es : list event) : GoM (Server C) unit :=
  match es with
  | [] => mret tt
  | e :: es => handle e;; history es
  end.
End History.

(** ** The accept loop *)

(** Where the loop of a listener is: at its start, in [Accept], returned. *)
Inductive accept_pc : Type := ALoop | AAccept | AReturned.
(** What the environment decides: whether the node leads, whether the server is
    stopping, and whether a connection comes (or nothing yet, or an error). *)
Inductive accepted_conn : Type := NothingYet | Connection | AcceptError.
#[export] Instance accepted_conn_eq_dec : EqDecision accepted_conn.
Proof. solve_decision. Defined.

Record accept_env : Type := mkAccept {
  ae_leader : bool; ae_stopping : bool; ae_conn : accepted_conn }.

(** A step, and whether it registered a connection. *)
Definition acceptLoop_step (e : accept_env) (pc : accept_pc) : accept_pc * bool :=
  match pc with
  | ALoop => if ae_stopping e then (AReturned, false)
             else if ae_leader e then (AAccept, false) else (ALoop, false)
  | AAccept =>
      match ae_conn e with
      | NothingYet => (AAccept, false)
      | Connection => (ALoop, true)
      | AcceptError => (if ae_stopping e then AReturned else ALoop, false)
      end
  | AReturned => (AReturned, false)
  end.
Fixpoint accept_run (es : list accept_env) (pc : accept_pc) : accept_pc * nat :=
  match es with
  | [] => (pc, O)
  | e :: es => let '(pc, new) := acceptLoop_step e pc in
               let '(pc, n) := accept_run es pc in (pc, ((if new then 1 else 0) + n)%nat)
  end.

(** ** Facts *)

(** An action is formatted and read back in one piece. *)
Lemma read_line_spec s line r :
  read_line s = Some (line, r) →
  s = line +:+ r ∧ ∃ l, String.list_ascii_of_string line = l ++ [byte 10] ∧ Forall (λ c, c ≠ byte 10) l.
Proof.
  revert line. induction s as [|c s IH]; intros line; simpl; [done|].
  case_decide as Hc.
  - intros [= <- <-]. split; [done|]. exists []. subst c. done.
  - destruct (read_line s) as [[l1 r1]|]; [|done]. intros [= <- <-].
    destruct (IH l1 eq_refl) as (->&l&Hl&Hf). split; [done|].
    exists (c :: l). simpl. rewrite Hl. by split; [|constructor].
Qed.

Lemma split_colon_spec l k v :
  split_colon l = Some (k, v) → l = k ++ byte 58 :: v ∧ Forall (λ c, c ≠ byte 58) k.
Proof.
  revert k. induction l as [|c l IH]; intros k; simpl; [done|]. case_decide as Hc.
  - intros [= <- <-]. by subst c.
  - destruct (split_colon l) as [[k1 v1]|]; [|done]. intros [= <- <-].
    destruct (IH k1 eq_refl) as [-> Hf]. split; [done|by constructor].
Qed.

Lemma Forall_infix {A} (P : A → Prop) p l q : Forall P (p ++ l ++ q) → Forall P l.
Proof. rewrite !Forall_app. tauto. Qed.

Lemma TrimSpace_Forall P s :
  Forall P (String.list_ascii_of_string s) → Forall P (String.list_ascii_of_string (TrimSpace s)).
Proof. destruct (TrimSpace_infix s) as (p&q&E). rewrite E. apply Forall_infix. Qed.

(** The line feed that ends a line does not survive the trimming. *)
Lemma trimmed_line line l :
  String.list_ascii_of_string line = l ++ [byte 10] → Forall (λ c, c ≠ byte 10) l →
  one_line (TrimSpace line).
Proof.
  intros Hl Hf. destruct (TrimSpace_infix line) as (p&q&E). rewrite Hl in E. unfold one_line.
  destruct q as [|x q _] using rev_ind.
  - rewrite app_nil_r in E.
    destruct (String.list_ascii_of_string (TrimSpace line)) as [|y t _] eqn:Et using rev_ind; [done|].
    rewrite (assoc_L (++)) in E. apply app_inj_tail in E as [_ <-].
    destruct (TrimSpace_last line (byte 10)); [by rewrite Et, last_snoc|].
    unfold white_space. simpl. set_solver.
  - rewrite !(assoc_L (++)) in E. apply app_inj_tail in E as [-> _].
    rewrite <-(assoc_L (++)) in Hf. by apply Forall_infix in Hf.
Qed.

Lemma proxy_line_wf s line r k v :
  read_line s = Some (line, r) → proxy_line line = Pair k v → wf_field (k, v).
Proof.
  intros (_&l&Hl&Hf)%read_line_spec Hp. pose proof (trimmed_line _ _ Hl Hf) as Hone.
  unfold proxy_line in Hp. case_decide; [done|].
  destruct (split_colon _) as [[k0 v0]|] eqn:Es; [|done]. injection Hp as <- <-.
  apply split_colon_spec in Es as [Es Hk]. unfold one_line in Hone. rewrite Es in Hone.
  apply Forall_app in Hone as [H1 [_ H2]%Forall_cons].
  split_and!; simpl; try apply TrimSpace_idem; unfold one_line; apply TrimSpace_Forall;
    by rewrite String.list_ascii_of_string_of_list_ascii.
Qed.

Lemma readAction_wf fuel acc s action r :
  map_Forall (λ k v, wf_field (k, v)) acc → readAction fuel acc s = Some (action, r) →
  map_Forall (λ k v, wf_field (k, v)) action.
Proof.
  revert acc s. induction fuel as [|fuel IH]; intros acc s Hacc; simpl; [done|].
  destruct (read_line s) as [[line s1]|] eqn:El; [|done].
  destruct (proxy_line line) as [| |k v] eqn:Ep; [by intros [= <- _]|by apply IH|].
  apply IH. apply map_Forall_insert_2; [|done]. by eapply proxy_line_wf.
Qed.

Lemma length_append a b : String.length (a +:+ b) = (String.length a + String.length b)%nat.
Proof. induction a as [|c a IH]; rewrite ?append_cons; simpl; [done|by rewrite IH]. Qed.

Lemma shorter_rest line l s :
  String.list_ascii_of_string line = l ++ [byte 10] →
  (String.length s < String.length (line +:+ s))%nat.
Proof. intros Hl. rewrite length_append. destruct line; [by destruct l|]. simpl. lia. Qed.

(** Every action takes at least a byte of the input. *)
Lemma readAction_shorter fuel acc s action r :
  readAction fuel acc s = Some (action, r) → (String.length r < String.length s)%nat.
Proof.
  revert acc s. induction fuel as [|fuel IH]; intros acc s; simpl; [done|].
  destruct (read_line s) as [[line s1]|] eqn:El; [|done].
  apply read_line_spec in El as (->&l&Hl&_).
  assert (String.length s1 < String.length (line +:+ s1))%nat as Hs1 by (by eapply shorter_rest).
  destruct (proxy_line line); [by intros [= _ <-]|..]; intros Hr%IH; lia.
Qed.

Lemma readAction_fuel f1 f2 acc s :
  (String.length s < f1)%nat → (String.length s < f2)%nat → readAction f1 acc s = readAction f2 acc s.
Proof.
  revert f2 acc s. induction f1 as [|f1 IH]; intros f2 acc s H1 H2; [lia|].
  destruct f2 as [|f2]; [lia|]. simpl.
  destruct (read_line s) as [[line s1]|] eqn:El; [|done].
  apply read_line_spec in El as (->&l&Hl&_).
  assert (String.length s1 < String.length (line +:+ s1))%nat as Hs1 by (by eapply shorter_rest).
  destruct (proxy_line line); [done|..]; apply IH; lia.
Qed.

(** ** Nobody is served before a login *)

Definition NewServer {C} (b : BackendManager C) : Server C := mkServer b ∅ 0 false false [] [].

Section Logged.
Context {C : Type} `{AMIClientOps C} `{AMIAttempt C}.
Implicit Types s : Server C.

Definition logged_in (conn : nat) (l : list call) : Prop := ∃ u p, LoginCall conn u p true ∈ l.

Record log_ok (s : Server C) : Prop := {
  lo_clients : ∀ conn i, clients s !! conn = Some i → authenticated i = true →
    logged_in conn (calls s);
  lo_calls : ∀ i conn a, calls s !! i = Some (Forwarded conn a) →
    ∃ j u p, (j < i)%nat ∧ calls s !! j = Some (LoginCall conn u p true)
}.

(** What holds after a call, however it ends. *)
Definition safe {A} (P : Server C → Prop) (m : GoM (Server C) A) (Q : A → Server C → Prop) : Prop :=
  ∀ s o s', P s → m s = (o, s') → log_ok s' ∧ match o with Done a => Q a s' | _ => True end.

Lemma safe_bind {A B} P R Q (m : GoM (Server C) A) (f : A → GoM (Server C) B) :
  safe P m R → (∀ a, safe (R a) (f a) Q) → safe P (m ≫= f) Q.
Proof.
  intros Hm Hf s o s' Hs. unfold mbind, GoM_bind.
  destruct (m s) as [[a|p|] s1] eqn:E; destruct (Hm s _ s1 Hs E) as [Hok HR].
  - apply (Hf a s1); done.
  - by intros [= <- <-].
  - by intros [= <- <-].
Qed.

Lemma safe_modify P (f : Server C → Server C) (Q : Server C → Prop) :
  (∀ s, P s → log_ok (f s)) → (∀ s, P s → Q (f s)) → safe P (modify f) (λ _, Q).
Proof. intros H1 H2 s o s' Hs [= <- <-]. by split; [apply H1|apply H2]. Qed.

(** A call that changes neither the table nor the log. *)
Lemma log_ok_same s s' : clients s' = clients s → calls s' = calls s → log_ok s → log_ok s'.
Proof. intros E1 E2 [? ?]. split; rewrite ?E1, ?E2; done. Qed.

Abbreviation keeps m := (safe log_ok m (λ _, log_ok)).

Lemma keeps_modify f :
  (∀ s, clients (f s) = clients s ∧ calls (f s) = calls s) → keeps (modify (S:=Server C) f).
Proof.
  intros Hf. apply safe_modify; intros s Hs; destruct (Hf s); by eapply log_ok_same.
Qed.

Lemma proxy_keeps_ret {A} (a : A) : keeps (mret a).
Proof. intros s o s' Hs [= <- <-]. by split. Qed.

Lemma keeps_on_bm {A} (g : GoM (BackendManager C) A) : keeps (on_bm g).
Proof.
  intros s o s' Hs. destruct s as [b c n r st ou l]. simpl. destruct (g b) as [x b'].
  intros [= <- <-]. assert (log_ok (mkServer b' c n r st ou l)) by (by apply (log_ok_same (mkServer b c n r st ou l))).
  split; [done|by destruct x].
Qed.

Lemma keeps_sendResponse conn m : keeps (sendResponse conn m).
Proof. apply keeps_modify. intros []. simpl. by case_match. Qed.

Lemma safe_get P (Q : Server C → Server C → Prop) :
  (∀ s, P s → log_ok s) → (∀ s, P s → Q s s) → safe P get_state Q.
Proof. intros H1 H2 s o s' Hs [= <- <-]. by split; [apply H1|apply H2]. Qed.

Lemma logged_in_app conn l x : logged_in conn l → logged_in conn (l ++ [x]).
Proof. intros (u&p&Hin). exists u, p. apply elem_of_app. by left. Qed.

Lemma log_ok_record b c n r st ou l x :
  log_ok (mkServer b c n r st ou l) →
  (∀ conn a, x = Forwarded conn a → logged_in conn l) → log_ok (mkServer b c n r st ou (l ++ [x])).
Proof.
  intros [Hc Hl] Hx. split; simpl in *.
  - intros conn i Hi Ha. by eapply logged_in_app, Hc.
  - intros i conn a [Hi|[Hge Hi]]%lookup_app_Some.
    + destruct (Hl _ _ _ Hi) as (j&u&p&Hj&Hcall). exists j, u, p. split; [done|].
      by apply lookup_app_l_Some.
    + pose proof (list_elem_of_lookup_2 _ _ _ Hi) as Hin%list_elem_of_singleton.
      assert (i = length l) as ->.
      { apply lookup_lt_Some in Hi. simpl in Hi. lia. }
      destruct (Hx conn a (eq_sym Hin)) as (u&p&[j Hj]%list_elem_of_lookup).
      exists j, u, p. pose proof (lookup_lt_Some _ _ _ Hj). split; [done|].
      by apply lookup_app_l_Some.
Qed.

Lemma keeps_login conn action : keeps (handleLoginAction conn action).
Proof.
  unfold handleLoginAction. cbv zeta. destruct (_ || _); [apply keeps_sendResponse|].
  eapply safe_bind; [apply keeps_on_bm|]. intros response.
  set (ok := match response with Ok m => _ | Err _ => _ end). clearbody ok.
  set (u := field _ _). set (p := field _ _).
  eapply (safe_bind _ (λ _ s, log_ok s ∧ (ok = true → logged_in conn (calls s)))).
  - apply safe_modify; intros [b c n r st ou l] Hs.
    + apply log_ok_record; [done|by intros].
    + split; [apply log_ok_record; [done|by intros]|]. intros ->. exists u, p.
      apply elem_of_app. right. by left.
  - intros ?. destruct ok.
    + eapply (safe_bind _ (λ _, log_ok)); [|intros; apply keeps_sendResponse].
      assert (∀ s, log_ok s ∧ (true = true → logged_in conn (calls s)) →
        log_ok (let '(mkServer b c n r st o l) := s in
          mkServer b ((λ cs, let i := default (mkInfo false "" "") (cs !! conn) in
            <[conn := mkInfo true u (sourceAddr i)]> cs) c) n r st o l)) as Hins.
      { intros [b c n r st ou l] [[Hc Hl] Hlog]. split; simpl in *; [|done].
        intros conn' i [[<- _]|[_ Hi]]%lookup_insert_Some Ha; [by apply Hlog|by eapply Hc]. }
      apply safe_modify; exact Hins.
    + intros s o s' [Hs _]. by apply keeps_sendResponse.
Qed.

Lemma keeps_action conn action : keeps (handle_action conn action).
Proof.
  unfold handle_action. destruct (is_login _); [apply keeps_login|].
  eapply (safe_bind _ (λ s0 s, s0 = s ∧ log_ok s)); [apply safe_get; auto|].
  intros s0. destruct (default false (authenticated <$> clients s0 !! conn)) eqn:Ha; simpl.
  2: { intros s o s' [_ Hs]. by apply keeps_sendResponse. }
  eapply (safe_bind _ (λ _, log_ok)).
  - assert (∀ s, s0 = s ∧ log_ok s → log_ok (let '(mkServer b c n r st o l) := s in
      mkServer b c n r st o (l ++ [Forwarded conn action]))) as Hrec.
    { intros [b c n r st ou l] [-> Hs]. apply log_ok_record; [done|]. intros conn' a [= <- <-].
      simpl in Ha. destruct (c !! conn) as [i|] eqn:Hi; [|done]. by eapply (lo_clients _ Hs). }
    apply safe_modify; exact Hrec.
  - intros ?. eapply safe_bind; [apply keeps_on_bm|].
    intros [m|e]; apply keeps_sendResponse.
Qed.

Lemma keeps_handle e : keeps (handle e).
Proof.
  destruct e as [addr|conn action|conn ev|conn|i now t|t| |]; simpl.
  - apply safe_modify; intros [b c n r st ou l] [Hc Hl]; split; simpl in *; try done;
      intros conn i [[<- <-]|[_ Hi]]%lookup_insert_Some Ha; (done || by eapply Hc).
  - eapply (safe_bind _ (λ _, log_ok)); [by apply safe_get|].
    intros s0. case_bool_decide; [apply keeps_action|apply proxy_keeps_ret].
  - unfold deliver_event. eapply (safe_bind _ (λ _, log_ok)); [by apply safe_get|].
    intros s0. case_match; [apply keeps_sendResponse|apply proxy_keeps_ret].
  - apply safe_modify; intros [b c n r st ou l] [Hc Hl]; split; simpl in *; try done;
      intros conn' i [_ Hi]%lookup_delete_Some Ha; by eapply Hc.
  - apply keeps_on_bm.
  - apply keeps_on_bm.
  - apply keeps_modify. by intros [].
  - unfold Stop. eapply (safe_bind _ (λ _, log_ok)); [by apply safe_get|].
    intros s0. destruct (running s0); simpl; [|apply proxy_keeps_ret].
    eapply safe_bind; [apply keeps_modify; by intros []|]. intros ?.
    eapply (safe_bind _ (λ _, log_ok)); [|intros; apply keeps_modify; by intros []].
    destruct (stopped s0); [|apply proxy_keeps_ret]. by intros s o s' Hs [= <- <-].
Qed.

Lemma keeps_history es : keeps (history es).
Proof.
  induction es as [|e es IH]; simpl; [apply proxy_keeps_ret|].
  eapply safe_bind; [apply keeps_handle|]. by intros ?.
Qed.

Lemma NewServer_ok b : log_ok (NewServer b).
Proof. split; by intros. Qed.
End Logged.

(** A loop that is not in [Accept] registers nothing without the lead. *)
Lemma not_accepting es pc :
  Forall (λ e, ae_leader e = false) es → pc ≠ AAccept → (accept_run es pc).2 = 0%nat.
Proof.
  intros Hes. revert pc. induction Hes as [|e es He _ IH]; intros pc Hpc; [done|]. simpl.
  destruct pc; [|done|]; simpl; rewrite ?He.
  - destruct (ae_stopping e); [specialize (IH AReturned ltac:(done))
      |specialize (IH ALoop ltac:(done))]; by destruct (accept_run es _).
  - specialize (IH AReturned ltac:(done)). by destruct (accept_run es _).
Qed.

(** ** Properties *)

Section Properties.
Context {C : Type} `{AMIClientOps C} `{AMIAttempt C}.

(** C27. Nobody reaches a backend before a login: in every history of a server -
    connections, actions in any order, events, failures and reconnections of
    the backends - an action forwarded for a connection comes after a login of
    that same connection that a backend accepted; and any other action of a
    connection without such a login gets an error and touches nothing. *)
Theorem forwarded_only_after_login (b : BackendManager C) (es : list event) :
  let s := (history es (NewServer b)).2 in
  (∀ i conn a, calls s !! i = Some (Forwarded conn a) →
     ∃ j user secret, (j < i)%nat ∧ calls s !! j = Some (LoginCall conn user secret true)) ∧
  (∀ conn a, (∀ user secret, LoginCall conn user secret true ∉ calls s) →
     is_login (field "Action" a) = false →
     handle_action conn a s = sendErrorResponse conn "Not authenticated" s).
Proof.
  intros s. assert (log_ok s) as [Hc Hl].
  { destruct (history es (NewServer b)) as [o s'] eqn:E.
    by destruct (keeps_history es _ _ _ (NewServer_ok b) E). }
  split; [exact Hl|]. intros conn a Hno Hlogin. unfold handle_action. rewrite Hlogin, bind_get.
  destruct (clients s !! conn) as [i|] eqn:Hi; [|done]. simpl.
  destruct (authenticated i) eqn:Ha; [|done].
  destruct (Hc _ _ Hi Ha) as (u&p&Hin). by destruct (Hno u p).
Qed.

(** C28. An action cannot smuggle in another one: whatever a client sends, the
    action read from it is formatted for the backend, in any order of its
    fields, as text that is read as that one action, and the text that follows
    stays separate. *)
Theorem no_smuggling (fuel fuel' : nat) (input rest next : string) (action : message)
    (pairs : list (string * string))
    (Hread : readAction fuel ∅ input = Some (action, rest))
    (Hp : pairs ≡ₚ map_to_list action) (Hfuel : (length pairs < fuel')%nat) :
  read_message fuel' ∅ (format_action pairs +:+ next) = Some (action, next).
Proof.
  assert (map_Forall (λ k v, wf_field (k, v)) action) as Hwf
    by (eapply readAction_wf; [apply map_Forall_empty|exact Hread]).
  rewrite read_format; [|apply Forall_forall|done].
  2: { intros [k v]. rewrite Hp. intros Hkv%elem_of_map_to_list. by apply Hwf. }
  assert (NoDup pairs.*1) as Hnd by (rewrite Hp; apply NoDup_fst_map_to_list).
  rewrite foldl_insert_list_to_map, (right_id_L ∅ (∪)) by done.
  by rewrite (list_to_map_proper _ _ Hnd Hp), list_to_map_to_list.
Qed.

(** A node that has lost the lead accepts at most one more connection on
    each listener: exactly the one that ends an [Accept] it was waiting in when
    it still led; leadership is not tested again before it is served. *)
Theorem late_accept_bounded (es : list accept_env) (pc : accept_pc)
    (Hes : Forall (λ e, ae_leader e = false) es) :
  (accept_run es pc).2
  = match pc with
    | AAccept =>
        match list_find (λ e, ae_conn e ≠ NothingYet) es with
        | Some (_, e) => match ae_conn e with Connection => 1 | _ => 0 end
        | None => 0
        end
    | _ => 0
    end%nat.
Proof.
  destruct pc; try (by apply not_accepting).
  induction Hes as [|e es He Hes' IH]; [done|].
  assert (∀ pc, pc ≠ AAccept → (accept_run es pc).2 = 0%nat) as Hno
    by (intros; by apply not_accepting).
  cbn [accept_run acceptLoop_step list_find].
  destruct (ae_conn e) eqn:Ec.
  - rewrite decide_False by auto. destruct (accept_run es AAccept) as [pc n]. simpl in *. rewrite IH.
    by destruct (list_find _ es) as [[]|].
  - rewrite decide_True by done. specialize (Hno ALoop ltac:(done)).
    destruct (accept_run es ALoop) as [pc n]. simpl in *. by rewrite Ec, Hno.
  - rewrite decide_True by done. simpl. rewrite Ec.
    assert (∀ pc, pc ≠ AAccept → (let '(pc, n) := accept_run es pc in (pc, n)).2 = 0%nat) as Hno'.
    { intros pc Hpc. specialize (Hno pc Hpc). by destruct (accept_run es pc). }
    destruct (ae_stopping e); by apply Hno'.
Qed.
End Properties.

(** ** Instances *)

#[export] Instance sample_attempt : AMIAttempt AMIManager.sample_client := λ _, zero_time.

Definition one_backend : BackendManager AMIManager.sample_client :=
  mkBM [AMIManager.mkSample "10.0.0.5:5038" true (Ok success)] 0.
Definition login : message :=
  {[ "Action" := "LOGIN"; "Username" := "admin"; "Secret" := "secret" ]}.
Definition originate : message := {[ "Action" := "Originate"; "Channel" := "SIP/100" ]}.
(** An action before the login, and the same action after it. *)
Definition a_session : list event :=
  [EStart; EAccept "0.0.0.0:5038"; EAction 0 originate; EAction 0 login; EAction 0 originate].

Lemma forwarded_only_after_login_witness :
  let s := (history a_session (NewServer one_backend)).2 in
  calls s = [LoginCall 0 "admin" "secret" true; Forwarded 0 originate] ∧
  ∃ j user secret, (j < 1)%nat ∧ calls s !! j = Some (LoginCall 0 user secret true).
Proof.
  intros s. assert (calls s = [LoginCall 0 "admin" "secret" true; Forwarded 0 originate]) as E
    by (by vm_compute).
  split; [exact E|].
  destruct (forwarded_only_after_login one_backend a_session) as [H1 _].
  apply (H1 1%nat 0%nat originate). fold s. by rewrite E.
Defined.

(** A carriage return in the middle of a value does not end a line. *)
Definition tricky_input : string :=
  "Action: Status" +:+ CRLF +:+ " Channel :  a: b" +:+ String (byte 13) "Action: Logoff" +:+ CRLF +:+ CRLF +:+ "x".
Definition tricky : message :=
  {[ "Action" := "Status"; "Channel" := "a: b" +:+ String (byte 13) "Action: Logoff" ]}.

Lemma no_smuggling_witness :
  readAction 9 ∅ tricky_input = Some (tricky, "x") ∧
  read_message 9 ∅ (format_action (map_to_list tricky) +:+ "next") = Some (tricky, "next").
Proof.
  assert (readAction 9 ∅ tricky_input = Some (tricky, "x")) as E by (by vm_compute).
  split; [exact E|].
  apply (no_smuggling 9 9 tricky_input "x" "next" tricky (map_to_list tricky) E).
  - done.
  - vm_compute. lia.
Defined.

Lemma late_accept_bounded_witness :
  (accept_run [mkAccept false false NothingYet; mkAccept false false Connection;
               mkAccept false false Connection] AAccept).2 = 1%nat.
Proof.
  rewrite (late_accept_bounded [mkAccept false false NothingYet; mkAccept false false Connection;
    mkAccept false false Connection] AAccept); [by vm_compute|].
  repeat constructor.
Defined.
