(* ===== verification/Registry.v ===== *)
(** * common/goroutine.go and common/context.go

    The goroutine registry - [Go], the goroutines it starts, [Shutdown] and the
    goroutine that waits for it - as threads over the shared counters, one
    atomic access at a time; and the deadlines of contexts. *)

From S2P Require Import Prelude.

(** ** The registry *)


Record GoroutineRegistry : Type := mkRegistry {
  wg : nat;                                (* the counter of the WaitGroup *)
  cancelled : bool;                        (* the context *)
  total : Z; active : Z; panicCount : Z    (* int64 *) }.

Definition NewGoroutineRegistry : GoroutineRegistry := mkRegistry 0 false 0 0 0.

Definition ActiveCount (r : GoroutineRegistry) : Z := active r.
Definition TotalCount (r : GoroutineRegistry) : Z := total r.
Definition PanicCount (r : GoroutineRegistry) : Z := panicCount r.

Definition set_wg (f : nat → nat) (r : GoroutineRegistry) : GoroutineRegistry :=
  let '(mkRegistry w c t a p) := r in mkRegistry (f w) c t a p.
Definition set_cancelled (r : GoroutineRegistry) : GoroutineRegistry :=
  let '(mkRegistry w _ t a p) := r in mkRegistry w true t a p.
Definition add_total (r : GoroutineRegistry) : GoroutineRegistry :=
  let '(mkRegistry w c t a p) := r in mkRegistry w c (int64_wrap (t + 1)) a p.
Definition add_active (d : Z) (r : GoroutineRegistry) : GoroutineRegistry :=
  let '(mkRegistry w c t a p) := r in mkRegistry w c t (int64_wrap (a + d)) p.
Definition add_panic (r : GoroutineRegistry) : GoroutineRegistry :=
  let '(mkRegistry w c t a p) := r in mkRegistry w c t a (int64_wrap (p + 1)).

(** Program points. The deferred calls of a goroutine run in the reverse order:
    the recovery, the count of active goroutines, the WaitGroup. *)
Inductive thread : Type :=
(* a call of Go *)
| CAdd | CTotal | CActive | CSpawn | CReturned
(* the goroutine: in its function, after a panic, in the deferred calls *)
| GRunning | GPanicked | GUncount | GDone | GEnded
(* Shutdown: cancels, starts its waiter, selects; and the waiter, of a
   Shutdown at a position *)
| SCancel | SStart | SSelect (waiter : nat) | SNil | SError (remaining : Z)
| WWait | WClosed.

#[export] Instance thread_eq_dec : EqDecision thread.
Proof. solve_decision. Defined.

Record sys : Type := mkSys { registry : GoroutineRegistry; threads : list thread }.

(** What the environment decides: whether a running function goes on, returns or
    panics, and whether the timer of a Shutdown has fired. *)
Inductive choice : Type := GoOn | Return | PanicNow | TimerFired.

Definition goto (t : nat) (p : thread) (s : sys) : sys :=
  mkSys (registry s) (<[t := p]> (threads s)).
Definition on_registry (f : GoroutineRegistry → GoroutineRegistry) (s : sys) : sys :=
  mkSys (f (registry s)) (threads s).
Definition spawn (p : thread) (s : sys) : sys := mkSys (registry s) (threads s ++ [p]).

Definition step (t : nat) (c : choice) (s : sys) : sys :=
  match threads s !! t with
  | Some CAdd => on_registry (set_wg S) (goto t CTotal s)
  | Some CTotal => on_registry add_total (goto t CActive s)
  | Some CActive => on_registry (add_active 1) (goto t CSpawn s)
  | Some CSpawn => spawn GRunning (goto t CReturned s)
  | Some GRunning =>
      match c with
      | Return => goto t GUncount s
      | PanicNow => goto t GPanicked s
      | _ => s
      end
  | Some GPanicked => on_registry add_panic (goto t GUncount s)
  | Some GUncount => on_registry (add_active (-1)) (goto t GDone s)
  | Some GDone => on_registry (set_wg pred) (goto t GEnded s)
  | Some SCancel => on_registry set_cancelled (goto t SStart s)
  | Some SStart => spawn WWait (goto t (SSelect (length (threads s))) s)
  | Some (SSelect w) =>
      (* when both are ready, select takes either *)
      match c with
      | TimerFired => goto t (SError (active (registry s))) s
      | _ => if decide (threads s !! w = Some WClosed) then goto t SNil s else s
      end
  | Some WWait => if decide (wg (registry s) = 0%nat) then goto t WClosed s else s
  | _ => s
  end.
Definition run (es : list (nat * choice)) (s : sys) : sys :=
  foldl (λ s e, step e.1 e.2 s) s es.

(** ** Facts *)

(** What a thread holds of the WaitGroup and of the active count, and what it
    has added to the others. A call that has spawned has handed its share to
    the goroutine. *)
Definition holds_wg (p : thread) : nat :=
  match p with CTotal | CActive | CSpawn | GRunning | GPanicked | GUncount | GDone => 1 | _ => 0 end.
Definition holds_active (p : thread) : nat :=
  match p with CSpawn | GRunning | GPanicked | GUncount => 1 | _ => 0 end.

Definition sum (f : thread → nat) (ts : list thread) : nat := foldr (λ p n, f p + n)%nat O ts.

Lemma sum_app f l k : sum f (l ++ k) = (sum f l + sum f k)%nat.
Proof. induction l as [|p l IH]; simpl; [done|rewrite IH; lia]. Qed.

Lemma sum_insert f t p q ts :
  ts !! t = Some p → (sum f (<[t := q]> ts) + f p = sum f ts + f q)%nat.
Proof.
  revert t. induction ts as [|x ts IH]; intros [|t] Ht; simplify_eq/=; [lia|].
  specialize (IH t Ht). lia.
Qed.

Lemma sum_le f g ts : (∀ p, f p <= g p)%nat → (sum f ts <= sum g ts)%nat.
Proof. intros Hfg. induction ts as [|p ts IH]; simpl; [done|]. specialize (Hfg p). lia. Qed.

Lemma sum_zero f ts t p : sum f ts = 0%nat → ts !! t = Some p → f p = 0%nat.
Proof.
  revert t. induction ts as [|x ts IH]; intros [|t] Hs Ht; simplify_eq/=; [lia|].
  apply (IH t); [lia|done].
Qed.

Definition counted (s : sys) : Prop :=
  wg (registry s) = sum holds_wg (threads s) ∧
  active (registry s) = int64_wrap (Z.of_nat (sum holds_active (threads s))).

Lemma active_change a b d : a + d = b → int64_wrap (int64_wrap a + d) = int64_wrap b.
Proof. intros <-. apply int64_wrap_add_l. Qed.

Lemma counted_step t c s : counted s → counted (step t c s).
Proof.
  intros [Hw Ha]. destruct s as [[w cn tt a pc] ts]. unfold counted in *. simpl in *. unfold step. simpl.
  destruct (ts !! t) as [p|] eqn:Hp; [|done].
  assert (∀ q, (sum holds_wg (<[t := q]> ts) + holds_wg p = sum holds_wg ts + holds_wg q)%nat) as W
    by (intros q; by apply sum_insert).
  assert (∀ q, (sum holds_active (<[t := q]> ts) + holds_active p
    = sum holds_active ts + holds_active q)%nat) as A by (intros q; by apply sum_insert).
  assert (∀ q, holds_wg q = holds_wg p → holds_active q = holds_active p →
    w = sum holds_wg (<[t := q]> ts) ∧
    a = int64_wrap (Z.of_nat (sum holds_active (<[t := q]> ts)))) as Hsame.
  { intros q H1 H2. specialize (W q). specialize (A q). rewrite Hw, Ha. split; [lia|].
    do 2 f_equal. lia. }
  destruct p; try done; try (by apply Hsame); try (repeat case_match; by try apply Hsame); simpl.
  - specialize (W CTotal). specialize (A CTotal). simpl in *. rewrite Ha. split; [lia|].
    do 2 f_equal. lia.
  - specialize (W CSpawn). specialize (A CSpawn). simpl in *. split; [lia|].
    rewrite Ha. apply active_change. lia.
  - specialize (W CReturned). specialize (A CReturned). simpl in *. rewrite !sum_app. simpl.
    rewrite Ha. split; [lia|]. do 2 f_equal. lia.
  - specialize (W GDone). specialize (A GDone). simpl in *. split; [lia|].
    rewrite Ha. apply active_change. lia.
  - specialize (W GEnded). specialize (A GEnded). simpl in *. rewrite Ha. split; [lia|].
    do 2 f_equal. lia.
  - rewrite !sum_app. simpl. rewrite !Nat.add_0_r. by apply Hsame.
Qed.

(** The registry of a program about to make [calls] calls of [Go] and
    [shutdowns] calls of [Shutdown]. *)
Definition start (calls shutdowns : nat) : sys :=
  mkSys NewGoroutineRegistry (replicate calls CAdd ++ replicate shutdowns SCancel).

Lemma sum_replicate f p n : f p = 0%nat → sum f (replicate n p) = 0%nat.
Proof. intros Hf. induction n as [|n IH]; simpl; [done|]. by rewrite Hf. Qed.

Lemma counted_start calls shutdowns : counted (start calls shutdowns).
Proof. split; simpl; rewrite sum_app, !sum_replicate; done. Qed.

Lemma counted_run es : ∀ s, counted s → counted (run es s).
Proof. induction es as [|e es IH]; intros s Hs; simpl; [done|]. by apply IH, counted_step. Qed.

Lemma sum_zero_all f ts : Forall (λ p, f p = 0%nat) ts → sum f ts = 0%nat.
Proof. induction 1 as [|p ts Hp _ IH]; simpl; [done|]. lia. Qed.

(** A goroutine that is still counted: from the [Add] of its [Go] to its [Done]. *)
Definition in_flight (p : thread) : bool := (0 <? holds_wg p)%nat.

Lemma no_flight_sum ts : sum holds_wg ts = 0%nat ↔ Forall (λ p, in_flight p = false) ts.
Proof.
  split.
  - intros Hs. apply Forall_lookup. intros t p Hp. unfold in_flight.
    by rewrite (sum_zero _ _ _ _ Hs Hp).
  - intros Ha. apply sum_zero_all. apply (Forall_impl _ _ _ Ha). intros p. unfold in_flight.
    destruct (holds_wg p); [done|discriminate].
Qed.

Lemma holds_active_wg p : (holds_active p <= holds_wg p)%nat.
Proof. destruct p; simpl; lia. Qed.

Lemma goto_at t p s : is_Some (threads s !! t) → threads (goto t p s) !! t = Some p.
Proof. intros [q Hq]. apply list_lookup_insert_eq. by eapply lookup_lt_Some. Qed.

(** The waiter goes on exactly when the WaitGroup is at zero. *)
Lemma waiter_step w c s :
  threads s !! w = Some WWait →
  threads (step w c s) !! w = Some WClosed ↔ wg (registry s) = 0%nat.
Proof.
  intros Hw. unfold step. rewrite Hw. case_decide as Hz.
  - split; [done|]. intros _. apply goto_at. by rewrite Hw.
  - rewrite Hw. split; [intros [=]|done].
Qed.

(** A goroutine past its panic, left to run, is counted and ends. *)
Lemma panicked_ends t s :
  threads s !! t = Some GPanicked →
  run [(t, GoOn); (t, GoOn); (t, GoOn)] s =
  mkSys (set_wg pred (add_active (-1) (add_panic (registry s)))) (<[t := GEnded]> (threads s)).
Proof.
  intros Ht. assert (t < length (threads s))%nat as Hl by (by eapply lookup_lt_Some).
  destruct s as [r ts]. simpl in *. unfold step at 3. simpl. rewrite Ht. simpl.
  unfold step at 2. simpl. rewrite list_lookup_insert_eq by done. simpl.
  unfold step. simpl. rewrite list_lookup_insert_eq by (by rewrite length_insert). simpl.
  unfold goto, on_registry. simpl. by rewrite !list_insert_insert_eq.
Qed.

(** C29. Whatever the interleaving of the calls of [Go], of the goroutines (which
    may run, return or panic) and of the calls of [Shutdown], the goroutine that
    [Shutdown] waits for closes its channel - and [Shutdown] returns nil -
    exactly when every goroutine started so far has ended; the active count is
    then 0. A panic does not get in the way: it is recovered, counted, and the
    goroutine leaves both counts. *)
Theorem shutdown_waits_for_all (calls shutdowns : nat) (es : list (nat * choice))
    (w : nat) (c : choice) :
  let s := run es (start calls shutdowns) in
  threads s !! w = Some WWait →
  (threads (step w c s) !! w = Some WClosed ↔ Forall (λ p, in_flight p = false) (threads s)) ∧
  (threads (step w c s) !! w = Some WClosed → ActiveCount (registry s) = 0) ∧
  (∀ t, threads s !! t = Some GPanicked →
     let s' := run [(t, GoOn); (t, GoOn); (t, GoOn)] s in
     threads s' = <[t := GEnded]> (threads s) ∧
     wg (registry s') = pred (wg (registry s)) ∧
     PanicCount (registry s') = int64_wrap (PanicCount (registry s) + 1)).
Proof.
  intros s Hw. destruct (counted_run es _ (counted_start calls shutdowns)) as [Hwg Hact].
  fold s in Hwg, Hact. rewrite (waiter_step _ _ _ Hw), Hwg. split; [|split].
  - apply no_flight_sum.
  - intros Hz. unfold ActiveCount. rewrite Hact.
    pose proof (sum_le _ _ (threads s) holds_active_wg) as Hle. rewrite Hz in Hle.
    by replace (sum holds_active (threads s)) with 0%nat by lia.
  - intros t Ht s'. unfold s'. rewrite panicked_ends, <-Hwg by done. by destruct (registry s).
Qed.

(** Two goroutines, one of which panics; Shutdown waits for both. *)
Definition demo : list (nat * choice) :=
  [(0%nat, GoOn); (0%nat, GoOn); (0%nat, GoOn); (0%nat, GoOn);
   (1%nat, GoOn); (1%nat, GoOn); (1%nat, GoOn); (1%nat, GoOn);
   (2%nat, GoOn); (2%nat, GoOn); (3%nat, PanicNow)].

Lemma shutdown_waits_for_all_witness :
  let s := run demo (start 2 1) in
  threads s = [CReturned; CReturned; SSelect 5; GPanicked; GRunning; WWait] ∧
  (threads (step 5 GoOn s) !! 5%nat = Some WClosed ↔
   Forall (λ p, in_flight p = false) (threads s)).
Proof.
  split; [by vm_compute|].
  exact (proj1 (shutdown_waits_for_all 2 1 demo 5 GoOn ltac:(by vm_compute))).
Defined.

(** ** common/context.go

    A context is what these functions read of it: its deadline, if any.
    [context.WithTimeout] gives the child the earlier of the two deadlines: that
    of the parent and [now + timeout]. *)


Definition context : Type := option Z.

Definition DefaultTimeout : Z := 30 * 10 ^ 9.

Definition WithTimeout (now : Z) (ctx : context) (timeout : Z) : context :=
  match ctx with
  | Some d => Some (Z.min d (now + timeout))
  | None => Some (now + timeout)
  end.

Definition EnsureTimeout (now : Z) (ctx : context) (timeout : Z) : context :=
  match ctx with
  | Some deadline => if 0 <? deadline - now then ctx else WithTimeout now ctx timeout
  | None => WithTimeout now ctx timeout
  end.

Definition ContextWithTimeout (now : Z) (parent : context) (timeout : Z) : context :=
  EnsureTimeout now parent timeout.

Definition QuickTimeout (now : Z) (parent : context) : context :=
  EnsureTimeout now parent (5 * 10 ^ 9).

Definition LongTimeout (now : Z) (parent : context) : context :=
  EnsureTimeout now parent (2 * 60 * 10 ^ 9).

(** The result of [EnsureTimeout] always has a deadline; it is the parent's
    own whenever the parent has one that has not passed, however far away it is,
    and [now + timeout] when the parent has none. For a parent whose deadline
    has passed, and a timeout that is not negative, the context made in its
    place keeps the deadline that has passed: the operation given it fails at
    once. *)
Theorem ensure_timeout_deadlines (now timeout : Z) (ctx : context) :
  0 <= timeout →
  EnsureTimeout now ctx timeout =
    Some (default (now + timeout) ctx).
Proof.
  intros Ht. destruct ctx as [d|]; simpl; [|done].
  case_match; [done|]. f_equal. lia.
Qed.

(** Ten seconds after its deadline, a context given two more minutes has none. *)
Lemma ensure_timeout_deadlines_witness :
  LongTimeout (100 * 10 ^ 9) (Some (90 * 10 ^ 9)) = Some (90 * 10 ^ 9).
Proof.
  exact (ensure_timeout_deadlines (100 * 10 ^ 9) (2 * 60 * 10 ^ 9) (Some (90 * 10 ^ 9))
    ltac:(lia)).
Defined.
