(* ===== verification/Config.v ===== *)
(** * config/config.go

    The configuration: the document as records with the source's fields, the
    defaults of [LoadConfig], the conversions to the settings of the managers and
    to durations. Reading the file and decoding YAML (gopkg.in/yaml.v3) are
    arguments; [time.ParseDuration] is modelled, float64 fractions included. *)

From Stdlib Require Import Ascii.
From S2P Require Import Prelude.
From S2P Require Import CircuitBreaker.
From S2P Require Import RTPEngine.
From S2P Require Import AMIClient.

(** ** The document *)

Record ServiceTestConfig : Type := mkServiceTestConfig {
  tm_Enabled : bool; EnableWebSocket : bool; EnableSIP : bool; EnableRTP : bool;
  EnableAMI : bool; VerboseLogging : bool; LogSIPMessages : bool;
  SimulateBackendDelay : Z }.

Record LogConfig : Type := mkLogConfig {
  UseConsole : bool; UseJSON : bool; LogFile : string; Directory : string; MaxSize : Z;
  MaxBackups : Z; MaxAge : Z; Compress : bool; IncludeDateTime : bool }.

Record RedisConfig : Type := mkRedisConfig {
  redis_Enabled : bool; redis_Addresses : list string; redis_Password : string;
  redis_DB : Z; redis_PoolSize : Z; redis_MaxRetries : Z; redis_DialTimeout : Z }.

Record MemoryConfig : Type := mkMemoryConfig {
  MaxKeys : Z; CleanupIntervalSeconds : Z; PersistPath : string;
  PersistOnShutdown : bool; ShardCount : Z }.

Record BreakerSettings : Type := mkBreakerSettings {
  FailureThreshold : Z; ResetSeconds : Z; HalfOpenMax : Z }.

Record RTPEngineInstanceConfig : Type := mkRTPEngineInstanceConfig {
  eng_Address : string; eng_Port : Z; eng_TimeoutMS : Z; eng_Weight : Z;
  eng_CircuitBreaker : BreakerSettings }.

Record RTPEngineConfig : Type := mkRTPEngineConfig { Engines : list RTPEngineInstanceConfig }.

Record AsteriskClientConfig : Type := mkAsteriskClientConfig {
  cl_Address : string; cl_Username : string; cl_Secret : string; cl_TimeoutMS : Z;
  cl_CircuitBreaker : BreakerSettings }.

Record AsteriskConfig : Type := mkAsteriskConfig {
  Clients : list AsteriskClientConfig; DefaultClient : Z; HealthCheckIntervalSeconds : Z;
  ConnectionTimeoutSeconds : Z; EnableReconnect : bool; ReconnectIntervalSeconds : Z;
  MaxReconnectAttempts : Z; as_MaxRetries : Z; as_RetryDelay : string;
  as_EnableHAProxy : bool; as_OriginalAddresses : list string }.

Record SIPConfig : Type := mkSIPConfig {
  UDPBindAddr : string; ProxyURI : string; sip_DefaultNextHop : string; MaxForwards : Z;
  UserAgent : string; sip_DisableSIPProcessing : bool; sip_DisableUDPSIPProcessing : bool;
  sip_DisableWSSIPProcessing : bool; Backends : list string }.

Record WebSocketConfig : Type := mkWebSocketConfig {
  ws_BindAddr : string; CertFile : string; KeyFile : string; ws_MaxConnections : Z;
  ReadTimeoutMS : Z; WriteTimeoutMS : Z; IdleTimeoutMS : Z; EnableIPv4Only : bool;
  ws_ServerName : string; ws_BackendServers : list string; ws_FailoverThreshold : Z;
  ws_DisableUDPSIPProcessing : bool; ws_DisableSIPProcessing : bool;
  ws_DisableWSSIPProcessing : bool; DomainRewriteEnabled : bool; SIPHeaderRewriting : bool;
  LogSIPTransformations : bool }.

Record MetricsConfig : Type := mkMetricsConfig { met_Enabled : bool; met_BindAddr : string }.

Record HAConfig : Type := mkHAConfig {
  ha_Enabled : bool; HeartbeatInterval : Z; LeaseTimeout : Z; NodeID : string }.

Record Config : Type := mkConfig {
  LogLevel : string; Logging : LogConfig; ShutdownWaitSeconds : Z; Redis : RedisConfig;
  MemoryStorage : MemoryConfig; RTPEngine : RTPEngineConfig; Asterisk : AsteriskConfig;
  SIP : SIPConfig; WebSocket : WebSocketConfig; Metrics : MetricsConfig;
  HighAvailability : HAConfig; TestingMode : ServiceTestConfig }.

(** ** The defaults *)

(** [if v <= 0 { v = d }] and [if v == "" { v = d }]. *)
Definition or_default (d v : Z) : Z := if v <=? 0 then d else v.
Definition or_string (d v : string) : string := if decide (v = "") then d else v.

Definition logging_defaults (l : LogConfig) : LogConfig :=
  let '(mkLogConfig con json file dir size backups age comp dt) := l in
  mkLogConfig (if negb con && bool_decide (file = "") then true else con) json file
    (or_string "/var/logs/voiceproxy" dir) (or_default 100 size) (or_default 10 backups)
    (or_default 30 age) comp dt.

Definition memory_defaults (m : MemoryConfig) : MemoryConfig :=
  let '(mkMemoryConfig keys cleanup path persist shards) := m in
  mkMemoryConfig (or_default 10000 keys) (or_default 300 cleanup) path persist
    (or_default 32 shards).

Definition sip_defaults (s : SIPConfig) : SIPConfig :=
  let '(mkSIPConfig bind uri hop mf ua d du dw bs) := s in
  mkSIPConfig bind uri hop (or_default 70 mf) (or_string "WebRTC-SIP Gateway" ua) d du dw bs.

Definition websocket_defaults (w : WebSocketConfig) : WebSocketConfig :=
  let '(mkWebSocketConfig bind cert key mc rt wt it v4 sn bs ft du d dw re hr lt) := w in
  mkWebSocketConfig bind cert key (or_default 1000 mc) (or_default 30000 rt)
    (or_default 30000 wt) (or_default 120000 it) v4 (or_string "WebRTC-SIP Gateway" sn)
    bs ft du d dw re hr lt.

Definition ha_defaults (h : HAConfig) : HAConfig :=
  let '(mkHAConfig en hb lease id) := h in
  mkHAConfig en (or_default 2000 hb) (or_default 7000 lease) id.

Definition testing_defaults (t : ServiceTestConfig) : ServiceTestConfig :=
  let '(mkServiceTestConfig en ws sip rtp ami vb lg delay) := t in
  if en && negb ws && negb sip && negb rtp && negb ami
  then mkServiceTestConfig en true true true true vb lg delay
  else t.

Definition set_defaults (c : Config) : Config :=
  let '(mkConfig level lg wait redis mem rtp ast sip ws met ha tm) := c in
  mkConfig (or_string "info" level) (logging_defaults lg) (or_default 30 wait) redis
    (memory_defaults mem) rtp ast (sip_defaults sip) (websocket_defaults ws) met
    (ha_defaults ha) (testing_defaults tm).

Definition LoadConfig (ReadFile : string → result string string)
    (Unmarshal : string → result string Config) (path : string) : result string Config :=
  match ReadFile path with
  | Err e => Err ("failed to read config file: " +:+ e)
  | Ok data =>
      match Unmarshal data with
      | Err e => Err ("failed to parse config file: " +:+ e)
      | Ok config => Ok (set_defaults config)
      end
  end.

(** ** time.ParseDuration

    A sign, then numbers with a unit; the integer part is exact, a fraction goes
    through float64. *)

Definition is_digit (a : ascii) : bool := let n := N_of_ascii a in ((48 <=? n) && (n <=? 57))%N.
Definition digit (a : ascii) : Z := Z.of_N (N_of_ascii a) - 48.

(** The digits at the front of a string, as leadingInt and leadingFraction read
    them: the first fails on overflow, the second stops counting. *)
Fixpoint leadingInt (x : Z) (s : list ascii) : option (Z * list ascii) :=
  match s with
  | a :: s' =>
      if negb (is_digit a) then Some (x, s)
      else if 2 ^ 63 / 10 <? x then None
      else let x := x * 10 + digit a in
           if 2 ^ 63 <? x then None else leadingInt x s'
  | [] => Some (x, [])
  end.

Fixpoint leadingFraction (x scale : Z) (overflow : bool) (s : list ascii) : Z * Z * list ascii :=
  match s with
  | a :: s' =>
      if negb (is_digit a) then (x, scale, s)
      else if overflow then leadingFraction x scale true s'
      else if (2 ^ 63 - 1) / 10 <? x then leadingFraction x scale true s'
      else let y := x * 10 + digit a in
           if 2 ^ 63 <? y then leadingFraction x scale true s'
           else leadingFraction y (scale * 10) false s'
  | [] => (x, scale, [])
  end.

Fixpoint unit_name (s : list ascii) : list ascii * list ascii :=
  match s with
  | a :: s' => if is_digit a || bool_decide (a = "."%char) then ([], s)
               else let '(u, r) := unit_name s' in (a :: u, r)
  | [] => ([], [])
  end.

(** The units; the two spellings of the microsecond beside [us] are UTF-8. *)
Definition micro (c1 c2 : N) : list ascii := [ascii_of_N c1; ascii_of_N c2; "s"%char].
Definition unitMap (u : list ascii) : option Z :=
  if decide (u = String.list_ascii_of_string "ns") then Some 1
  else if decide (u = String.list_ascii_of_string "us") then Some 1000
  else if decide (u = micro 194 181) then Some 1000
  else if decide (u = micro 206 188) then Some 1000
  else if decide (u = String.list_ascii_of_string "ms") then Some Millisecond
  else if decide (u = String.list_ascii_of_string "s") then Some Second
  else if decide (u = String.list_ascii_of_string "m") then Some Minute
  else if decide (u = String.list_ascii_of_string "h") then Some Hour
  else None.

(** [uint64(float64(f) * (float64(unit) / scale))]. *)
Definition fraction (f unit scale : Z) : Z :=
  f_truncate (f_mul (float64 f) (f_div (float64 unit) (float64 scale))).

(** One number with its unit, and what is left of the text. *)
Definition duration_item (s : list ascii) : option (Z * list ascii) :=
  '(v, s1) ← leadingInt 0 s;
  let pre := negb (length s1 =? length s)%nat in
  let '(f, scale, post, s2) :=
    match s1 with
    | "."%char :: s' =>
        let '(f, scale, r) := leadingFraction 0 1 false s' in
        (f, scale, negb (length r =? length s')%nat, r)
    | _ => (0, 1, false, s1)
    end in
  if negb pre && negb post then None
  else
    let '(u, s3) := unit_name s2 in
    unit ← unitMap u;
    if 2 ^ 63 / unit <? v then None
    else
      let v := v * unit + (if 0 <? f then fraction f unit scale else 0) in
      if 2 ^ 63 <? v then None else Some (v, s3).

(** The loop; an item takes at least one character, so the length of the text is
    fuel enough. *)
Fixpoint duration_items (fuel : nat) (d : Z) (s : list ascii) : option Z :=
  match s, fuel with
  | [], _ => Some d
  | _, O => None
  | _, S fuel =>
      '(v, s') ← duration_item s;
      let d := (d + v) mod 2 ^ 64 in
      if 2 ^ 63 <? d then None else duration_items fuel d s'
  end.

Definition unsigned_duration (neg : bool) (s : list ascii) : option Duration :=
  if decide (s = ["0"%char]) then Some 0
  else if decide (s = []) then None
  else
    d ← duration_items (length s) 0 s;
    if neg then Some (int64_wrap (- int64_wrap d))
    else if 2 ^ 63 - 1 <? d then None else Some d.

Definition ParseDuration (s : string) : option Duration :=
  match String.list_ascii_of_string s with
  | "-"%char :: s' => unsigned_duration true s'
  | "+"%char :: s' => unsigned_duration false s'
  | s' => unsigned_duration false s'
  end.

(** ** The conversions *)

(** [time.Duration(n) * unit]. *)
Definition duration_of (n unit : Z) : Duration := int64_wrap (n * unit).

Definition breaker_config (b : BreakerSettings) : CircuitBreakerConfig :=
  mkCircuitBreakerConfig (FailureThreshold b) (duration_of (ResetSeconds b) Second) (HalfOpenMax b).

(** rtpengine.ManagerConfig and ami.ManagerConfig. *)
Record RTPManagerConfig : Type := mkRTPManagerConfig {
  rm_Engines : list RTPEngine.Config; rm_DialTimeout : Duration; rm_RequestExpiry : Duration;
  rm_Disabled : bool }.

Record AMIManagerConfig : Type := mkAMIManagerConfig {
  am_Clients : list AMIClient.Config; am_DefaultClient : Z; am_HealthCheckInterval : Duration;
  am_ConnectionTimeout : Duration; am_EnableReconnect : bool; am_ReconnectInterval : Duration;
  am_MaxReconnectAttempts : Z; am_MaxRetries : Z; am_RetryDelay : Duration;
  am_EnableHAProxy : bool; am_OriginalAddresses : list string }.

Definition rtp_engine_config (eng : RTPEngineInstanceConfig) : RTPEngine.Config :=
  RTPEngine.mkConfig (eng_Address eng) (eng_Port eng)
    (duration_of (eng_TimeoutMS eng) Millisecond) (eng_Weight eng)
    (breaker_config (eng_CircuitBreaker eng)).

(** The fields that are not set have their zero values. *)
Definition ToRTPEngineManagerConfig (c : Config) : RTPManagerConfig :=
  mkRTPManagerConfig (rtp_engine_config <$> Engines (RTPEngine c)) 0 0 false.

Definition ami_client_config (client : AsteriskClientConfig) : AMIClient.Config :=
  let timeout := duration_of (cl_TimeoutMS client) Millisecond in
  AMIClient.mkConfig (cl_Address client) (cl_Username client) (cl_Secret client)
    (if timeout <=? 0 then 5 * Second else timeout)
    (breaker_config (cl_CircuitBreaker client)).

Definition GetAsteriskRetryDelay (c : Config) : Duration :=
  match ParseDuration (as_RetryDelay (Asterisk c)) with
  | None => 5 * Second
  | Some retryDelay => retryDelay
  end.

Definition ToAsteriskManagerConfig (c : Config) : AMIManagerConfig :=
  mkAMIManagerConfig (ami_client_config <$> Clients (Asterisk c)) 0 0 0 false 0 0
    (as_MaxRetries (Asterisk c)) (GetAsteriskRetryDelay c)
    (as_EnableHAProxy (Asterisk c)) (as_OriginalAddresses (Asterisk c)).

Definition GetWebSocketReadTimeout (c : Config) : Duration :=
  duration_of (ReadTimeoutMS (WebSocket c)) Millisecond.
Definition GetWebSocketWriteTimeout (c : Config) : Duration :=
  duration_of (WriteTimeoutMS (WebSocket c)) Millisecond.
Definition GetWebSocketIdleTimeout (c : Config) : Duration :=
  duration_of (IdleTimeoutMS (WebSocket c)) Millisecond.
Definition GetHeartbeatInterval (c : Config) : Duration :=
  duration_of (HeartbeatInterval (HighAvailability c)) Millisecond.
Definition GetLeaseTimeout (c : Config) : Duration :=
  duration_of (LeaseTimeout (HighAvailability c)) Millisecond.

Example parse_duration_hour_and_a_half : ParseDuration "1.5h" = Some (90 * Minute).
Proof. by vm_compute. Qed.
Example parse_duration_negative : ParseDuration "-1m0.3s" = Some (-60300 * Millisecond).
Proof. by vm_compute. Qed.
Example parse_duration_no_unit : ParseDuration "5" = None.
Proof. by vm_compute. Qed.

(** ** What loading gives *)

Definition services (t : ServiceTestConfig) : bool :=
  EnableWebSocket t || EnableSIP t || EnableRTP t || EnableAMI t.

(** A configuration the program can run on: every setting that has a default is
    usable, some output is configured, and testing mode has a service. *)
Record well_formed (c : Config) : Prop := {
  wf_level : LogLevel c ≠ "";
  wf_wait : 0 < ShutdownWaitSeconds c;
  wf_directory : Directory (Logging c) ≠ "";
  wf_logs : 0 < MaxSize (Logging c) ∧ 0 < MaxBackups (Logging c) ∧ 0 < MaxAge (Logging c);
  wf_output : UseConsole (Logging c) = true ∨ LogFile (Logging c) ≠ "";
  wf_memory : 0 < MaxKeys (MemoryStorage c) ∧ 0 < CleanupIntervalSeconds (MemoryStorage c) ∧
              0 < ShardCount (MemoryStorage c);
  wf_sip : 0 < MaxForwards (SIP c) ∧ UserAgent (SIP c) ≠ "";
  wf_websocket : 0 < ws_MaxConnections (WebSocket c) ∧ 0 < ReadTimeoutMS (WebSocket c) ∧
                 0 < WriteTimeoutMS (WebSocket c) ∧ 0 < IdleTimeoutMS (WebSocket c) ∧
                 ws_ServerName (WebSocket c) ≠ "";
  wf_ha : 0 < HeartbeatInterval (HighAvailability c) ∧ 0 < LeaseTimeout (HighAvailability c);
  wf_testing : tm_Enabled (TestingMode c) = true → services (TestingMode c) = true }.

Lemma or_default_pos d v : 0 < d → 0 < or_default d v.
Proof. intros Hd. unfold or_default. case_match; lia. Qed.
Lemma or_default_id d v : 0 < v → or_default d v = v.
Proof. intros Hv. unfold or_default. case_match; lia. Qed.
Lemma or_string_nonempty d v : d ≠ "" → or_string d v ≠ "".
Proof. intros Hd. unfold or_string. by case_decide. Qed.
Lemma or_string_id d v : v ≠ "" → or_string d v = v.
Proof. intros Hv. unfold or_string. by case_decide. Qed.

Create HintDb config.
#[export] Hint Resolve or_default_pos or_string_nonempty : config.
#[export] Hint Extern 1 (0 < _) => lia : config.
#[export] Hint Extern 1 (_ ≠ _) => discriminate : config.

Lemma testing_defaults_services t :
  tm_Enabled (testing_defaults t) = true → services (testing_defaults t) = true.
Proof. by destruct t as [[] [] [] [] [] ? ? ?]. Qed.
Lemma testing_defaults_id t :
  (tm_Enabled t = true → services t = true) → testing_defaults t = t.
Proof.
  destruct t as [[] [] [] [] [] ? ? ?]; try done. intros H.
  specialize (H eq_refl). discriminate.
Qed.

Lemma logging_defaults_output l :
  UseConsole (logging_defaults l) = true ∨ LogFile (logging_defaults l) ≠ "".
Proof.
  destruct l as [[] j f ? ? ? ? ? ?]; simpl; [by left|]. case_bool_decide; [by left|by right].
Qed.
Lemma logging_defaults_id l :
  UseConsole l = true ∨ LogFile l ≠ "" → Directory l ≠ "" →
  0 < MaxSize l ∧ 0 < MaxBackups l ∧ 0 < MaxAge l → logging_defaults l = l.
Proof.
  destruct l as [con j f ? ? ? ? ? ?]; simpl. intros Hout Hd (?&?&?).
  rewrite or_string_id, !or_default_id by done. f_equal.
  destruct con; [done|]. destruct Hout as [|Hf]; [done|]. by rewrite bool_decide_false.
Qed.

Lemma set_defaults_wf c : well_formed (set_defaults c).
Proof.
  destruct c as [lv lg wt rd mem rtp ast sip ws met ha tm].
  split; simpl; try (by auto with config).
  - destruct lg; simpl. auto with config.
  - destruct lg; simpl. auto with config.
  - apply logging_defaults_output.
  - destruct mem; simpl. auto with config.
  - destruct sip; simpl. auto with config.
  - destruct ws; simpl. auto 6 with config.
  - destruct ha; simpl. auto with config.
  - apply testing_defaults_services.
Qed.

Lemma set_defaults_id c : well_formed c → set_defaults c = c.
Proof.
  intros [H1 H2 H3 H4 H5 H6 H7 H8 H9 H10].
  destruct c as [lv lg wt rd mem rtp ast sip ws met ha tm]; simpl in *.
  rewrite or_string_id, or_default_id, logging_defaults_id, testing_defaults_id by done.
  destruct mem, sip, ws, ha; simpl in *. destruct_and!.
  by rewrite !or_default_id, !or_string_id by done.
Qed.

(** C30. Loading fails exactly when the file cannot be read or its text is not the
    document; otherwise the configuration is well formed - every setting that
    has a default is usable, there is an output for the log, testing mode has a
    service - and a document that already is well formed is taken as it stands. *)
Theorem load_config_well_formed (ReadFile : string → result string string)
    (Unmarshal : string → result string Config) (path : string) :
  match ReadFile path with
  | Err e => LoadConfig ReadFile Unmarshal path = Err ("failed to read config file: " +:+ e)
  | Ok data =>
      match Unmarshal data with
      | Err e => LoadConfig ReadFile Unmarshal path = Err ("failed to parse config file: " +:+ e)
      | Ok doc => ∃ c, LoadConfig ReadFile Unmarshal path = Ok c ∧ well_formed c ∧
                       (well_formed doc → c = doc)
      end
  end.
Proof.
  unfold LoadConfig. destruct (ReadFile path) as [data|e]; [|done].
  destruct (Unmarshal data) as [doc|e]; [|done]. exists (set_defaults doc).
  split; [done|]. split; [apply set_defaults_wf|apply set_defaults_id].
Qed.

(** ** Durations *)

Lemma duration_of_exact n unit : is_int64 (n * unit) → duration_of n unit = n * unit.
Proof. apply int64_wrap_small. Qed.

(** The largest number of milliseconds, and of seconds, that a duration holds. *)
Definition max_ms : Z := max_int64 / Millisecond.
Definition max_s : Z := max_int64 / Second.

Lemma duration_of_ms n : 0 < n <= max_ms → duration_of n Millisecond = n * Millisecond.
Proof.
  intros Hn. apply duration_of_exact. unfold is_int64, max_ms, Millisecond, min_int64, max_int64 in *.
  change ((2 ^ 63 - 1) / 1000000) with 9223372036854 in Hn. lia.
Qed.

Lemma duration_of_s n : 0 < n <= max_s → duration_of n Second = n * Second.
Proof.
  intros Hn. apply duration_of_exact. unfold is_int64, max_s, Second, min_int64, max_int64 in *.
  change ((2 ^ 63 - 1) / 1000000000) with 9223372036 in Hn. lia.
Qed.

(** The number that a list of digits writes, and its text. *)
Definition value (ds : list Z) : Z := foldl (λ x d, x * 10 + d) 0 ds.
Definition digit_char (d : Z) : ascii := ascii_of_N (Z.to_N (d + 48)).
Definition text (ds : list Z) : list ascii := digit_char <$> ds.
Definition is_decimal (ds : list Z) : Prop := Forall (λ d, 0 <= d <= 9) ds.

Lemma digit_char_cases d : 0 <= d <= 9 →
  is_digit (digit_char d) = true ∧ digit (digit_char d) = d.
Proof.
  intros Hd. assert (d = 0 ∨ d = 1 ∨ d = 2 ∨ d = 3 ∨ d = 4 ∨ d = 5 ∨ d = 6 ∨ d = 7 ∨ d = 8 ∨ d = 9)
    as Hc by lia.
  by repeat (destruct Hc as [->|Hc]; [done|]); subst d.
Qed.

Lemma value_grows ds x : is_decimal ds → 0 <= x → x <= foldl (λ x d, x * 10 + d) x ds.
Proof.
  intros Hds. revert x. induction Hds as [|d ds Hd _ IH]; intros x Hx; simpl; [lia|].
  specialize (IH (x * 10 + d)). lia.
Qed.

Lemma leadingInt_text ds x rest :
  is_decimal ds → 0 <= x → foldl (λ x d, x * 10 + d) x ds <= 2 ^ 63 →
  (∀ a r, rest = a :: r → is_digit a = false) →
  leadingInt x (text ds ++ rest) = Some (foldl (λ x d, x * 10 + d) x ds, rest).
Proof.
  intros Hds. revert x. induction Hds as [|d ds Hd Hds IH]; intros x Hx Hb Hr; simpl.
  - destruct rest as [|a r]; [done|]. simpl. by rewrite (Hr a r).
  - destruct (digit_char_cases d Hd) as [Hisd Hval]. rewrite Hisd. simpl.
    pose proof (value_grows ds (x * 10 + d) Hds ltac:(lia)) as Hg. simpl in Hb.
    rewrite (proj2 (Z.ltb_ge _ _)).
    2:{ apply Z.div_le_lower_bound; lia. }
    rewrite Hval, (proj2 (Z.ltb_ge _ _)) by lia. apply IH; [lia|done|done].
Qed.

(** An item that is read leaves less text, so the fuel of [ParseDuration] never
    runs out. *)
Lemma leadingInt_length x s y r : leadingInt x s = Some (y, r) → (length r <= length s)%nat.
Proof.
  revert x. induction s as [|a s IH]; intros x H; simpl in H; [by simplify_eq|].
  destruct (negb _); [by simplify_eq|]. destruct (_ <? x); [done|]. destruct (_ <? _); [done|].
  apply IH in H. simpl. lia.
Qed.
Lemma leadingFraction_length s : ∀ x c o, (length (leadingFraction x c o s).2 <= length s)%nat.
Proof.
  induction s as [|a s IH]; intros x c o; simpl; [done|].
  repeat case_match; simpl; try done; (etrans; [apply IH|lia]).
Qed.
Lemma unit_name_length s : length s = (length (unit_name s).1 + length (unit_name s).2)%nat.
Proof.
  induction s as [|a s IH]; simpl; [done|]. case_match; [done|].
  destruct (unit_name s). simpl in *. lia.
Qed.

Lemma duration_item_shorter s v r :
  duration_item s = Some (v, r) → (length r < length s)%nat.
Proof.
  unfold duration_item. intros H. apply bind_Some in H as [[v1 s1] [H1 H]].
  apply leadingInt_length in H1.
  match type of H with (let '(_, _) := ?X in _) = _ =>
    assert (length X.2 <= length s1)%nat as H2; [|destruct X as [[[f sc] post] s2]] end.
  { destruct s1 as [|[[] [] [] [] [] [] [] []] s']; simpl; try lia.
    pose proof (leadingFraction_length s' 0 1 false).
    destruct (leadingFraction 0 1 false s') as [[f sc] r']. simpl in *. lia. }
  simpl in H2. case_match; [done|]. pose proof (unit_name_length s2) as Hu.
  destruct (unit_name s2) as [u s3]. simpl in *. apply bind_Some in H as [unit [Hun H]].
  repeat case_match; simplify_eq; (destruct u; [done|simpl in *; lia]).
Qed.

Lemma duration_items_fuel n m d s :
  (length s <= n)%nat → (length s <= m)%nat → duration_items n d s = duration_items m d s.
Proof.
  revert m d s. induction n as [|n IH]; intros [|m] d [|a s] Hn Hm; simpl in *; try done; try lia.
  destruct (duration_item (a :: s)) as [[v r]|] eqn:Hi; simpl; [|done].
  apply duration_item_shorter in Hi. simpl in Hi. destruct (_ <? _); [done|].
  apply IH; lia.
Qed.

Lemma duration_item_text ds unit :
  is_decimal ds → ds ≠ [] → value ds * unit <= max_int64 →
  ∀ u, unitMap u = Some unit → unit_name u = (u, []) → (∀ a r, u = a :: r → is_digit a = false) →
  0 < unit →
  duration_item (text ds ++ u) = Some (value ds * unit, []).
Proof.
  intros Hds Hne Hv u Hu Hname Hdig Hpos.
  pose proof (value_grows ds 0 Hds ltac:(lia)) as Hge. fold (value ds) in Hge.
  unfold duration_item. unfold max_int64 in Hv.
  rewrite leadingInt_text; [|done|lia|fold (value ds); nia|done]. simpl. fold (value ds).
  assert (match u with "."%char :: s' => let '(f, scale, r) := leadingFraction 0 1 false s' in
      (f, scale, negb (length r =? length s')%nat, r) | _ => (0, 1, false, u) end
    = (0, 1, false, u)) as ->.
  { destruct u as [|[[] [] [] [] [] [] [] []] u]; done. }
  assert ((length u =? length (text ds ++ u)) = false)%nat as ->.
  { apply Nat.eqb_neq. rewrite length_app. destruct ds; [done|]. simpl. lia. }
  simpl. rewrite Hname, Hu. simpl. rewrite (proj2 (Z.ltb_ge _ _)).
  2:{ apply Z.div_le_lower_bound; lia. }
  rewrite Z.add_0_r, (proj2 (Z.ltb_ge _ _)) by lia. done.
Qed.

(** The units of whole numbers, as they are written. *)
Inductive plain_unit : string → Z → Prop :=
| unit_ms : plain_unit "ms" Millisecond
| unit_s : plain_unit "s" Second
| unit_m : plain_unit "m" Minute
| unit_h : plain_unit "h" Hour.

Lemma ParseDuration_number (ds : list Z) (u : string) (unit : Z) :
  is_decimal ds → ds ≠ [] → plain_unit u unit → value ds * unit <= max_int64 →
  ParseDuration (String.string_of_list_ascii (text ds) +:+ u) = Some (value ds * unit).
Proof.
  intros Hds Hne Hu Hv.
  assert (∀ s, String.list_ascii_of_string (String.string_of_list_ascii (text ds) +:+ s) =
    text ds ++ String.list_ascii_of_string s) as Htext.
  { intros s. clear. induction (text ds) as [|a l IH]; simpl; [done|]. by rewrite IH. }
  unfold ParseDuration. rewrite Htext. set (l := String.list_ascii_of_string u).
  assert (unitMap l = Some unit ∧ unit_name l = (l, []) ∧ 0 < unit ∧
    (∀ a r, l = a :: r → is_digit a = false)) as (Hm & Hn & Hp & Hl).
  { unfold l. destruct Hu; (repeat split); by intros a r [= <- <-]. }
  pose proof (duration_item_text ds unit Hds Hne Hv l Hm Hn Hl Hp) as Hitem.
  destruct ds as [|d ds]; [done|]. pose proof (Forall_inv Hds) as Hd. simpl in Hd.
  destruct (digit_char_cases d Hd) as [Hdig _].
  assert (unsigned_duration false (text (d :: ds) ++ l) = Some (value (d :: ds) * unit)) as Hun.
  { unfold unsigned_duration. rewrite decide_False.
    2:{ simpl. intros [= _ Hnil]. apply app_nil in Hnil as [_ Hnil]. by rewrite Hnil in Hm. }
    rewrite decide_False by done. pose proof (value_grows (d :: ds) 0 Hds ltac:(lia)) as Hge.
    fold (value (d :: ds)) in Hge. unfold max_int64 in Hv.
    cbn [length text fmap list_fmap app] in *. unfold text in Hitem. simpl in Hitem.
    cbn [duration_items]. rewrite Hitem. simpl. rewrite Z.mod_small by nia.
    rewrite (proj2 (Z.ltb_ge _ _)) by lia. destruct (length _); simpl;
    by rewrite (proj2 (Z.ltb_ge _ _)) by lia. }
  rewrite <-Hun. simpl. destruct (digit_char d) as [[] [] [] [] [] [] [] []]; done.
Qed.

(** ** Settings that reach the components *)

Lemma duration_or_default n unit d bound :
  0 < unit → bound * unit <= max_int64 → - bound <= n <= bound →
  (if duration_of n unit <=? 0 then d else duration_of n unit) =
  (if n <=? 0 then d else n * unit).
Proof.
  intros Hu Hb Hn. unfold max_int64 in Hb. rewrite duration_of_exact by (unfold is_int64, min_int64, max_int64; nia).
  destruct (Z.leb_spec n 0), (Z.leb_spec (n * unit) 0); try done; nia.
Qed.

(** The settings of an engine that its types can hold. *)
Record engine_in_range (eng : RTPEngineInstanceConfig) : Prop := {
  er_timeout : - max_ms <= eng_TimeoutMS eng <= max_ms;
  er_reset : - max_s <= ResetSeconds (eng_CircuitBreaker eng) <= max_s;
  er_threshold : is_int32 (FailureThreshold (eng_CircuitBreaker eng));
  er_half_open : is_int32 (HalfOpenMax (eng_CircuitBreaker eng)) }.

(** The settings of an engine in the document are those of the engine that
    runs: the manager's list has one entry per engine, in order, and the client
    made of an entry has the document's timeout and its breaker the document's
    threshold, reset time and half-open quota, each replaced by its default only
    when the document has it at zero or below. *)
Theorem engine_settings_reach_client (c : Config) (i : nat) (eng : RTPEngineInstanceConfig)
    (now : Time)
    (Heng : Engines (RTPEngine c) !! i = Some eng) (Hr : engine_in_range eng) :
  let b := eng_CircuitBreaker eng in
  ∃ ec e, rm_Engines (ToRTPEngineManagerConfig c) !! i = Some ec ∧
    RTPEngine.New true ec now = Some e ∧
    RTPEngine.address e = eng_Address eng ∧ RTPEngine.port e = eng_Port eng ∧
    RTPEngine.timeout e =
      (if eng_TimeoutMS eng <=? 0 then 500 * Millisecond else eng_TimeoutMS eng * Millisecond) ∧
    cb_failureThreshold (RTPEngine.circuitBreaker e) = or_default 5 (FailureThreshold b) ∧
    cb_resetTimeout (RTPEngine.circuitBreaker e) =
      (if ResetSeconds b <=? 0 then 30 * Second else ResetSeconds b * Second) ∧
    cb_halfOpenMaxReqs (RTPEngine.circuitBreaker e) = or_default 3 (HalfOpenMax b).
Proof.
  destruct Hr as [Ht Hs Hf Hh]. eexists (rtp_engine_config eng), _.
  split; [simpl; by rewrite list_lookup_fmap, Heng|]. split; [done|]. simpl.
  do 2 (split; [done|]). unfold rtp_engine_config, breaker_config, NewCircuitBreaker. simpl.
  rewrite (duration_or_default (eng_TimeoutMS eng) _ _ max_ms) by (done || by vm_compute).
  rewrite (duration_or_default (ResetSeconds _) _ _ max_s) by (done || by vm_compute).
  by rewrite !int32_wrap_small by done.
Qed.

Definition sample_engine : RTPEngineInstanceConfig :=
  mkRTPEngineInstanceConfig "10.0.0.5" 22222 750 1 (mkBreakerSettings 3 0 2).
Definition empty_document : Config :=
  mkConfig "" (mkLogConfig false false "" "" 0 0 0 false false) 0
    (mkRedisConfig false [] "" 0 0 0 0) (mkMemoryConfig 0 0 "" false 0)
    (mkRTPEngineConfig []) (mkAsteriskConfig [] 0 0 0 false 0 0 0 "" false [])
    (mkSIPConfig "" "" "" 0 "" false false false [])
    (mkWebSocketConfig "" "" "" 0 0 0 0 false "" [] 0 false false false false false false)
    (mkMetricsConfig false "") (mkHAConfig false 0 0 "")
    (mkServiceTestConfig false false false false false false false 0).
Definition set_engines (es : list RTPEngineInstanceConfig) (c : Config) : Config :=
  let '(mkConfig lv lg wt rd mem _ ast sip ws met ha tm) := c in
  mkConfig lv lg wt rd mem (mkRTPEngineConfig es) ast sip ws met ha tm.

Lemma engine_settings_reach_client_witness :
  ∃ ec e, rm_Engines (ToRTPEngineManagerConfig (set_engines [sample_engine] empty_document)) !! 0%nat
      = Some ec ∧ RTPEngine.New true ec zero_time = Some e ∧
    RTPEngine.timeout e = 750 * Millisecond ∧
    cb_resetTimeout (RTPEngine.circuitBreaker e) = 30 * Second.
Proof.
  destruct (engine_settings_reach_client (set_engines [sample_engine] empty_document) 0 sample_engine
    zero_time eq_refl) as (ec&e&H1&H2&_&_&H3&_&H4&_).
  - split; vm_compute; split; discriminate.
  - exists ec, e. split; [exact H1|]. split; [exact H2|]. split; [exact H3|exact H4].
Defined.

(** Without the bound, a timeout of the document may come out negative, and the
    engine then has the default. *)
Example timeout_overflows :
  duration_of 9223372036855 Millisecond = - 9223372036854551616.
Proof. by vm_compute. Qed.

(** A retry delay written as a whole number and a unit is that delay, as long
    as an int64 of nanoseconds holds it; a text that is not a duration gives five
    seconds. Reading a duration never runs short of fuel: the number of items is
    at most the length of the text. *)
Theorem retry_delay_read (c : Config) :
  (∀ ds u unit, is_decimal ds → ds ≠ [] → plain_unit u unit → value ds * unit <= max_int64 →
     as_RetryDelay (Asterisk c) = String.string_of_list_ascii (text ds) +:+ u →
     GetAsteriskRetryDelay c = value ds * unit) ∧
  (ParseDuration (as_RetryDelay (Asterisk c)) = None → GetAsteriskRetryDelay c = 5 * Second) ∧
  (∀ n d s, (length s <= n)%nat → duration_items n d s = duration_items (length s) d s).
Proof.
  split; [|split].
  - intros ds u unit Hds Hne Hu Hv E. unfold GetAsteriskRetryDelay. by rewrite E, (ParseDuration_number ds u unit).
  - intros E. unfold GetAsteriskRetryDelay. by rewrite E.
  - intros n d s Hn. by apply duration_items_fuel.
Qed.

Definition set_retry_delay (t : string) (c : Config) : Config :=
  let '(mkConfig lv lg wt rd mem rtp ast sip ws met ha tm) := c in
  let '(mkAsteriskConfig a b c d e f g h _ j k) := ast in
  mkConfig lv lg wt rd mem rtp (mkAsteriskConfig a b c d e f g h t j k) sip ws met ha tm.

Lemma retry_delay_read_witness :
  GetAsteriskRetryDelay (set_retry_delay "250ms" empty_document) = 250 * Millisecond.
Proof.
  apply (proj1 (retry_delay_read (set_retry_delay "250ms" empty_document)) [2; 5; 0] "ms").
  - repeat constructor; lia.
  - discriminate.
  - constructor.
  - by vm_compute.
  - reflexivity.
Defined.
