(* ===== verification/Status.v ===== *)
(** * api/status.go, and what the WebSocket server tells of itself

    The endpoints [/status] and [/health] of pkg/api, the health endpoint of
    websocket/server.go with its check of the storage, the record a server
    leaves in the storage every ten seconds, and the messages a server sends to
    one client. The encoding of the answers as JSON is left to encoding/json. *)

From stdpp Require Import pretty gmap.
From S2P Require Import Prelude KVStore Storage Coordinator WebSocket Health.

(** ** /status *)

(** An [interface{}]: the value with its dynamic type. *)
Inductive any : Type :=
| AComponent (h : ComponentHealth)          (* *health.ComponentHealth *)
| AStats (s : StorageStats)                 (* *storage.StorageStats *)
| AMap (m : gmap string jval).              (* map[string]interface{} *)

(** [v.(map[string]interface{})]. *)
Definition assert_map (v : any) : outcome (gmap string jval) :=
  match v with AMap m => Done m | _ => Panic TypeAssertion end.

(** A pointer to a component is all the handler keeps of it; the health monitor,
    the coordinator and the storage it reads. *)
Record StatusHandler : Type := mkStatusHandler {
  amiManager : bool; rtpManager : bool; wsServer : bool;
  coordinator : option Coordinator; healthMonitor : option HealthMonitor;
  storage : option World; nodeID : string; version : string; startTime : Time }.

Record SystemStatus : Type := mkSystemStatus {
  st_Status : string; st_NodeID : string; st_Hostname : string; st_Version : string;
  st_UpTimeSeconds : Z; st_Timestamp : Time; st_IsLeader : bool;
  st_Components : gmap string any; st_AMI : option any; st_RTPEngine : option any;
  st_WebSocket : option any; st_Storage : option any;
  st_FailoverEvents : option (list any); st_ActiveConnections : Z }.

(** The loop over the components, in an order of the map. *)
Fixpoint overall_status (cs : list any) : outcome string :=
  match cs with
  | [] => Done "healthy"
  | v :: cs =>
      m ← assert_map v;
      if bool_decide (m !! "status" = Some (JStr "unhealthy")) then Done "unhealthy"
      else overall_status cs
  end.

Definition requested (component name : string) : bool :=
  bool_decide (component = "") || bool_decide (component = name).

(** [hostname] is [os.Hostname()], with the empty name for an error; the times
    are those of the leadership test, the two of the up time's calls and the
    time stamp. The statistics of the in-memory storage come without an error. *)
Definition getStatus (hostname : string) (order : gmap string any → list any)
    (t_up t_now t_leader : Time) (requestedComponent : string) (h : StatusHandler)
    : outcome SystemStatus :=
  let componentHealth : gmap string any :=
    match healthMonitor h with
    | Some mon => AComponent <$> GetAllComponentHealth mon
    | None => ∅
    end in
  status ← overall_status (order componentHealth);
  mret {|
    st_Status := status; st_NodeID := nodeID h; st_Hostname := hostname;
    st_Version := version h; st_UpTimeSeconds := Seconds (Since t_up (startTime h));
    st_Timestamp := t_now;
    st_IsLeader := match coordinator h with
                   | Some c => IsLeader t_leader None c
                   | None => false
                   end;
    st_Components := componentHealth;
    st_AMI := if requested requestedComponent "ami" && amiManager h
              then Some (AMap {[ "status" := JStr "OK"; "clients_connected" := JBool true ]})
              else None;
    st_RTPEngine := if requested requestedComponent "rtpengine" && rtpManager h
                    then Some (AMap {[ "status" := JStr "OK"; "active_calls" := JNum 0 ]})
                    else None;
    st_WebSocket := if requested requestedComponent "websocket" && wsServer h
                    then Some (AMap {[ "status" := JStr "OK"; "connections" := JNum 0 ]})
                    else None;
    st_Storage := if requested requestedComponent "storage"
                  then AStats <$> (stats ∘ w_mem <$> storage h) else None;
    st_FailoverEvents := (λ _, []) <$> storage h;
    st_ActiveConnections := 0 |}.

Definition StatusOK : Z := 200.
Definition StatusServiceUnavailable : Z := 503.
Definition StatusInternalServerError : Z := 500.

Section Serve.
Context (hostname : string) (order : gmap string any → list any).

(** The code and the value encoded. *)
Definition ServeHTTP (t_up t_now t_leader : Time) (component : string) (h : StatusHandler)
    : outcome (Z * SystemStatus) :=
  status ← getStatus hostname order t_up t_now t_leader component h;
  mret (if decide (st_Status status = "healthy") then StatusOK else StatusServiceUnavailable, status).

(** The handler of [/health] of [RegisterStatusEndpoints]. *)
Definition health_endpoint (t_up t_now t_leader : Time) (h : StatusHandler) : outcome (Z * string) :=
  status ← getStatus hostname order t_up t_now t_leader "" h;
  mret (if decide (st_Status status = "healthy") then (StatusOK, "OK")
        else (StatusServiceUnavailable, "Service Unavailable")).
End Serve.

(** The patterns of a [http.ServeMux]; registering one twice panics. *)
Definition HandleFunc (pattern : string) : GoM (list string) unit :=
  mux ← get_state;
  if decide (pattern ∈ mux) then lift (Panic DuplicatePattern) else put_state (pattern :: mux).
Definition RegisterStatusEndpoints : GoM (list string) unit :=
  HandleFunc "/status";; HandleFunc "/health".
(** What [Start] of the WebSocket server registers. *)
Definition register_handlers (UseInternalHealthHandler : bool) : GoM (list string) unit :=
  HandleFunc "/";; if UseInternalHealthHandler then HandleFunc "/health" else mret tt.

(** ** The health endpoint of the WebSocket server *)

Definition test_value (now : Time) : bytes := Raw ("test_" +:+ pretty (UnixNano now)).

(** The times are those of the value, of [Set] and of [Get]. *)
Definition checkStorageHealth (has_storage : bool) (t t_set t_get : Time) : GoM World bool :=
  if negb has_storage then mret false
  else
    r ← Set_ "health_check_test" (Some (test_value t)) (5 * Second) t_set;
    if negb (is_ok r) then mret false
    else
      r ← Get "health_check_test" t_get;
      mret (is_ok r).

Record ClientStats : Type := mkClientStats {
  cs_active : Z; cs_total_since_start : Z; cs_registrations : Z }.

(** Nothing counts the connections since the start: the field stays at 0. *)
Definition getClientStats (totalConnections : Z) (cs : list ClientConnection) : ClientStats :=
  mkClientStats (Z.of_nat (length cs)) totalConnections
    (Z.of_nat (length (filter (λ c, SIPAddress c ≠ "") cs))).

Definition getHealthReason (backendsHealthy storageHealthy : bool) : string :=
  let reasons := (if negb backendsHealthy then ["no healthy backends available"] else []) ++
                 (if negb storageHealthy then ["storage not healthy"] else []) in
  match reasons with
  | [] => "all systems operational"
  | _ => String.concat ", " reasons
  end.

Record HealthResponse : Type := mkHealthResponse {
  hr_status : string; hr_connections : Z; hr_backends : gmap string (bool * Time);
  hr_storage_healthy : bool; hr_uptime_seconds : Z; hr_client_stats : ClientStats;
  hr_is_leader : bool; hr_reason : string }.

(** The clients of [s.connections]. *)
Definition connected_clients (s : sys) : list ClientConnection :=
  omap (λ id, clients s !! id) (elements (connections (shared s))).

Definition handleHealthCheck (isLeader : bool) (startTime t : Time) (t_set t_get t_checked t_up : Time)
    (s : sys) : outcome (Z * HealthResponse) * sys :=
  let allBackendsHealthy := HasHealthyBackends (shared s) in
  match checkStorageHealth true t t_set t_get (store (shared s)) with
  | (Done storageHealthy, w) =>
      let s := mkSys (on_store (put_state w) (shared s)) (clients s) (threads s) (dead s) in
      let response := {|
        hr_status := if allBackendsHealthy then "healthy" else "unhealthy";
        hr_connections := Z.of_nat (size (connections (shared s)));
        hr_backends := (λ healthy, (healthy, t_checked)) <$> backendHealth (shared s);
        hr_storage_healthy := storageHealthy;
        hr_uptime_seconds := Seconds (Since t_up startTime);
        hr_client_stats := getClientStats 0 (connected_clients s);
        hr_is_leader := isLeader;
        hr_reason := getHealthReason allBackendsHealthy storageHealthy |} in
      (Done (if allBackendsHealthy then StatusOK else StatusServiceUnavailable, response), s)
  | (Panic p, w) => (Panic p, mkSys (on_store (put_state w) (shared s)) (clients s) (threads s) (dead s))
  | (Deadlock, w) => (Deadlock, mkSys (on_store (put_state w) (shared s)) (clients s) (threads s) (dead s))
  end.

(** A tick of [StartHealthMonitoring]. *)
Definition health_record (addr : string) (connections : Z) (now : Time) : gmap string jval :=
  {[ "addr" := JStr addr; "connections" := JNum connections; "timestamp" := JNum (Unix now);
     "status" := JStr "healthy" ]}.
Definition health_monitor_tick (addr hostname : string) (now t_set : Time) (s : Shared) : Shared :=
  on_store (Set_ ("ws-health:" +:+ hostname)
    (Some (Json (health_record addr (Z.of_nat (size (connections s))) now))) (30 * Second) t_set) s.

(** ** Messages to one client

    [written] says whether the write itself succeeds. Both set a deadline for
    the write and leave it set. *)
Definition write_to_client (d : Duration) (id : string) (now : Time) (written : bool) (s : sys)
    : result string unit * sys :=
  match (if decide (id ∈ connections (shared s)) then clients s !! id else None) with
  | None => (Err ("client not found: " +:+ id), s)
  | Some c =>
      if closed c then (Err "connection closed", s)
      else (if written then Ok tt else Err "write",
            mkSys (shared s) (<[id := set_deadline (Add now d) c]> (clients s)) (threads s) (dead s))
  end.
Definition SendMessage : string → Time → bool → sys → result string unit * sys :=
  write_to_client (10 * Second).
Definition RedirectClient : string → Time → bool → sys → result string unit * sys :=
  write_to_client (5 * Second).

(** ** Facts *)

Lemma overall_status_component c cs : overall_status (AComponent c :: cs) = Panic TypeAssertion.
Proof. done. Qed.

(** An order in which a range can visit a map. *)
Definition range_order {A} (order : gmap string A → list A) : Prop :=
  ∀ m, order m ≡ₚ (map_to_list m).*2.

Lemma range_order_empty {A} (order : gmap string A → list A) : range_order order → order ∅ = [].
Proof. intros H. specialize (H ∅). rewrite map_to_list_empty in H. by apply Permutation_nil_r in H. Qed.

(** A range over components visits a component first. *)
Lemma range_order_components order (m : gmap string ComponentHealth) :
  range_order order → m ≠ ∅ → ∃ c cs, order (AComponent <$> m) = AComponent c :: cs.
Proof.
  intros Ho Hm. destruct (order (AComponent <$> m)) as [|v vs] eqn:E.
  - exfalso. apply Hm. pose proof (Ho (AComponent <$> m)) as Hp. rewrite E in Hp.
    apply Permutation_nil_l in Hp. rewrite map_to_list_fmap in Hp.
    destruct (map_to_list m) as [|x l] eqn:Hl; [by apply map_to_list_empty_iff in Hl|discriminate Hp].
  - assert (v ∈ (map_to_list (AComponent <$> m)).*2) as Hv.
    { rewrite <-(Ho (AComponent <$> m)), E. apply elem_of_cons. by left. }
    rewrite map_to_list_fmap in Hv. apply list_elem_of_fmap in Hv as ([k u]&->&Hu).
    apply list_elem_of_fmap in Hu as ([k' c]&[= -> ->]&_). by exists c, vs.
Qed.

(** What [/status] knows of the health monitor. *)
Definition monitored (h : StatusHandler) : bool :=
  match healthMonitor h with
  | Some mon => negb (bool_decide (componentStatus mon = ∅))
  | None => false
  end.

Lemma getStatus_spec hostname order t_up t_now t_leader component h :
  range_order order →
  if monitored h
  then getStatus hostname order t_up t_now t_leader component h = Panic TypeAssertion
  else ∃ st, getStatus hostname order t_up t_now t_leader component h = Done st ∧
             st_Status st = "healthy".
Proof.
  intros Ho. unfold monitored, getStatus, GetAllComponentHealth.
  destruct (healthMonitor h) as [mon|].
  - case_bool_decide as Hm; simpl.
    + rewrite Hm, fmap_empty, range_order_empty by done. by eexists.
    + destruct (range_order_components order _ Ho Hm) as (c&cs&->). done.
  - rewrite range_order_empty by done. by eexists.
Qed.

(** The status endpoints panic exactly when a health monitor that has checked
    a component is attached: the components are pointers to structs and the
    handler takes them for maps. In every other case the status is healthy and
    the code 200, whatever the gateway's components are doing; no request gets
    another answer. *)
Theorem status_panics_or_healthy (hostname : string) (order : gmap string any → list any)
    (t_up t_now t_leader : Time) (component : string) (h : StatusHandler)
    (Ho : range_order order) :
  if monitored h
  then ServeHTTP hostname order t_up t_now t_leader component h = Panic TypeAssertion ∧
       health_endpoint hostname order t_up t_now t_leader h = Panic TypeAssertion
  else (∃ st, ServeHTTP hostname order t_up t_now t_leader component h = Done (StatusOK, st) ∧
              st_Status st = "healthy") ∧
       health_endpoint hostname order t_up t_now t_leader h = Done (StatusOK, "OK").
Proof.
  pose proof (getStatus_spec hostname order t_up t_now t_leader component h Ho) as H1.
  pose proof (getStatus_spec hostname order t_up t_now t_leader "" h Ho) as H2.
  unfold ServeHTTP, health_endpoint. destruct (monitored h).
  - by rewrite H1, H2.
  - destruct H1 as (st&->&Hs), H2 as (st'&->&Hs'). simpl. rewrite Hs'. split; [|done].
    exists st. by rewrite Hs.
Qed.

(** The check of the storage, on any storage that implements the interface. *)
Lemma checkStorageHealth_spec t t_set t_get w :
  shards_wf w → 0 < t_set → t_get <= t_set + 5 * Second →
  ∃ w', checkStorageHealth true t t_set t_get w = (Done true, w') ∧ shards_wf w' ∧
    ∀ k, mem_view w' k = view_set "health_check_test"
                           (Some (mkKeyValue (test_value t) (expire_at t_set (5 * Second)))) (mem_view w) k.
Proof.
  intros Hw Ht Hle. unfold checkStorageHealth. simpl.
  destruct (@kv_Set_refines World _ mem_KVLaws "health_check_test" (Some (test_value t)) (5 * Second) t_set w Hw)
    as (w1&E1&Hw1&V1). rewrite spec_Set_ok in E1, V1 by done. simpl in E1, V1.
  destruct (@kv_Get_refines World _ mem_KVLaws "health_check_test" t_get w1 Hw1) as (w2&E2&Hw2&V2).
  assert (mem_view w1 "health_check_test" = Some (mkKeyValue (test_value t)
    (expire_at t_set (5 * Second)))) as Hv by (by rewrite V1, view_set_eq).
  assert (spec_Get "health_check_test" t_get (mem_view w1) = (Ok (test_value t), mem_view w1)) as Hg.
  { assert ("health_check_test" ≠ "") as Hk by discriminate.
    rewrite (spec_Get_hit _ _ _ _ Hk Hv); [done|apply expire_at_live; lia]. }
  simpl in E2, V2. rewrite Hg in E2, V2. simpl in E2, V2.
  exists w2. split; [|split; [done|intros k; by rewrite V2, V1]].
  rewrite (bind_Done _ _ _ _ _ E1). simpl. rewrite (bind_Done _ _ _ _ _ E2). done.
Qed.

(** The health endpoint of the WebSocket server answers 200 exactly when one
    backend is healthy: the check of the storage is reported and does not count.
    On a storage that is in order, the check passes; its one effect is the test
    entry, left in the storage for five seconds. *)
Theorem health_page_reports_backends (isLeader : bool) (startTime t t_set t_get t_checked t_up : Time)
    (s : sys) (Hwf : shards_wf (store (shared s))) (Hset : 0 < t_set)
    (Hget : t_get <= t_set + 5 * Second) :
  ∃ r s', handleHealthCheck isLeader startTime t t_set t_get t_checked t_up s
    = (Done (if HasHealthyBackends (shared s) then StatusOK else StatusServiceUnavailable, r), s') ∧
    hr_storage_healthy r = true ∧
    hr_reason r = (if HasHealthyBackends (shared s) then "all systems operational"
                   else "no healthy backends available") ∧
    hr_connections r = Z.of_nat (size (connections (shared s))) ∧
    cs_total_since_start (hr_client_stats r) = 0 ∧
    clients s' = clients s ∧ threads s' = threads s ∧
    backendHealth (shared s') = backendHealth (shared s) ∧
    ∀ k, k ≠ "health_check_test" →
      mem_view (store (shared s')) k = mem_view (store (shared s)) k.
Proof.
  destruct (checkStorageHealth_spec t t_set t_get _ Hwf Hset Hget) as (w'&E&_&V).
  unfold handleHealthCheck. rewrite E. do 2 eexists. split; [done|]. simpl.
  assert (∀ f : Shared → Shared, f = on_store (put_state w') →
    connections (f (shared s)) = connections (shared s) ∧
    backendHealth (f (shared s)) = backendHealth (shared s) ∧ store (f (shared s)) = w') as Hf.
  { intros f ->. by destruct (shared s). }
  destruct (Hf _ eq_refl) as (->&Hb&Hs). rewrite Hb, Hs. split; [done|].
  split; [by destruct (HasHealthyBackends (shared s))|]. do 5 (split; [done|]).
  intros k Hk. by rewrite V, view_set_ne by done.
Qed.

(** A client that is registered and open is left with the deadline of the write,
    whether the write succeeds or not. *)
Lemma write_to_client_deadline d id now written s c :
  id ∈ connections (shared s) → clients s !! id = Some c → closed c = false →
  clients (write_to_client d id now written s).2 !! id = Some (set_deadline (Add now d) c) ∧
  is_ok (write_to_client d id now written s).1 = written.
Proof.
  intros Hid Hc Hcl. unfold write_to_client. rewrite decide_True, Hc, Hcl by done. simpl.
  rewrite lookup_insert_eq. by destruct written.
Qed.

(** The endpoints are registered before the server starts: with its internal
    health handler on as well, the start panics. *)
Lemma endpoints_registered b :
  ((RegisterStatusEndpoints;; register_handlers b) []).1 =
  (if b then Panic DuplicatePattern else Done tt).
Proof. by destruct b; vm_compute. Qed.

(** ** Instances *)

Definition by_map_order {A} (m : gmap string A) : list A := (map_to_list m).*2.

Lemma by_map_order_range A : range_order (by_map_order (A:=A)).
Proof. by intros m. Qed.

Definition quiet_handler (mon : option HealthMonitor) : StatusHandler :=
  mkStatusHandler true true true None mon None "node-1" "dev" 0.
Definition checked_monitor : HealthMonitor :=
  mkMonitor [] 0 false 0 {[ "ami" := mkComponent "ami" StatusUnhealthy 0 "no client" None None ]} ∅ [] [].

Lemma status_panics_or_healthy_witness :
  ServeHTTP "host" by_map_order 90 90 90 "" (quiet_handler (Some checked_monitor))
    = Panic TypeAssertion ∧
  health_endpoint "host" by_map_order 90 90 90 (quiet_handler None) = Done (StatusOK, "OK").
Proof.
  split.
  - exact (proj1 (status_panics_or_healthy "host" by_map_order 90 90 90 ""
      (quiet_handler (Some checked_monitor)) (by_map_order_range _))).
  - exact (proj2 (status_panics_or_healthy "host" by_map_order 90 90 90 ""
      (quiet_handler None) (by_map_order_range _))).
Defined.

(** A server with one backend, and it is down. *)
Definition down_server : sys :=
  mkSys (UpdateBackendHealth "a" false
           (NewServer (mkServerConfig 1 "" ["a"] 0 false) true 1 sample_world)) ∅ [] false.

Lemma health_page_reports_backends_witness :
  ∃ r s', handleHealthCheck false 1 10 10 11 12 13 down_server
    = (Done (StatusServiceUnavailable, r), s') ∧
    hr_storage_healthy r = true ∧ hr_reason r = "no healthy backends available".
Proof.
  destruct (health_page_reports_backends false 1 10 10 11 12 13 down_server) as (r&s'&E&H1&H2&_).
  - apply new_world_inv. by left.
  - lia.
  - vm_compute. discriminate.
  - exists r, s'. split; [exact E|]. split; [exact H1|exact H2].
Defined.
