(* ===== verification/DomainProxy.v ===== *)
(** * websocket/domainproxy.go: rewriting the domains of SIP messages

    The regular expressions of the file in a small engine with the semantics of
    Go's regexp (leftmost match, greedy choices first), [strings.Replace], and
    the rewriting of a message from a client to its backend. A message is a list
    of ASCII characters; a domain has no dollar sign, which a replacement text
    would expand. *)

From Stdlib Require Import Ascii.
From S2P Require Import Prelude WebSocket.

Abbreviation text := (list ascii) (only parsing).
Definition chars : string → text := String.list_ascii_of_string.
Definition unchars : text → string := String.string_of_list_ascii.

(** ** Regular expressions *)

Inductive re : Type :=
| Lit (l : text)
| LitFold (l : text)                         (* under (?i) *)
| Any (f : ascii → bool)                     (* a character class *)
| Many (min : nat) (f : ascii → bool)        (* its greedy repetition, * or + *)
| Seq (a b : re)
| Alt (a b : re)
| Opt (a : re)
| Group (n : nat) (a : re).

Definition lower (a : ascii) : ascii :=
  let n := N_of_ascii a in
  if ((65 <=? n) && (n <=? 90))%N then ascii_of_N (n + 32) else a.

Fixpoint strip (eq : ascii → ascii → bool) (l s : text) : option text :=
  match l, s with
  | [], _ => Some s
  | a :: l, b :: s => if eq a b then strip eq l s else None
  | _ :: _, [] => None
  end.

Definition same (a b : ascii) : bool := bool_decide (a = b).
Definition same_fold (a b : ascii) : bool := bool_decide (lower a = lower b).

(** The length of the longest run of a class. *)
Fixpoint run_length (f : ascii → bool) (s : text) : nat :=
  match s with
  | a :: s => if f a then S (run_length f s) else O
  | [] => O
  end.

Abbreviation captures := (list (nat * text)) (only parsing).

(** The matches at the front of a text, in the order of preference: what the
    groups hold, and what is left. *)
Fixpoint matches (r : re) (s : text) : list (captures * text) :=
  match r with
  | Lit l => match strip same l s with Some s' => [([], s')] | None => [] end
  | LitFold l => match strip same_fold l s with Some s' => [([], s')] | None => [] end
  | Any f => match s with a :: s' => if f a then [([], s')] else [] | [] => [] end
  | Many min f =>
      let k := run_length f s in
      (λ j, ([], drop (k - j) s)) <$> seq 0 (S k - min)
  | Seq a b =>
      m ← matches a s;
      m' ← matches b m.2;
      [(m.1 ++ m'.1, m'.2)]
  | Alt a b => matches a s ++ matches b s
  | Opt a => matches a s ++ [([], s)]
  | Group n a => (λ m, ((n, take (length s - length m.2) s) :: m.1, m.2)) <$> matches a s
  end.

Definition group (n : nat) (caps : captures) : text :=
  match list_find (λ c, c.1 = n) caps with Some (_, c) => c.2 | None => [] end.

(** [FindStringSubmatch], of an expression with and without [^]. *)
Definition find_anchored (r : re) (s : text) : option captures := fst <$> head (matches r s).
Fixpoint find (r : re) (s : text) : option captures :=
  match head (matches r s) with
  | Some m => Some m.1
  | None => match s with _ :: s' => find r s' | [] => None end
  end.

(** Replacement texts, and [ReplaceAllString] of an expression that does not
    match the empty text: each round takes at least one character. *)
Inductive piece : Type := PText (l : text) | PGroup (n : nat).
Definition expand (t : list piece) (caps : captures) : text :=
  t ≫= λ p, match p with PText l => l | PGroup n => group n caps end.

Fixpoint replace_rounds (fuel : nat) (r : re) (t : list piece) (s : text) : text :=
  match fuel with
  | O => s
  | S fuel =>
      match head (matches r s) with
      | Some m => expand t m.1 ++ replace_rounds fuel r t m.2
      | None => match s with a :: s' => a :: replace_rounds fuel r t s' | [] => [] end
      end
  end.
Definition ReplaceAllString (r : re) (t : list piece) (s : text) : text :=
  replace_rounds (length s) r t s.

Definition ReplaceAnchored (r : re) (t : list piece) (s : text) : text :=
  match head (matches r s) with Some m => expand t m.1 ++ m.2 | None => s end.

(** [strings.Replace(s, old, new, -1)] for a text to replace that is not empty. *)
Definition Replace (s old new : text) : text := ReplaceAllString (Lit old) [PText new] s.

(** ** The expressions of the file *)

Definition none_of (cs : text) (a : ascii) : bool := bool_decide (a ∉ cs).
Definition CR : ascii := ascii_of_N 13.
Definition LF : ascii := ascii_of_N 10.
Definition space (a : ascii) : bool :=
  bool_decide (a ∈ [" "%char; ascii_of_N 9; LF; ascii_of_N 12; CR]).
Definition line_char : ascii → bool := none_of [CR; LF].
Definition upper (a : ascii) : bool := let n := N_of_ascii a in ((65 <=? n) && (n <=? 90))%N.
(** [[^A-Za-z0-9._-]] *)
Definition boundary (a : ascii) : bool :=
  let n := N_of_ascii a in
  negb (((65 <=? n) && (n <=? 90)) || ((97 <=? n) && (n <=? 122)) || ((48 <=? n) && (n <=? 57)))%N
  && none_of (chars "._-") a.

Definition fromHeaderRegex : re :=
  Seq (Lit (chars "From:")) (Seq (Many 0 line_char) (Seq (Lit (chars "sip:"))
    (Seq (Group 1 (Many 1 (none_of (chars "@")))) (Seq (Lit (chars "@"))
      (Group 2 (Many 1 (none_of (chars ";>")))))))).
Definition requestURIRegex : re :=
  Seq (Many 1 upper) (Seq (Lit (chars " sip:"))
    (Seq (Group 1 (Many 1 (none_of (chars "@")))) (Seq (Lit (chars "@"))
      (Group 2 (Many 1 (none_of (chars ";: "))))))).

Definition methods : re :=
  foldr (λ m r, Alt (Lit (chars m)) r) (Lit (chars "MESSAGE"))
    ["REGISTER"; "INVITE"; "OPTIONS"; "BYE"; "CANCEL"; "ACK"; "SUBSCRIBE"; "NOTIFY"; "PUBLISH"].
Definition methodRegex (source : text) : re :=
  Seq (Group 1 methods) (Seq (Many 1 space) (Seq (Lit (chars "sip:"))
    (Seq (Opt (Group 2 (Seq (Many 0 (λ a, none_of (chars "@") a && negb (space a))) (Lit (chars "@")))))
      (Seq (Lit source) (Group 3 (Seq (Many 1 space) (Lit (chars "SIP/2.0")))))))).

Definition method_template (target : text) : list piece :=
  [PGroup 1; PText (chars " sip:"); PGroup 2; PText target; PGroup 3].

(** [(?i)(names)([^\r\n]*sip:[^@\r\n]+@)] and the domain. *)
Definition header_uri : re :=
  Seq (Many 0 line_char) (Seq (LitFold (chars "sip:"))
    (Seq (Many 1 (none_of ["@"%char; CR; LF])) (LitFold (chars "@")))).
Definition headerRegex (names : re) (source : text) : re :=
  Seq (Group 1 names) (Seq (Group 2 header_uri) (LitFold source)).
Definition header_template (target : text) : list piece := [PGroup 1; PGroup 2; PText target].

Definition either (a b : string) : re := Alt (LitFold (chars a)) (LitFold (chars b)).
Definition header_names : list re :=
  [either "Contact:" "m:"; either "From:" "f:"; either "To:" "t:";
   LitFold (chars "P-Asserted-Identity:"); LitFold (chars "Route:");
   LitFold (chars "Record-Route:"); LitFold (chars "Path:")].

Definition paramRegex (param : string) (source : text) : re := Seq (Lit (chars param)) (Lit source).
Definition aorRegex (source : text) : re :=
  Seq (Lit (chars "<")) (Seq (Group 1 (Seq (Lit (chars "sip:"))
    (Seq (Many 1 (none_of (chars "@>"))) (Lit (chars "@"))))) (Seq (Lit source) (Lit (chars ">")))).
Definition domainRegex (source : text) : re :=
  Seq (Group 1 (Any boundary)) (Seq (Lit source) (Group 2 (Any boundary))).

(** ** The proxy *)

(** The first line, and the rest with its line end: the first of the pieces of
    [strings.Split(msg, "\r\n")] and the others joined again. *)
Fixpoint cut_line (s : text) : text * text :=
  match s with
  | [] => ([], [])
  | a :: s' => if bool_decide (take 2 s = [CR; LF]) then ([], s)
               else let '(l, r) := cut_line s' in (a :: l, r)
  end.

Definition HasPrefix (s p : text) : bool := bool_decide (is_Some (strip same p s)).
Definition isSipMessage (msg : text) : bool :=
  let firstLine := (cut_line msg).1 in
  existsb (λ p, HasPrefix firstLine (chars p))
    ["REGISTER "; "INVITE "; "OPTIONS "; "BYE "; "CANCEL "; "ACK "].

Definition extractDomainFromSIP (msg : text) : text :=
  match find fromHeaderRegex msg with
  | Some caps => group 2 caps
  | None =>
      match find_anchored requestURIRegex msg with
      | Some caps => group 2 caps
      | None => []
      end
  end.

Definition rewriteSIPDomains (msg source target : text) : text :=
  let '(firstLine, rest) := cut_line msg in
  let msg := ReplaceAnchored (methodRegex source)
               (method_template target) firstLine ++ rest in
  let msg := Replace msg (chars "@" ++ source) (chars "@" ++ target) in
  let msg := Replace msg (chars "sip:" ++ source) (chars "sip:" ++ target) in
  let msg := Replace msg (chars "<sip:" ++ source) (chars "<sip:" ++ target) in
  let msg := Replace msg (chars ";domain=" ++ source) (chars ";domain=" ++ target) in
  let msg := foldl (λ msg names, ReplaceAllString (headerRegex names source) (header_template target) msg)
               msg header_names in
  let msg := ReplaceAllString (paramRegex ";host=" source) [PText (chars ";host="); PText target] msg in
  let msg := ReplaceAllString (paramRegex ";domain=" source) [PText (chars ";domain="); PText target] msg in
  let msg := ReplaceAllString (aorRegex source)
               [PText (chars "<"); PGroup 1; PText target; PText (chars ">")] msg in
  ReplaceAllString (domainRegex source) [PGroup 1; PText target; PGroup 2] msg.

Definition RewriteClientToBackend (mappings : gmap string string) (clientID message : string) : string :=
  let msgStr := chars message in
  if negb (isSipMessage msgStr) then message
  else
    let sourceDomain := extractDomainFromSIP msgStr in
    if decide (sourceDomain = []) then message
    else match mappings !! (clientID +:+ ":" +:+ unchars sourceDomain) with
         | None => message
         | Some targetDomain =>
             unchars (rewriteSIPDomains msgStr sourceDomain (chars targetDomain))
         end.
Definition RewriteBackendToClient (mappings : gmap string string) (clientID message : string) : string :=
  message.

Definition min (a b : Z) : Z := if a <? b then a else b.

(** ** Facts about the engine *)

(** The same text up to the case of ASCII letters. *)
Definition folds (l d : text) : Prop := Forall2 (λ a b, same_fold a b = true) l d.

Lemma folds_refl l : folds l l.
Proof. induction l; constructor; [by apply bool_decide_eq_true_2|done]. Qed.

Lemma strip_some eq l s s' :
  strip eq l s = Some s' → ∃ d, s = d ++ s' ∧ Forall2 (λ a b, eq a b = true) l d.
Proof.
  revert s. induction l as [|a l IH]; intros s H; simpl in H.
  - injection H as ->. by exists [].
  - destruct s as [|b s]; [done|]. destruct (eq a b) eqn:E; [|done].
    destruct (IH s H) as (d&->&Hd). exists (b :: d). split; [done|by constructor].
Qed.

Lemma same_eq l d : Forall2 (λ a b, same a b = true) l d → d = l.
Proof. induction 1 as [|a b l d H _ IH]; [done|]. apply bool_decide_eq_true_1 in H. congruence. Qed.

Lemma matches_Lit l s m : m ∈ matches (Lit l) s → s = l ++ m.2 ∧ m.1 = [].
Proof.
  simpl. destruct (strip same l s) as [s'|] eqn:E; [|by intros ?%elem_of_nil].
  intros ->%list_elem_of_singleton. apply strip_some in E as (d&->&Hd).
  by rewrite (same_eq _ _ Hd).
Qed.

Lemma matches_LitFold l s m :
  m ∈ matches (LitFold l) s → ∃ d, s = d ++ m.2 ∧ folds l d ∧ m.1 = [].
Proof.
  simpl. destruct (strip same_fold l s) as [s'|] eqn:E; [|by intros ?%elem_of_nil].
  intros ->%list_elem_of_singleton. apply strip_some in E as (d&->&Hd). by exists d.
Qed.

Lemma matches_Seq a b s m :
  m ∈ matches (Seq a b) s →
  ∃ m1 m2, m1 ∈ matches a s ∧ m2 ∈ matches b m1.2 ∧ m = (m1.1 ++ m2.1, m2.2).
Proof.
  simpl. intros (m1&H&H1)%list_elem_of_bind. apply list_elem_of_bind in H as (m2&H&H2).
  apply list_elem_of_singleton in H. by exists m1, m2.
Qed.

(** A match takes a front of the text. *)
Lemma matches_consume r : ∀ s m, m ∈ matches r s → ∃ c, s = c ++ m.2.
Proof.
  induction r as [l|l|f|n f|a IHa b IHb|a IHa b IHb|a IHa|n a IHa]; intros s m H.
  - apply matches_Lit in H as [-> _]. by exists l.
  - apply matches_LitFold in H as (d&->&_). by exists d.
  - simpl in H. destruct s as [|x s]; [by apply elem_of_nil in H|].
    destruct (f x); [|by apply elem_of_nil in H]. apply list_elem_of_singleton in H as ->.
    by exists [x].
  - simpl in H. apply list_elem_of_fmap in H as (j&->&_). simpl.
    exists (take (run_length f s - j) s). by rewrite take_drop.
  - apply matches_Seq in H as (m1&m2&H1&H2&->). apply IHa in H1 as [c1 E1].
    apply IHb in H2 as [c2 E2]. exists (c1 ++ c2). simpl. by rewrite <-app_assoc, <-E2.
  - simpl in H. apply elem_of_app in H as [H|H]; eauto.
  - simpl in H. apply elem_of_app in H as [H|H]; [eauto|].
    apply list_elem_of_singleton in H as ->. by exists [].
  - simpl in H. apply list_elem_of_fmap in H as (m1&->&H1). apply (IHa _ _ H1).
Qed.

Lemma matches_Group n a s m :
  m ∈ matches (Group n a) s →
  ∃ m1 c, m1 ∈ matches a s ∧ s = c ++ m.2 ∧ m = ((n, c) :: m1.1, m1.2).
Proof.
  simpl. intros (m1&->&H1)%list_elem_of_fmap. destruct (matches_consume a s m1 H1) as [c E].
  exists m1, c. split; [done|]. simpl. split; [done|]. f_equal. f_equal. f_equal.
  rewrite E at 2. rewrite E at 1. rewrite length_app, Nat.add_sub. apply take_app_length.
Qed.

Fixpoint no_groups (r : re) : bool :=
  match r with
  | Seq a b | Alt a b => no_groups a && no_groups b
  | Opt a => no_groups a
  | Group _ _ => false
  | _ => true
  end.

Lemma no_groups_caps r : no_groups r = true → ∀ s m, m ∈ matches r s → m.1 = [].
Proof.
  induction r as [l|l|f|n f|a IHa b IHb|a IHa b IHb|a IHa|n a IHa]; intros Hr s m H.
  - by apply matches_Lit in H as [_ ->].
  - by apply matches_LitFold in H as (d&_&_&->).
  - simpl in H. destruct s as [|x s]; [by apply elem_of_nil in H|].
    destruct (f x); [|by apply elem_of_nil in H]. by apply list_elem_of_singleton in H as ->.
  - simpl in H. by apply list_elem_of_fmap in H as (j&->&_).
  - simpl in Hr. apply andb_true_iff in Hr as [Ha Hb].
    apply matches_Seq in H as (m1&m2&H1&H2&->). simpl. by rewrite (IHa Ha _ _ H1), (IHb Hb _ _ H2).
  - simpl in Hr. apply andb_true_iff in Hr as [Ha Hb]. simpl in H. apply elem_of_app in H as [H|H]; eauto.
  - simpl in H. apply elem_of_app in H as [H|H]; [eauto|]. by apply list_elem_of_singleton in H as ->.
  - done.
Qed.

(** ** What a rewriting does to a text

    [edits source target s s']: [s'] is [s] with some of the occurrences of the
    source, up to case, replaced by the target, and nothing else changed. *)

Section Edits.
Context (source target : text).

Inductive edits : text → text → Prop :=
| edits_nil : edits [] []
| edits_char a s s' : edits s s' → edits (a :: s) (a :: s')
| edits_domain d s s' : folds source d → edits s s' → edits (d ++ s) (target ++ s').

Lemma edits_same c s s' : edits s s' → edits (c ++ s) (c ++ s').
Proof. intros H. induction c; simpl; [done|by constructor]. Qed.

Lemma edits_refl s : edits s s.
Proof. induction s; by constructor. Qed.

(** A match that is the source in a context, replaced by the target in it. *)
Definition replaces (s : text) (m : captures * text) (t : list piece) : Prop :=
  ∃ pre d post, s = pre ++ d ++ post ++ m.2 ∧ folds source d ∧
                expand t m.1 = pre ++ target ++ post.

Lemma replaces_edits s m t s' : replaces s m t → edits m.2 s' → edits s (expand t m.1 ++ s').
Proof.
  intros (pre&d&post&->&Hd&->) H. rewrite <-!app_assoc.
  apply edits_same. constructor; [done|]. by apply edits_same.
Qed.

Lemma head_elem {A} (l : list A) x : head l = Some x → x ∈ l.
Proof. destruct l; [done|]. intros [= ->]. apply elem_of_cons. by left. Qed.

Lemma ReplaceAllString_edits r t s :
  (∀ s m, m ∈ matches r s → replaces s m t) → edits s (ReplaceAllString r t s).
Proof.
  intros Hr. unfold ReplaceAllString. generalize (length s) as n. intros n. revert s.
  induction n as [|n IH]; intros s; simpl; [apply edits_refl|].
  destruct (head (matches r s)) as [m|] eqn:Hm.
  - apply head_elem in Hm. apply replaces_edits; [by apply Hr|apply IH].
  - destruct s as [|a s]; constructor. apply IH.
Qed.

(** The shapes of the expressions. *)
Lemma Replace_edits pre s : edits s (Replace s (pre ++ source) (pre ++ target)).
Proof.
  apply ReplaceAllString_edits. intros s1 m H. apply matches_Lit in H as [-> _].
  exists pre, source, []. simpl. rewrite app_nil_r, <-!app_assoc.
  split; [done|]. split; [apply folds_refl|by rewrite app_nil_r].
Qed.

Lemma param_edits p s :
  edits s (ReplaceAllString (paramRegex p source) [PText (chars p); PText target] s).
Proof.
  apply ReplaceAllString_edits. intros s1 m H.
  apply matches_Seq in H as (m1&m2&[-> _]%matches_Lit&[E _]%matches_Lit&->). simpl.
  exists (chars p), source, []. simpl. rewrite !app_nil_r, E.
  split; [done|]. by split; [apply folds_refl|].
Qed.

Lemma header_edits names s : no_groups names = true →
  edits s (ReplaceAllString (headerRegex names source) (header_template target) s).
Proof.
  intros Hn. apply ReplaceAllString_edits. intros s1 m H.
  apply matches_Seq in H as (m1&m2&H1&H2&->). apply matches_Group in H1 as (n1&c1&Hn1&->&->).
  apply matches_Seq in H2 as (m3&m4&H3&H4&->). apply matches_Group in H3 as (n3&c3&Hn3&E3&->).
  apply matches_LitFold in H4 as (d&E4&Hd&E5). simpl in *.
  rewrite (no_groups_caps _ Hn _ _ Hn1), (no_groups_caps header_uri eq_refl _ _ Hn3), E5. simpl.
  exists (c1 ++ c3), d, []. simpl. rewrite E3, E4. rewrite !app_nil_r, <-!app_assoc. done.
Qed.

Lemma aor_edits s :
  edits s (ReplaceAllString (aorRegex source)
    [PText (chars "<"); PGroup 1; PText target; PText (chars ">")] s).
Proof.
  apply ReplaceAllString_edits. intros s1 m H.
  apply matches_Seq in H as (m1&m2&[-> E1]%matches_Lit&H2&->).
  apply matches_Seq in H2 as (m3&m4&H3&H4&->). apply matches_Group in H3 as (n3&c3&Hn3&E3&->).
  apply matches_Seq in H4 as (m5&m6&[E5 E5']%matches_Lit&[E6 E6']%matches_Lit&->).
  assert (n3.1 = []) as Hnil by (eapply no_groups_caps; [|exact Hn3]; done). clear Hn3. simpl in *.
  rewrite E1, Hnil, E5', E6'. simpl.
  exists (chars "<" ++ c3), source, (chars ">"). simpl. rewrite E3, E5, E6.
  split; [done|]. split; [apply folds_refl|done].
Qed.

Lemma domain_edits s :
  edits s (ReplaceAllString (domainRegex source) [PGroup 1; PText target; PGroup 2] s).
Proof.
  apply ReplaceAllString_edits. intros s1 m H.
  apply matches_Seq in H as (m1&m2&H1&H2&->). apply matches_Group in H1 as (n1&c1&Hn1&->&->).
  apply matches_Seq in H2 as (m3&m4&[E3 E3']%matches_Lit&H4&->).
  apply matches_Group in H4 as (n4&c4&Hn4&E4&->).
  assert (n1.1 = []) as Hnil1 by (eapply no_groups_caps; [|exact Hn1]; done). clear Hn1.
  assert (n4.1 = []) as Hnil4 by (eapply no_groups_caps; [|exact Hn4]; done). clear Hn4. simpl in *.
  rewrite Hnil1, Hnil4, E3'. simpl.
  exists c1, source, c4. rewrite E3, E4. split; [done|]. split; [apply folds_refl|].
  simpl. by rewrite app_nil_r.
Qed.
End Edits.

(** The white space between the method and [sip:] of a request line made one
    space. *)
Definition line_normal (s s1 : text) : Prop :=
  s1 = s ∨ ∃ meth w r, s = meth ++ w ++ chars "sip:" ++ r ∧ s1 = meth ++ chars " sip:" ++ r ∧
                       Forall (λ a, space a = true) w.

Lemma matches_Many_class n f s m : m ∈ matches (Many n f) s →
  ∃ w, s = w ++ m.2 ∧ Forall (λ a, f a = true) w ∧ m.1 = [].
Proof.
  simpl. intros (j&->&_)%list_elem_of_fmap. simpl. exists (take (run_length f s - j) s).
  split; [by rewrite take_drop|]. split; [|done].
  generalize (run_length f s - j)%nat (Nat.le_sub_l (run_length f s) j). intros k.
  revert k. induction s as [|a s IH]; intros k Hk; simpl in *; [by rewrite take_nil|].
  destruct k as [|k]; simpl; [constructor|]. destruct (f a) eqn:Ha; [|lia].
  constructor; [done|]. apply IH. lia.
Qed.

Lemma matches_Opt_group n a s m : no_groups a = true → m ∈ matches (Opt (Group n a)) s →
  ∃ u, s = u ++ m.2 ∧ (m.1 = [(n, u)] ∨ (m.1 = [] ∧ u = [])).
Proof.
  intros Ha. cbn [matches]. intros [H|H]%elem_of_app.
  - apply matches_Group in H as (m1&c&H1&E&->). exists c. split; [done|]. left. simpl.
    by rewrite (no_groups_caps _ Ha _ _ H1).
  - apply list_elem_of_singleton in H as ->. exists []. split; [done|]. by right.
Qed.

Lemma method_edits source target s rest :
  ∃ s1, line_normal (s ++ rest) s1 ∧
        edits source target s1 (ReplaceAnchored (methodRegex source) (method_template target) s ++ rest).
Proof.
  unfold ReplaceAnchored. destruct (head (matches (methodRegex source) s)) as [m|] eqn:Hm.
  2: { exists (s ++ rest). split; [by left|apply edits_refl]. }
  apply head_elem in Hm. apply matches_Seq in Hm as (m1&m2&H1&H2&->).
  apply matches_Group in H1 as (g1&c1&G1&E1&->).
  apply matches_Seq in H2 as (m3&m4&H3&H4&->). apply matches_Many_class in H3 as (w&E3&Hw&N3).
  apply matches_Seq in H4 as (m5&m6&[E5 N5]%matches_Lit&H6&->).
  apply matches_Seq in H6 as (m7&m8&H7&H8&->).
  apply matches_Opt_group in H7 as (u&E7&Hu); [|done].
  apply matches_Seq in H8 as (m9&m10&[E9 N9]%matches_Lit&H10&->).
  apply matches_Group in H10 as (g3&c3&G3&E10&->).
  apply (no_groups_caps methods eq_refl) in G1.
  assert (g3.1 = []) as N10 by (eapply no_groups_caps; [|exact G3]; done). clear G3.
  cbn [fst snd] in *. exists (c1 ++ chars " sip:" ++ u ++ source ++ c3 ++ g3.2 ++ rest). split.
  - right. exists c1, w, (u ++ source ++ c3 ++ g3.2 ++ rest). split; [|done].
    rewrite E1, E3, E5, E7, E9, E10. by rewrite <-!app_assoc.
  - rewrite G1, N3, N5, N9, N10. cbn [app].
    assert (expand (method_template target) ((1%nat, c1) :: m7.1 ++ [(3%nat, c3)])
      = c1 ++ chars " sip:" ++ u ++ target ++ c3) as ->.
    { destruct Hu as [->|[-> ->]]; simpl; by rewrite ?app_nil_r. }
    rewrite <-!app_assoc. do 3 apply edits_same.
    constructor; [apply folds_refl|]. apply edits_same. apply edits_refl.
Qed.

Lemma cut_line_app s : (cut_line s).1 ++ (cut_line s).2 = s.
Proof.
  induction s as [|a s IH]; [done|]. cbn [cut_line]. case_bool_decide; [done|].
  destruct (cut_line s) as [l r]. simpl in *. by rewrite IH.
Qed.

Lemma star_snoc {A} (R : A → A → Prop) a b c : star R a b → R b c → star R a c.
Proof. intros H1 H2. by eapply star_trans, star_one. Qed.

Lemma header_pass source target s names :
  Forall (λ n, no_groups n = true) names →
  star (edits source target) s
    (foldl (λ msg n, ReplaceAllString (headerRegex n source) (header_template target) msg) s names).
Proof.
  intros Hn. revert s. induction Hn as [|n ns Hn _ IH]; intros s; simpl; [apply star_refl|].
  eapply star_step; [by apply header_edits|]. apply IH.
Qed.

Lemma rewrite_domains_edits msg source target :
  ∃ s1, line_normal msg s1 ∧ star (edits source target) s1 (rewriteSIPDomains msg source target).
Proof.
  unfold rewriteSIPDomains. pose proof (cut_line_app msg) as E.
  destruct (cut_line msg) as [l r]. cbn [fst snd] in E. subst msg.
  destruct (method_edits source target l r) as (s1&Hn&He). exists s1. split; [done|].
  eapply star_snoc; [|apply domain_edits]. eapply star_snoc; [|apply aor_edits].
  do 2 (eapply star_snoc; [|apply param_edits]).
  eapply star_trans; [|apply header_pass; by repeat constructor].
  do 4 (eapply star_snoc; [|apply Replace_edits]). by apply star_one.
Qed.

(** ** The fuel of [ReplaceAllString] *)

(** The least length of a match. *)
Fixpoint min_length (r : re) : nat :=
  match r with
  | Lit l | LitFold l => length l
  | Any _ => 1
  | Many n _ => n
  | Seq a b => min_length a + min_length b
  | Alt a b => min_length a `min` min_length b
  | Opt _ => 0
  | Group _ a => min_length a
  end.

Lemma run_length_le f s : (run_length f s <= length s)%nat.
Proof. induction s as [|a s IH]; simpl; [done|]. destruct (f a); simpl; lia. Qed.

Lemma matches_length r : ∀ s m, m ∈ matches r s → (length m.2 + min_length r <= length s)%nat.
Proof.
  induction r as [l|l|f|n f|a IHa b IHb|a IHa b IHb|a IHa|n a IHa]; intros s m H; cbn [min_length].
  - apply matches_Lit in H as [E _]. rewrite E, length_app. lia.
  - apply matches_LitFold in H as (d&E&Hd&_). apply Forall2_length in Hd. rewrite E.
    rewrite length_app. lia.
  - simpl in H. destruct s as [|x s]; [by apply elem_of_nil in H|].
    destruct (f x); [|by apply elem_of_nil in H]. apply list_elem_of_singleton in H as ->. simpl. lia.
  - simpl in H. apply list_elem_of_fmap in H as (j&->&Hj). apply elem_of_seq in Hj. cbn [snd].
    rewrite length_drop. pose proof (run_length_le f s). destruct n; lia.
  - apply matches_Seq in H as (m1&m2&H1&H2&->). apply IHa in H1. apply IHb in H2. simpl. lia.
  - simpl in H. apply elem_of_app in H as [H|H]; [apply IHa in H|apply IHb in H]; lia.
  - simpl in H. apply elem_of_app in H as [H|H]; [apply IHa in H; lia|].
    apply list_elem_of_singleton in H as ->. simpl. lia.
  - apply matches_Group in H as (m1&c&H1&_&->). apply IHa in H1. simpl. lia.
Qed.

(** More rounds than characters change nothing. *)
Lemma replace_rounds_fuel r t n s :
  (0 < min_length r)%nat → (length s <= n)%nat →
  replace_rounds n r t s = ReplaceAllString r t s.
Proof.
  intros Hr. unfold ReplaceAllString. enough (∀ n k s, (length s <= n)%nat → (length s <= k)%nat →
    replace_rounds n r t s = replace_rounds k r t s) as H by (intros; by apply H).
  clear n s. induction n as [|n IH]; intros [|k] s Hn Hk; try done.
  - destruct s; [|simpl in *; lia]. simpl. destruct (head (matches r [])) as [m|] eqn:Hm; [|done].
    apply head_elem, matches_length in Hm. simpl in Hm. lia.
  - destruct s; [|simpl in *; lia]. simpl. destruct (head (matches r [])) as [m|] eqn:Hm; [|done].
    apply head_elem, matches_length in Hm. simpl in Hm. lia.
  - simpl. destruct (head (matches r s)) as [m|] eqn:Hm.
    + apply head_elem, matches_length in Hm. f_equal. apply IH; lia.
    + destruct s as [|a s]; [done|]. simpl in *. f_equal. apply IH; lia.
Qed.

(** ** The properties *)

Lemma chars_unchars s : chars (unchars s) = s.
Proof. apply String.list_ascii_of_string_of_list_ascii. Qed.

(** The domain a message is rewritten to, if it is rewritten. *)
Definition domains_of (mappings : gmap string string) (clientID message : string)
    : option (text * text) :=
  let d := extractDomainFromSIP (chars message) in
  if isSipMessage (chars message) && negb (bool_decide (d = []))
  then (λ target, (d, chars target)) <$> mappings !! (clientID +:+ ":" +:+ unchars d)
  else None.

(** C31. A message goes to the backend as it came unless it is a request of one
    of the six methods, a domain can be read in it, and the client has a
    mapping for that domain. It then differs from the original in nothing but
    occurrences of the domain (up to the case of letters) replaced by the
    mapped one, and the white space before [sip:] in the request line. In the
    other direction nothing is ever rewritten. The expressions are searched with
    enough fuel. *)
Theorem rewriting_edits_only_domains (mappings : gmap string string) (clientID message : string) :
  match domains_of mappings clientID message with
  | None => RewriteClientToBackend mappings clientID message = message
  | Some (source, target) =>
      ∃ s1, line_normal (chars message) s1 ∧
            star (edits source target) s1 (chars (RewriteClientToBackend mappings clientID message))
  end ∧
  RewriteBackendToClient mappings clientID message = message ∧
  (∀ r t n s, (0 < min_length r)%nat → (length s <= n)%nat →
     replace_rounds n r t s = ReplaceAllString r t s).
Proof.
  split; [|split; [done|apply replace_rounds_fuel]].
  unfold domains_of, RewriteClientToBackend. destruct (isSipMessage (chars message)); [|done].
  simpl. case_decide as Hd; [by rewrite bool_decide_true|]. rewrite bool_decide_false by done. simpl.
  destruct (mappings !! _) as [t|]; [|done]. simpl. rewrite chars_unchars.
  apply rewrite_domains_edits.
Qed.

(** The proxy in its place in the WebSocket server. *)
Definition domain_proxy (parse : string → option sip_message) : SIP :=
  {| ParseMessage := parse; WebSocket.RewriteClientToBackend := RewriteClientToBackend |}.

(** ** Instances *)

Definition crlf : string := unchars [CR; LF].
Definition register_message : string :=
  "REGISTER  sip:platform.qalqul.io SIP/2.0" +:+ crlf +:+
  "From: <sip:alice@platform.qalqul.io>;tag=1" +:+ crlf +:+
  "To: <sip:alice@platform.qalqul.io.example.org>" +:+ crlf +:+
  "Content-Length: 22" +:+ crlf +:+ crlf +:+ "o=platform.qalqul.io 1".
Definition qa_mappings : gmap string string := {[ "c1:platform.qalqul.io" := "qa.qalqul.io" ]}.

(** The request line, the headers and also the body and a longer domain that
    starts with the mapped one are rewritten; the length of the body in the
    header is not. *)
Example register_rewritten :
  RewriteClientToBackend qa_mappings "c1" register_message =
  "REGISTER sip:qa.qalqul.io SIP/2.0" +:+ crlf +:+
  "From: <sip:alice@qa.qalqul.io>;tag=1" +:+ crlf +:+
  "To: <sip:alice@qa.qalqul.io.example.org>" +:+ crlf +:+
  "Content-Length: 22" +:+ crlf +:+ crlf +:+ "o=qa.qalqul.io 1".
Proof. by vm_compute. Qed.

(** Without angle brackets the domain runs on into the next headers, and no
    mapping is found. *)
Example bare_from_not_rewritten :
  let msg := "BYE sip:bob@platform.qalqul.io SIP/2.0" +:+ crlf +:+
             "From: sip:alice@platform.qalqul.io" +:+ crlf +:+ "To: <sip:bob@x>" +:+ crlf in
  RewriteClientToBackend qa_mappings "c1" msg = msg.
Proof. by vm_compute. Qed.

Lemma rewriting_edits_only_domains_witness :
  ∃ s1, line_normal (chars register_message) s1 ∧
    star (edits (chars "platform.qalqul.io") (chars "qa.qalqul.io")) s1
      (chars (RewriteClientToBackend qa_mappings "c1" register_message)).
Proof. exact (proj1 (rewriting_edits_only_domains qa_mappings "c1" register_message)). Defined.
