(* ===== verification/WSStart.v ===== *)
(** * websocket/server.go: the start of the WebSocket server

    The settings of the HTTP server, what [Start] registers and starts, the
    goroutine that listens, with or without TLS, and the goroutines of the
    registry that run in the background - the cleaner of connections, the
    monitor, the checker of the backends - as an ordering of ticks over the
    state they share. Listening and serving are the environment's; a panic in a
    goroutine of the registry is recovered and ends that goroutine only. *)

From S2P Require Import Prelude KVStore Storage WebSocket Status.

(** ** Settings *)

Record HTTPConfig : Type := mkHTTPConfig {
  BindAddr : string; CertFile : string; KeyFile : string;
  ReadTimeout : Duration; WriteTimeout : Duration; IdleTimeout : Duration;
  EnableIPv4Only : bool; UseInternalHealthHandler : bool }.

(** The timeouts that [NewServer] replaces. *)
Definition http_defaults (c : HTTPConfig) : HTTPConfig :=
  let '(mkHTTPConfig addr cert key rd wr idle v4 health) := c in
  mkHTTPConfig addr cert key (if rd <=? 0 then 30 * Second else rd)
    (if wr <=? 0 then 30 * Second else wr) (if idle <=? 0 then 120 * Second else idle) v4 health.

Record HTTPServer : Type := mkHTTPServer {
  hs_Addr : string; hs_ReadTimeout : Duration; hs_WriteTimeout : Duration; hs_IdleTimeout : Duration }.
Definition http_server_of (c : HTTPConfig) : HTTPServer :=
  mkHTTPServer (BindAddr c) (ReadTimeout c) (WriteTimeout c) (IdleTimeout c).

(** ** Start *)

Inductive goroutine : Type := ConnectionCleaner | HealthMonitor | BackendChecker | HTTPListener.
#[export] Instance goroutine_eq_dec : EqDecision goroutine.
Proof. solve_decision. Defined.

(** The state is the patterns of the [ServeMux]; the health monitor is started
    by the cleaner. *)
Definition Start (config : ServerConfig) (http : HTTPConfig)
    : GoM (list string) (HTTPServer * list goroutine) :=
  register_handlers (UseInternalHealthHandler http);;
  mret (http_server_of http,
        ConnectionCleaner :: (if BackendServers config is [] then [] else [BackendChecker])
        ++ [HTTPListener]).

(** ** The listening goroutine *)

Inductive serve_call : Type := ServeTLS | ListenAndServeTLS | Serve | ListenAndServe.
(** [Serve] and its kin always return an error. *)
Inductive serve_error : Type := ErrServerClosed | OpError | OtherError.
#[export] Instance serve_error_eq_dec : EqDecision serve_error.
Proof. solve_decision. Defined.

Inductive report : Type :=
| ListenerFailed | CertificateFailed
| ServerFailed (details : bool)              (* with those of a network operation *)
| ClosedNormally.

(** What follows the serving, from the variable [err] of the function. *)
Definition after_serving (err : option serve_error) : list report :=
  match err with
  | None => []
  | Some ErrServerClosed => [ClosedNormally]
  | Some e => [ServerFailed (bool_decide (e = OpError))]
  end.

(** [listens] and [loads] say whether the listener and the certificate are to be
    had. The two branches for IPv4 declare an [err] of their own, so the one of
    the function stays nil. *)
Definition http_listener (c : HTTPConfig) (listens loads : bool) (served : serve_error)
    : option serve_call * list report :=
  if negb (bool_decide (CertFile c = "")) && negb (bool_decide (KeyFile c = "")) then
    if EnableIPv4Only c then
      if negb listens then (None, [ListenerFailed])
      else if negb loads then (None, [CertificateFailed])
      else (Some ServeTLS, after_serving None)
    else (Some ListenAndServeTLS, after_serving (Some served))
  else if EnableIPv4Only c then
    if negb listens then (None, [ListenerFailed]) else (Some Serve, after_serving None)
  else (Some ListenAndServe, after_serving (Some served)).

(** ** The goroutines in the background *)

Section Background.
Context (config : ServerConfig) (http : HTTPConfig) (hostname : string).

(** [CheckBackendHealth], with what it leaves when a probe panics. *)
Fixpoint check_backends (answers : string → option string) (backends : list string)
    : GoM Shared unit :=
  match backends with
  | [] => mret tt
  | b :: bs =>
      healthy ← lift (testBackendConnection b (answers b));
      modify (UpdateBackendHealth b healthy);;
      check_backends answers bs
  end.

Record background : Type := mkBackground {
  bg_shared : Shared; bg_clients : gmap string ClientConnection; alive : list goroutine }.

Definition ended (g : goroutine) (l : list goroutine) : list goroutine := filter (λ x, x ≠ g) l.

(** The cleaner begins by starting the monitor; a ticker fires; the context of
    the registry is done. *)
Inductive bevent : Type :=
| Begins
| Tick (g : goroutine) (now t_set : Time) (answers : string → option string)
| ContextDone (g : goroutine).

Definition tick (g : goroutine) (now t_set : Time) (answers : string → option string)
    (b : background) : background :=
  let '(mkBackground s cs gs) := b in
  match g with
  | ConnectionCleaner => let '(s, cs) := cleanConnections now s cs in mkBackground s cs gs
  | HealthMonitor => mkBackground (health_monitor_tick (BindAddr http) hostname now t_set s) cs gs
  | BackendChecker =>
      match check_backends answers (BackendServers config) s with
      | (Done _, s) => mkBackground s cs gs
      | (_, s) => mkBackground s cs (ended g gs)
      end
  | HTTPListener => b
  end.
Definition bstep (ev : bevent) (b : background) : background :=
  match ev with
  | Begins =>
      if decide (ConnectionCleaner ∈ alive b ∧ HealthMonitor ∉ alive b)
      then mkBackground (bg_shared b) (bg_clients b) (HealthMonitor :: alive b) else b
  | Tick g now t_set answers =>
      if decide (g ∈ alive b) then tick g now t_set answers b else b
  | ContextDone g =>
      if decide (g = HTTPListener) then b
      else mkBackground (bg_shared b) (bg_clients b) (ended g (alive b))
  end.
Definition brun (es : list bevent) (b : background) : background := foldl (λ b e, bstep e b) b es.
End Background.

(** ** Facts *)

Section Facts.
Context (config : ServerConfig) (http : HTTPConfig) (hostname : string).

(** The answer to a probe that ends the checker, and the verdict of another. *)
Definition fatal (answers : string → option string) (b : string) : bool :=
  negb (bool_decide (b = "")) &&
  match answers b with Some response => short_answer response | None => false end.
Definition verdict (answers : string → option string) (b : string) : bool :=
  negb (bool_decide (b = "")) &&
  match answers b with Some response => accepted response | None => false end.

Lemma probe_spec answers b :
  testBackendConnection b (answers b)
  = if fatal answers b then Panic SliceOutOfRange else Done (verdict answers b).
Proof.
  unfold testBackendConnection, fatal, verdict. case_decide as Hb.
  - by rewrite bool_decide_true.
  - rewrite bool_decide_false by done. simpl. destruct (answers b) as [r|]; [|done].
    apply probe_verdict_spec.
Qed.

(** A round checks the backends before the first fatal answer. *)
Lemma check_backends_spec answers bs s :
  if existsb (fatal answers) bs
  then ∃ s', check_backends answers bs s = (Panic SliceOutOfRange, s')
  else ∃ s', check_backends answers bs s = (Done tt, s') ∧
         ∀ b, backendHealth s' !! b =
           if decide (b ∈ bs) then Some (verdict answers b) else backendHealth s !! b.
Proof.
  revert s. induction bs as [|b bs IH]; intros s; cbn [existsb check_backends].
  { exists s. split; [done|]. intros b. rewrite decide_False; [done|]. apply not_elem_of_nil. }
  unfold mbind at 1 2, GoM_bind at 1 2, lift. rewrite probe_spec.
  destruct (fatal answers b) eqn:Hf; simpl; [by eexists|].
  specialize (IH (UpdateBackendHealth b (verdict answers b) s)).
  destruct (existsb (fatal answers) bs); [exact IH|].
  destruct IH as (s'&E&Hs'). exists s'. split; [exact E|]. intros x. rewrite Hs'.
  assert (backendHealth (UpdateBackendHealth b (verdict answers b) s)
    = <[b := verdict answers b]> (backendHealth s)) as -> by (by destruct s).
  destruct (decide (b = x)) as [->|Hx].
  - rewrite lookup_insert_eq. rewrite (decide_True (P := x ∈ x :: bs)) by left. by case_decide.
  - rewrite lookup_insert_ne by done. repeat case_decide; rewrite ?elem_of_cons in *; naive_solver.
Qed.

(** Without a short answer it is the round of the model of the server. *)
Lemma check_backends_agrees answers bs s s' :
  CheckBackendHealth answers bs s = Done s' → check_backends answers bs s = (Done tt, s').
Proof.
  revert s. induction bs as [|b bs IH]; intros s; simpl; [by intros [= ->]|].
  unfold mbind, GoM_bind, outcome_bind, lift.
  destruct (testBackendConnection b (answers b)); [apply IH|done|done].
Qed.

(** The other goroutines leave the health of the backends as it is. *)
Lemma on_store_health {A} (m : GoM World A) s : backendHealth (on_store m s) = backendHealth s.
Proof. by destruct s. Qed.
Lemma closeConnection_health id s c : backendHealth (closeConnection id (s, c)).1 = backendHealth s.
Proof.
  unfold closeConnection. destruct (closed c); [done|]. simpl. rewrite on_store_health.
  destruct s, (BackendConn c); done.
Qed.
Lemma close_list_health ids s cs : backendHealth (foldl close_one (s, cs) ids).1 = backendHealth s.
Proof.
  revert s cs. induction ids as [|id ids IH]; intros s cs; simpl; [done|].
  destruct (close_one (s, cs) id) as [s1 cs1] eqn:E. rewrite IH. unfold close_one in E. cbn [fst snd] in E.
  destruct (cs !! id) as [c|]; [|by simplify_eq].
  pose proof (closeConnection_health id s c). destruct (closeConnection id (s, c)). by simplify_eq/=.
Qed.

Lemma ended_not g l : g ∉ ended g l.
Proof. unfold ended. rewrite list_elem_of_filter. naive_solver. Qed.
Lemma ended_other g h l : g ∉ l → g ∉ ended h l.
Proof. unfold ended. rewrite list_elem_of_filter. naive_solver. Qed.

(** Nothing starts the checker again, and only it writes. *)
Lemma bstep_dead ev b : BackendChecker ∉ alive b →
  BackendChecker ∉ alive (bstep config http hostname ev b) ∧
  backendHealth (bg_shared (bstep config http hostname ev b)) = backendHealth (bg_shared b).
Proof.
  intros Hd. destruct ev as [|g now t answers|g]; simpl.
  - case_decide; [|done]. split; [|done]. simpl. rewrite elem_of_cons. naive_solver.
  - case_decide as Hg; [|done]. destruct b as [s cs gs]. destruct g; simpl in *; try done.
    + pose proof (close_list_health (filter (λ id, inactive now cs id = true) (elements (connections s))) s cs).
      unfold cleanConnections. by destruct (foldl _ _ _).
    + split; [done|]. apply on_store_health.
  - case_decide; [done|]. split; [|done]. by apply ended_other.
Qed.
Lemma brun_dead es b : BackendChecker ∉ alive b →
  backendHealth (bg_shared (brun config http hostname es b)) = backendHealth (bg_shared b).
Proof.
  revert b. induction es as [|e es IH]; intros b Hd; [done|]. simpl.
  destruct (bstep_dead e b Hd) as [Hd' <-]. by apply IH.
Qed.


End Facts.

(** ** Instances *)

(** Two rounds: in the first both backends answer, in the second the answer of
    the other is three bytes long; a third would find the first backend down. *)
Definition started : background :=
  mkBackground (NewServer two_backends true 1 sample_world) ∅ [ConnectionCleaner; BackendChecker; HTTPListener].
Definition healthy_answers (b : string) : option string := Some "SIP/2.0 200 OK and more".
Definition short_answers (b : string) : option string :=
  if decide (b = "b") then Some "SIP" else Some "SIP/2.0 200 OK and more".
Definition first_rounds : list bevent := [Begins; Tick BackendChecker 5 5 healthy_answers].
Definition last_rounds : list bevent :=
  [Tick HealthMonitor 7 7 healthy_answers; Tick BackendChecker 8 8 (λ _, None)].
Definition sample_http : HTTPConfig := mkHTTPConfig ":8080" "" "" 0 0 0 false false.

