(* ===== verification/Gateway.v ===== *)
(** * cmd/gateway/main.go: the program

    What [main] does with the components: the settings it hands to each, the
    order in which it makes and starts them, what ends it early, and its
    shutdown. The files, the YAML decoder, the JSON decoder, the network and the
    clocks are the environment; logging and metrics are left out. *)

From S2P Require Import Prelude KVStore Storage Persist Coordinator RTPEngine RTPManager.
From S2P Require Import AMIClient AMIManager WebSocket SIPProxy Health Status Config.

Definition is_some {A} (o : option A) : bool := match o with Some _ => true | None => false end.

Section Gateway.
Context `{JSON}.

(** ** The environment *)

Record Env : Type := mkEnv {
  (* the file system, and what opening the storage meets *)
  en_files : gmap string (list Doc);
  en_heap : loc → object; en_opens : bool;
  en_load_clock : kind → string → Time; en_alloc : kind → nat → loc;
  (* the coordinator: the host, its address, the clocks of its start *)
  en_hostname : option string; en_nanos : N; en_ip : option string;
  en_register : Time * Time * Time; en_acquire : clocks;
  en_decode : string → option (gmap string jval);
  (* the network *)
  en_resolves : RTPEngine.Config → bool;
  en_listens : string → bool;
  en_parse_addr : string → string * Z;
  en_sip_stack : bool;                      (* the sipgo UA, server and client *)
  en_udp : bool;                            (* the UDP socket *)
  (* the version set by the build, and when the components are made *)
  en_version : string; en_now : Time }.

Inductive component : Type := CRTPEngine | CAMI | CSIP | CWebSocket | CCoordinator.

(** A running program. The storage of [g_ws] is the one of the program. *)
Record Gateway : Type := mkGateway {
  g_world : World; g_files : gmap string (list Doc);
  g_coordinator : Coordinator;
  g_rtp : option RTPManager.Manager;
  g_ami : option (AMIManager.Manager AMIClient.AMIClient);
  g_proxy : bool;                           (* the AMI manager has a proxy server *)
  g_sip : option SIPProxy.SIPConfig; g_transports : nat;
  g_ws : option WebSocket.Shared; g_patterns : list string;
  g_status : option StatusHandler;
  g_started : list component }.

Section Main.
Context (cfg : Config.Config) (env : Env).

Definition enabled (flag : ServiceTestConfig → bool) : bool :=
  negb (tm_Enabled (TestingMode cfg)) || flag (TestingMode cfg).

Definition NodeName : string :=
  let id := NodeID (HighAvailability cfg) in
  if decide (id = "") then default "" (en_hostname env) else id.

(** ** The components *)

(** Redis or not, the storage is the one in memory; three of the five settings
    are handed to it. *)
Definition storage_config : Storage.MemoryConfig :=
  let memory := Storage.mkMemoryConfig (MaxKeys (MemoryStorage cfg))
    (duration_of (CleanupIntervalSeconds (MemoryStorage cfg)) Second)
    (PersistPath (MemoryStorage cfg)) false 0 in
  if redis_Enabled (Redis cfg) then memory else memory.
Definition make_storage : outcome (World * gmap string (list Doc)) :=
  let '(r, (w, files)) := Persist.Open storage_config (en_heap env) (en_opens env)
    (en_load_clock env) (en_alloc env) (en_files env) in
  r ≫= λ _, mret (w, files).

Definition coordinator_config : CoordinatorConfig :=
  mkCoordinatorConfig (GetHeartbeatInterval cfg) (GetLeaseTimeout cfg).
Definition register_components (c : Coordinator) : Coordinator :=
  foldl (λ c name, RegisterComponentLeadership name c) c ["rtpengine"; "ami"; "sip"; "websocket"].
Definition make_coordinator (w : World) : outcome (result string (World * Coordinator)) :=
  match NewCoordinator true coordinator_config (en_hostname env) (en_nanos env) with
  | Err _ => Done (Err "failed to create coordinator")
  | Ok c =>
      let '(t1, t2, t3) := en_register env in
      match Coordinator.Start (en_decode env) (en_ip env) t1 t2 t3 (en_acquire env) (w, c) with
      | (Done (Ok _), (w, c)) => Done (Ok (w, register_components c))
      | (Done (Err _), _) => Done (Err "failed to start coordinator")
      | (Panic p, _) => Panic p
      | (Deadlock, _) => Deadlock
      end
  end.

Definition to_option {E A} (r : result E A) : option A :=
  match r with Ok a => Some a | Err _ => None end.

(** In testing mode a component that is off is made of an empty list, and the
    error is dropped. *)
Definition make_rtp : result string (option RTPManager.Manager) :=
  if enabled EnableRTP then
    match RTPManager.NewManager ((λ ec, (en_resolves env ec, ec)) <$>
            rm_Engines (ToRTPEngineManagerConfig cfg)) true (en_now env) with
    | Ok m => Ok (Some m)
    | Err _ => Err "failed to create RTPEngine manager"
    end
  else Ok (to_option (RTPManager.NewManager [] true (en_now env))).

(** [ami.NewManager] with the clients it can make, and its proxy server, whose
    backends must all be made and of whose addresses one must be free. *)
Definition make_ami_manager (config : AMIManagerConfig)
    : result string (AMIManager.Manager AMIClient.AMIClient) * bool :=
  let created := (λ c, AMIClient.New c (en_now env)) <$> am_Clients config in
  let m := AMIManager.NewManager (length (am_Clients config)) (omap to_option created) true
             (am_MaxRetries config) (am_RetryDelay config) in
  (m, is_ok m && am_EnableHAProxy config && existsb (en_listens env) (am_OriginalAddresses config)
      && forallb is_ok created).
Definition make_ami
    : result string (option (AMIManager.Manager AMIClient.AMIClient) * bool) :=
  if enabled EnableAMI then
    match make_ami_manager (ToAsteriskManagerConfig cfg) with
    | (Ok m, proxy) => Ok (Some m, proxy)
    | (Err _, _) => Err "failed to create AMI manager"
    end
  else
    let '(m, proxy) := make_ami_manager (mkAMIManagerConfig [] 0 0 0 false 0 0 0 0 false []) in
    Ok (to_option m, proxy).

(** The general flag of the SIP configuration is not among the fields that are
    set, and nothing reads it. *)
Definition sip_config : SIPProxy.SIPConfig :=
  let '(host, port) := en_parse_addr env (UDPBindAddr (SIP cfg)) in
  SIPProxy.mkSIPConfig (sip_DefaultNextHop (SIP cfg)) (sip_DisableUDPSIPProcessing (SIP cfg))
    (sip_DisableWSSIPProcessing (SIP cfg)) host port.
Definition mock_sip_config : SIPProxy.SIPConfig :=
  let '(host, port) := en_parse_addr env "127.0.0.1:0" in
  SIPProxy.mkSIPConfig "" false false host port.
Definition make_sip : result string (option SIPProxy.SIPConfig * nat) :=
  if enabled EnableSIP then
    if negb (en_sip_stack env) then Err "failed to create SIP proxy"
    else if negb (en_udp env) then Err "failed to create UDP transport"
    else Ok (Some sip_config, 1%nat)
  else Ok (if en_sip_stack env then Some mock_sip_config else None, 0%nat).

Definition websocket_config : WebSocket.ServerConfig :=
  let ws := WebSocket cfg in
  WebSocket.mkServerConfig (ws_MaxConnections ws) (ws_ServerName ws) (ws_BackendServers ws)
    (ws_FailoverThreshold ws) (ws_DisableWSSIPProcessing ws).
(** The handler is the SIP proxy, even when that is a nil pointer: the field is
    an interface. The endpoints of the status API come before the start. *)
Definition make_websocket (w : World) (c : Coordinator) (rtp ami : bool)
    : outcome (option WebSocket.Shared * list string * option StatusHandler) :=
  if enabled EnableWebSocket then
    let server := WebSocket.NewServer websocket_config true (en_now env) w in
    let status := mkStatusHandler ami rtp true (Some c) None (Some w) NodeName (en_version env) (en_now env) in
    match (RegisterStatusEndpoints []) with
    | (r, patterns) => r ≫= λ _, mret (Some server, patterns, Some status)
    end
  else mret (None, [], None).

(** ** Starting and stopping *)

(** The starts; that of the WebSocket server adds its handlers. *)
Definition start_components (rtp ami sip ws : bool) : list component :=
  (if rtp && enabled EnableRTP then [CRTPEngine] else []) ++
  (if ami && enabled EnableAMI then [CAMI] else []) ++
  (if sip && enabled EnableSIP then [CSIP] else []) ++
  (if ws && enabled EnableWebSocket then [CWebSocket] else []).
Definition start_patterns (ws : bool) (patterns : list string) : outcome (list string) :=
  if ws && enabled EnableWebSocket then
    match register_handlers false patterns with (r, patterns) => r ≫= λ _, mret patterns end
  else mret patterns.

(** Up to the wait for a signal. [Err] is an exit with a message. *)
Definition startup : outcome (result string Gateway) :=
  '(w, files) ← make_storage;
  r ← make_coordinator w;
  match r with
  | Err e => mret (Err e)
  | Ok (w, c) =>
      match make_rtp with
      | Err e => mret (Err e)
      | Ok rtp =>
          match make_ami with
          | Err e => mret (Err e)
          | Ok (ami, proxy) =>
              match make_sip with
              | Err e => mret (Err e)
              | Ok (sip, transports) =>
                  '(ws, patterns, status) ← make_websocket w c (is_some rtp) (is_some ami);
                  patterns ← start_patterns (is_some ws) patterns;
                  mret (Ok (mkGateway w files c rtp ami proxy sip transports ws patterns status
                    (start_components (is_some rtp) (is_some ami) (is_some sip) (is_some ws))))
              end
          end
      end
  end.
End Main.

Definition main (ReadFile : string → result string string)
    (Unmarshal : string → result string Config.Config) (path : string) (env : Env)
    : outcome (result string Gateway) :=
  match LoadConfig ReadFile Unmarshal path with
  | Err e => mret (Err ("Failed to load configuration: " +:+ e))
  | Ok cfg => startup cfg env
  end.

(** The components that are stopped, in order; the coordinator by the deferred
    call. The effect on the storage is the coordinator's; nothing closes the
    storage. *)
Definition stopped_components {A B C D} (ws : option A) (sip : option B) (ami : option C)
    (rtp : option D) : list component :=
  (if ws is Some _ then [CWebSocket] else []) ++ (if sip is Some _ then [CSIP] else []) ++
  (if ami is Some _ then [CAMI] else []) ++ (if rtp is Some _ then [CRTPEngine] else []) ++
  [CCoordinator].
Definition shutdown (decode : string → option (gmap string jval)) (now t : Time) (g : Gateway)
    : outcome (list component * Gateway) :=
  match Coordinator.Stop decode now t (g_world g, g_coordinator g) with
  | (r, (w, c)) =>
      r ≫= λ _, mret (stopped_components (g_ws g) (g_sip g) (g_ami g) (g_rtp g),
        mkGateway w (g_files g) c (g_rtp g) (g_ami g) (g_proxy g) (g_sip g) (g_transports g)
          (g_ws g) (g_patterns g) (g_status g) [])
  end.

(** ** Facts *)

(** A node that finds nothing saved, can see its own address, and whose first
    attempt at the lead takes less than the lease. *)
Record fresh_node (cfg : Config.Config) (env : Env) : Prop := {
  fn_file : PersistPath (MemoryStorage cfg) = "" ∨
            en_files env !! PersistPath (MemoryStorage cfg) = None;
  fn_ip : en_ip env ≠ None;
  fn_clock : 0 < ck_5 (en_acquire env) ∧ ck_6 (en_acquire env) <= ck_5 (en_acquire env) }.

Lemma make_storage_fresh cfg env : fresh_node cfg env →
  make_storage cfg env = Done (new_world (storage_config cfg) (en_heap env), en_files env).
Proof.
  intros [Hf _ _]. unfold make_storage, Persist.Open.
  assert (storage_config cfg = Storage.mkMemoryConfig (MaxKeys (MemoryStorage cfg))
    (duration_of (CleanupIntervalSeconds (MemoryStorage cfg)) Second)
    (PersistPath (MemoryStorage cfg)) false 0) as -> by (unfold storage_config; by destruct (redis_Enabled _)).
  simpl. case_decide as Hp; [done|]. destruct Hf as [Hf|Hf]; [done|].
  unfold loadFromFile, new_world. simpl. unfold mbind at 1, GoM_bind at 1. simpl.
  unfold get_state, mbind, GoM_bind. simpl. by rewrite Hf.
Qed.

Lemma storage_config_shards cfg :
  cfg_ShardCount (storage_config cfg) = 0 ∧ cfg_PersistOnShutdown (storage_config cfg) = false.
Proof. unfold storage_config. by destruct (redis_Enabled _). Qed.

Lemma new_world_empty config heap k : mem_view (new_world config heap) k = None.
Proof.
  unfold mem_view, shl, new_world, NewMemoryStorage. simpl.
  destruct (replicate _ _ !! _) as [m|] eqn:Hm; simpl; [|done].
  by apply lookup_replicate in Hm as [-> _].
Qed.

(** The lease of the coordinator: the document's, or its own default when the
    product overflowed to something that is not positive. *)
Definition lease (cfg : Config.Config) : Duration :=
  if GetLeaseTimeout cfg <=? 0 then 15 * Second else GetLeaseTimeout cfg.

Lemma lease_pos cfg : 0 < lease cfg.
Proof. unfold lease, Second. destruct (Z.leb_spec (GetLeaseTimeout cfg) 0); lia. Qed.

Lemma register_components_fields c :
  isLeader (register_components c) = isLeader c ∧
  leaseExpiration (register_components c) = leaseExpiration c ∧
  instanceID (register_components c) = instanceID c ∧
  leaseTimeout (register_components c) = leaseTimeout c ∧
  ∀ name, name ∈ ["rtpengine"; "ami"; "sip"; "websocket"] →
    leadership (register_components c) !! name = Some false.
Proof.
  destruct c as [id b le ls ch hb lt]. do 4 (split; [done|]).
  intros name Hn. simpl. rewrite !elem_of_cons, elem_of_nil in Hn.
  destruct_or!; subst; try done; by simplify_map_eq.
Qed.

Lemma make_coordinator_fresh cfg env w :
  fresh_node cfg env → shards_wf w → mem_view w leaderKey = None →
  ∃ w' c, make_coordinator cfg env w = Done (Ok (w', c)) ∧ isLeader c = true ∧
    leaseExpiration c = ck_7 (en_acquire env) + lease cfg ∧
    own_record (ck_5 (en_acquire env) + lease cfg) w' c ∧ leaseTimeout c = lease cfg ∧
    ∀ name, name ∈ ["rtpengine"; "ami"; "sip"; "websocket"] → leadership c !! name = Some false.
Proof.
  intros [_ Hip [Hc5 Hc6]] Hw Hv. unfold make_coordinator, NewCoordinator. simpl.
  destruct (en_ip env) as [ip|]; [|done]. destruct (en_register env) as [[t1 t2] t3].
  fold (lease cfg). set (c0 := Build_Coordinator _ _ _ _ _ _ _) || set (c0 := mkCoordinator _ _ _ _ _ _ _).
  pose proof (lease_pos cfg).
  destruct (start_owns (H0 := mem_KVLaws) (en_decode env) ip t1 t2 t3 (en_acquire env) w c0 Hw Hv Hc5)
    as (w'&c&->&Ho&He&Hlt&_&_); [simpl; lia..|].
  destruct (register_components_fields c) as (E1&E2&E3&E4&E5).
  exists w', (register_components c). unfold own_record in *. rewrite E1, E2, E3, E4.
  destruct Ho as (?&Hl&?). by split_and!.
Qed.

(** What ends the program before it waits for a signal. *)
Definition usable_client (c : AMIClient.Config) : bool :=
  negb (bool_decide (ac_Address c = "")) && negb (bool_decide (ac_Username c = ""))
  && negb (bool_decide (ac_Secret c = "")).
Definition startup_error (cfg : Config.Config) (env : Env) : option string :=
  if enabled cfg EnableRTP
     && negb (existsb (en_resolves env) (rm_Engines (ToRTPEngineManagerConfig cfg)))
  then Some "failed to create RTPEngine manager"
  else if enabled cfg EnableAMI
          && negb (existsb usable_client (am_Clients (ToAsteriskManagerConfig cfg)))
  then Some "failed to create AMI manager"
  else if enabled cfg EnableSIP && negb (en_sip_stack env) then Some "failed to create SIP proxy"
  else if enabled cfg EnableSIP && negb (en_udp env) then Some "failed to create UDP transport"
  else None.

Lemma make_rtp_spec cfg env :
  if enabled cfg EnableRTP
     && negb (existsb (en_resolves env) (rm_Engines (ToRTPEngineManagerConfig cfg)))
  then make_rtp cfg env = Err "failed to create RTPEngine manager"
  else ∃ o, make_rtp cfg env = Ok o ∧ is_some o = enabled cfg EnableRTP.
Proof.
  unfold make_rtp. set (es := rm_Engines (ToRTPEngineManagerConfig cfg)). clearbody es.
  destruct (enabled cfg EnableRTP); [|by eexists]. cbn [andb].
  assert (new_engines ((λ ec, (en_resolves env ec, ec)) <$> es) (en_now env) = [] ↔
    existsb (en_resolves env) es = false) as Hnil.
  { induction es as [|e es IH]; [done|]. simpl. unfold new_engines in *. simpl.
    unfold RTPEngine.New at 1. simpl. destruct (en_resolves env e); simpl; [done|]. apply IH. }
  destruct es as [|e es]; [done|]. unfold RTPManager.NewManager. cbn [fmap list_fmap] in *.
  destruct (existsb (en_resolves env) (e :: es)) eqn:Hex; simpl negb; cbn match.
  - destruct (new_engines _ _) as [|x l]; [discriminate (proj1 Hnil eq_refl)|]. by eexists.
  - by rewrite (proj2 Hnil eq_refl).
Qed.

Lemma New_usable c t : to_option (AMIClient.New c t) = None ↔ usable_client c = false.
Proof.
  unfold AMIClient.New, usable_client.
  repeat case_decide; rewrite ?bool_decide_true, ?bool_decide_false by done; simpl;
    rewrite ?andb_false_r; split; congruence.
Qed.

Lemma make_ami_spec cfg env :
  if enabled cfg EnableAMI
     && negb (existsb usable_client (am_Clients (ToAsteriskManagerConfig cfg)))
  then make_ami cfg env = Err "failed to create AMI manager"
  else ∃ o p, make_ami cfg env = Ok (o, p) ∧ is_some o = enabled cfg EnableAMI.
Proof.
  unfold make_ami, make_ami_manager. set (ac := ToAsteriskManagerConfig cfg). clearbody ac.
  destruct (enabled cfg EnableAMI); [|by do 2 eexists]. cbn [andb].
  assert (omap to_option ((λ c, AMIClient.New c (en_now env)) <$> am_Clients ac) = [] ↔
    existsb usable_client (am_Clients ac) = false) as Hnil.
  { induction (am_Clients ac) as [|c cs IH]; [done|]. simpl.
    pose proof (New_usable c (en_now env)) as Hu.
    destruct (to_option (AMIClient.New c (en_now env))), (usable_client c); simpl.
    - by split.
    - discriminate (proj2 Hu eq_refl).
    - discriminate (proj1 Hu eq_refl).
    - exact IH. }
  unfold AMIManager.NewManager. destruct (am_Clients ac) as [|c cs] eqn:Hcs; [done|].
  rewrite decide_False by done.
  destruct (existsb usable_client (c :: cs)); simpl negb; cbn match.
  - destruct (omap _ _) as [|x l]; [discriminate (proj1 Hnil eq_refl)|]. by do 2 eexists.
  - by rewrite (proj2 Hnil eq_refl).
Qed.

Lemma make_sip_spec cfg env :
  if enabled cfg EnableSIP && negb (en_sip_stack env)
  then make_sip cfg env = Err "failed to create SIP proxy"
  else if enabled cfg EnableSIP && negb (en_udp env)
  then make_sip cfg env = Err "failed to create UDP transport"
  else ∃ o, make_sip cfg env = Ok (o, if enabled cfg EnableSIP then 1%nat else 0%nat) ∧
            is_some o = enabled cfg EnableSIP || en_sip_stack env.
Proof.
  unfold make_sip. destruct (enabled cfg EnableSIP), (en_sip_stack env), (en_udp env); simpl;
    try done; by eexists.
Qed.

Lemma make_websocket_spec cfg env w c rtp ami :
  ∃ ws patterns status, make_websocket cfg env w c rtp ami = Done (ws, patterns, status) ∧
    start_patterns cfg (is_some ws) patterns
      = Done (if enabled cfg EnableWebSocket then ["/"; "/health"; "/status"] else []) ∧
    is_some ws = enabled cfg EnableWebSocket ∧
    (∀ h, status = Some h → healthMonitor h = None).
Proof.
  unfold make_websocket, start_patterns. destruct (enabled cfg EnableWebSocket); simpl.
  - do 3 eexists. split; [done|]. split; [done|]. split; [done|]. by intros h [= <-].
  - do 3 eexists. split; [done|]. by split; [|split].
Qed.

(** The components that run, in the order of their start. *)
Definition to_start (cfg : Config.Config) : list component :=
  (if enabled cfg EnableRTP then [CRTPEngine] else []) ++
  (if enabled cfg EnableAMI then [CAMI] else []) ++
  (if enabled cfg EnableSIP then [CSIP] else []) ++
  (if enabled cfg EnableWebSocket then [CWebSocket] else []).

Record running (cfg : Config.Config) (env : Env) (g : Gateway) : Prop := {
  rn_rtp : is_some (g_rtp g) = enabled cfg EnableRTP;
  rn_ami : is_some (g_ami g) = enabled cfg EnableAMI;
  rn_sip : is_some (g_sip g) = enabled cfg EnableSIP || en_sip_stack env;
  rn_transports : g_transports g = if enabled cfg EnableSIP then 1%nat else 0%nat;
  rn_websocket : is_some (g_ws g) = enabled cfg EnableWebSocket;
  rn_started : g_started g = to_start cfg;
  rn_patterns : g_patterns g =
    if enabled cfg EnableWebSocket then ["/"; "/health"; "/status"] else [];
  rn_status h : g_status g = Some h → healthMonitor h = None;
  rn_files : g_files g = en_files env;
  rn_leader : isLeader (g_coordinator g) = true ∧
    leaseExpiration (g_coordinator g) = ck_7 (en_acquire env) + lease cfg;
  rn_record : own_record (ck_5 (en_acquire env) + lease cfg) (g_world g) (g_coordinator g) ∧
    leaseTimeout (g_coordinator g) = lease cfg;
  rn_components name : name ∈ ["rtpengine"; "ami"; "sip"; "websocket"] →
    leadership (g_coordinator g) !! name = Some false }.

Lemma startup_spec cfg env : fresh_node cfg env →
  match startup_error cfg env with
  | Some e => startup cfg env = Done (Err e)
  | None => ∃ g, startup cfg env = Done (Ok g) ∧ running cfg env g
  end.
Proof.
  intros Hf. unfold startup. rewrite (make_storage_fresh _ _ Hf).
  destruct (storage_config_shards cfg) as [Hsc _].
  destruct (make_coordinator_fresh cfg env (new_world (storage_config cfg) (en_heap env)) Hf)
    as (w&c&Ec&Hlead&Hlease&Hown&Hlt&Hcomp).
  { apply new_world_inv. left. by rewrite Hsc. }
  { apply new_world_empty. }
  unfold startup_error. cbn [mbind outcome_bind]. rewrite Ec. cbn [mbind outcome_bind].
  pose proof (make_rtp_spec cfg env) as Hr. destruct (enabled cfg EnableRTP && _).
  { by rewrite Hr. }
  destruct Hr as (rtp&->&Hrtp). pose proof (make_ami_spec cfg env) as Ha.
  destruct (enabled cfg EnableAMI && _). { by rewrite Ha. }
  destruct Ha as (ami&proxy&->&Hami). pose proof (make_sip_spec cfg env) as Hs.
  destruct (enabled cfg EnableSIP && negb (en_sip_stack env)). { by rewrite Hs. }
  destruct (enabled cfg EnableSIP && negb (en_udp env)). { by rewrite Hs. }
  destruct Hs as (sip&->&Hsip).
  destruct (make_websocket_spec cfg env w c (is_some rtp) (is_some ami))
    as (ws&patterns&status&Ew&Hp&Hws&Hst).
  eexists. split.
  - rewrite Ew. cbn [mbind outcome_bind]. rewrite Hp. reflexivity.
  - split; simpl; try done.
    unfold start_components, to_start. rewrite Hrtp, Hami, Hsip, Hws.
    by destruct (enabled cfg EnableRTP), (enabled cfg EnableAMI), (enabled cfg EnableSIP),
      (enabled cfg EnableWebSocket), (en_sip_stack env).
Qed.

(** C32. The start of a fresh node ends early for one of four reasons, tested in
    this order: no RTPEngine address resolves, no AMI client has an address, a
    user and a secret, the SIP stack or its UDP socket is not to be had - each
    only when the component is on. Otherwise the program runs: outside testing
    mode all four components are started, RTPEngine first and the WebSocket
    server last; in testing mode those that are on. The endpoints are
    registered once each, no health monitor is attached to the status, and the
    files are as they were. *)
Theorem startup_outcome (cfg : Config.Config) (env : Env) (Hf : fresh_node cfg env) :
  match startup_error cfg env with
  | Some e => startup cfg env = Done (Err e)
  | None =>
      ∃ g, startup cfg env = Done (Ok g) ∧ g_started g = to_start cfg ∧
        is_some (g_rtp g) = enabled cfg EnableRTP ∧ is_some (g_ami g) = enabled cfg EnableAMI ∧
        is_some (g_ws g) = enabled cfg EnableWebSocket ∧
        NoDup (g_patterns g) ∧ (∀ h, g_status g = Some h → healthMonitor h = None) ∧
        g_files g = en_files env
  end.
Proof.
  pose proof (startup_spec cfg env Hf) as Hs. destruct (startup_error cfg env); [done|].
  destruct Hs as (g&E&[]). exists g. repeat (split; [done|]). split; [|done].
  rewrite rn_patterns0. destruct (enabled cfg EnableWebSocket); [by_decide|constructor].
Qed.

(** The settings of a document that a duration can hold. *)
Lemma lease_exact cfg : well_formed cfg → LeaseTimeout (HighAvailability cfg) <= max_ms →
  lease cfg = LeaseTimeout (HighAvailability cfg) * Millisecond.
Proof.
  intros Hw Hm. destruct (wf_ha _ Hw) as [_ Hl]. unfold lease, GetLeaseTimeout.
  rewrite (duration_or_default _ _ _ max_ms) by (done || lia || by vm_compute).
  by rewrite (proj2 (Z.leb_gt _ _)) by lia.
Qed.

(** The first node leads from its start on: a program started from a file,
    on a fresh node, is the leader when it begins to run, and stays it for
    exactly the lease of the document (seven seconds when it gives none) from
    the last clock reading of its first attempt. It does not lead any of its
    four components yet: those follow at the first heartbeat. *)
Theorem first_node_leads (ReadFile : string → result string string)
    (Unmarshal : string → result string Config.Config) (path : string) (env : Env)
    (data : string) (doc : Config.Config)
    (Hread : ReadFile path = Ok data) (Hdoc : Unmarshal data = Ok doc)
    (Hf : fresh_node doc env) (He : startup_error (set_defaults doc) env = None)
    (Hlease : LeaseTimeout (HighAvailability doc) <= max_ms) :
  ∃ g, main ReadFile Unmarshal path env = Done (Ok g) ∧
    ∀ now, IsLeader now None (g_coordinator g) =
        Before now (ck_7 (en_acquire env)
          + or_default 7000 (LeaseTimeout (HighAvailability doc)) * Millisecond) ∧
      ∀ name, name ∈ ["rtpengine"; "ami"; "sip"; "websocket"] →
        IsComponentLeader now name (g_coordinator g) = false.
Proof.
  assert (fresh_node (set_defaults doc) env) as Hf'.
  { destruct Hf as [H1 H2 H3]. split; [|done|done].
    destruct doc as [lv lg wt rd [? ? ? ? ?] rtp ast sip ws met ha tm]. exact H1. }
  pose proof (startup_spec (set_defaults doc) env Hf') as Hs. rewrite He in Hs.
  destruct Hs as (g&E&Hrun). exists g. split.
  { unfold main, LoadConfig. by rewrite Hread, Hdoc. }
  intros now. destruct (rn_leader _ _ _ Hrun) as [Hl Hx]. split.
  - unfold IsLeader. rewrite Hl, Hx, lease_exact.
    + simpl. by destruct doc as [lv lg wt rd mem rtp ast sip ws met [? ? ? ?] tm].
    + apply set_defaults_wf.
    + destruct doc as [lv lg wt rd mem rtp ast sip ws met [? ? ? ?] tm]. simpl in *.
      unfold or_default. case_match; [by vm_compute|done].
  - intros name Hn. unfold IsComponentLeader. by rewrite (rn_components _ _ _ Hrun name Hn).
Qed.

(** The storage never has more than the default number of shards, and never
    saves when it is closed, whatever the document says. *)
Lemma storage_settings_dropped cfg :
  shardCount (NewMemoryStorage (storage_config cfg)) = 32 ∧
  persistOnShutdown (NewMemoryStorage (storage_config cfg)) = false.
Proof. unfold storage_config. by destruct (redis_Enabled _). Qed.

(** The SIP proxy that stands in for one that is off takes messages like any
    other. *)
Lemma disabled_proxy_takes_messages env network clientAddr :
  skip_by_network (mock_sip_config env) network = false ∧
  skip_by_address (mock_sip_config env) clientAddr = false.
Proof.
  unfold skip_by_network, skip_by_address, mock_sip_config.
  destruct (en_parse_addr env "127.0.0.1:0"). by destruct (is_websocket network), (dashed clientAddr).
Qed.
End Gateway.

(** ** Instances *)

Definition set_clients (cs : list AsteriskClientConfig) (c : Config.Config) : Config.Config :=
  let '(mkConfig lv lg wt rd mem rtp (mkAsteriskConfig _ b e d ee f g h i j k) sip ws met ha tm) := c in
  mkConfig lv lg wt rd mem rtp (mkAsteriskConfig cs b e d ee f g h i j k) sip ws met ha tm.
Definition sample_document : Config.Config :=
  set_clients [mkAsteriskClientConfig "10.0.0.9:5038" "admin" "secret" 2000 (mkBreakerSettings 3 30 1)]
    (set_engines [sample_engine] empty_document).
Definition sample_env (udp : bool) : Env (H := plain_json) :=
  mkEnv (H := plain_json) ∅ (λ _, ODialog (mkDialog "" "" "" "" [] 0 0 "" "" "" 0 0 0 ∅)) true (λ _ _, 5)
    (λ _ i, i) (Some "node-1") 7 (Some "10.0.0.1") (5, 5, 5) (at_instant 5) (λ _, None)
    (λ _, true) (λ _, true) (λ _, ("127.0.0.1", 0)) true udp "dev" 5.

Lemma sample_fresh cfg udp : fresh_node (H := plain_json) cfg (sample_env udp).
Proof. split; [by right|done|done]. Qed.

(** Without its UDP socket the program ends; with it everything starts. *)
Lemma startup_outcome_witness :
  startup (H := plain_json) sample_document (sample_env false)
    = Done (Err "failed to create UDP transport") ∧
  ∃ g, startup (H := plain_json) sample_document (sample_env true) = Done (Ok g) ∧
       g_started g = [CRTPEngine; CAMI; CSIP; CWebSocket].
Proof.
  split.
  - exact (startup_outcome (H := plain_json) sample_document (sample_env false) (sample_fresh _ _)).
  - destruct (startup_outcome (H := plain_json) sample_document (sample_env true) (sample_fresh _ _))
      as (g&E&Hs&_).
    exists g. split; [exact E|exact Hs].
Defined.

Lemma first_node_leads_witness :
  ∃ g, main (H := plain_json) (λ _, Ok "document") (λ _, Ok sample_document) "config.yaml" (sample_env true)
      = Done (Ok g) ∧
    IsLeader 6999999999 None (g_coordinator g) = true ∧
    IsLeader 7000000005 None (g_coordinator g) = false.
Proof.
  destruct (first_node_leads (H := plain_json) (λ _, Ok "document") (λ _, Ok sample_document) "config.yaml"
    (sample_env true) "document" sample_document eq_refl eq_refl (sample_fresh _ _)) as (g&E&Hl).
  - by vm_compute.
  - vm_compute. discriminate.
  - exists g. split; [exact E|]. split.
    + rewrite (proj1 (Hl 6999999999)). by vm_compute.
    + rewrite (proj1 (Hl 7000000005)). by vm_compute.
Defined.
