(* ===== verification/Metrics.v ===== *)
(** * metrics/metrics.go and common/metrics.go: Prometheus metrics

    The package variables of package metrics with their one initialisation, the
    setters that write to them, and the metrics server of package common. The
    client library of Prometheus is third-party code: a class of its operations
    and the documented laws the code relies on; the samples are what a scrape
    exports. A gauge is a float64; the numbers the code puts into one are
    integers, which are exact up to 2^53, and the laws say no more. *)

From stdpp Require Import pretty sets.
From S2P Require Import Prelude.

(** ** The client library *)

Record Desc : Type := mkDesc { d_name : string; d_labels : list string }.

(** The data model of Prometheus: names of metrics and of labels. *)
Definition name_start (a : Ascii.ascii) : bool :=
  let n := Z.of_nat (Ascii.nat_of_ascii a) in
  ((97 <=? n) && (n <=? 122)) || ((65 <=? n) && (n <=? 90)) || (n =? 95).
Definition name_char (a : Ascii.ascii) : bool :=
  let n := Z.of_nat (Ascii.nat_of_ascii a) in name_start a || ((48 <=? n) && (n <=? 57)).
Definition valid_name (s : string) : bool :=
  match String.list_ascii_of_string s with
  | [] => false
  | a :: l => name_start a && forallb name_char l
  end.
Definition valid_desc (d : Desc) : bool :=
  valid_name (d_name d) && forallb valid_name (d_labels d)
  && forallb (λ l, negb (String.prefix "__" l)) (d_labels d) && bool_decide (NoDup (d_labels d)).

(** What a call does to one series. *)
Inductive op : Type :=
| Set_ (z : Z) | Inc | Dec | Observe (x : SpecFloat.spec_float).

(** The sample of the series after it; of a histogram, the number of its
    observations. *)
Definition result_of (o : op) (x : Z) : Z :=
  match o with Set_ z => z | Inc | Observe _ => x + 1 | Dec => x - 1 end.

Class Prometheus : Type := {
  Registry : Type;
  NewRegistry : Registry;
  (* [None] when it panics *)
  MustRegister : list Desc → Registry → option Registry;
  registered : Registry → list string;
  (* what [NewGoCollector] and [NewProcessCollector] describe *)
  GoCollector : list Desc;
  ProcessCollector : list Desc;
  Vec : Type;
  NewVec : Desc → Vec;
  valid_label : string → bool;
  (* [WithLabelValues] panics for labels that are not accepted *)
  accepts : Vec → list string → bool;
  apply : op → list string → Vec → Vec;
  sample : Vec → list string → option Z
}.

(** The integers that a float64 holds. *)
Definition is_exact (z : Z) : Prop := - 2 ^ 53 <= z <= 2 ^ 53.

Class PrometheusLaws `{Prometheus} : Prop := {
  registered_new : registered NewRegistry = [];
  MustRegister_ok ds r :
    Forall valid_desc ds → NoDup (d_name <$> ds) → (∀ d, d ∈ ds → d_name d ∉ registered r) →
    ∃ r', MustRegister ds r = Some r' ∧
      ∀ n, n ∈ registered r' ↔ n ∈ (d_name <$> ds) ∨ n ∈ registered r;
  MustRegister_duplicate ds r d :
    d ∈ ds → d_name d ∈ registered r → MustRegister ds r = None;
  GoCollector_names : Forall valid_desc GoCollector ∧ NoDup (d_name <$> GoCollector) ∧
    Forall (λ d, String.prefix "go_" (d_name d)) GoCollector;
  ProcessCollector_names : Forall valid_desc ProcessCollector ∧ NoDup (d_name <$> ProcessCollector) ∧
    Forall (λ d, String.prefix "process_" (d_name d)) ProcessCollector;
  accepts_new d ls :
    accepts (NewVec d) ls = bool_decide (length ls = length (d_labels d)) && forallb valid_label ls;
  accepts_apply o ls v ls' : accepts (apply o ls v) ls' = accepts v ls';
  sample_new d ls : sample (NewVec d) ls = None;
  sample_apply o ls v : is_exact (result_of o (default 0 (sample v ls))) →
    sample (apply o ls v) ls = Some (result_of o (default 0 (sample v ls)));
  sample_other o ls v ls' : ls ≠ ls' → sample (apply o ls v) ls' = sample v ls'
}.

(** ** Package metrics *)

Inductive variable : Type :=
| leaderStatus | backendHealth | backendActive | failoverEvents | circuitBreakerState
| circuitBreakerChanges | connectionCount | storageOperations | storageErrors
| storageOperationTime.
#[export] Instance variable_eq_dec : EqDecision variable.
Proof. solve_decision. Defined.

(** The options of each vector, in the order of their registration. *)
Definition desc_of (v : variable) : Desc :=
  match v with
  | leaderStatus => mkDesc "gateway_coordinator_leader_status" ["component"; "node_id"]
  | backendHealth => mkDesc "gateway_backend_health" ["type"; "address"; "node_id"]
  | backendActive => mkDesc "gateway_backend_active" ["type"; "address"; "node_id"]
  | failoverEvents =>
      mkDesc "gateway_failover_total" ["component"; "from"; "to"; "reason"; "node_id"]
  | circuitBreakerState => mkDesc "gateway_circuitbreaker_state" ["name"; "node_id"]
  | circuitBreakerChanges =>
      mkDesc "gateway_circuitbreaker_changes_total" ["name"; "from_state"; "to_state"; "node_id"]
  | connectionCount => mkDesc "gateway_connections" ["type"; "node_id"]
  | storageOperations => mkDesc "gateway_storage_operations_total" ["operation"; "type"; "node_id"]
  | storageErrors => mkDesc "gateway_storage_errors_total" ["operation"; "type"; "node_id"]
  | storageOperationTime =>
      mkDesc "gateway_storage_operation_seconds" ["operation"; "type"; "node_id"]
  end.
Definition variables : list variable :=
  [leaderStatus; backendHealth; backendActive; failoverEvents; circuitBreakerState;
   circuitBreakerChanges; connectionCount; storageOperations; storageErrors; storageOperationTime].

Section Metrics.
Context `{Prometheus}.

(** The variables of the package; a vector is [nil] before the initialisation. *)
Record Metrics : Type := mkMetrics {
  registry : option Registry;
  vars : variable → option Vec;
  metricsOnce : bool;
  globalNodeID : string; globalVersion : string }.
Definition unset : Metrics := mkMetrics None (λ _, None) false "" "".

Definition set_registry (r : Registry) (m : Metrics) : Metrics :=
  let '(mkMetrics _ vs o n v) := m in mkMetrics (Some r) vs o n v.
Definition set_var (x : variable) (vec : Vec) (m : Metrics) : Metrics :=
  let '(mkMetrics r vs o n v) := m in mkMetrics r (<[x := Some vec]> vs) o n v.
Definition set_once (m : Metrics) : Metrics :=
  let '(mkMetrics r vs _ n v) := m in mkMetrics r vs true n v.
Definition set_globals (version nodeID : string) (m : Metrics) : Metrics :=
  let '(mkMetrics r vs o _ _) := m in mkMetrics r vs o nodeID version.

Definition must_register (ds : list Desc) : GoM Metrics unit :=
  m ← get_state;
  match registry m with
  | None => lift (Panic NilDereference)
  | Some r => match MustRegister ds r with
              | Some r => modify (set_registry r)
              | None => lift (Panic LibraryPanic)
              end
  end.
Definition make_vec (x : variable) : GoM Metrics unit :=
  modify (set_var x (NewVec (desc_of x)));; must_register [desc_of x].
Fixpoint make_vecs (xs : list variable) : GoM Metrics unit :=
  match xs with [] => mret tt | x :: xs => make_vec x;; make_vecs xs end.

(** [sync.Once] counts a function that panics as done. *)
Definition InitMetrics (version nodeID : string) : GoM Metrics unit :=
  modify (set_globals version nodeID);;
  m ← get_state;
  if metricsOnce m then mret tt
  else modify set_once;; modify (set_registry NewRegistry);; make_vecs variables.

(** [x.WithLabelValues(ls...).Op()]. *)
Definition with_labels (x : variable) (ls : list string) (o : op) : GoM Metrics unit :=
  m ← get_state;
  match vars m x with
  | None => lift (Panic NilDereference)
  | Some vec => if accepts vec ls then modify (set_var x (apply o ls vec))
                else lift (Panic LibraryPanic)
  end.

Definition flag (b : bool) : Z := if b then 1 else 0.
(** [d.Seconds()]. *)
Definition seconds (d : Duration) : SpecFloat.spec_float :=
  f_add (float64 (Z.quot d Second)) (f_div (float64 (Z.rem d Second)) (float64 Second)).

Definition SetLeaderStatus (isLeader : bool) : GoM Metrics unit :=
  m ← get_state;
  with_labels leaderStatus ["gateway"; globalNodeID m] (Set_ (flag isLeader)).
Definition SetBackendHealth (backendType address nodeID : string) (isHealthy : bool) : GoM Metrics unit :=
  with_labels backendHealth [backendType; address; nodeID] (Set_ (flag isHealthy)).
Definition SetBackendActive (backendType address nodeID : string) (isActive : bool) : GoM Metrics unit :=
  with_labels backendActive [backendType; address; nodeID] (Set_ (flag isActive)).
Definition RecordFailoverEvent (component from to reason nodeID : string) : GoM Metrics unit :=
  with_labels failoverEvents [component; from; to; reason; nodeID] Inc.
Definition SetCircuitBreakerState (name nodeID : string) (state : Z) : GoM Metrics unit :=
  with_labels circuitBreakerState [name; nodeID] (Set_ state).
Definition RecordCircuitBreakerChange (name fromState toState nodeID : string) : GoM Metrics unit :=
  with_labels circuitBreakerChanges [name; fromState; toState; nodeID] Inc.
Definition SetConnectionCount (connectionType nodeID : string) (count : Z) : GoM Metrics unit :=
  with_labels connectionCount [connectionType; nodeID] (Set_ count).
Definition RecordStorageOperation (operation storageType nodeID : string) : GoM Metrics unit :=
  with_labels storageOperations [operation; storageType; nodeID] Inc.
Definition RecordStorageError (operation storageType nodeID : string) : GoM Metrics unit :=
  with_labels storageErrors [operation; storageType; nodeID] Inc.
Definition ObserveStorageOperationDuration (operation storageType nodeID : string) (d : Duration)
    : GoM Metrics unit :=
  with_labels storageOperationTime [operation; storageType; nodeID] (Observe (seconds d)).

(** ** The pages of the metrics server

    [HandlerFor] with the [registry] of the moment [StartMetricsServer] is
    called; the status page pastes the node's name into a JSON text. *)
Definition status_page (timestamp : string) (m : Metrics) : string :=
  let q := String (byte 34) EmptyString in
  "{" +:+ q +:+ "status" +:+ q +:+ ":" +:+ q +:+ "active" +:+ q +:+ ", " +:+ q +:+ "node_id" +:+ q
  +:+ ":" +:+ q +:+ globalNodeID m +:+ q +:+ ", " +:+ q +:+ "timestamp" +:+ q +:+ ":" +:+ q
  +:+ timestamp +:+ q +:+ "}".
Inductive page : Type := MetricsPage (r : option Registry) | HealthPage | StatusPage (body : string).
Definition metrics_page (path timestamp : string) (served : option Registry) (m : Metrics) : option page :=
  if decide (path = "/metrics") then Some (MetricsPage served)
  else if decide (path = "/health") then Some HealthPage
  else if decide (path = "/status") then Some (StatusPage (status_page timestamp m))
  else None.
Definition StartMetricsServer (m : Metrics) : option Registry := registry m.

(** ** A history of calls *)

Inductive call : Type :=
| CInit (version nodeID : string)
| CLeader (isLeader : bool)
| CHealth (backendType address nodeID : string) (isHealthy : bool)
| CActive (backendType address nodeID : string) (isActive : bool)
| CFailover (component from to reason nodeID : string)
| CBreakerState (name nodeID : string) (state : Z)
| CBreakerChange (name fromState toState nodeID : string)
| CConnections (connectionType nodeID : string) (count : Z)
| COperation (operation storageType nodeID : string)
| CError (operation storageType nodeID : string)
| CDuration (operation storageType nodeID : string) (d : Duration).

Definition do_call (c : call) : GoM Metrics unit :=
  match c with
  | CInit version nodeID => InitMetrics version nodeID
  | CLeader b => SetLeaderStatus b
  | CHealth t a n b => SetBackendHealth t a n b
  | CActive t a n b => SetBackendActive t a n b
  | CFailover k a b r n => RecordFailoverEvent k a b r n
  | CBreakerState k n s => SetCircuitBreakerState k n s
  | CBreakerChange k a b n => RecordCircuitBreakerChange k a b n
  | CConnections t n z => SetConnectionCount t n z
  | COperation o t n => RecordStorageOperation o t n
  | CError o t n => RecordStorageError o t n
  | CDuration o t n d => ObserveStorageOperationDuration o t n d
  end.
Fixpoint do_calls (h : list call) : GoM Metrics unit :=
  match h with [] => mret tt | c :: h => do_call c;; do_calls h end.
(** ** common/metrics.go: MetricsServer

    A plain gauge, counter or histogram is a vector without labels. *)

Inductive metric : Type := callsActive | callsTotal | callDuration | errors | rtpSessions | sipTransactions.
#[global] Instance metric_eq_dec : EqDecision metric.
Proof. solve_decision. Defined.
Definition server_desc (x : metric) : Desc :=
  match x with
  | callsActive => mkDesc "gateway_calls_active" []
  | callsTotal => mkDesc "gateway_calls_total" []
  | callDuration => mkDesc "gateway_call_duration_seconds" []
  | errors => mkDesc "gateway_errors_total" ["type"]
  | rtpSessions => mkDesc "gateway_rtp_sessions" []
  | sipTransactions => mkDesc "gateway_sip_transactions" []
  end.

Record MetricsServer : Type := mkServer {
  ms_registry : Registry; ms_addr : string; collectors : list (list Desc); fields : metric → Vec }.

Fixpoint register_all (dss : list (list Desc)) (r : Registry) : outcome Registry :=
  match dss with
  | [] => Done r
  | ds :: dss => match MustRegister ds r with Some r => register_all dss r | None => Panic LibraryPanic end
  end.

(** [logger] is the one that is passed, or the default when that can be made. *)
Definition NewMetricsServer (addr : string) (logger : bool) : outcome (result string MetricsServer) :=
  if negb logger then Done (Err "no logger")
  else
    r ← register_all
      (((λ x, [server_desc x]) <$> [callsActive; callsTotal; callDuration; errors; rtpSessions; sipTransactions])
       ++ [GoCollector; ProcessCollector]) NewRegistry;
    Done (Ok (mkServer r addr [] (λ x, NewVec (server_desc x)))).

(** The mutex is released on the way out, also by a panic. *)
Definition RegisterCollector (collector : list Desc) : GoM MetricsServer unit :=
  m ← get_state;
  match MustRegister collector (ms_registry m) with
  | Some r => put_state (mkServer r (ms_addr m) (collectors m ++ [collector]) (fields m))
  | None => lift (Panic LibraryPanic)
  end.

Definition on_field (x : metric) (ls : list string) (o : op) : GoM MetricsServer unit :=
  modify (λ m, mkServer (ms_registry m) (ms_addr m) (collectors m)
                 (<[x := apply o ls (fields m x)]> (fields m))).
Definition IncrementCallsActive : GoM MetricsServer unit := on_field callsActive [] Inc.
Definition DecrementCallsActive : GoM MetricsServer unit := on_field callsActive [] Dec.
Definition IncrementCallsTotal : GoM MetricsServer unit := on_field callsTotal [] Inc.
Definition ObserveCallDuration (d : Duration) : GoM MetricsServer unit :=
  on_field callDuration [] (Observe (seconds d)).
Definition IncrementError (errorType : string) : GoM MetricsServer unit :=
  m ← get_state;
  if accepts (fields m errors) [errorType] then on_field errors [errorType] Inc
  else lift (Panic LibraryPanic).
Definition SetRTPSessions (count : Z) : GoM MetricsServer unit := on_field rtpSessions [] (Set_ count).
Definition SetSIPTransactions (count : Z) : GoM MetricsServer unit :=
  on_field sipTransactions [] (Set_ count).
End Metrics.

(** ** Facts *)

Section Facts.
Context `{Prometheus} {laws : PrometheusLaws}.

Abbreviation event := (variable * list string * op)%type (only parsing).

(** What a call does to which series; the leader's carries the name of the node
    at that moment. *)
Definition effect (node : string) (c : call) : option event :=
  match c with
  | CInit _ _ => None
  | CLeader b => Some (leaderStatus, ["gateway"; node], Set_ (flag b))
  | CHealth t a n b => Some (backendHealth, [t; a; n], Set_ (flag b))
  | CActive t a n b => Some (backendActive, [t; a; n], Set_ (flag b))
  | CFailover k a b r n => Some (failoverEvents, [k; a; b; r; n], Inc)
  | CBreakerState k n s => Some (circuitBreakerState, [k; n], Set_ s)
  | CBreakerChange k a b n => Some (circuitBreakerChanges, [k; a; b; n], Inc)
  | CConnections t n z => Some (connectionCount, [t; n], Set_ z)
  | COperation o t n => Some (storageOperations, [o; t; n], Inc)
  | CError o t n => Some (storageErrors, [o; t; n], Inc)
  | CDuration o t n d => Some (storageOperationTime, [o; t; n], Observe (seconds d))
  end.
Definition next_node (node : string) (c : call) : string :=
  match c with CInit _ n => n | _ => node end.
Fixpoint events (node : string) (h : list call) : list event :=
  match h with
  | [] => []
  | c :: h => option_list (effect node c) ++ events (next_node node c) h
  end.

(** The calls on one series, and what they should leave in it: a counter counts
    them, a gauge holds the last. *)
Definition matching (x : variable) (ls : list string) (es : list event) : list op :=
  omap (λ e, if decide (e.1 = (x, ls)) then Some e.2 else None) es.
Definition expected (os : list op) : option Z :=
  match last os with
  | None => None
  | Some (Set_ z) => Some z
  | Some _ => Some (Z.of_nat (length os))
  end.

Definition is_counter (x : variable) : bool :=
  match x with
  | failoverEvents | circuitBreakerChanges | storageOperations | storageErrors
  | storageOperationTime => true
  | _ => false
  end.
(** An event that fits its vector: a set of a gauge, an increment of a counter. *)
Definition fits (e : event) : Prop :=
  let '(x, ls, o) := e in
  accepts (NewVec (desc_of x)) ls = true ∧
  match o with
  | Set_ z => is_counter x = false ∧ is_exact z
  | Inc | Observe _ => is_counter x = true
  | Dec => False
  end.

(** Labels in UTF-8, numbers that a float64 holds. *)
Definition ok_call (c : call) : Prop :=
  match c with
  | CInit _ n => valid_label n = true
  | CLeader _ => True
  | CHealth t a n _ | CActive t a n _ => forallb valid_label [t; a; n]
  | CFailover k a b r n => forallb valid_label [k; a; b; r; n]
  | CBreakerState k n z | CConnections k n z => forallb valid_label [k; n] ∧ is_exact z
  | CBreakerChange k a b n => forallb valid_label [k; a; b; n]
  | COperation o t n | CError o t n | CDuration o t n _ => forallb valid_label [o; t; n]
  end.

Lemma flag_exact b : is_exact (flag b).
Proof. unfold is_exact. destruct b; simpl; lia. Qed.

Lemma effect_fits node c e : valid_label "gateway" = true → valid_label node = true →
  ok_call c → effect node c = Some e → fits e.
Proof.
  intros Hg Hn Hc He. pose proof flag_exact.
  destruct c; simplify_eq/=; try destruct Hc as [Hc ?];
    rewrite accepts_new; simpl in *; rewrite ?Hg, ?Hn;
    (split; [|try split]; first [done|by apply Is_true_true|auto]).
Qed.

(** *** The initialised package *)

Definition ready (m : Metrics) : Prop :=
  metricsOnce m = true ∧
  ∀ x, ∃ vec, vars m x = Some vec ∧
    ∀ ls, accepts vec ls = accepts (NewVec (desc_of x)) ls.
Definition value (m : Metrics) (x : variable) (ls : list string) : option Z :=
  vec ← vars m x; sample vec ls.

Lemma make_vecs_spec xs : ∀ m r,
  registry m = Some r → Forall (λ x, valid_desc (desc_of x)) xs →
  NoDup ((λ x, d_name (desc_of x)) <$> xs) →
  (∀ x, x ∈ xs → d_name (desc_of x) ∉ registered r) →
  ∃ m' r', make_vecs xs m = (Done tt, m') ∧ registry m' = Some r' ∧
    (∀ n, n ∈ registered r' ↔ n ∈ ((λ x, d_name (desc_of x)) <$> xs) ∨ n ∈ registered r) ∧
    metricsOnce m' = metricsOnce m ∧ globalNodeID m' = globalNodeID m ∧
    (∀ x, vars m' x = if decide (x ∈ xs) then Some (NewVec (desc_of x)) else vars m x).
Proof.
  induction xs as [|x xs IH]; intros m r Hr Hv Hd Hf.
  { exists m, r. split; [done|]. split; [done|]. split; [|done].
    intros n. rewrite elem_of_nil. naive_solver. }
  apply Forall_cons in Hv as [Hvx Hv]. rewrite fmap_cons in Hd. apply NoDup_cons in Hd as [Hx Hd].
  set (m1 := set_var x (NewVec (desc_of x)) m).
  assert (registry m1 = Some r) as Hr1 by (by destruct m).
  destruct (MustRegister_ok [desc_of x] r) as (r1&E1&H1).
  { by constructor. } { apply NoDup_singleton. }
  { intros d Hd'%list_elem_of_singleton. subst d. apply Hf. left. }
  assert (make_vec x m = (Done tt, set_registry r1 m1)) as E.
  { unfold make_vec, must_register. rewrite bind_modify, bind_get. fold m1. by rewrite Hr1, E1. }
  destruct (IH (set_registry r1 m1) r1) as (m'&r'&E'&Hr'&Hn'&Ho&Hg&Hvars).
  { by destruct m. } { done. } { done. }
  { intros y Hy Hin%H1. simpl in Hin. rewrite list_elem_of_singleton in Hin.
    destruct Hin as [Hin|Hin]; [|by eapply Hf; [right|]]. apply Hx. rewrite <-Hin.
    apply list_elem_of_fmap. by exists y. }
  exists m', r'. simpl. rewrite (bind_Done _ _ _ _ _ E). split; [done|]. split; [done|].
  split; [|split; [by destruct m|split; [by destruct m|]]].
  - intros n. rewrite Hn', H1. simpl. rewrite list_elem_of_singleton, elem_of_cons. naive_solver.
  - intros y. rewrite Hvars.
    assert (vars (set_registry r1 m1) y = if decide (x = y) then Some (NewVec (desc_of x)) else vars m y) as ->.
    { destruct m. simpl. unfold fn_insert. done. }
    repeat case_decide; subst; rewrite ?elem_of_cons in *; naive_solver.
Qed.

Definition metric_names : list string := (λ x, d_name (desc_of x)) <$> variables.

Lemma all_variables x : x ∈ variables.
Proof. apply (bool_decide_unpack _). by destruct x; vm_compute. Qed.

Lemma InitMetrics_first version nodeID :
  ∃ m r, InitMetrics version nodeID unset = (Done tt, m) ∧ ready m ∧ globalNodeID m = nodeID ∧
    registry m = Some r ∧ (∀ n, n ∈ registered r ↔ n ∈ metric_names) ∧
    ∀ x ls, value m x ls = None.
Proof.
  destruct (make_vecs_spec variables
    (set_registry NewRegistry (set_once (set_globals version nodeID unset))) NewRegistry)
    as (m&r&E&Hr&Hn&Ho&Hg&Hv).
  { done. } { repeat constructor. } { by_decide. }
  { intros x _. rewrite registered_new. apply not_elem_of_nil. }
  assert (∀ x, vars m x = Some (NewVec (desc_of x))) as Hv'.
  { intros x. rewrite Hv, decide_True; [done|apply all_variables]. }
  exists m, r. split; [|split; [split|split; [|split; [|split]]]].
  - unfold InitMetrics. rewrite bind_modify, bind_get. simpl. by rewrite !bind_modify.
  - by rewrite Ho.
  - intros x. rewrite Hv'. by eexists.
  - by rewrite Hg.
  - done.
  - intros n. rewrite Hn, registered_new, elem_of_nil. naive_solver.
  - intros x ls. unfold value. rewrite Hv'. apply sample_new.
Qed.

(** *** One call, and a history *)

Lemma with_labels_spec m x ls o :
  ready m → accepts (NewVec (desc_of x)) ls = true →
  is_exact (result_of o (default 0 (value m x ls))) →
  ∃ m', with_labels x ls o m = (Done tt, m') ∧ ready m' ∧ globalNodeID m' = globalNodeID m ∧
    registry m' = registry m ∧
    ∀ y ks, value m' y ks = if decide ((x, ls) = (y, ks))
                            then Some (result_of o (default 0 (value m x ls))) else value m y ks.
Proof.
  intros [Ho Hr] Ha Hx. destruct (Hr x) as (vec&Hv&Hacc).
  exists (set_var x (apply o ls vec) m). split.
  { unfold with_labels. rewrite bind_get, Hv, Hacc, Ha. done. }
  assert (∀ y, vars (set_var x (apply o ls vec) m) y
    = if decide (x = y) then Some (apply o ls vec) else vars m y) as E by (by destruct m).
  assert (value m x ls = sample vec ls) as Ev by (unfold value; by rewrite Hv).
  split; [split|split; [by destruct m|split; [by destruct m|]]].
  - by destruct m.
  - intros y. rewrite E. case_decide as Hy; [|apply Hr]. subst y. eexists. split; [done|].
    intros ks. by rewrite accepts_apply.
  - intros y ks. unfold value at 1. rewrite E. case_decide as Hy.
    + subst y. simpl. case_decide as Hk; simplify_eq.
      * rewrite sample_apply; by rewrite <-Ev.
      * rewrite sample_other by congruence. unfold value. by rewrite Hv.
    + rewrite decide_False by congruence. done.
Qed.

Lemma matching_app x ls es es' : matching x ls (es ++ es') = matching x ls es ++ matching x ls es'.
Proof. unfold matching. apply omap_app. Qed.

Lemma matching_one y ks x ls o :
  matching y ks [(x, ls, o)] = if decide ((x, ls) = (y, ks)) then [o] else [].
Proof. unfold matching. csimpl. by case_decide. Qed.

Lemma length_matching x ls es : (length (matching x ls es) <= length es)%nat.
Proof. apply length_omap_le. Qed.

(** The calls on a counter are increments, those on a gauge are sets. *)
Definition counts (o : op) : bool := match o with Inc | Observe _ => true | _ => false end.
Lemma matching_counts x ls es : Forall fits es →
  Forall (λ o, counts o = is_counter x ∧ o ≠ Dec) (matching x ls es).
Proof.
  induction 1 as [|[[y ks] o] es Hf _ IH]; [constructor|]. unfold matching. csimpl.
  case_decide as Hy; [|done]. constructor; [|done]. simplify_eq.
  destruct Hf as [_ Ho]. destruct o; simpl in *; naive_solver.
Qed.

Lemma expected_snoc x ls es o : Forall fits es → fits (x, ls, o) →
  Some (result_of o (default 0 (expected (matching x ls es)))) = expected (matching x ls es ++ [o]).
Proof.
  intros Hes [_ Ho]. pose proof (matching_counts x ls es Hes) as Hm.
  unfold expected at 2. rewrite last_snoc, length_app. simpl.
  assert (is_counter x = true → default 0 (expected (matching x ls es))
    = Z.of_nat (length (matching x ls es))) as Hc.
  { intros Hx. unfold expected. destruct (last (matching x ls es)) as [o'|] eqn:Hl; simpl.
    - apply last_Some_elem_of in Hl. rewrite Forall_forall in Hm. destruct (Hm _ Hl) as [Hb _].
      rewrite Hx in Hb. by destruct o'.
    - apply last_None in Hl. by rewrite Hl. }
  destruct o; simpl in *; try done; rewrite (Hc Ho); f_equal; lia.
Qed.

(** A call other than the initialisation, on a package whose series report the
    calls so far. *)
Definition reports (m : Metrics) (es : list event) : Prop :=
  ready m ∧ ∀ x ls, value m x ls = expected (matching x ls es).

Lemma expected_exact x ls o es : Forall fits es → fits (x, ls, o) →
  Z.of_nat (length es) < 2 ^ 53 →
  is_exact (result_of o (default 0 (expected (matching x ls es)))).
Proof.
  intros Hes He Hlen. pose proof (expected_snoc x ls es o Hes He) as Hs.
  assert (Some (result_of o (default 0 (expected (matching x ls es))))
    = match o with Set_ z => Some z
      | _ => Some (Z.of_nat (length (matching x ls es ++ [o]))) end) as E.
  { rewrite Hs. unfold expected. by rewrite last_snoc. }
  pose proof (length_matching x ls es).
  destruct He as [_ Ho]. destruct o; simplify_eq; [by destruct Ho| |done|];
    rewrite E, length_app; unfold is_exact; simpl; lia.
Qed.

Lemma do_call_reports m es c e :
  reports m es → Forall fits es → Z.of_nat (length es) < 2 ^ 53 →
  effect (globalNodeID m) c = Some e → fits e →
  ∃ m', do_call c m = (Done tt, m') ∧ reports m' (es ++ [e]) ∧
    globalNodeID m' = globalNodeID m ∧ registry m' = registry m.
Proof.
  intros [Hr Hv] Hes Hlen He Hf. destruct e as [[x ls] o].
  assert (do_call c m = with_labels x ls o m) as ->.
  { destruct c; simplify_eq/=; try done; apply bind_get. }
  destruct (with_labels_spec m x ls o Hr (proj1 Hf)) as (m'&E&Hr'&Hg&Hreg&Hv').
  { rewrite Hv. by apply expected_exact. }
  exists m'. split; [done|]. split; [|done]. split; [done|].
  intros y ks. rewrite Hv', matching_app, matching_one, Hv.
  case_decide as Hy; simplify_eq.
  - by apply expected_snoc.
  - by rewrite app_nil_r, Hv.
Qed.

(** The initialisation after the first: only the names change. *)
Lemma InitMetrics_again m es version nodeID : reports m es →
  ∃ m', InitMetrics version nodeID m = (Done tt, m') ∧ reports m' es ∧
    globalNodeID m' = nodeID ∧ registry m' = registry m.
Proof.
  intros [[Ho Hr] Hv]. exists (set_globals version nodeID m). split; [|split; [split; [split|]|]].
  - unfold InitMetrics. rewrite bind_modify, bind_get. destruct m. simpl in *. by rewrite Ho.
  - by destruct m.
  - by destruct m.
  - by destruct m.
  - by destruct m.
Qed.

Lemma do_calls_reports h : ∀ m es,
  reports m es → Forall fits es → Z.of_nat (length es) + Z.of_nat (length h) <= 2 ^ 53 →
  valid_label "gateway" = true → valid_label (globalNodeID m) = true → Forall ok_call h →
  ∃ m', do_calls h m = (Done tt, m') ∧ reports m' (es ++ events (globalNodeID m) h) ∧
    registry m' = registry m.
Proof.
  induction h as [|c h IH]; intros m es Hr Hes Hlen Hg Hn Hh; simpl in *.
  { exists m. by rewrite app_nil_r. }
  apply Forall_cons in Hh as [Hc Hh].
  destruct (effect (globalNodeID m) c) as [e|] eqn:He; simpl.
  - pose proof (effect_fits _ _ _ Hg Hn Hc He) as Hf.
    destruct (do_call_reports m es c e) as (m1&E&Hr1&Hn1&Hreg1); try done; [lia|].
    destruct (IH m1 (es ++ [e])) as (m'&E'&Hr'&Hreg'); try done.
    { apply Forall_app. by split; [|constructor]. }
    { rewrite length_app. simpl. lia. } { by rewrite Hn1. }
    exists m'. rewrite (bind_Done _ _ _ _ _ E), Hreg', Hreg1. split; [done|]. split; [|done].
    replace (next_node (globalNodeID m) c) with (globalNodeID m) by (by destruct c).
    rewrite <-Hn1. by rewrite <-(assoc_L (++)) in Hr'.
  - destruct c as [version n| | | | | | | | | |]; try done. simpl.
    destruct (InitMetrics_again m es version n Hr) as (m1&E&Hr1&Hn1&Hreg1).
    destruct (IH m1 es) as (m'&E'&Hr'&Hreg'); try done; [lia|by rewrite Hn1|].
    exists m'. rewrite (bind_Done _ _ _ _ _ E), Hreg', Hreg1. rewrite Hn1 in Hr'. by split_and!.
Qed.

(** C35. What is exported is the history of the calls. Once InitMetrics has been
    called, no call of the package panics, whatever the calls and however often
    it is called again (their labels being UTF-8, their numbers integers that a
    float64 holds): the ten metrics are registered, once each; a counter and the
    count of a histogram are the number of the calls with these labels, a gauge
    is what the last call with these labels set, and the leader's gauge is that
    of the node named by the last initialisation. Before it every call panics. *)
Theorem metrics_report_history (version nodeID : string) (h : list call)
    (Hgateway : valid_label "gateway" = true) (Hnode : valid_label nodeID = true)
    (Hok : Forall ok_call h) (Hlen : Z.of_nat (length h) <= 2 ^ 53) :
  (∃ m r, do_calls (CInit version nodeID :: h) unset = (Done tt, m) ∧
     registry m = Some r ∧ (∀ n, n ∈ registered r ↔ n ∈ metric_names) ∧
     ∀ x ls, value m x ls = expected (matching x ls (events nodeID h))) ∧
  ∀ c, is_Some (effect "" c) → do_call c unset = (Panic NilDereference, unset).
Proof.
  split; [|intros c [e He]; by destruct c].
  destruct (InitMetrics_first version nodeID) as (m&r&E&Hr&Hn&Hreg&Hnames&Hv).
  assert (reports m []) as Hm by (split; [done|]; intros x ls; by rewrite Hv).
  rewrite <-Hn in Hnode.
  destruct (do_calls_reports h m [] Hm (List.Forall_nil _) Hlen Hgateway Hnode Hok)
    as (m'&E'&[_ Hv']&Hreg').
  exists m', r. simpl do_calls. rewrite (bind_Done _ _ _ _ _ E), Hreg'.
  split; [done|]. split; [done|]. split; [done|]. intros x ls. by rewrite Hv', Hn.
Qed.

(** *** The metrics server of package common *)

Lemma register_all_ok dss : ∀ r,
  Forall (Forall valid_desc) dss → NoDup (d_name <$> concat dss) →
  (∀ d, d ∈ concat dss → d_name d ∉ registered r) →
  ∃ r', register_all dss r = Done r' ∧
    ∀ n, n ∈ registered r' ↔ n ∈ (d_name <$> concat dss) ∨ n ∈ registered r.
Proof.
  induction dss as [|ds dss IH]; intros r Hv Hd Hf; simpl in *.
  { exists r. split; [done|]. intros n. rewrite elem_of_nil. naive_solver. }
  apply Forall_cons in Hv as [Hvd Hv]. rewrite fmap_app in Hd.
  apply NoDup_app in Hd as (Hd1&Hd12&Hd).
  destruct (MustRegister_ok ds r) as (r1&->&H1); [done|done| |].
  { intros d Hin. apply Hf. apply elem_of_app. by left. }
  destruct (IH r1) as (r'&->&H'); [done|done| |].
  { intros d Hin [Hn|Hn]%H1.
    - apply (Hd12 _ Hn). by apply list_elem_of_fmap_2.
    - eapply Hf, Hn. apply elem_of_app. by right. }
  exists r'. split; [done|]. intros n. rewrite H', H1, fmap_app, elem_of_app. naive_solver.
Qed.

Lemma prefix_clash (n : string) :
  String.prefix "go_" n → String.prefix "process_" n → False.
Proof.
  destruct n as [|a n]; [done|]. cbn [String.prefix].
  destruct (Ascii.ascii_dec _ a) as [<-|_]; [|done]. intros _ Hp. exact Hp.
Qed.

(** The six metrics and the two collectors have different names: none is
    refused. *)
Lemma NewMetricsServer_ok addr : ∃ m, NewMetricsServer addr true = Done (Ok m) ∧
  collectors m = [] ∧ ∀ x, fields m x = NewVec (server_desc x).
Proof.
  destruct GoCollector_names as (Hg1&Hg2&Hg3), ProcessCollector_names as (Hp1&Hp2&Hp3).
  unfold NewMetricsServer. simpl negb. cbn match.
  destruct (register_all_ok (((λ x, [server_desc x]) <$> [callsActive; callsTotal; callDuration;
    errors; rtpSessions; sipTransactions]) ++ [GoCollector; ProcessCollector]) NewRegistry)
    as (r&->&_).
  - apply Forall_app. split; [repeat constructor|]. by repeat constructor.
  - rewrite Forall_forall in Hg3, Hp3.
    change (NoDup (d_name <$> (server_desc <$> [callsActive; callsTotal; callDuration; errors;
      rtpSessions; sipTransactions]) ++ GoCollector ++ ProcessCollector ++ [])).
    rewrite app_nil_r, !fmap_app.
    assert (∀ n, n ∈ d_name <$> GoCollector → String.prefix "go_" n) as Hg.
    { intros n (d&->&Hd)%list_elem_of_fmap. by apply Hg3. }
    assert (∀ n, n ∈ d_name <$> ProcessCollector → String.prefix "process_" n) as Hp.
    { intros n (d&->&Hd)%list_elem_of_fmap. by apply Hp3. }
    apply NoDup_app. split; [by_decide|]. split.
    + intros n Hn [Hin|Hin]%elem_of_app; [apply Hg in Hin|apply Hp in Hin];
        revert Hin; apply list_elem_of_fmap in Hn as (d&->&(x&->&_)%list_elem_of_fmap); by destruct x.
    + apply NoDup_app. split; [done|]. split; [|done].
      intros n Hn Hn'. exact (prefix_clash n (Hg n Hn) (Hp n Hn')).
  - intros d _. rewrite registered_new. apply not_elem_of_nil.
  - by eexists.
Qed.

(** A collector whose name is taken panics, and is not kept. *)
Lemma RegisterCollector_duplicate m ds d :
  d ∈ ds → d_name d ∈ registered (ms_registry m) →
  RegisterCollector ds m = (Panic LibraryPanic, m).
Proof.
  intros Hd Hn. unfold RegisterCollector. by rewrite bind_get, (MustRegister_duplicate ds _ d).
Qed.

(** The gauge of active calls counts the calls that began and did not end; it
    goes below zero when more end than began. *)
Fixpoint calls (h : list bool) : GoM MetricsServer unit :=
  match h with
  | [] => mret tt
  | b :: h => (if b then IncrementCallsActive else DecrementCallsActive);; calls h
  end.
Definition balance (h : list bool) : Z := foldr (λ (b : bool) n, (if b then 1 else -1) + n) 0 h.

Lemma balance_bound h : Z.abs (balance h) <= Z.of_nat (length h).
Proof. induction h as [|[] h IH]; simpl in *; lia. Qed.

Lemma calls_active h : ∀ m,
  Z.abs (default 0 (sample (fields m callsActive) [])) + Z.of_nat (length h) <= 2 ^ 53 →
  ∃ m', calls h m = (Done tt, m') ∧
    default 0 (sample (fields m' callsActive) [])
    = default 0 (sample (fields m callsActive) []) + balance h.
Proof.
  induction h as [|b h IH]; intros m Hm; [exists m; split; [done|]; simpl; lia|].
  cbn [calls length balance foldr] in *. fold (balance h).
  set (o := if b then Inc else Dec).
  set (m1 := mkServer (ms_registry m) (ms_addr m) (collectors m)
    (<[callsActive := apply o [] (fields m callsActive)]> (fields m))).
  assert ((if b then IncrementCallsActive else DecrementCallsActive) m = (Done tt, m1)) as E
    by (by destruct b).
  set (z := default 0 (sample (fields m callsActive) [])) in *.
  assert (sample (fields m1 callsActive) [] = Some (z + (if b then 1 else -1))) as Ev.
  { simpl. rewrite fn_lookup_insert.
    assert (result_of o z = z + (if b then 1 else -1)) as <- by (destruct b; simpl; lia).
    apply sample_apply. fold z. unfold is_exact. destruct b; simpl; lia. }
  destruct (IH m1) as (m'&E'&Hv'). { rewrite Ev. simpl. destruct b; lia. }
  exists m'. rewrite (bind_Done _ _ _ _ _ E). split; [done|]. rewrite Hv', Ev. simpl. lia.
Qed.
End Facts.

(** ** Instances *)

(** Prometheus by maps of samples. *)
#[export] Instance map_prometheus : Prometheus := {|
  Registry := list string; NewRegistry := [];
  MustRegister := λ ds r,
    if bool_decide (Forall valid_desc ds ∧ NoDup (d_name <$> ds) ∧ Forall (λ d, d_name d ∉ r) ds)
    then Some ((d_name <$> ds) ++ r) else None;
  registered := λ r, r;
  GoCollector := [mkDesc "go_goroutines" []]; ProcessCollector := [mkDesc "process_cpu_seconds_total" []];
  Vec := nat * gmap (list string) Z; NewVec := λ d, (length (d_labels d), ∅);
  valid_label := λ _, true;
  accepts := λ v ls, bool_decide (length ls = v.1);
  apply := λ o ls v, (v.1, <[ls := result_of o (default 0 (v.2 !! ls))]> v.2);
  sample := λ v ls, v.2 !! ls |}.
#[export] Instance map_prometheus_laws : PrometheusLaws.
Proof.
  split; simpl; try done.
  - intros ds r Hv Hd Hf. rewrite bool_decide_true by (split_and!; [done|done|by apply Forall_forall]).
    eexists. split; [done|]. intros n. by rewrite elem_of_app.
  - intros ds r d Hd Hr. rewrite bool_decide_false; [done|].
    intros (_&_&Hf). rewrite Forall_forall in Hf. by apply (Hf d Hd).
  - split_and!; [by repeat constructor|apply NoDup_singleton|by repeat constructor].
  - split_and!; [by repeat constructor|apply NoDup_singleton|by repeat constructor].
  - intros d ls. assert (forallb (λ _ : string, true) ls = true) as -> by (by induction ls). by rewrite andb_true_r.
  - intros o ls v _. by rewrite lookup_insert_eq.
  - intros o ls v ls' Hls. by rewrite lookup_insert_ne.
Qed.

Definition sample_calls : list call :=
  [CLeader true; CFailover "ami" "a" "b" "ping" "n1"; CInit "2" "n2"; CLeader true; CLeader false;
   CFailover "ami" "a" "b" "ping" "n1"].

(** Two failovers of the same kind, and a leader that was renamed. *)
Lemma metrics_report_history_witness :
  ∃ m, do_calls (CInit "1" "n1" :: sample_calls) unset = (Done tt, m) ∧
    value m failoverEvents ["ami"; "a"; "b"; "ping"; "n1"] = Some 2 ∧
    value m leaderStatus ["gateway"; "n1"] = Some 1 ∧
    value m leaderStatus ["gateway"; "n2"] = Some 0 ∧
    value m leaderStatus ["gateway"; "n3"] = None.
Proof.
  destruct (metrics_report_history "1" "n1" sample_calls) as [(m&r&E&_&_&Hv) _];
    [done|done|by repeat constructor|by vm_compute|].
  exists m. split; [exact E|].
  rewrite !Hv. by split_and!; vm_compute.
Defined.
