(* ===== verification/Logging.v ===== *)
(** * log/logging.go, and the logger of main

    The structured events of package log over the interface of zap, and the
    outputs that [setupLogger] of cmd/gateway/main.go makes from the
    configuration, with the paths of the standard library. zap and lumberjack
    are third-party code: a class of what a logger writes, and a value for each
    output that is made. *)

From Stdlib Require Import Ascii.
From S2P Require Import Prelude Config.

(** ** zap *)

Inductive fvalue : Type := FString (s : string) | FBool (b : bool) | FInt (z : Z) | FDuration (d : Duration).
Abbreviation Field := (string * fvalue)%type (only parsing).
Record Entry : Type := mkEntry { e_level : Z; e_message : string; e_fields : list (string * fvalue) }.

(** The levels of zapcore; between the errors and the fatal ones are two that
    package log does not name. *)
Definition DebugLevel : Z := -1.
Definition InfoLevel : Z := 0.
Definition WarnLevel : Z := 1.
Definition ErrorLevel : Z := 2.
Definition DPanicLevel : Z := 3.
Definition PanicLevel : Z := 4.
Definition FatalLevel : Z := 5.

Class Zap : Type := {
  ZapLogger : Type;
  (* a development or production configuration at a level *)
  Build : bool → Z → option ZapLogger;
  ZapWith : list Field → ZapLogger → ZapLogger;
  (* the level from which a logger writes, and its own fields *)
  threshold : ZapLogger → Z;
  context : ZapLogger → list Field
}.
Class ZapLaws `{Zap} : Prop := {
  Build_level dev level l : Build dev level = Some l → threshold l = level ∧ context l = [];
  With_level fs l : threshold (ZapWith fs l) = threshold l;
  With_context fs l : context (ZapWith fs l) = context l ++ fs
}.

Section Logger.
Context `{Zap}.

(** What a call writes, and whether the program goes on: [Fatal] exits, written
    or not. *)
Definition logged : Type := (list Entry * bool)%type.
Definition write (level : Z) (msg : string) (fields : list Field) (l : ZapLogger) : logged :=
  (if threshold l <=? level then [mkEntry level msg (context l ++ fields)] else [],
   negb (level =? FatalLevel)).

(** ** package log *)

Record Logger : Type := mkLogger { zap : ZapLogger; nodeID : string; version : string }.
Record LoggerConfig : Type := mkLoggerConfig {
  Development : bool; Level : Z; lc_NodeID : string; lc_Version : string }.

Definition NewLogger (config : LoggerConfig) : result string Logger :=
  match Build (Development config) (Level config) with
  | Some z => Ok (mkLogger z (lc_NodeID config) (lc_Version config))
  | None => Err "zap"
  end.

Definition With (fields : list Field) (l : Logger) : Logger :=
  mkLogger (ZapWith fields (zap l)) (nodeID l) (version l).

Definition Log (level : Z) (msg : string) (fields : list Field) (l : Logger) : logged :=
  if level =? DebugLevel then write DebugLevel msg fields (zap l)
  else if level =? InfoLevel then write InfoLevel msg fields (zap l)
  else if level =? WarnLevel then write WarnLevel msg fields (zap l)
  else if level =? ErrorLevel then write ErrorLevel msg fields (zap l)
  else if level =? FatalLevel then write FatalLevel msg fields (zap l)
  else write InfoLevel msg fields (zap l).

Definition LogFailoverEvent (component fromBackend toBackend reason : string) (duration : Duration)
    (l : Logger) : logged :=
  write InfoLevel "Failover event"
    [("event_type", FString "failover"); ("component", FString component);
     ("from_backend", FString fromBackend); ("to_backend", FString toBackend);
     ("reason", FString reason); ("duration", FDuration duration);
     ("node_id", FString (nodeID l))] (zap l).

Definition LogLeadershipChange (isLeader : bool) (term : Z) (l : Logger) : logged :=
  write InfoLevel "Leadership change"
    [("event_type", FString "leadership_change"); ("is_leader", FBool isLeader);
     ("term", FInt term); ("node_id", FString (nodeID l))] (zap l).

Definition LogHealthChange (component backend : string) (isHealthy : bool) (failCount : Z)
    (l : Logger) : logged :=
  let level := if negb isHealthy then WarnLevel else InfoLevel in
  Log level "Health status changed"
    [("event_type", FString "health_changed"); ("component", FString component);
     ("backend", FString backend); ("is_healthy", FBool isHealthy);
     ("fail_count", FInt failCount); ("node_id", FString (nodeID l))] l.

Definition LogCircuitBreakerStateChange (component backend state reason : string) (l : Logger) : logged :=
  write InfoLevel "Circuit breaker state changed"
    [("event_type", FString "circuit_breaker_state"); ("component", FString component);
     ("backend", FString backend); ("state", FString state); ("reason", FString reason);
     ("node_id", FString (nodeID l))] (zap l).

Definition LogBackendConnection (component backend : string) (isConnected : bool) (reason : string)
    (l : Logger) : logged :=
  let eventType := if negb isConnected then "backend_disconnected" else "backend_connected" in
  write InfoLevel "Backend connection status changed"
    [("event_type", FString eventType); ("component", FString component);
     ("backend", FString backend); ("connected", FBool isConnected); ("reason", FString reason);
     ("node_id", FString (nodeID l))] (zap l).
End Logger.

(** ** path/filepath, for Unix *)

Definition slash : ascii := "/"%char.
(** [strings.Split(path, "/")]. *)
Fixpoint components (l : list ascii) : list (list ascii) :=
  match l with
  | [] => [[]]
  | a :: l => if decide (a = slash) then [] :: components l
              else match components l with [] => [[a]] | c :: cs => (a :: c) :: cs end
  end.
Fixpoint join (cs : list (list ascii)) : list ascii :=
  match cs with [] => [] | [c] => c | c :: cs => c ++ slash :: join cs end.

Definition dot : list ascii := ["."%char].
Definition dots : list ascii := ["."%char; "."%char].
(** One component after those that are kept, the last of them first. *)
Definition clean_step (rooted : bool) (kept : list (list ascii)) (c : list ascii) : list (list ascii) :=
  if decide (c = [] ∨ c = dot) then kept
  else if decide (c = dots) then
    match kept with
    | [] => if rooted then [] else [dots]
    | k :: rest => if decide (k = dots) then dots :: kept else rest
    end
  else c :: kept.
Definition rooted (l : list ascii) : bool := bool_decide (head l = Some slash).
Definition kept_components (l : list ascii) : list (list ascii) :=
  rev (foldl (clean_step (rooted l)) [] (components l)).
Definition clean (l : list ascii) : list ascii :=
  if rooted l then slash :: join (kept_components l)
  else match kept_components l with [] => dot | cs => join cs end.
Definition Clean (path : string) : string :=
  String.string_of_list_ascii (clean (String.list_ascii_of_string path)).
Definition IsAbs (path : string) : bool := rooted (String.list_ascii_of_string path).
(** [filepath.Join(dir, name)]: empty elements at the front are left out. *)
Definition Join (dir name : string) : string :=
  if decide (dir = "") then (if decide (name = "") then "" else Clean name)
  else Clean (dir +:+ "/" +:+ name).

(** ** setupLogger *)

Definition getZapLevel (level : string) : Z :=
  if decide (level = "debug") then DebugLevel
  else if decide (level = "info") then InfoLevel
  else if decide (level = "warn") then WarnLevel
  else if decide (level = "error") then ErrorLevel
  else InfoLevel.

(** The switch at the beginning of [setupLogger]. *)
Definition setup_level (level : string) : Z :=
  if decide (level = "debug") then DebugLevel
  else if decide (level = "info") then InfoLevel
  else if decide (level = "warn") then WarnLevel
  else if decide (level = "error") then ErrorLevel
  else InfoLevel.

(** A file of lumberjack: its path, size, number, age, and compression. *)
Inductive sink : Type :=
| Stdout | Stderr | LogFileSink (path : string) (size backups age : Z) (compress : bool).
Record core : Type := mkCore { co_json : bool; co_sink : sink; co_level : Z; co_color : bool }.

Definition default_name (timestamp : string) (logConfig : LogConfig) : string :=
  if IncludeDateTime logConfig then "voiceproxy_" +:+ timestamp +:+ ".log" else "voiceproxy.log".
Definition log_path (timestamp : string) (logConfig : LogConfig) : string :=
  if decide (LogFile logConfig = "") then Join (Directory logConfig) (default_name timestamp logConfig)
  else if IsAbs (LogFile logConfig) then LogFile logConfig
  else Join (Directory logConfig) (LogFile logConfig).

(** The directory that is to exist, the cores, and the first path that is told
    the user; the error of making the directory is told and dropped. *)
Definition setupLogger (timestamp : string) (level : string) (logConfig : LogConfig)
    : list core * option string :=
  let logLevel := setup_level level in
  let color := UseConsole logConfig in
  let console := if UseConsole logConfig
                 then mkCore false Stdout logLevel color ::
                      (if UseJSON logConfig then [mkCore true Stderr logLevel color] else [])
                 else [] in
  if negb (bool_decide (LogFile logConfig = "")) || negb (bool_decide (Directory logConfig = "")) then
    let path := log_path timestamp logConfig in
    (console ++ [mkCore (UseJSON logConfig)
       (LogFileSink path (MaxSize logConfig) (MaxBackups logConfig) (MaxAge logConfig)
          (Compress logConfig)) logLevel color], Some (Directory logConfig))
  else (console, None).

(** [zapcore.NewTee]: each core takes what its level lets through. *)
Definition outputs (cores : list core) (level : Z) : list sink :=
  co_sink <$> filter (λ c, co_level c <= level) cores.

(** ** Facts *)

(** *** Events *)

Section Events.
Context `{Zap} {laws : ZapLaws}.

Inductive event : Type :=
| Failover (component fromBackend toBackend reason : string) (duration : Duration)
| LeadershipChange (isLeader : bool) (term : Z)
| HealthChange (component backend : string) (isHealthy : bool) (failCount : Z)
| BreakerChange (component backend state reason : string)
| BackendConnection (component backend : string) (isConnected : bool) (reason : string).

Definition log_event (e : event) : Logger → logged :=
  match e with
  | Failover c f t r d => LogFailoverEvent c f t r d
  | LeadershipChange b z => LogLeadershipChange b z
  | HealthChange c b h n => LogHealthChange c b h n
  | BreakerChange c b s r => LogCircuitBreakerStateChange c b s r
  | BackendConnection c b up r => LogBackendConnection c b up r
  end.

Definition event_level (e : event) : Z :=
  match e with HealthChange _ _ false _ => WarnLevel | _ => InfoLevel end.
Definition event_type (e : event) : string :=
  match e with
  | Failover _ _ _ _ _ => "failover"
  | LeadershipChange _ _ => "leadership_change"
  | HealthChange _ _ _ _ => "health_changed"
  | BreakerChange _ _ _ _ => "circuit_breaker_state"
  | BackendConnection _ _ true _ => "backend_connected"
  | BackendConnection _ _ false _ => "backend_disconnected"
  end.

Definition event_message (e : event) : string :=
  match e with
  | Failover _ _ _ _ _ => "Failover event"
  | LeadershipChange _ _ => "Leadership change"
  | HealthChange _ _ _ _ => "Health status changed"
  | BreakerChange _ _ _ _ => "Circuit breaker state changed"
  | BackendConnection _ _ _ _ => "Backend connection status changed"
  end.
Definition event_fields (e : event) : list Field :=
  match e with
  | Failover c f t r d =>
      [("component", FString c); ("from_backend", FString f); ("to_backend", FString t);
       ("reason", FString r); ("duration", FDuration d)]
  | LeadershipChange b z => [("is_leader", FBool b); ("term", FInt z)]
  | HealthChange c b h n =>
      [("component", FString c); ("backend", FString b); ("is_healthy", FBool h); ("fail_count", FInt n)]
  | BreakerChange c b s r =>
      [("component", FString c); ("backend", FString b); ("state", FString s); ("reason", FString r)]
  | BackendConnection c b up r =>
      [("component", FString c); ("backend", FString b); ("connected", FBool up); ("reason", FString r)]
  end.

(** A logger and the fields that [With] has added, one call after the other. *)
Definition with_all (fss : list (list Field)) (l : Logger) : Logger := foldl (λ l fs, With fs l) l fss.

Lemma with_all_spec fss l :
  threshold (zap (with_all fss l)) = threshold (zap l) ∧
  context (zap (with_all fss l)) = context (zap l) ++ concat fss ∧
  nodeID (with_all fss l) = nodeID l ∧ version (with_all fss l) = version l.
Proof.
  revert l. induction fss as [|fs fss IH]; intros l; simpl; [by rewrite app_nil_r|].
  destruct (IH (With fs l)) as (->&->&->&->). unfold With. simpl.
  by rewrite With_level, With_context, (assoc_L (++)).
Qed.

Lemma log_event_entry e l :
  log_event e l = write (event_level e) (event_message e)
    (("event_type", FString (event_type e)) :: event_fields e ++ [("node_id", FString (nodeID l))])
    (zap l).
Proof. by destruct e as [c f t r d|b z|c b [] n|c b s r|c b [] r]. Qed.

(** Every event of package log becomes one entry, or none when its level is
    below the configured one, and the program goes on: the entry carries the
    fields of the loggers it went through in their order, then its type first
    and the configured name of the node last, so that events of different types
    are told apart. *)
Theorem events_carry_node (config : LoggerConfig) (l : Logger) (fss : list (list Field)) (e : event)
    (Hl : NewLogger config = Ok l) :
  log_event e (with_all fss l) =
  (if Level config <=? event_level e
   then [mkEntry (event_level e) (event_message e)
           (concat fss ++ ("event_type", FString (event_type e)) :: event_fields e
                       ++ [("node_id", FString (lc_NodeID config))])]
   else [], true).
Proof.
  unfold NewLogger in Hl. destruct (Build _ _) as [z|] eqn:Hz; [|done]. simplify_eq.
  destruct (Build_level _ _ _ Hz) as [Ht Hc].
  destruct (with_all_spec fss (mkLogger z (lc_NodeID config) (lc_Version config))) as (Et&Ec&En&_).
  rewrite log_event_entry. unfold write. rewrite Et, Ec, En. simpl. rewrite Ht, Hc. f_equal.
  by destruct e as [| |? ? [] ?| |].
Qed.

(** Every other level is written as information, those above the errors too. *)
Lemma panic_levels_are_information msg fields l level :
  level ∉ [DebugLevel; InfoLevel; WarnLevel; ErrorLevel; FatalLevel] →
  Log level msg fields l = Log InfoLevel msg fields l.
Proof.
  intros Hl. rewrite !not_elem_of_cons in Hl. destruct Hl as (?&?&?&?&?&_).
  unfold Log at 1. by rewrite !(proj2 (Z.eqb_neq _ _)) by done.
Qed.
End Events.

(** *** Outputs *)

Lemma setup_level_zap level : setup_level level = getZapLevel level.
Proof. done. Qed.

Lemma components_app l k :
  components (l ++ slash :: k) = components l ++ components k.
Proof.
  induction l as [|a l IH]; simpl; [done|]. case_decide; [by rewrite IH|].
  rewrite IH. destruct (components l) eqn:E; [|done].
  exfalso. clear -E. destruct l as [|b l]; [done|]. simpl in E. case_decide; [done|].
  by destruct (components l).
Qed.

(** A name that is one component of its own. *)
Definition plain (l : list ascii) : bool :=
  negb (existsb (λ a, bool_decide (a = slash)) l) &&
  negb (bool_decide (l = [])) && negb (bool_decide (l = dot)) && negb (bool_decide (l = dots)).

Lemma components_plain l : existsb (λ a, bool_decide (a = slash)) l = false → components l = [l].
Proof.
  induction l as [|a l IH]; simpl; [done|]. intros [Ha Hl]%orb_false_iff.
  apply bool_decide_eq_false in Ha. rewrite decide_False by done. by rewrite IH.
Qed.

Lemma join_snoc cs c : cs ≠ [] → join (cs ++ [c]) = join cs ++ slash :: c.
Proof.
  induction cs as [|d [|e cs] IH]; intros Hcs; [done|done|].
  change (d ++ slash :: join ((e :: cs) ++ [c]) = (d ++ slash :: join (e :: cs)) ++ slash :: c).
  rewrite IH by done. by rewrite <-!(assoc_L (++)).
Qed.

(** A path below a directory, whose own path has been cleaned. *)
Definition below (dir name : list ascii) : list ascii :=
  if decide (dir = dot) then name
  else if decide (dir = [slash]) then slash :: name else dir ++ slash :: name.

Lemma of_list_app a b :
  String.string_of_list_ascii (a ++ b) = String.string_of_list_ascii a +:+ String.string_of_list_ascii b.
Proof. induction a as [|x a IH]; simpl; [done|]. by rewrite IH. Qed.

(** Cleaning: a plain component is kept at the end. *)
Lemma kept_plain r l name kept : plain name = true →
  foldl (clean_step r) kept (components (l ++ slash :: name))
  = name :: foldl (clean_step r) kept (components l).
Proof.
  unfold plain. intros (((Hs&Hn)%andb_true_iff&Hd)%andb_true_iff&Hdd)%andb_true_iff.
  apply negb_true_iff in Hs, Hn, Hd, Hdd. apply bool_decide_eq_false in Hn, Hd, Hdd.
  rewrite components_app, (components_plain name Hs), foldl_app. simpl.
  unfold clean_step at 1. rewrite decide_False by naive_solver. by rewrite decide_False.
Qed.

(** A kept component is not empty, is no dot, and has no slash. *)
Definition proper (c : list ascii) : bool :=
  negb (bool_decide (c = [])) && negb (bool_decide (c = dot)) &&
  negb (existsb (λ a, bool_decide (a = slash)) c).
Lemma components_no_slash l :
  Forall (λ c, existsb (λ a, bool_decide (a = slash)) c = false) (components l).
Proof.
  induction l as [|a l IH]; simpl; [by repeat constructor|]. case_decide as Ha; [by constructor|].
  destruct (components l) as [|c cs]; [constructor; [|constructor]|].
  - simpl. by rewrite bool_decide_false.
  - apply Forall_cons in IH as [Hc Hcs]. constructor; [|done]. simpl.
    by rewrite bool_decide_false, Hc.
Qed.
Lemma kept_proper r cs kept :
  Forall (λ c, existsb (λ a, bool_decide (a = slash)) c = false) cs →
  Forall proper kept → Forall proper (foldl (clean_step r) kept cs).
Proof.
  intros Hcs. revert kept. induction Hcs as [|c cs Hc _ IH]; intros kept Hk; simpl; [done|].
  apply IH. unfold clean_step. case_decide as Hd; [done|]. case_decide as Hdd.
  - destruct kept as [|k rest]; [destruct r; by repeat constructor|].
    case_decide; [by constructor|]. by apply Forall_cons in Hk as [_ ?].
  - constructor; [|done]. unfold proper. rewrite Hc, !bool_decide_false; naive_solver.
Qed.

Lemma join_proper cs : Forall proper cs → cs ≠ [] →
  join cs ≠ [] ∧ join cs ≠ dot ∧ join cs ≠ [slash].
Proof.
  intros Hp. destruct Hp as [|c cs Hc Hcs]; [done|intros _].
  unfold proper in Hc. apply Is_true_true in Hc.
  apply andb_true_iff in Hc as [Hc Hs]. apply andb_true_iff in Hc as [Hn Hd].
  apply negb_true_iff in Hn, Hd, Hs. apply bool_decide_eq_false in Hn, Hd.
  destruct c as [|a c]; [done|]. simpl in Hs. apply orb_false_iff in Hs as [Ha Hs].
  apply bool_decide_eq_false in Ha. destruct Hcs as [|c' cs' Hc' _]; simpl.
  - split_and!; [done|done|congruence].
  - split_and!; [done| |].
    + intros [= -> E]. by destruct c.
    + intros [= -> _]. done.
Qed.

Lemma clean_below l name : l ≠ [] → plain name = true →
  clean (l ++ slash :: name) = below (clean l) name.
Proof.
  intros Hl Hname. unfold clean, kept_components.
  assert (rooted (l ++ slash :: name) = rooted l) as -> by (by destruct l).
  rewrite (kept_plain _ _ _ _ Hname). simpl.
  pose proof (kept_proper (rooted l) (components l) [] (components_no_slash l) (Forall_nil_2 _)) as Hk.
  set (kept := foldl (clean_step (rooted l)) [] (components l)) in *. clearbody kept.
  apply Forall_rev in Hk. destruct (decide (rev kept = [])) as [E|Hne].
  - rewrite E. simpl. unfold below. by destruct (rooted l).
  - destruct (join_proper (rev kept) Hk Hne) as (H1&H2&H3). rewrite join_snoc by done.
    unfold below. destruct (rooted l).
    + rewrite decide_False by (by intros [=]). rewrite decide_False by congruence. done.
    + destruct (rev kept) as [|c cs] eqn:E; [done|].
      rewrite decide_False by done. rewrite decide_False by done.
      exact (join_snoc (c :: cs) name Hne).
Qed.

(** A plain name is joined to the cleaned directory. *)
Lemma Join_plain dir name : dir ≠ "" → plain (String.list_ascii_of_string name) = true →
  Join dir name = String.string_of_list_ascii
    (below (clean (String.list_ascii_of_string dir)) (String.list_ascii_of_string name)).
Proof.
  intros Hd Hn. unfold Join. rewrite decide_False by done. unfold Clean.
  rewrite !list_of_string_app. simpl. rewrite clean_below; [done| |done]. by destruct dir.
Qed.

(** The defaults give every configuration a directory, and with it a file. *)
Lemma loaded_directory doc : Directory (Logging (set_defaults doc)) ≠ "".
Proof. apply (wf_directory _ (set_defaults_wf doc)). Qed.

Lemma plain_default timestamp lg :
  existsb (λ a, bool_decide (a = slash)) (String.list_ascii_of_string timestamp) = false →
  plain (String.list_ascii_of_string (default_name timestamp lg)) = true.
Proof.
  intros Ht. unfold default_name. destruct (IncludeDateTime lg); [|done].
  unfold plain. rewrite !list_of_string_app, !existsb_app, Ht. simpl.
  by rewrite ?bool_decide_false.
Qed.

(** Cores of one level take a message together or not at all. *)
Lemma outputs_level cores v level : Forall (λ c, co_level c = v) cores →
  outputs cores level = if v <=? level then co_sink <$> cores else [].
Proof.
  unfold outputs. induction 1 as [|c cores Hc _ IH]; [by case_match|].
  rewrite filter_cons. destruct (Z.leb_spec v level); [rewrite decide_True by lia|rewrite decide_False by lia];
    [|done]. rewrite !fmap_cons. by f_equal.
Qed.


(** ** Instances *)

(** Zap by its level and fields. *)
#[export] Instance plain_zap : Zap := {|
  ZapLogger := Z * list Field; Build := λ _ level, Some (level, []);
  ZapWith := λ fs l, (l.1, l.2 ++ fs); threshold := fst; context := snd |}.
#[export] Instance plain_zap_laws : ZapLaws.
Proof. split; [by intros ??? [= <-]|done|done]. Qed.

Lemma events_carry_node_witness :
  log_event (HealthChange "ami" "10.0.0.9" false 2)
    (with_all [[("request", FInt 7)]] (mkLogger (WarnLevel, []) "node-1" "dev")) =
  ([mkEntry WarnLevel "Health status changed"
      [("request", FInt 7); ("event_type", FString "health_changed"); ("component", FString "ami");
       ("backend", FString "10.0.0.9"); ("is_healthy", FBool false); ("fail_count", FInt 2);
       ("node_id", FString "node-1")]], true).
Proof.
  exact (events_carry_node (mkLoggerConfig false WarnLevel "node-1" "dev") _
    [[("request", FInt 7)]] (HealthChange "ami" "10.0.0.9" false 2) eq_refl).
Defined.

