(* ===== verification/Program.v ===== *)
(** * cmd/gateway/main.go: the program around its components

    What [main] does before it makes the components of Gateway.v - the loggers and
    the metrics - and what runs beside them: the goroutine that exports whether
    the instance leads, and the heartbeats of the election. Every program has a
    storage of its own, in memory; what that means for several of them is a
    theorem here. *)

From S2P Require Import Prelude KVStore Storage Persist Coordinator Config Gateway Metrics Logging.

Section Program.
Context `{JSON} `{Prometheus} `{Zap}.

(** ** Loggers and metrics *)

(** The logger of the program and the one for the events, which is made and then
    not used: [_ = stdLogger]. *)
Definition start_logging (timestamp nodeID version : string) (cfg : Config.Config)
    : result string (list core * Logger) :=
  let '(cores, _) := setupLogger timestamp (LogLevel cfg) (Logging cfg) in
  match NewLogger (mkLoggerConfig (tm_Enabled (TestingMode cfg)) (getZapLevel (LogLevel cfg))
                     nodeID version) with
  | Ok l => Ok (cores, l)
  | Err _ => Err "Failed to create standard logger"
  end.

(** The metrics are served at a fixed address, with the WebSocket server; the
    settings of the document are not read. *)
Definition metrics_addr (cfg : Config.Config) : option string :=
  if enabled cfg EnableWebSocket then Some ":8081" else None.

Record Program : Type := mkProgram {
  pr_gateway : Gateway; pr_metrics : Metrics; pr_cores : list core;
  pr_served : option (string * option Registry) }.

(** [main] up to its wait for a signal. *)
Definition program (ReadFile : string → result string string)
    (Unmarshal : string → result string Config.Config) (path timestamp : string) (env : Env)
    : outcome (result string Program) :=
  match LoadConfig ReadFile Unmarshal path with
  | Err e => mret (Err ("Failed to load configuration: " +:+ e))
  | Ok cfg =>
      match start_logging timestamp (NodeName cfg env) (en_version env) cfg with
      | Err e => mret (Err e)
      | Ok (cores, _) =>
          let '(r, m) := InitMetrics (en_version env) (NodeName cfg env) unset in
          r;;
          r ← startup cfg env;
          mret match r with
               | Err e => Err e
               | Ok g => Ok (mkProgram g m cores
                   ((λ addr, (addr, StartMetricsServer m)) <$> metrics_addr cfg))
               end
      end
  end.

(** ** Beside the components *)

(** The five-second tick that exports the leadership, and any other step of the
    coordinator: a heartbeat, the component loop, another instance. *)
Inductive pevent : Type :=
| PTick (now : Time)
| PCoordinator (f : World * Coordinator → World * Coordinator).
Definition PState : Type := ((World * Coordinator) * Metrics)%type.
Definition on_metrics {A} (m : GoM Metrics A) : GoM PState A :=
  λ s, let '(r, x) := m s.2 in (r, (s.1, x)).
Definition pstep (e : pevent) : GoM PState unit :=
  match e with
  | PTick now =>
      s ← get_state;
      on_metrics (SetLeaderStatus (IsLeader now None (s.1.2)))
  | PCoordinator f => modify (λ s, (f s.1, s.2))
  end.
Fixpoint prun (es : list pevent) : GoM PState unit :=
  match es with [] => mret tt | e :: es => pstep e;; prun es end.

(** What the coordinator is after the steps, and what it answered at the ticks. *)
Fixpoint coordinator_after (es : list pevent) (sc : World * Coordinator) : World * Coordinator :=
  match es with
  | [] => sc
  | PTick _ :: es => coordinator_after es sc
  | PCoordinator f :: es => coordinator_after es (f sc)
  end.
Fixpoint answers_at_ticks (es : list pevent) (sc : World * Coordinator) : list bool :=
  match es with
  | [] => []
  | PTick now :: es => IsLeader now None sc.2 :: answers_at_ticks es sc
  | PCoordinator f :: es => answers_at_ticks es (f sc)
  end.

(** ** Facts *)

Lemma prun_ticks es : ∀ sc m m',
  do_calls (CLeader <$> answers_at_ticks es sc) m = (Done tt, m') →
  prun es (sc, m) = (Done tt, (coordinator_after es sc, m')).
Proof.
  induction es as [|[now|f] es IH]; intros sc m m' Hm;
    cbn [prun pstep answers_at_ticks coordinator_after fmap list_fmap do_calls] in *.
  - by injection Hm as <-.
  - destruct (do_call (CLeader (IsLeader now None sc.2)) m) as [[[]| |] m1] eqn:E.
    2: { by rewrite (bind_Panic _ _ _ _ _ E) in Hm. }
    2: { by rewrite (bind_Deadlock _ _ _ _ E) in Hm. }
    rewrite (bind_Done _ _ _ _ _ E) in Hm. cbn [do_call] in E.
    erewrite (bind_Done _ _ _ tt (sc, m1)); [by apply IH|].
    rewrite bind_get. unfold on_metrics. cbn [fst snd]. by rewrite E.
  - rewrite bind_modify. simpl. by apply IH.
Qed.

Lemma length_ticks es sc : (length (answers_at_ticks es sc) <= length es)%nat.
Proof.
  revert sc. induction es as [|[now|f] es IH]; intros sc; simpl; [lia| |]; [specialize (IH sc)|specialize (IH (f sc))]; lia.
Qed.

(** The calls of the ticks are sets of one series. *)
Lemma leader_events node bs :
  matching leaderStatus ["gateway"; node] (events node (CLeader <$> bs)) = (λ b, Set_ (flag b)) <$> bs.
Proof.
  induction bs as [|b bs IH]; [done|]. rewrite !fmap_cons, <-IH. unfold matching. csimpl.
  by rewrite decide_True.
Qed.

Lemma expected_sets bs : expected ((λ b, Set_ (flag b)) <$> bs) = flag <$> last bs.
Proof. unfold expected. rewrite fmap_last. by destruct (last bs). Qed.

Context {prom_laws : PrometheusLaws}.

(** The exported leadership lags behind the coordinator. After the metrics
    have been initialised, and in any order of the five-second ticks and the
    steps of the election, nothing panics, the coordinator is not disturbed, and
    the gauge of this node is what the coordinator answered at the last tick -
    no value before the first one, and not what it would answer now. *)
Theorem leader_gauge_lags (version node : string) (es : list pevent) (sc : World * Coordinator)
    (Hg : valid_label "gateway" = true) (Hn : valid_label node = true)
    (Hlen : Z.of_nat (length es) <= 2 ^ 53) :
  ∃ m m', InitMetrics version node unset = (Done tt, m) ∧
    prun es (sc, m) = (Done tt, (coordinator_after es sc, m')) ∧
    value m' leaderStatus ["gateway"; node] = flag <$> last (answers_at_ticks es sc).
Proof.
  destruct (InitMetrics_first version node) as (m&r&E&Hr&Hnode&_&_&Hv). exists m.
  assert (reports m []) as Hm by (split; [done|]; intros x ls; by rewrite Hv).
  pose proof (length_ticks es sc).
  destruct (do_calls_reports (CLeader <$> answers_at_ticks es sc) m [] Hm (List.Forall_nil _))
    as (m'&E'&[_ Hv']&_).
  - rewrite length_fmap. change (0 + Z.of_nat (length (answers_at_ticks es sc)) <= 2 ^ 53). lia.
  - done.
  - by rewrite Hnode.
  - apply Forall_fmap. by apply Forall_true.
  - exists m'. split; [done|]. split; [by apply prun_ticks|].
    rewrite Hv', Hnode. simpl. by rewrite leader_events, expected_sets.
Qed.

(** The program runs exactly when its components do; its metrics are registered,
    its log goes to a file, and it serves its metrics only with the WebSocket
    server. *)
Lemma program_runs ReadFile Unmarshal path timestamp env cfg l :
  LoadConfig ReadFile Unmarshal path = Ok cfg →
  Build (tm_Enabled (TestingMode cfg)) (getZapLevel (LogLevel cfg)) = Some l →
  match startup cfg env with
  | Done (Ok g) => ∃ m r,
      program ReadFile Unmarshal path timestamp env =
        Done (Ok (mkProgram g m (setupLogger timestamp (LogLevel cfg) (Logging cfg)).1
          (if enabled cfg EnableWebSocket then Some (":8081", Some r) else None))) ∧
      registry m = Some r ∧ (∀ n, n ∈ registered r ↔ n ∈ metric_names) ∧
      globalNodeID m = NodeName cfg env
  | Done (Err e) => program ReadFile Unmarshal path timestamp env = Done (Err e)
  | Panic p => program ReadFile Unmarshal path timestamp env = Panic p
  | Deadlock => program ReadFile Unmarshal path timestamp env = Deadlock
  end.
Proof.
  intros Hc Hl. unfold program, start_logging, NewLogger. rewrite Hc. simpl.
  destruct (setupLogger _ _ _) as [cores made]. rewrite Hl.
  destruct (InitMetrics_first (en_version env) (NodeName cfg env)) as (m&r&E&_&Hnode&Hr&Hreg&_).
  rewrite E. cbn [mbind outcome_bind]. destruct (startup cfg env) as [[g|e]| |]; simpl; try done.
  exists m, r. split; [|done]. unfold metrics_addr, StartMetricsServer. rewrite Hr.
  by destruct (enabled cfg EnableWebSocket).
Qed.

(** ** Several programs *)

(** Heartbeats of a running program, on its own storage. *)
Definition beat (env : Env) (hs : list (Time * clocks)) (g : Gateway)
    : outcome unit * (World * Coordinator) :=
  heartbeats (en_decode env) hs (g_world g, g_coordinator g).

(** A node that can start, whose heartbeats keep its lease until [now]. *)
Record node_in_time (cfg : Config.Config) (now : Time) (n : Env * list (Time * clocks)) : Prop := {
  nt_fresh : fresh_node cfg n.1;
  nt_starts : startup_error cfg n.1 = None;
  nt_beats : in_time (lease cfg) (ck_7 (en_acquire n.1) + lease cfg)
               (ck_5 (en_acquire n.1) + lease cfg) n.2;
  nt_now : now < last_lease (lease cfg) (ck_7 (en_acquire n.1) + lease cfg) n.2 }.

(** C3. Every node leads. Programs that are started from one document, on any
    number of nodes whose heartbeats come in time, all lead at the same moment,
    for as long as their heartbeats go on: the record of the leader is in the
    storage of each program, which is in its own memory. *)
Theorem every_node_leads (ReadFile : string → result string string)
    (Unmarshal : string → result string Config.Config) (path data : string) (doc : Config.Config)
    (nodes : list (Env * list (Time * clocks))) (now : Time)
    (Hread : ReadFile path = Ok data) (Hdoc : Unmarshal data = Ok doc)
    (Hnodes : Forall (node_in_time (set_defaults doc) now) nodes) :
  Forall (λ n, ∃ g sc, main ReadFile Unmarshal path n.1 = Done (Ok g) ∧
    beat n.1 n.2 g = (Done tt, sc) ∧ IsLeader now None sc.2 = true) nodes.
Proof.
  eapply Forall_impl; [exact Hnodes|]. intros [env hs] [Hf Hs Hb Hn]. simpl in *.
  pose proof (startup_spec (set_defaults doc) env Hf) as Hstart. rewrite Hs in Hstart.
  destruct Hstart as (g&E&Hrun). destruct (rn_leader _ _ _ Hrun) as [_ Hlease].
  destruct (rn_record _ _ _ Hrun) as [Hown Hlt]. rewrite <-Hlease in Hb, Hn.
  pose proof (lease_pos (set_defaults doc)) as Hpos. rewrite <-Hlt in Hb, Hn, Hown, Hpos.
  destruct (heartbeats_keep_lead (en_decode env) hs _ _ _ Hown Hpos Hb) as (w&c&Eb&Hl&He).
  exists g, (w, c). split; [|split; [done|]].
  - unfold main, LoadConfig. by rewrite Hread, Hdoc.
  - unfold IsLeader. simpl. rewrite Hl, He. simpl. by apply Before_true.
Qed.
End Program.

(** ** Instances *)

(** The leader loses its lease between two ticks: the gauge says one. *)
Definition sample_ticks : list pevent := [PTick 1; PCoordinator (λ sc, (sc.1, set_isLeader false sc.2))].
Definition leading_node : Coordinator :=
  set_leaseExpiration 100 (set_isLeader true (sample_node 0)).

Lemma leader_gauge_lags_witness :
  ∃ m', (prun (H0 := map_prometheus) sample_ticks ((sample_world, leading_node), m')).1 = Done tt ∧
    IsLeader 2 None (coordinator_after sample_ticks (sample_world, leading_node)).2 = false ∧
    ∃ m, value (H := map_prometheus) m leaderStatus ["gateway"; "node-1"] = Some 1.
Proof.
  destruct (leader_gauge_lags (prom_laws := map_prometheus_laws) "dev" "node-1" sample_ticks
    (sample_world, leading_node)) as (m&m'&_&E&Hv); [done|done|by vm_compute|].
  exists m. split; [by rewrite E|]. split; [by vm_compute|]. exists m'. rewrite Hv. by vm_compute.
Defined.

(** Two nodes of one document; the first beats once, at six seconds. Both lead
    at seven. *)
Definition two_nodes : list (Env (H := plain_json) * list (Time * clocks)) :=
  [(sample_env true, [(6 * Second, at_instant (6 * Second))]);
   (sample_env true, [(5 * Second, at_instant (5 * Second))])].

Lemma two_nodes_in_time :
  Forall (node_in_time (H := plain_json) (set_defaults sample_document) (7 * Second + 10)) two_nodes.
Proof.
  repeat constructor; try (vm_compute; done); try (by right); vm_compute; try done; intros; discriminate.
Qed.

Lemma every_node_leads_witness :
  length two_nodes = 2%nat ∧
  Forall (λ n, ∃ g sc, main (H := plain_json) (λ _, Ok "document") (λ _, Ok sample_document) "config.yaml" n.1
      = Done (Ok g) ∧ beat (H := plain_json) n.1 n.2 g = (Done tt, sc) ∧
      IsLeader (7 * Second + 10) None sc.2 = true) two_nodes.
Proof.
  split; [done|].
  exact (every_node_leads (λ _, Ok "document") (λ _, Ok sample_document) "config.yaml" "document"
    sample_document two_nodes (7 * Second + 10) eq_refl eq_refl two_nodes_in_time).
Defined.
